(* ===== verification/_CoqProject ===== *)
-Q . S2P
Prelude.v
Float.v
Http.v
AdminGate.v
Lockout.v
Session.v
Metrics.v
Shared.v
Bolt.v
AuditLog.v
AdminHandler.v
Onion.v
NegCache.v
FeatureRegistry.v
HostRouter.v
Queue.v
Mirrors.v
HubRegistry.v
SSE.v
Selector.v
DoorServer.v
HubStream.v
Replication.v
TorPool.v
Health.v
Transport.v
GoStd.v
TtlBlock.v
StaticCache.v
RateLimit.v
Config.v
Abuse.v
Headers.v
CheckHost.v
Monitor.v
NetIP.v
Blocklist.v
GeoIP.v
Cloudflare.v
ProxyServer.v
Sanitize.v
Gateway.v
CA.v
Mux.v
HubAPI.v
AdminRouter.v
HubServer.v
PoolAPI.v
EdgeClients.v
Bufio.v
NodeTransport.v
Binaries.v
EdgeHub.v
Catalog.v
Tracing.v
EdgePool.v
Storage.v
StreamServe.v
CAFiles.v
ClientLife.v
Spawn.v
