(* ===== verification/Prelude.v ===== *)
(** * Verification of the Tor2Web gateway

    The gateway (src/internal, in Go) is a set of binaries: a hub that stores
    tenants and mirror health and streams changes; proxies that serve tenants
    by host through a pool of Tor processes; doors that redirect visitors to a
    live mirror; and an admin surface behind a secret URL on every node. This
    library models the packages that carry the gateway's own logic as
    executable functions and proves what makes them correct.

    ** Conventions

    Go strings and byte slices are lists of bytes ([gostring]); an int or
    int64 is a [Z] with its wrap-around written out ([wrap64], [wrapu64],
    [wrapu8]); a float64 is a [spec_float] of the Standard Library with the
    binary64 operations; time is a count of nanoseconds and Duration
    arithmetic saturates or wraps as in package time. Maps are stdpp's [gmap];
    iteration over a Go map is [map_to_list], and what depends on its order is
    either shown not to or sorted as the code does. A method that mutates its
    receiver takes and returns the state; an error is a value of a sum; a
    run-time panic is a value too. The clock, randomness, I/O outcomes, JSON
    and YAML codecs, digests (SHA-256, SHA3), certificates and process starts
    are inputs or parameters with the documented laws they need. A mutex
    section is one step; operations with several sections are tasks that can
    be interleaved (Mirrors, Replication).

    ** Files

    - Prelude: notations, tactics, machine integers, time, results, the parts
      of strings, crypto/subtle and unicode/utf8 that the code uses, and their
      lemmas. Float: float64 and its order. Http: requests, responses,
      status codes, host splitting.
    - AdminGate (admin/gate.go, proxy/path.go): the secret prefix, its
      constant-time match, the routing to the handler and log redaction.
    - Lockout (admin/lockout.go): failure windows, soft back-off, hard ban; the
      table refines the full failure history.
    - Session (admin/session.go, admin/csrf.go): the store, its padded scan,
      both lifetimes, cookies and the CSRF check.
    - Metrics (metrics/opsec.go): opaque labels and the salt permission check.
    - Shared (shared/types.go): records that cross packages. Bolt: an ordered
      bucket as a class with its laws and an instance.
    - AuditLog (admin/audit.go): day files and time index, over any bucket.
    - AdminHandler (admin/handler.go): the request pipeline over Lockout,
      Session, AuditLog and Metrics.
    - Onion (shared/onion.go): v3 addresses over base32.
    - NegCache (feature/negcache): failure counters and blacklist; refines one
      independent machine per tenant and onion.
    - FeatureRegistry (feature/registry.go, resolver.go, context.go):
      registration, two-phase reload, resolution, the middleware chain.
    - HostRouter (proxy/router.go): tenants by host, legacy mode, block
      actions, against a lookup interface.
    - Queue (hub/registry.go): the bounded drop-oldest queue of subscribers.
    - Mirrors (hub/mirrors.go, hub/storage.go): the mirror registry; every
      public mutation is a task of critical sections, and running a task alone
      gives the sequential operation.
    - HubRegistry (hub/registry.go, hub/storage.go, config/runtime.go,
      shared/events.go): tenants and globals on disk and in memory.
    - SSE (hub/stream.go, proxy/snapshot.go, door/snapshot.go): the wire format.
    - Selector (door/selection.go, config/door.go): eligibility and the three
      strategies. DoorServer (door/door.go, redirect.go, cover.go): dispatch
      to gate, redirect or cover.
    - HubStream (hub/stream.go, hub/nodes.go and the apply functions of
      door/snapshot.go and proxy/snapshot.go): node records, the per-node
      filter, and what the edges make of an event.
    - Replication: the composition of Mirrors, HubStream and Selector, over the
      calls of the mirror registry, edits of its directory and the reloads of
      its watcher.
    - TorPool (torpool/manager.go, balancer.go): scoring, scaling, replacement,
      start and shutdown. Health (torpool/health.go): probes, quarantine,
      replacement flags; refines one machine per port. Spawn: the start of a
      process as a race of its output, its death, timer and context.
    - Transport (proxy/transport.go): the round trip of the proxy over the
      pool and the negative cache, with the retry loop as a relation of runs.
    - GoStd: further parts of the standard library (durations, hex, sort.Slice
      as a class with its laws, multi-valued headers, number parsing, the
      response writer). NetIP: addresses and networks of package net.
    - TtlBlock (feature/ttlblock): the persistent block list over an ordered
      bucket, its salt, its parameters and its middleware; refines a plain map
      of deadlines.
    - StaticCache (feature/staticcache): cache keys, request and response
      rules, the recorder, single-flight and reload, over a cache class that
      may forget anything.
    - RateLimit (feature/ratelimit): buckets, connection cap, sweeps and
      reload over a token-bucket class; its module ConnCap has the connection
      cap as a step relation of atomic loads, swaps and sweeps.
    - Config (config/config.go): sections, defaults, validation, and what they
      guarantee to Lockout and TorPool.
    - Abuse (feature/abuse): the report endpoint, its limiter, parameters and
      append-only log. Headers (feature/headers): value templates, compiled
      rules, the request pass and the response wrapper over net/http's writer.
    - CheckHost (checkhost/client.go): start, poll and interpretation of the
      results, over a JSON decoder. Monitor (hub/mirrors_monitor.go): settings
      and the probe cycle, over Mirrors and any client.
    - Blocklist (feature/blocklist): rules, compilation, matching and block
      responses over any regular expressions. GeoIP (feature/geoip): country
      rules, reference-counted readers and lookups over any database.
      Sanitize (feature/sanitize): policies, the token filter as a refinement
      of a relation on token sequences, the recorder and the replay.
    - Cloudflare (proxy/cloudflare.go): range lists, refresh and the check of
      the peer. ProxyServer (proxy/server.go, security.go, metrics.go,
      errors.go): the outer chain, the headers a backend sees, error pages.
    - Gateway (proxy/server.go): the registry with all eight features, the
      observers that carry a reload to them, traffic between reloads and the
      release of their resources; reachable states as an inductive relation.
    - Mux: paths and query values as net/http's ServeMux and net/url see them.
    - CA (hub/mtls.go): serials, certificates bound to a node, revocation and
      the check of a peer, over any x509 with its documented law.
    - HubAPI (hub/api.go): routes, the mTLS guard and every handler of the REST
      API over HubRegistry, Mirrors, Monitor, HubStream and CA.
    - AdminRouter (admin/router.go, cmd/gateway-hub/admin_adapter.go): the
      admin API against records of operations for hub, features and metrics,
      and the adapter that implements the hub's record.
    - HubServer (cmd/gateway-hub/main.go): what a start assembles, and the
      handler that joins AdminGate, AdminHandler, AdminRouter and HubAPI over
      one registry; histories of requests.
    - PoolAPI (torpool/api.go): the control routes of the pool and the life of
      a request's context.
    - EdgeClients (proxy/snapshot.go, door/snapshot.go): the reconnecting
      stream client, generic in what it does with an event, and the local
      client over HubRegistry and two lossy queues, as a step relation.
    - ClientLife (proxy/snapshot.go, door/snapshot.go): Start, Close and the
      goroutine of a client as interleaved steps.
    - StreamServe (hub/stream.go): the response of the stream handler, joined
      with the filter of HubStream, the wire format and EdgeClients.
    - Storage (hub/storage.go): the atomic write step by step with a crash
      anywhere, what a reload makes of the leftovers, the debounced watcher.
    - CAFiles (hub/mtls.go): the files of the root certificate and key, and
      the revocation list, over any PEM and x509 codec.
    - Bufio: a connection as the reads it will answer, and bufio.Reader over
      it. NodeTransport (internal/transport): the interface as a class with
      its laws, and the four transports as instances; the CONNECT exchange
      of the HTTPS tunnel and the preamble of SOCKS5 over TLS.
    - EdgePool (proxy/server.go): the poller of the control socket between
      TorPool, PoolAPI, Transport and NodeTransport.
    - Binaries (cmd/gateway-proxy, gateway-door, gateway-hub, gateway-torpool):
      which transport and snapshot client a configuration selects, logging,
      the shutdown grace, and starts and stops as histories of acquired and
      released resources.
    - EdgeHub: the composition of Binaries, NodeTransport, EdgeClients and
      HubAPI, an edge that talks to the hub through its transport.
    - Tracing (internal/tracing): the pipeline that Init replaces, as a step
      relation, and the span of a request. Catalog (i18n/i18n.go,
      metrics/opsec.go): translations, and in its module Salt the life of the
      salt file.

    ** What the theorems show

    Admin surface: the gate opens for the secret prefix, and only for paths
    whose segments begin with the three secrets (C9); the API is reached only
    by a live session with its CSRF token from an address that is not locked
    out (C1); sessions are found exactly, and logout (admin_logout_revokes)
    revokes them (C16); lockout decisions are those of the full history when
    the soft window is no longer than the hard one (C15). Unnumbered theorems
    add exact audit queries (audit_query_exact), the branches of the gate, the
    CSRF check, the first visit, lifetimes, the silence towards locked-out
    addresses and the visibility of writes.
    Hub server: from its start on, nobody changes the registry of the hub
    without a verified certificate or an admitted admin session (C2), and
    changes through the admin surface are audited, the event being in the log
    unless the append itself failed (C3); tenants are stored as sent
    (hub_tenant_roundtrip), each file is written whole or not at all
    (atomic_write_all_or_nothing), changes of files are seen after the
    debounce (watcher_debounces, watch_own_write); certificates identify
    exactly their node and their serials are unique as long as a failed write
    spares the serial file (C37, C38); deletion of a node revokes its latest
    certificate and no other (hub_delete_revokes_latest). Unnumbered: what a
    request without a certificate can see and do at all (hub_api_guarded),
    exactness of the router against its interfaces (admin_router_audited), the
    guard of edge nodes (admin_router_hub_guard) and the health report of the
    pool (pool_health_exact).
    Features and tenants: reloads are atomic (C39), requests stay in their own
    tenant (C18), nodes receive only their tenants (C19), the negative cache
    is per pair (C30), addresses are validated exactly (C33). The block list
    refines a map of deadlines (ttl_contains_history) and the middleware
    enforces it while the list is within its size (C7) with well-formed
    parameters (C36); unnumbered: its eviction and salt (ttl_add_keeps_latest,
    ttl_salt_stable). Cached responses are public and stay with their resource
    (cache_entries_public, (C4)). Rates and connections stay within the
    configured budget, counted anew after every sweep and reload, and the swap
    loop terminates (C8) (conn_cap_safe, cas_loop_terminates). Abuse reports
    are limited like the full history (abuse_limiter_exact) and logged exactly
    (abuse_log_exact). Header templates parse and render exactly
    (template_parse_exact), and responses leave rewritten
    (headers_downstream_exact). Pages are sanitized as the relation on their
    tokens says (C12). Database readers are accounted for exactly (C14).
    The assembled proxy: its features are configured by the last accepted
    reload, and Shutdown releases what they hold (C10, C11); responses pass
    the outer chain unharmed and are counted once (C40), forwarding headers
    are the proxy's own (C13), only fetched networks are admitted behind
    Cloudflare (cf_admits_exactly); unnumbered: the enforcement of block and
    country rules, the order of the chain, recovery from panics, the invisible
    admin surface, the retry schedule (gateway_gates_enforced,
    gateway_chain_order, proxy_recovers, proxy_admin_invisible,
    cf_retry_schedule).
    Configuration: what gives its limits loads exactly when it is sane (C26),
    and it keeps the Tor pool on real ports (config_pool_ports).
    Proxying: attempts and their exhaustiveness (C5, C34); unnumbered: their
    accounting in the negative cache and their bodies (roundtrip_accounting,
    roundtrip_body_intact).
    Node transports: while its context lives, a dial through any transport
    leaves no open connection when it fails and a clean one when it succeeds
    (C6); attempts go only to instances the pool listed as alive (C35); an
    edge whose transport carries a client certificate can subscribe exactly
    when the hub trusts it (C24); unnumbered: however the network cuts the
    answer, the tunnel hands out exactly the bytes behind the header block
    (tunnel_stream_exact), the preamble names the port
    (socks5_preamble_roundtrip), everything acquired is released
    (binaries_release), one tracing pipeline at a time
    (tracing_single_pipeline), atomic catalogues (catalog_load_atomic), a salt
    that survives restarts (salt_survives).
    Mirrors and doors: the wire round trip (C29) and the whole way from the
    queue of a subscriber to the edge (C20), the door follows the hub (C21), a
    proxy in local mode converges to its files (C22), stream clients apply
    exactly what they are served (C23), Close stops a client that runs (C25),
    and a reconnect heals a door (door_reconnect_heals), the kill switch, also
    across the reloads of the watcher (C32, C17), safe redirects to eligible
    mirrors (C28); a probe cycle does exactly its job and a check always ends
    (monitor_cycle_exact) (C31); unnumbered: pick_eligible, ordered delivery,
    verdicts, proportional and fair selection, exact slugs.
    Tor pool: port and size invariants (C27); unnumbered: what a start comes
    to and that it returns (spawn_outcome, spawn_returns), exact scaling and
    the quarantine machine (scale_to_exact, quarantine_exact).
    Where the code does less than its comments say, the behaviour is proved as
    it is, in unnumbered theorems: registration that is open to everybody
    (hub_register_open), edges that lose their tenants when the hub restarts
    (hub_restart_empties_edges), scaling of the pool that does not last
    (pool_scale_never_grows), serial numbers that repeat after a torn write
    (ca_torn_serial_repeats), edges without a pool (edge_without_pool), and
    torn_write_stops_reload, local_start_cancelled_hangs, early_close_leaks,
    dead_instance_marked_alive, tunnel_hub_rejects, edge_stream_bounded,
    leftover_revives_tenant, ca_half_written_blocks,
    span_early_hint_hides_error, grace_overflow, hub_api_any_node_is_admin,
    hub_put_globals_loses_tenants, hub_api_logout_keeps_session,
    ca_restart_forgets_revocation, ca_query_id_unusable,
    admin_router_ipv6_label, gateway_abuse_never_accepts, sanitize_truncates,
    proxy_early_hints_lose_status, monitor_blames_silence,
    flight_shares_set_cookie, range_poisons_cache, conn_cap_sweep_race,
    headers_strip_bypassed, proxy_truncation_hidden, geoip_lookup_after_close,
    geoip_allow_ignored, blocklist_match_key_ignored, sanitize_interim_status,
    mirror_kill_switch_race, config_soft_window_ignored, abuse_table_grows,
    headers_request_id_differs, monitor_disable_ignored, monitor_start_lost,
    subscribe_snapshot_race, replacement_dies, ttl_reopen_never_retried,
    oversized_runs_twice, gate_accepts_extended_slug, door_match_wraps,
    hub_bad_globals_panics, audit_short_write_glues and
    failed_replacement_final.

    ** Fuel

    Mirrors.run_task runs at most five critical sections, the longest chain of
    a mutation, and task_fuel is five; AuditLog.probe counts a uint16 and has
    65536 steps, after which the code reports exhaustion; Queue.enqueue_loop
    drops at most one element per step and has one step more than the queue is
    long; TorPool.next_port tries one port more than there are used ones and
    is proved to find a free one; Transport.retry counts the configured
    attempts, as the code does; GoStd.ParseDuration consumes at least one byte
    per step and has as many steps as the input is long, and so does
    Headers.parse_parts, in which a variable takes at least four bytes;
    CheckHost.poll_loop, which sleeps as the code does, has as many turns as
    the waiting time holds polling intervals and two more, proved to be enough
    for a clock that does not run backwards; NetIP.v6_groups has eight
    turns, one per group of an address; Bufio.read_string has two steps for
    every byte to come and HTTPSTunnel.drain_lines one, both proved enough; Cloudflare.backoff doubles as often as
    the code's loop; the loop of
    RateLimit.ConnCap has no fuel, it is a relation.

    ** Not modelled

    Listeners, TLS handshakes, ACME, the events of file watchers, tickers and
    signals: they are calls into the runtime, and their outcomes are inputs
    of the definitions. What a Tor process prints and when it dies are inputs. Third-party packages
    are parameters with their documented laws: the HTML tokenizer, regular
    expressions, the MaxMind reader, the token bucket, Ristretto, bbolt, YAML
    and JSON, x509 and PEM; the OpenTelemetry SDK and the Prometheus registry
    are outside. Flag parsing and the main functions of the binaries are left
    out, and so are the test drivers and fakes under src/tests, which are not
    part of the gateway. *)

From stdpp Require Export prelude gmap strings list sorting.
From Stdlib Require Export Ascii ZArith Lia.

(** * Scopes, notations and automation *)

Declare Scope gateway_scope.
Delimit Scope gateway_scope with gw.

(** Go strings and byte slices are sequences of bytes. *)
Abbreviation gostring := (list ascii).

(** [$"abc"] is the Go string literal "abc". *)
Notation "$ s" := (String.list_ascii_of_string s%string)
  (at level 1, s at level 0, format "$ s") : gateway_scope.
Open Scope gateway_scope.

Create HintDb gateway.

(** [split_cond] analyses the conditions of a definition one by one, from
    the outside in, keeping the equations; [solve_cases] finishes the
    branches that are closed by computation or contradiction. *)
Ltac split_cond :=
  repeat (case_match || case_decide || case_bool_decide); simplify_eq/=.

Ltac solve_cases := split_cond; try done; try lia; auto with gateway.

(** [decide_now] proves a closed decidable proposition by evaluating its
    decision procedure. *)
Ltac decide_now := refine (bool_decide_unpack _ _); vm_compute; exact I.

(** [spread] reduces [StronglySorted] and [Forall] on an explicit list to its
    element-wise obligations. *)
Ltac spread :=
  repeat first [apply SSorted_nil | apply SSorted_cons | apply Forall_nil_2 | apply Forall_cons_2].

(** * Machine integers *)

Definition two63 : Z := 9223372036854775808.
Definition two64 : Z := 18446744073709551616.
Definition max_int64 : Z := 9223372036854775807.
Definition min_int64 : Z := -9223372036854775808.

(** Wrap-around of an int64 (and of int on a 64-bit target). *)
Definition wrap64 (z : Z) : Z := (z + two63) mod two64 - two63.

(** Wrap-around of a uint64 and of a uint8. *)
Definition wrapu64 (z : Z) : Z := z mod two64.
Definition wrapu8 (z : Z) : Z := z mod 256.

Definition in_int64 (z : Z) : Prop := (min_int64 ≤ z ≤ max_int64)%Z.

#[global] Instance in_int64_dec z : Decision (in_int64 z).
Proof. unfold in_int64; apply _. Defined.

(** * time.Time and time.Duration

    An instant is a count of nanoseconds since the Unix epoch, a duration an
    int64 count of nanoseconds. *)

Abbreviation time := Z.
Abbreviation duration := Z.

Definition Nanosecond : duration := 1.
Definition Millisecond : duration := 1000000.
Definition Second : duration := 1000000000.
Definition Minute : duration := 60000000000.
Definition Hour : duration := 3600000000000.

(** The zero time.Time, January 1 of year 1. *)
Definition time_zero : time := (-62135596800 * Second)%Z.

Definition IsZero (t : time) : bool := Z.eqb t time_zero.
Definition Before (t u : time) : bool := Z.ltb t u.
Definition After (t u : time) : bool := Z.ltb u t.
Definition time_add (t : time) (d : duration) : time := (t + d)%Z.

(** time.Time.Sub saturates to the range of a Duration. *)
Definition time_sub (t u : time) : duration :=
  Z.max min_int64 (Z.min max_int64 (t - u)).

(** Duration arithmetic is int64 arithmetic. *)
Definition dur_mul (a b : duration) : duration := wrap64 (a * b).
Definition dur_neg (d : duration) : duration := wrap64 (- d).

(** * Results of fallible operations *)

Inductive result (E A : Type) : Type :=
| Ok (a : A)
| Err (e : E).
Arguments Ok {E A} a.
Arguments Err {E A} e.

Definition res_bind {E A B} (r : result E A) (k : A → result E B) : result E B :=
  match r with
  | Ok a => k a
  | Err e => Err e
  end.

Notation "'let*' x ':=' r 'in' k" := (res_bind r (λ x, k))
  (at level 10, x pattern, r at level 200, k at level 200, only parsing) : gateway_scope.

Definition is_ok {E A} (r : result E A) : bool :=
  match r with Ok _ => true | Err _ => false end.

(** * Bytes *)

Definition NUL : ascii := Ascii.zero.
Definition byte_val (c : ascii) : Z := Z.of_N (N_of_ascii c).

Definition slash : ascii := "/"%char.

(** [make([]byte, n)]: n zero bytes. *)
Definition make_bytes (n : nat) : gostring := replicate n NUL.

(** [copy(dst, src)]: the first min(len dst, len src) bytes are overwritten. *)
Definition go_copy (dst src : gostring) : gostring :=
  take (length dst) src ++ drop (length src) dst.

(** The padding idiom [out := make([]byte, n); copy(out, src)]. *)
Definition pad_to (n : nat) (src : gostring) : gostring := go_copy (make_bytes n) src.

(** crypto/subtle.ConstantTimeCompare: the bytes are xor-ed pairwise and the
    differences or-ed together; only unequal lengths return early. *)
Fixpoint ct_diff (x y : gostring) : N :=
  match x, y with
  | a :: x', b :: y' => N.lor (N.lxor (N_of_ascii a) (N_of_ascii b)) (ct_diff x' y')
  | _, _ => 0%N
  end.

Definition ConstantTimeCompare (x y : gostring) : Z :=
  if Nat.eqb (length x) (length y)
  then (if N.eqb (ct_diff x y) 0 then 1 else 0)
  else 0.

(** crypto/subtle.ConstantTimeByteEq on two uint8 values. *)
Definition ConstantTimeByteEq (x y : Z) : Z := if Z.eqb x y then 1 else 0.

(** * The strings package *)

(** Splits at the first occurrence of a byte: [(s[:i], s[i+1:])]. *)
Fixpoint cut_byte (c : ascii) (s : gostring) : option (gostring * gostring) :=
  match s with
  | [] => None
  | d :: s' =>
      if decide (d = c) then Some ([], s')
      else match cut_byte c s' with
           | Some (a, b) => Some (d :: a, b)
           | None => None
           end
  end.

(** strings.IndexByte. *)
Fixpoint IndexByte (s : gostring) (c : ascii) : option nat :=
  match s with
  | [] => None
  | d :: s' => if decide (d = c) then Some 0 else S <$> IndexByte s' c
  end.

Lemma IndexByte_app s c t : c ∉ s → IndexByte (s ++ c :: t) c = Some (length s).
Proof.
  induction s as [|d s IH]; intros Hni; simpl; [by rewrite decide_True|].
  apply not_elem_of_cons in Hni as [Hd Hni]. rewrite decide_False by congruence.
  by rewrite IH.
Qed.

Lemma IndexByte_None s c : c ∉ s → IndexByte s c = None.
Proof.
  induction s as [|d s IH]; intros Hni; [done|]. apply not_elem_of_cons in Hni as [Hd Hni].
  simpl. rewrite decide_False by congruence. by rewrite IH.
Qed.

(** strings.SplitN(s, sep, n) for a one-byte separator and n > 0. *)
Fixpoint SplitN (s : gostring) (sep : ascii) (n : nat) : list gostring :=
  match n with
  | 0 => []
  | 1 => [s]
  | S n' =>
      match cut_byte sep s with
      | Some (a, b) => a :: SplitN b sep n'
      | None => [s]
      end
  end.

Fixpoint HasPrefix (s p : gostring) {struct p} : bool :=
  match p, s with
  | [], _ => true
  | c :: p', d :: s' => bool_decide (c = d) && HasPrefix s' p'
  | _ :: _, [] => false
  end.

Definition HasSuffix (s p : gostring) : bool := HasPrefix (reverse s) (reverse p).

Definition TrimPrefix (s p : gostring) : gostring :=
  if HasPrefix s p then drop (length p) s else s.

(** Letter case. On strings of ASCII bytes Go maps A-Z bytewise; on other
    strings it maps UTF-8 runes with the Unicode tables, which are a
    parameter here. *)
Class GoUnicode := {
  unicode_lower : gostring → gostring;
  unicode_upper : gostring → gostring;
  unicode_trim : gostring → gostring
}.

Definition is_ascii_byte (c : ascii) : bool := N.ltb (N_of_ascii c) 128.

Definition lower_byte (c : ascii) : ascii :=
  let n := N_of_ascii c in
  if (N.leb 65 n && N.leb n 90)%bool then ascii_of_N (n + 32) else c.

Definition upper_byte (c : ascii) : ascii :=
  let n := N_of_ascii c in
  if (N.leb 97 n && N.leb n 122)%bool then ascii_of_N (n - 32) else c.

Definition ToLower `{GoUnicode} (s : gostring) : gostring :=
  if forallb is_ascii_byte s then map lower_byte s else unicode_lower s.

Definition ToUpper `{GoUnicode} (s : gostring) : gostring :=
  if forallb is_ascii_byte s then map upper_byte s else unicode_upper s.

Fixpoint drop_while {A} (P : A → bool) (l : list A) : list A :=
  match l with
  | [] => []
  | x :: l' => if P x then drop_while P l' else l
  end.

(** strings.TrimRight(s, cutset) and strings.TrimLeft for ASCII cutsets. *)
Definition TrimRight (s : gostring) (P : ascii → bool) : gostring :=
  reverse (drop_while P (reverse s)).

(** strings.TrimSpace: the six ASCII space bytes, or the Unicode property. *)
Definition is_space (c : ascii) : bool :=
  let n := N_of_ascii c in ((N.leb 9 n && N.leb n 13) || N.eqb n 32)%bool.

Definition TrimSpace `{GoUnicode} (s : gostring) : gostring :=
  if forallb is_ascii_byte s then TrimRight (drop_while is_space s) is_space else unicode_trim s.

(** The runes of [for _, r := range s]: UTF-8, an invalid byte is U+FFFD. *)
Definition cont (lo hi b : Z) : bool := (Z.leb lo b && Z.leb b hi)%bool.

Definition rune2 (b0 b1 : Z) : option Z :=
  if (cont 194 223 b0 && cont 128 191 b1)%bool
  then Some (Z.land b0 31 * 64 + Z.land b1 63)%Z else None.

Definition rune3 (b0 b1 b2 : Z) : option Z :=
  let lo := if Z.eqb b0 224 then 160%Z else 128%Z in
  let hi := if Z.eqb b0 237 then 159%Z else 191%Z in
  if (cont 224 239 b0 && cont lo hi b1 && cont 128 191 b2)%bool
  then Some (Z.land b0 15 * 4096 + Z.land b1 63 * 64 + Z.land b2 63)%Z else None.

Definition rune4 (b0 b1 b2 b3 : Z) : option Z :=
  let lo := if Z.eqb b0 240 then 144%Z else 128%Z in
  let hi := if Z.eqb b0 244 then 143%Z else 191%Z in
  if (cont 240 244 b0 && cont lo hi b1 && cont 128 191 b2 && cont 128 191 b3)%bool
  then Some (Z.land b0 7 * 262144 + Z.land b1 63 * 4096 + Z.land b2 63 * 64 + Z.land b3 63)%Z
  else None.

Definition RuneError : Z := 65533.

Fixpoint runes (s : gostring) : list Z :=
  match s with
  | [] => []
  | c0 :: s1 =>
      let b0 := byte_val c0 in
      if Z.ltb b0 128 then b0 :: runes s1
      else match s1 with
      | [] => [RuneError]
      | c1 :: s2 =>
          let b1 := byte_val c1 in
          match rune2 b0 b1 with
          | Some r => r :: runes s2
          | None =>
              match s2 with
              | [] => RuneError :: runes s1
              | c2 :: s3 =>
                  let b2 := byte_val c2 in
                  match rune3 b0 b1 b2 with
                  | Some r => r :: runes s3
                  | None =>
                      match s3 with
                      | [] => RuneError :: runes s1
                      | c3 :: s4 =>
                          match rune4 b0 b1 b2 (byte_val c3) with
                          | Some r => r :: runes s4
                          | None => RuneError :: runes s1
                          end
                      end
                  end
              end
          end
      end
  end.

(** Go's byte-wise order on strings. *)
Fixpoint str_leb (x y : gostring) : bool :=
  match x, y with
  | [], _ => true
  | _ :: _, [] => false
  | a :: x', b :: y' =>
      match N.compare (N_of_ascii a) (N_of_ascii b) with
      | Lt => true
      | Gt => false
      | Eq => str_leb x' y'
      end
  end.

Definition str_le (x y : gostring) : Prop := str_leb x y = true.

(** [sort.Slice(out, func(i, j) bool { return key(out[i]) < key(out[j]) })]
    for distinct keys (the result is then unique). *)
Definition key_le {A} (key : A → gostring) : relation A := λ a b, str_le (key a) (key b).

#[global] Instance str_le_dec : RelDecision str_le.
Proof. intros x y. unfold str_le. apply _. Defined.

#[global] Instance key_le_dec {A} (key : A → gostring) : RelDecision (key_le key).
Proof. intros x y. unfold key_le. apply _. Defined.

Definition sort_by {A} (key : A → gostring) (l : list A) : list A :=
  merge_sort (key_le key) l.

(** * Lemmas: machine integers and time *)

Lemma wrap64_id z : in_int64 z → wrap64 z = z.
Proof.
  unfold in_int64, wrap64, two63, two64, min_int64, max_int64. intros ?.
  rewrite Z.mod_small; lia.
Qed.

Lemma wrap64_range z : in_int64 (wrap64 z).
Proof.
  unfold in_int64, wrap64, two63, two64, min_int64, max_int64.
  pose proof (Z.mod_pos_bound (z + 9223372036854775808) 18446744073709551616). lia.
Qed.

Lemma wrapu8_small z : (0 ≤ z < 256)%Z → wrapu8 z = z.
Proof. intros. by apply Z.mod_small. Qed.

(** Saturation is invisible to a comparison with an in-range duration. *)
Lemma time_sub_ge t u d :
  in_int64 d → (d ≤ time_sub t u)%Z ↔ (u + d ≤ t)%Z ∨ d = min_int64.
Proof. unfold in_int64, time_sub, min_int64, max_int64. lia. Qed.

#[export] Hint Resolve wrap64_range : gateway.

(** * Lemmas: bytes and padding *)

Definition nul_free (s : gostring) : Prop := NUL ∉ s.

#[global] Instance nul_free_dec s : Decision (nul_free s).
Proof. unfold nul_free; apply _. Defined.

Lemma length_pad_to n s : length (pad_to n s) = n.
Proof.
  unfold pad_to, go_copy, make_bytes.
  rewrite length_app, length_take, length_drop, length_replicate. lia.
Qed.

Lemma pad_to_long n s : n ≤ length s → pad_to n s = take n s.
Proof.
  intros. unfold pad_to, go_copy, make_bytes. rewrite length_replicate.
  rewrite drop_ge by (rewrite length_replicate; lia). by rewrite app_nil_r.
Qed.

Lemma pad_to_short n s :
  length s ≤ n → pad_to n s = s ++ replicate (n - length s) NUL.
Proof.
  intros. unfold pad_to, go_copy, make_bytes. rewrite length_replicate.
  rewrite take_ge by lia. by rewrite drop_replicate.
Qed.

(** Padding to the length of a NUL-free reference hits the reference exactly
    when the reference is a prefix of the input: shorter inputs are padded
    with a byte the reference does not contain, longer ones are truncated. *)
Lemma pad_to_eq_prefix r s :
  nul_free r → pad_to (length r) s = r ↔ r `prefix_of` s.
Proof.
  intros Hr. destruct (decide (length r ≤ length s)) as [Hle|Hlt].
  - rewrite pad_to_long by done. split.
    + intros <-. exists (drop (length r) s). by rewrite take_drop.
    + intros [k ->]. by rewrite take_app_length.
  - rewrite pad_to_short by lia. split.
    + intros Heq. exfalso. apply Hr. rewrite <- Heq.
      apply elem_of_app. right. apply elem_of_replicate. split; [done|lia].
    + intros Hp%prefix_length. lia.
Qed.

(** Two NUL-free strings that fit the buffer are told apart by their paddings. *)
Lemma pad_to_inj n s t :
  nul_free s → nul_free t → length s ≤ n → length t ≤ n →
  pad_to n s = pad_to n t → s = t.
Proof.
  assert (H : ∀ a b k l, nul_free a → nul_free b →
    a ++ replicate k NUL = b ++ replicate l NUL → a = b).
  { induction a as [|c a IH]; intros [|d b] k l Ha Hb Heq; simplify_eq/=; try done.
    - exfalso. apply Hb. destruct k; simplify_eq/=. left.
    - exfalso. apply Ha. destruct l; simplify_eq/=. left.
    - f_equal. eapply (IH b k l); unfold nul_free in *; set_solver. }
  intros ?? ?? Heq. rewrite !pad_to_short in Heq by done. eauto.
Qed.

Lemma ct_diff_0 x y :
  length x = length y → ct_diff x y = 0%N ↔ x = y.
Proof.
  revert y; induction x as [|a x IH]; intros [|b y] Hl; simplify_eq/=; [done|].
  rewrite N.lor_eq_0_iff, N.lxor_eq_0_iff, IH by done. split.
  - intros [Hab ->]. f_equal.
    by rewrite <- (ascii_N_embedding a), Hab, ascii_N_embedding.
  - intros; simplify_eq. done.
Qed.

Lemma ConstantTimeCompare_1 x y : ConstantTimeCompare x y = 1%Z ↔ x = y.
Proof.
  unfold ConstantTimeCompare.
  destruct (Nat.eqb_spec (length x) (length y)) as [Hl|Hl].
  - rewrite <- (ct_diff_0 x y Hl). destruct (N.eqb_spec (ct_diff x y) 0); split; done || lia.
  - split; [done|]. intros ->. done.
Qed.

Lemma ConstantTimeCompare_cases x y :
  ConstantTimeCompare x y = if decide (x = y) then 1%Z else 0%Z.
Proof.
  case_decide as H; [by apply ConstantTimeCompare_1|].
  unfold ConstantTimeCompare. split_cond; try done.
  exfalso. apply H, ct_diff_0; [by apply Nat.eqb_eq|by apply N.eqb_eq].
Qed.

(** * Lemmas: the strings package *)

Lemma cut_byte_Some c s a b :
  cut_byte c s = Some (a, b) ↔ s = a ++ c :: b ∧ c ∉ a.
Proof.
  revert a b; induction s as [|d s IH]; intros a b; simpl.
  - split; [done|]. intros [H _]. by destruct a.
  - case_decide; subst.
    + split.
      * intros; simplify_eq/=. split; [done|]. apply not_elem_of_nil.
      * intros [Heq Hni]. destruct a as [|e a]; simplify_eq/=; [done|].
        exfalso. apply Hni. left.
    + destruct (cut_byte c s) as [[a' b']|] eqn:Hc; split.
      * intros; simplify_eq/=. destruct (IH a' b) as [IH1 _].
        destruct (IH1 eq_refl) as [-> ?]. split; [done|]. set_solver.
      * intros [Heq Hni]. destruct a as [|e a]; simplify_eq/=.
        destruct (IH a b) as [_ IH2].
        rewrite not_elem_of_cons in Hni. destruct Hni.
        assert (Some (a', b') = Some (a, b)) by (apply IH2; done). by simplify_eq.
      * done.
      * intros [Heq Hni]. destruct a as [|e a]; simplify_eq/=.
        destruct (IH a b) as [_ IH2].
        rewrite not_elem_of_cons in Hni. destruct Hni.
        assert (None = Some (a, b)) by (apply IH2; done). done.
Qed.

Lemma cut_byte_None c s : cut_byte c s = None ↔ c ∉ s.
Proof.
  induction s as [|d s IH]; simpl; [set_solver|].
  case_decide; subst; [set_solver|].
  destruct (cut_byte c s) as [[]|]; set_solver.
Qed.

Lemma cut_byte_app c a b : c ∉ a → cut_byte c (a ++ c :: b) = Some (a, b).
Proof. intros. by apply cut_byte_Some. Qed.

Lemma HasPrefix_spec s p : HasPrefix s p = true ↔ p `prefix_of` s.
Proof.
  revert s; induction p as [|c p IH]; intros s; simpl.
  - split; [|done]. intros _. by exists s.
  - destruct s as [|d s].
    + split; [done|]. intros [k Hk]; simpl in Hk; discriminate.
    + rewrite andb_true_iff, bool_decide_eq_true, IH. split.
      * intros [-> [k ->]]. by exists k.
      * intros [k Hk]. simplify_eq/=. split; [done|by exists k].
Qed.

(** * Lemmas: the order on strings and sorting *)

#[global] Instance str_le_total : Total str_le.
Proof.
  intros x; induction x as [|a x IH]; intros [|b y]; unfold str_le in *; simpl;
    [by left|by left|by right|].
  rewrite (N.compare_antisym (N_of_ascii a) (N_of_ascii b)).
  destruct (N.compare (N_of_ascii a) (N_of_ascii b)); simpl; auto.
Qed.

Lemma str_leb_refl x : str_leb x x = true.
Proof. induction x as [|a x IH]; simpl; [done|]. by rewrite N.compare_refl. Qed.

#[global] Instance str_le_trans : Transitive str_le.
Proof.
  intros x; induction x as [|a x IH]; intros [|b y] [|c z]; unfold str_le in *;
    simpl; try done.
  destruct (N.compare_spec (N_of_ascii a) (N_of_ascii b)) as [Hab|Hab|Hab],
    (N.compare_spec (N_of_ascii b) (N_of_ascii c)) as [Hbc|Hbc|Hbc]; try done; intros ??;
    destruct (N.compare_spec (N_of_ascii a) (N_of_ascii c)); try done; try lia; eauto.
Qed.

#[global] Instance str_le_antisymm : AntiSymm (=) str_le.
Proof.
  intros x; induction x as [|a x IH]; intros [|b y]; unfold str_le in *; simpl; try done.
  rewrite (N.compare_antisym (N_of_ascii a) (N_of_ascii b)).
  destruct (N.compare_spec (N_of_ascii a) (N_of_ascii b)) as [Hab|Hab|Hab]; try done.
  intros ??. f_equal; [|eauto].
  by rewrite <- (ascii_N_embedding a), Hab, ascii_N_embedding.
Qed.

#[global] Instance key_le_total {A} (key : A → gostring) : Total (key_le key).
Proof. intros a b. apply (total str_le). Qed.

#[global] Instance key_le_trans {A} (key : A → gostring) : Transitive (key_le key).
Proof. intros a b c. apply (transitivity (R:=str_le)). Qed.

Lemma sort_by_Permutation {A} (key : A → gostring) l : sort_by key l ≡ₚ l.
Proof. apply merge_sort_Permutation. Qed.

Lemma sort_by_Sorted {A} (key : A → gostring) l :
  StronglySorted (key_le key) (sort_by key l).
Proof. apply StronglySorted_merge_sort; apply _. Qed.

(** With distinct keys the sorted list does not depend on the order in which
    the map was iterated. *)
Lemma sort_by_unique {A} (key : A → gostring) l l' :
  NoDup (key <$> l) → l ≡ₚ l' → sort_by key l = sort_by key l'.
Proof.
  intros Hnd Hp.
  assert (Hu : ∀ k k' : list A, StronglySorted (key_le key) k →
    StronglySorted (key_le key) k' → NoDup (key <$> k) → k ≡ₚ k' → k = k').
  { clear. induction k as [|x k IH]; intros k' Hs Hs' Hnd Hp.
    { by apply Permutation_nil_l in Hp as ->. }
    destruct k' as [|y k']; [by apply Permutation_nil_r in Hp|].
    inversion Hs as [|?? Hs1 Hf]; inversion Hs' as [|?? Hs1' Hf']; subst.
    assert (x = y) as ->.
    { assert (x ∈ y :: k') as [->|Hx]%elem_of_cons by (rewrite <- Hp; left); [done|].
      assert (y ∈ x :: k) as [->|Hy]%elem_of_cons by (rewrite Hp; left); [done|].
      rewrite Forall_forall in Hf, Hf'.
      assert (key x = key y) as Hk by (apply (anti_symm str_le); [by apply Hf|by apply Hf']).
      simpl in Hnd. apply NoDup_cons in Hnd as [Hni _]. exfalso. apply Hni.
      rewrite Hk. by apply list_elem_of_fmap_2. }
    f_equal. apply IH; try done.
    - simpl in Hnd. by apply NoDup_cons in Hnd as [_ ?].
    - by eapply Permutation_cons_inv. }
  apply Hu; try apply sort_by_Sorted.
  - by rewrite sort_by_Permutation.
  - by rewrite !sort_by_Permutation.
Qed.

#[export] Hint Resolve sort_by_Permutation sort_by_Sorted : gateway.
