(* ===== verification/Float.v ===== *)
(** float64 values as the Standard Library's [spec_float] at the binary64
    format: the operations the gateway uses and the facts about comparison
    that selection and sorting rely on. *)

From Stdlib Require Export SpecFloat.
From S2P Require Import Prelude.

Abbreviation float64 := spec_float.

Definition f64_of_Z (z : Z) : float64 := binary_normalize 53 1024 z 0 false.
Definition f64_add (x y : float64) : float64 := SFadd 53 1024 x y.
Definition f64_mul (x y : float64) : float64 := SFmul 53 1024 x y.
Definition f64_div (x y : float64) : float64 := SFdiv 53 1024 x y.

(** The comparisons are false when an operand is NaN. *)
Definition f64_lt (x y : float64) : bool := SFltb x y.
Definition f64_gt (x y : float64) : bool := SFltb y x.
Definition f64_ge (x y : float64) : bool :=
  match SFcompare x y with Some Gt | Some Eq => true | _ => false end.

Definition f64_is_zero (x : float64) : bool := match x with S754_zero _ => true | _ => false end.
Definition f64_is_nan (x : float64) : bool := match x with S754_nan => true | _ => false end.

(** math.MaxFloat64. *)
Definition MaxFloat64 : float64 := S754_finite false 9007199254740991 971.

(** * Comparison is lexicographic *)

(** The rank of a value's class and the two numbers compared within it. *)
Definition f64_key (x : float64) : Z * Z * Z :=
  match x with
  | S754_infinity true => (0, 0, 0)
  | S754_finite true m e => (1, - e, Z.neg m)
  | S754_zero _ => (2, 0, 0)
  | S754_finite false m e => (3, e, Z.pos m)
  | S754_infinity false => (4, 0, 0)
  | S754_nan => (5, 0, 0)
  end%Z.

Definition key_lt (a b : Z * Z * Z) : Prop :=
  let '(x, y, z) := a in let '(x', y', z') := b in
  (x < x' ∨ (x = x' ∧ (y < y' ∨ (y = y' ∧ z < z'))))%Z.

Lemma f64_lt_key x y :
  f64_is_nan x = false → f64_is_nan y = false →
  f64_lt x y = true ↔ key_lt (f64_key x) (f64_key y).
Proof.
  intros Hx Hy. unfold f64_lt, SFltb.
  destruct x as [[]|[]| |[] m e], y as [[]|[]| |[] m' e']; try done;
    cbn [SFcompare f64_key key_lt]; try (split; [done|lia]); try (split; [lia|done]).
  - change (Pos.compare_cont Eq m m') with (Pos.compare m m').
    destruct (Z.compare_spec e e'); cbn [CompOpp]; [|split; [done|lia]|split; [lia|done]].
    destruct (Pos.compare_spec m m'); cbn [CompOpp]; split; try done; lia.
  - change (Pos.compare_cont Eq m m') with (Pos.compare m m').
    destruct (Z.compare_spec e e'); [|split; [lia|done]|split; [done|lia]].
    destruct (Pos.compare_spec m m'); split; try done; lia.
Qed.

Lemma f64_lt_nan_l y : f64_lt S754_nan y = false.
Proof. done. Qed.

Lemma f64_lt_nan_r x : f64_lt x S754_nan = false.
Proof. by destruct x as [[]|[]| |[] ? ?]. Qed.

Lemma f64_lt_not_nan x y : f64_lt x y = true → f64_is_nan x = false ∧ f64_is_nan y = false.
Proof. destruct x, y; simpl; try done; by rewrite ?f64_lt_nan_r. Qed.

Lemma f64_lt_trans x y z : f64_lt x y = true → f64_lt y z = true → f64_lt x z = true.
Proof.
  intros Hxy Hyz. pose proof (f64_lt_not_nan _ _ Hxy) as [??]. pose proof (f64_lt_not_nan _ _ Hyz) as [??].
  rewrite f64_lt_key in * by done. unfold key_lt in *.
  destruct (f64_key x) as [[? ?] ?], (f64_key y) as [[? ?] ?], (f64_key z) as [[? ?] ?]. lia.
Qed.

Lemma f64_lt_irrefl x : f64_lt x x = false.
Proof.
  destruct (f64_lt x x) eqn:E; [|done]. pose proof (f64_lt_not_nan _ _ E) as [??].
  apply f64_lt_key in E; [|done..]. unfold key_lt in E. destruct (f64_key x) as [[? ?] ?]. lia.
Qed.

Lemma f64_lt_asym x y : f64_lt x y = true → f64_lt y x = false.
Proof.
  intros H. destruct (f64_lt y x) eqn:E; [|done].
  pose proof (f64_lt_trans _ _ _ H E) as Hc. by rewrite f64_lt_irrefl in Hc.
Qed.

(** Among non-NaN values "not less than" is transitive. *)
Lemma f64_nlt_trans x y z :
  f64_is_nan x = false → f64_is_nan y = false → f64_is_nan z = false →
  f64_lt y x = false → f64_lt z y = false → f64_lt z x = false.
Proof.
  intros ??? Hyx Hzy. apply not_true_iff_false. apply not_true_iff_false in Hyx, Hzy.
  rewrite f64_lt_key in * by done. unfold key_lt in *.
  destruct (f64_key x) as [[? ?] ?], (f64_key y) as [[? ?] ?], (f64_key z) as [[? ?] ?]. lia.
Qed.
