(* ===== verification/Http.v ===== *)
(** The parts of net/http and net the gateway relies on: requests, response
    writers (status, header map, body), status codes, methods, and
    net.SplitHostPort. *)

From S2P Require Import Prelude.

(** * Status codes and methods *)

Definition StatusOK : Z := 200.
Definition StatusNoContent : Z := 204.
Definition StatusFound : Z := 302.
Definition StatusNotModified : Z := 304.
Definition StatusBadRequest : Z := 400.
Definition StatusForbidden : Z := 403.
Definition StatusNotFound : Z := 404.
Definition StatusMethodNotAllowed : Z := 405.
Definition StatusRequestTimeout : Z := 408.
Definition StatusMisdirectedRequest : Z := 421.
Definition StatusTooManyRequests : Z := 429.
Definition StatusInternalServerError : Z := 500.
Definition StatusNotImplemented : Z := 501.
Definition StatusServiceUnavailable : Z := 503.
Definition StatusGatewayTimeout : Z := 504.

Definition MethodGet : gostring := $"GET".
Definition MethodHead : gostring := $"HEAD".
Definition MethodOptions : gostring := $"OPTIONS".
Definition MethodPost : gostring := $"POST".
Definition MethodPut : gostring := $"PUT".
Definition MethodPatch : gostring := $"PATCH".
Definition MethodDelete : gostring := $"DELETE".

(** * Requests and responses *)

(** A header map from canonical names to the first value; [Get] of an absent
    name is the empty string. *)
Abbreviation header := (gmap gostring gostring).

Definition hdr_get (h : header) (k : gostring) : gostring := default [] (h !! k).
Definition hdr_set (k v : gostring) (h : header) : header := <[k := v]> h.

Record Request := mkRequest {
  Method : gostring;
  Path : gostring;
  RawPath : gostring;
  RawQuery : gostring;
  ReqHost : gostring;
  RemoteAddr : gostring;
  ReqHeader : header;
  Cookies : gmap gostring gostring
}.

(** The request with its URL path replaced ([r2.URL.Path = p], [r2.URL.RawPath = rp]). *)
Definition with_path (r : Request) (p rp : gostring) : Request :=
  {| Method := Method r; Path := p; RawPath := rp; RawQuery := RawQuery r;
     ReqHost := ReqHost r; RemoteAddr := RemoteAddr r;
     ReqHeader := ReqHeader r; Cookies := Cookies r |}.

(** A finished response. *)
Record Response := mkResponse {
  Status : Z;
  RespHeader : header;
  Body : gostring
}.

Definition ContentLength : gostring := $"Content-Length".
Definition Location : gostring := $"Location".
Definition RetryAfter : gostring := $"Retry-After".
Definition ContentType : gostring := $"Content-Type".

(** [writeEmpty(w, status)] on a writer whose header map is [h]. *)
Definition writeEmpty (h : header) (status : Z) : Response :=
  mkResponse status (hdr_set ContentLength $"0" h) [].

(** * net.SplitHostPort *)

Fixpoint LastIndexByte (s : gostring) (c : ascii) : option nat :=
  match s with
  | [] => None
  | d :: s' =>
      match LastIndexByte s' c with
      | Some i => Some (S i)
      | None => if decide (d = c) then Some 0 else None
      end
  end.

Definition colon : ascii := ":"%char.
Definition lbrack : ascii := "["%char.
Definition rbrack : ascii := "]"%char.

Definition contains_byte (s : gostring) (c : ascii) : bool := bool_decide (c ∈ s).

(** The host part and the offsets from which stray brackets are searched, or
    None when the address is malformed. *)
Definition split_host (hp : gostring) (i : nat) : option (gostring * nat * nat) :=
  match hp with
  | c :: _ =>
      if decide (c = lbrack) then
        match IndexByte hp rbrack with
        | None => None
        | Some e => if decide (S e = i) then Some (drop 1 (take e hp), 1, S e) else None
        end
      else if contains_byte (take i hp) colon then None else Some (take i hp, 0, 0)
  | [] => None
  end.

Definition SplitHostPort (hp : gostring) : option (gostring * gostring) :=
  match LastIndexByte hp colon with
  | None => None
  | Some i =>
      match split_host hp i with
      | None => None
      | Some (host, j, k) =>
          if contains_byte (drop j hp) lbrack then None
          else if contains_byte (drop k hp) rbrack then None
          else Some (host, drop (S i) hp)
      end
  end.

Example split_v4 : SplitHostPort $"10.0.0.1:443" = Some ($"10.0.0.1", $"443").
Proof. reflexivity. Qed.

Example split_v6 : SplitHostPort $"[::1]:80" = Some ($"::1", $"80").
Proof. reflexivity. Qed.

Example split_bare_v6 : SplitHostPort $"::1" = None.
Proof. reflexivity. Qed.

(** * Lemmas *)

Lemma LastIndexByte_None s c : LastIndexByte s c = None ↔ c ∉ s.
Proof.
  induction s as [|d s IH]; simpl; [set_solver|].
  destruct (LastIndexByte s c); [split; [done|]|case_decide; subst; set_solver].
  intros Hni. exfalso. rewrite not_elem_of_cons in Hni.
  destruct Hni as [_ Hni%IH]. done.
Qed.

Lemma LastIndexByte_app s c t : c ∉ t → LastIndexByte (s ++ c :: t) c = Some (length s).
Proof.
  intros Ht%LastIndexByte_None. induction s as [|d s IH]; simpl.
  - rewrite Ht. by rewrite decide_True.
  - by rewrite IH.
Qed.

(** A plain host (no colon, no bracket) joined with a port splits back. *)
Lemma SplitHostPort_plain h p :
  h ≠ [] → colon ∉ h → lbrack ∉ h → rbrack ∉ h → colon ∉ p → lbrack ∉ p → rbrack ∉ p →
  SplitHostPort (h ++ colon :: p) = Some (h, p).
Proof.
  intros Hne Hc Hl Hr Hpc Hpl Hpr. unfold SplitHostPort.
  rewrite LastIndexByte_app by done.
  assert (Hs : split_host (h ++ colon :: p) (length h) = Some (h, 0, 0)).
  { destruct h as [|x h]; [done|]. unfold split_host; cbn [app].
    destruct (decide (x = lbrack)) as [->|_]; [set_solver|].
    change (x :: h ++ colon :: p) with ((x :: h) ++ colon :: p).
    rewrite take_app_length. unfold contains_byte.
    by rewrite bool_decide_eq_false_2 by done. }
  rewrite Hs. unfold contains_byte. rewrite !drop_0.
  rewrite !bool_decide_eq_false_2; [|set_solver..].
  replace (S (length h)) with (length (h ++ [colon])) by (rewrite length_app; simpl; lia).
  replace (h ++ colon :: p) with ((h ++ [colon]) ++ p) by (by rewrite <- app_assoc).
  by rewrite drop_app_length.
Qed.
