(* ===== verification/AdminGate.v ===== *)
(** The hidden admin gate (src/internal/admin/gate.go) and the log redaction
    built on it (src/internal/proxy/path.go).

    The gate keeps three secret path segments and matches requests against
    them with padded constant-time compares; a match is handed to the
    installed handler with the prefix stripped. *)

From S2P Require Import Prelude Http.

(** * Data *)

Record Config := mkConfig {
  Enabled : bool;
  Slug : gostring;
  Token1 : gostring;
  Token2 : gostring
}.

(** The handler slot only matters for being set or not: the delegate itself is
    the caller's (AdminHandler in the gateway binaries). *)
Record Gate := mkGate {
  enabled : bool;
  slug : gostring;
  token1 : gostring;
  token2 : gostring;
  dummySlug : gostring;
  dummyToken1 : gostring;
  dummyToken2 : gostring;
  prefix : gostring;
  has_handler : bool
}.

(** * Operations *)

Definition join_prefix (s t1 t2 : gostring) : gostring :=
  slash :: s ++ slash :: t1 ++ slash :: t2.

Definition New (cfg : Config) : Gate :=
  if (negb (Enabled cfg) || bool_decide (Slug cfg = []) || bool_decide (Token1 cfg = [])
      || bool_decide (Token2 cfg = []))%bool
  then
    let z := replicate 32 "0"%char in
    mkGate false (make_bytes 32) (make_bytes 32) (make_bytes 32)
           (make_bytes 32) (make_bytes 32) (make_bytes 32) (join_prefix z z z) false
  else
    mkGate true (Slug cfg) (Token1 cfg) (Token2 cfg)
           (make_bytes (length (Slug cfg))) (make_bytes (length (Token1 cfg)))
           (make_bytes (length (Token2 cfg)))
           (join_prefix (Slug cfg) (Token1 cfg) (Token2 cfg)) false.

(** [SetHandler(h)]: [b] says whether h is non-nil. *)
Definition SetHandler (g : Gate) (b : bool) : Gate :=
  mkGate (enabled g) (slug g) (token1 g) (token2 g) (dummySlug g) (dummyToken1 g)
         (dummyToken2 g) (prefix g) b.

Definition splitThree (path : gostring) : option (gostring * gostring * gostring) :=
  match path with
  | [] => None
  | c :: rest =>
      if decide (c = slash) then
        match SplitN rest slash 4 with
        | p0 :: p1 :: p2 :: _ =>
            if (bool_decide (p0 = []) || bool_decide (p1 = []) || bool_decide (p2 = []))%bool
            then None else Some (p0, p1, p2)
        | _ => None
        end
      else None
  end.

Definition padEqual (src ref : gostring) : gostring := pad_to (length ref) src.

Definition MatchesPrefix (g : Gate) (path : gostring) : bool :=
  let sp := splitThree path in
  let ok := match sp with Some _ => true | None => false end in
  let '(seg1, seg2, seg3) := match sp with Some t => t | None => ([], [], []) end in
  let in1 := if enabled g then padEqual seg1 (slug g) else dummySlug g in
  let in2 := if enabled g then padEqual seg2 (token1 g) else dummyToken1 g in
  let in3 := if enabled g then padEqual seg3 (token2 g) else dummyToken2 g in
  let cmpSlug := if enabled g then slug g else dummySlug g in
  let cmpT1 := if enabled g then token1 g else dummyToken1 g in
  let cmpT2 := if enabled g then token2 g else dummyToken2 g in
  let r1 := ConstantTimeCompare in1 cmpSlug in
  let r2 := ConstantTimeCompare in2 cmpT1 in
  let r3 := ConstantTimeCompare in3 cmpT2 in
  let combined := Z.land (Z.land r1 r2) r3 in
  let structuralOK := if (ok && enabled g)%bool then 1%Z else 0%Z in
  Z.eqb (Z.land combined structuralOK) 1.

(** What ServeHTTP does with a request: an empty response, the handler called
    on the rewritten request, or a runtime panic (slice out of range). *)
Inductive Outcome :=
| Empty (status : Z)
| Delegate (r : Request)
| Panic.

(** Go's [s[n:]], None when n exceeds the length (a panic). *)
Definition slice_from (s : gostring) (n : nat) : option gostring :=
  if decide (n ≤ length s) then Some (drop n s) else None.

Definition strip_raw (g : Gate) (raw : gostring) : gostring :=
  if (negb (bool_decide (raw = [])) && HasPrefix raw (prefix g))%bool
  then (if decide (drop (length (prefix g)) raw = []) then $"/"
        else drop (length (prefix g)) raw)
  else raw.

Definition ServeHTTP (g : Gate) (r : Request) : Outcome :=
  let matched := MatchesPrefix g (Path r) in
  if negb matched then Empty StatusNotFound
  else if negb (has_handler g) then Empty StatusNotImplemented
  else match slice_from (Path r) (length (prefix g)) with
       | None => Panic
       | Some rest =>
           let rest' := if decide (rest = []) then $"/" else rest in
           Delegate (with_path r rest' (strip_raw g (RawPath r)))
       end.

(** proxy.redactPath; [None] is a nil gate. *)
Definition redactPath (og : option Gate) (path : gostring) : gostring :=
  match og with
  | None => path
  | Some g =>
      if negb (MatchesPrefix g path) then path
      else match path with
           | [] => path
           | c :: rest =>
               if decide (c = slash) then
                 match SplitN rest slash 4 with
                 | [_; _; _; p3] =>
                     if decide (p3 = []) then $"/**/**/**" else $"/**/**/**" ++ slash :: p3
                 | _ :: _ :: _ :: _ => $"/**/**/**"
                 | _ => path
                 end
               else path
           end
  end.

Arguments join_prefix : simpl never.
Arguments New : simpl never.

(** * Splitting a path into three segments *)

Definition segment (s : gostring) : Prop := s ≠ [] ∧ slash ∉ s.

(** What may follow the third segment: nothing, or a slash and anything. *)
Definition tail_ok (t : gostring) : Prop := t = [] ∨ ∃ t', t = slash :: t'.

Definition path_of (s1 s2 s3 tail : gostring) : gostring :=
  slash :: s1 ++ slash :: s2 ++ slash :: s3 ++ tail.

Arguments path_of : simpl never.

Lemma SplitN_cut s sep n a b :
  cut_byte sep s = Some (a, b) → SplitN s sep (S (S n)) = a :: SplitN b sep (S n).
Proof. intros H. simpl. by rewrite H. Qed.

Lemma splitThree_path_of s1 s2 s3 tail :
  segment s1 → segment s2 → segment s3 → tail_ok tail →
  splitThree (path_of s1 s2 s3 tail) = Some (s1, s2, s3).
Proof.
  intros [N1 S1] [N2 S2] [N3 S3] Ht. unfold splitThree, path_of.
  rewrite decide_True by done.
  rewrite (SplitN_cut _ _ 2 s1 (s2 ++ slash :: s3 ++ tail)) by by apply cut_byte_app.
  rewrite (SplitN_cut _ _ 1 s2 (s3 ++ tail)) by by apply cut_byte_app.
  assert (∃ l, SplitN (s3 ++ tail) slash 2 = s3 :: l) as [l ->].
  { destruct Ht as [->|[t' ->]].
    - rewrite app_nil_r. simpl. destruct (cut_byte slash s3) as [[]|] eqn:E; [|by eexists].
      apply cut_byte_Some in E as [-> _]. set_solver.
    - rewrite (SplitN_cut _ _ 0 s3 t') by by apply cut_byte_app. by eexists. }
  by rewrite !bool_decide_eq_false_2.
Qed.

Lemma splitThree_Some path s1 s2 s3 :
  splitThree path = Some (s1, s2, s3) →
  ∃ tail, path = path_of s1 s2 s3 tail ∧ segment s1 ∧ segment s2 ∧ segment s3 ∧ tail_ok tail.
Proof.
  unfold splitThree. destruct path as [|c rest]; [done|].
  destruct (decide (c = slash)) as [->|]; [|done].
  cbn [SplitN]. destruct (cut_byte slash rest) as [[p0 q0]|] eqn:E0; [|done].
  apply cut_byte_Some in E0 as [-> H0].
  destruct (cut_byte slash q0) as [[p1 q1]|] eqn:E1; [|done].
  apply cut_byte_Some in E1 as [-> H1].
  destruct (cut_byte slash q1) as [[p2 q2]|] eqn:E2.
  - apply cut_byte_Some in E2 as [-> H2]. case_match eqn:Hb; [done|]. intros [= <- <- <-].
    exists (slash :: q2). apply orb_false_iff in Hb as [[Ha Hb]%orb_false_iff Hc].
    apply bool_decide_eq_false in Ha, Hb, Hc.
    repeat split; try done. right; by eexists.
  - apply cut_byte_None in E2. case_match eqn:Hb; [done|]. intros [= <- <- <-].
    exists []. apply orb_false_iff in Hb as [[Ha Hb]%orb_false_iff Hc].
    apply bool_decide_eq_false in Ha, Hb, Hc.
    repeat split; try done; [by unfold path_of; rewrite app_nil_r|by left].
Qed.

Lemma app_nonnil (a b : gostring) : a ≠ [] → a ++ b ≠ [].
Proof. by destruct a. Qed.

(** * Gate invariant *)

(** What New establishes and SetHandler keeps: the stored prefix is the
    concatenation of the stored segments, and a disabled gate stores
    placeholder segments. *)
Definition gate_wf (g : Gate) : Prop :=
  if enabled g
  then prefix g = join_prefix (slug g) (token1 g) (token2 g) ∧
       slug g ≠ [] ∧ token1 g ≠ [] ∧ token2 g ≠ []
  else slug g = make_bytes 32 ∧ token1 g = make_bytes 32 ∧ token2 g = make_bytes 32.

Lemma New_wf cfg : gate_wf (New cfg).
Proof.
  unfold New. destruct (negb (Enabled cfg) || _ || _ || _)%bool eqn:E; [done|].
  rewrite !orb_false_iff, !bool_decide_eq_false in E. unfold gate_wf; simpl. tauto.
Qed.

Lemma SetHandler_wf g b : gate_wf g → gate_wf (SetHandler g b).
Proof. done. Qed.

#[export] Hint Resolve New_wf SetHandler_wf : gateway.

Lemma MatchesPrefix_disabled g path : enabled g = false → MatchesPrefix g path = false.
Proof.
  intros Hd. unfold MatchesPrefix. rewrite Hd.
  destruct (splitThree path) as [[[]]|]; simpl; by rewrite Z.land_0_r.
Qed.

Lemma bit_and_eq1 (P Q R : Prop) `{Decision P, Decision Q, Decision R} :
  Z.eqb (Z.land (Z.land (Z.land (if decide P then 1 else 0) (if decide Q then 1 else 0))
    (if decide R then 1 else 0)) 1) 1 = true ↔ P ∧ Q ∧ R.
Proof. repeat case_decide; simpl; naive_solver. Qed.

Lemma MatchesPrefix_enabled g path :
  enabled g = true →
  MatchesPrefix g path = true ↔
  ∃ s1 s2 s3, splitThree path = Some (s1, s2, s3) ∧
    padEqual s1 (slug g) = slug g ∧ padEqual s2 (token1 g) = token1 g ∧
    padEqual s3 (token2 g) = token2 g.
Proof.
  intros He. unfold MatchesPrefix. rewrite He.
  destruct (splitThree path) as [[[s1 s2] s3]|].
  - cbn [andb]. rewrite !ConstantTimeCompare_cases, bit_and_eq1. naive_solver.
  - cbn [andb]. rewrite Z.land_0_r. naive_solver.
Qed.

(** * Properties *)

Section secrets.
Context (g : Gate) (Hwf : gate_wf g).
Context (Hs : nul_free (slug g)) (H1 : nul_free (token1 g)) (H2 : nul_free (token2 g)).

(** The exact language of an enabled gate with NUL-free secrets. *)
Lemma MatchesPrefix_iff path :
  enabled g = true →
  MatchesPrefix g path = true ↔
  ∃ e1 e2 e3 tail,
    path = path_of (slug g ++ e1) (token1 g ++ e2) (token2 g ++ e3) tail ∧
    slash ∉ (slug g ++ e1) ∧ slash ∉ (token1 g ++ e2) ∧ slash ∉ (token2 g ++ e3) ∧ tail_ok tail.
Proof.
  intros He. rewrite MatchesPrefix_enabled by done. unfold padEqual.
  unfold gate_wf in Hwf. rewrite He in Hwf. destruct Hwf as (_ & Ne0 & Ne1 & Ne2). split.
  - intros (s1 & s2 & s3 & Hsp & P1 & P2 & P3).
    apply pad_to_eq_prefix in P1 as [e1 ->], P2 as [e2 ->], P3 as [e3 ->]; try done.
    apply splitThree_Some in Hsp as (tail & -> & [_ ?] & [_ ?] & [_ ?] & ?). eauto 10.
  - intros (e1 & e2 & e3 & tail & -> & ? & ? & ? & ?).
    eexists _, _, _. rewrite splitThree_path_of; [|split; [by apply app_nonnil|done]..|done].
    repeat split; try done; apply pad_to_eq_prefix; try done; by apply prefix_app_r.
Qed.
End secrets.

(** The configurations the installer writes: a gate switched on, three
    non-empty secrets that are single path segments without NUL bytes. *)
Definition cfg_ok (cfg : Config) : Prop :=
  Enabled cfg = true ∧
  segment (Slug cfg) ∧ segment (Token1 cfg) ∧ segment (Token2 cfg) ∧
  nul_free (Slug cfg) ∧ nul_free (Token1 cfg) ∧ nul_free (Token2 cfg).

#[global] Instance segment_dec s : Decision (segment s).
Proof. unfold segment; apply _. Defined.

#[global] Instance cfg_ok_dec cfg : Decision (cfg_ok cfg).
Proof. unfold cfg_ok; apply _. Defined.

Lemma New_enabled cfg :
  cfg_ok cfg →
  New cfg = mkGate true (Slug cfg) (Token1 cfg) (Token2 cfg)
    (make_bytes (length (Slug cfg))) (make_bytes (length (Token1 cfg)))
    (make_bytes (length (Token2 cfg)))
    (join_prefix (Slug cfg) (Token1 cfg) (Token2 cfg)) false.
Proof.
  intros (He & [? _] & [? _] & [? _] & _). unfold New. rewrite He.
  by rewrite !bool_decide_eq_false_2.
Qed.

(** The language of the gate of a well-formed configuration, with the
    handler slot in any state. *)
Lemma New_matches_iff cfg b path :
  cfg_ok cfg →
  MatchesPrefix (SetHandler (New cfg) b) path = true ↔
  ∃ e1 e2 e3 tail,
    path = path_of (Slug cfg ++ e1) (Token1 cfg ++ e2) (Token2 cfg ++ e3) tail ∧
    slash ∉ e1 ∧ slash ∉ e2 ∧ slash ∉ e3 ∧ tail_ok tail.
Proof.
  intros Hc. pose proof Hc as (_ & [_ ?] & [_ ?] & [_ ?] & ? & ? & ?).
  rewrite New_enabled by done. rewrite MatchesPrefix_iff; simpl; try done.
  - setoid_rewrite not_elem_of_app. naive_solver.
  - unfold gate_wf; simpl. unfold cfg_ok, segment in Hc. naive_solver.
Qed.

Lemma length_path_of s1 s2 s3 t :
  length (path_of s1 s2 s3 t) = 3 + length s1 + length s2 + length s3 + length t.
Proof. unfold path_of. simpl. rewrite !length_app. simpl. rewrite !length_app. simpl.
  rewrite !length_app. lia. Qed.

Lemma length_join_prefix s t1 t2 :
  length (join_prefix s t1 t2) = 3 + length s + length t1 + length t2.
Proof. unfold join_prefix. simpl. rewrite !length_app. simpl. rewrite !length_app. simpl. lia. Qed.

Lemma path_of_prefix s t1 t2 tail : path_of s t1 t2 tail = join_prefix s t1 t2 ++ tail.
Proof. unfold path_of, join_prefix. simpl. rewrite <- app_assoc. simpl. by rewrite <- app_assoc. Qed.

Definition ex_cfg : Config := mkConfig true $"panel" $"tok-one" $"tok-two".

Definition ex_req (p : gostring) : Request := mkRequest MethodGet p [] [] [] [] ∅ ∅.

(** ServeHTTP on every branch, and it never panics: with a well-formed
    configuration a request off the prefix gets an empty 404, a request on
    the prefix gets 501 while no handler is installed, and once one is
    installed a request for [prefix ++ tail] reaches it with exactly [tail]
    as its path ("/" when the tail is empty). The slice [path[len(prefix):]]
    is in range for every matched path. *)
Theorem gate_serve_spec cfg b r :
  cfg_ok cfg →
  let g := SetHandler (New cfg) b in
  ServeHTTP g r ≠ Panic ∧
  (MatchesPrefix g (Path r) = false → ServeHTTP g r = Empty StatusNotFound) ∧
  (MatchesPrefix g (Path r) = true → b = false → ServeHTTP g r = Empty StatusNotImplemented) ∧
  (∀ tail, Path r = prefix g ++ tail → tail_ok tail → b = true →
     ServeHTTP g r =
     Delegate (with_path r (if decide (tail = []) then $"/" else tail) (strip_raw g (RawPath r)))).
Proof.
  intros Hc g. subst g.
  pose proof (λ p, New_matches_iff cfg b p Hc) as Hm.
  assert (Hp : prefix (SetHandler (New cfg) b) = join_prefix (Slug cfg) (Token1 cfg) (Token2 cfg)).
  { rewrite New_enabled by done. done. }
  unfold ServeHTTP. rewrite Hp. repeat split.
  - destruct (MatchesPrefix _ _) eqn:E; [|done].
    destruct b; [cbn [negb has_handler SetHandler]|done].
    apply Hm in E as (e1 & e2 & e3 & tail & -> & _).
    unfold slice_from. rewrite decide_True; [done|].
    rewrite length_path_of, length_join_prefix, !length_app. lia.
  - by intros ->.
  - by intros -> ->.
  - intros tail Hpath Ht ->. rewrite Hpath.
    assert (E : MatchesPrefix (SetHandler (New cfg) true)
                  (join_prefix (Slug cfg) (Token1 cfg) (Token2 cfg) ++ tail) = true).
    { apply Hm. exists [], [], [], tail. rewrite !app_nil_r, path_of_prefix.
      repeat split; done || apply not_elem_of_nil. }
    rewrite E. cbn [negb has_handler SetHandler]. unfold slice_from.
    rewrite decide_True by (rewrite length_app; lia). by rewrite drop_app_length.
Qed.

Lemma gate_serve_spec_witness :
  ServeHTTP (SetHandler (New ex_cfg) true) (ex_req $"/panel/tok-one/tok-two/api/x") =
  Delegate (ex_req $"/api/x").
Proof.
  apply (gate_serve_spec ex_cfg true (ex_req $"/panel/tok-one/tok-two/api/x"))
    with (tail := $"/api/x"); [decide_now|done|right; by eexists|done].
Defined.

(** The path has three segments that begin with the three secrets. *)
Definition knows_secrets (cfg : Config) (path : gostring) : Prop :=
  ∃ s1 s2 s3 tail, path = path_of s1 s2 s3 tail ∧ tail_ok tail ∧ segment s1 ∧ segment s2 ∧ segment s3 ∧
    Slug cfg `prefix_of` s1 ∧ Token1 cfg `prefix_of` s2 ∧ Token2 cfg `prefix_of` s3.

(** C9. The URL is the credential. For a gate that is switched on with three
    non-empty secrets free of slashes and NUL bytes, and with a handler: every
    request for /slug/token1/token2, alone or followed by a slash and anything,
    reaches the handler with exactly that remainder as its path; and a request
    whose path does not have three segments that begin with the slug, the
    first and the second token in that order gets the empty 404 and does not
    reach it. *)
Theorem gate_opens_for_secrets cfg r :
  cfg_ok cfg →
  let g := SetHandler (New cfg) true in
  (∀ tail, Path r = path_of (Slug cfg) (Token1 cfg) (Token2 cfg) tail → tail_ok tail →
     ServeHTTP g r =
     Delegate (with_path r (if decide (tail = []) then $"/" else tail) (strip_raw g (RawPath r)))) ∧
  (~ knows_secrets cfg (Path r) → ServeHTTP g r = Empty StatusNotFound).
Proof.
  intros Hc. cbv zeta. destruct (gate_serve_spec cfg true r Hc) as (_ & H404 & _ & Hdel). split.
  - intros tail Hp Ht. apply Hdel; [|done|done]. rewrite Hp, path_of_prefix. by rewrite New_enabled.
  - intros Hk. apply H404. destruct (MatchesPrefix _ _) eqn:E; [|done]. destruct Hk.
    apply New_matches_iff in E as (e1 & e2 & e3 & tail & Hp & S1 & S2 & S3 & Ht); [|done].
    destruct Hc as (_ & [? ?] & [? ?] & [? ?] & _).
    eexists _, _, _, tail. split; [exact Hp|]. split; [done|].
    split_and!; try (by apply prefix_app_r); (split; [by apply app_nonnil|set_solver]).
Qed.

Lemma gate_opens_for_secrets_witness :
  ServeHTTP (SetHandler (New ex_cfg) true) (ex_req $"/panel/tok-one/tok-two/api/x") = Delegate (ex_req $"/api/x") ∧
  ServeHTTP (SetHandler (New ex_cfg) true) (ex_req $"/panel/tok-two/tok-one/") = Empty StatusNotFound.
Proof.
  split.
  - refine (proj1 (gate_opens_for_secrets ex_cfg (ex_req $"/panel/tok-one/tok-two/api/x") ltac:(decide_now)) $"/api/x" _ _);
      [reflexivity|right; by eexists].
  - refine (proj2 (gate_opens_for_secrets ex_cfg (ex_req $"/panel/tok-two/tok-one/") ltac:(decide_now)) _).
    intros (s1 & s2 & s3 & tail & Hp & Ht & H1 & H2 & H3 & _ & [e ->] & _).
    apply (f_equal splitThree) in Hp. rewrite splitThree_path_of in Hp by assumption.
    vm_compute in Hp. discriminate Hp.
Defined.

(** A gate that is switched off, or that misses any of its three secrets,
    answers every request with an empty 404, whatever handler is installed. *)
Theorem gate_disabled_closed cfg b r :
  Enabled cfg = false ∨ Slug cfg = [] ∨ Token1 cfg = [] ∨ Token2 cfg = [] →
  ServeHTTP (SetHandler (New cfg) b) r = Empty StatusNotFound.
Proof.
  intros H. unfold ServeHTTP. rewrite MatchesPrefix_disabled; [done|].
  unfold New. case_match eqn:E; [done|]. exfalso.
  rewrite !orb_false_iff, negb_false_iff, !bool_decide_eq_false in E.
  destruct E as [[[]]], H as [|[|[]]]; congruence.
Qed.

Lemma gate_disabled_closed_witness :
  ServeHTTP (SetHandler (New (mkConfig true $"panel" [] $"t")) true) (ex_req $"/panel//t") =
  Empty StatusNotFound.
Proof.
  apply (gate_disabled_closed (mkConfig true $"panel" [] $"t") true). right; right; by left.
Defined.

(** Extended segments are accepted too. For every non-empty suffix without
    a slash, "/<slug><suffix>/<token1>/<token2>" matches the gate and is
    delegated, and since the configured prefix length is stripped from the
    longer path, the handler is given the last [length suffix] bytes of the
    path instead of "/". *)
Theorem gate_accepts_extended_slug cfg e r :
  cfg_ok cfg → e ≠ [] → slash ∉ e →
  Path r = path_of (Slug cfg ++ e) (Token1 cfg) (Token2 cfg) [] →
  ∃ r', ServeHTTP (SetHandler (New cfg) true) r = Delegate r' ∧ length (Path r') = length e.
Proof.
  intros Hc Hne He Hpath. unfold ServeHTTP.
  assert (E : MatchesPrefix (SetHandler (New cfg) true) (Path r) = true).
  { apply New_matches_iff; [done|]. exists e, [], [], []. rewrite !app_nil_r.
    repeat split; try done; try apply not_elem_of_nil. by left. }
  rewrite E. rewrite New_enabled by done.
  cbn [negb has_handler SetHandler prefix]. unfold slice_from.
  assert (Hl : length (drop (length (join_prefix (Slug cfg) (Token1 cfg) (Token2 cfg))) (Path r))
               = length e).
  { rewrite length_drop, Hpath, length_path_of, length_join_prefix, length_app. simpl. lia. }
  rewrite decide_True.
  2:{ rewrite Hpath, length_path_of, length_join_prefix, length_app. lia. }
  eexists; split; [done|]. cbn [Path with_path]. case_decide as Hd; [|done].
  rewrite Hd in Hl. by destruct e.
Qed.

Lemma gate_accepts_extended_slug_witness :
  ∃ r', ServeHTTP (SetHandler (New ex_cfg) true) (ex_req $"/panelXYZ/tok-one/tok-two") = Delegate r'
        ∧ length (Path r') = 3.
Proof.
  apply (gate_accepts_extended_slug ex_cfg $"XYZ"); [decide_now|done|decide_now|done].
Defined.

(** Redaction. A path the gate does not match is logged unchanged; from a
    matched path the three secret segments are removed: what is logged is
    "/**/**/**" followed by the remainder after the third segment (a lone
    trailing slash is dropped). *)
Theorem redact_hides_secrets cfg b path :
  cfg_ok cfg →
  let g := SetHandler (New cfg) b in
  (MatchesPrefix g path = false → redactPath (Some g) path = path) ∧
  (MatchesPrefix g path = true → ∃ s1 s2 s3 tail,
     path = path_of s1 s2 s3 tail ∧ segment s1 ∧ segment s2 ∧ segment s3 ∧ tail_ok tail ∧
     redactPath (Some g) path =
       $"/**/**/**" ++ (if decide (tail = [slash]) then [] else tail)).
Proof.
  intros Hc g. split; [unfold redactPath; by intros ->|].
  intros E. unfold redactPath. rewrite E. cbn [negb].
  apply New_matches_iff in E; [|done]. destruct E as (e1 & e2 & e3 & tail & Hp & S1 & S2 & S3 & Ht).
  destruct Hc as (_ & [N1 ?] & [N2 ?] & [N3 ?] & _).
  exists (Slug cfg ++ e1), (Token1 cfg ++ e2), (Token2 cfg ++ e3), tail.
  assert (Hseg : ∀ a x, a ≠ [] → slash ∉ a → slash ∉ x → segment (a ++ x)).
  { intros. split; [by apply app_nonnil|]. set_solver. }
  repeat split; try (apply Hseg; done); try done.
  rewrite Hp. unfold path_of. rewrite decide_True by done.
  pose proof (Hseg _ _ N1 H S1) as [_ T1]. pose proof (Hseg _ _ N2 H0 S2) as [_ T2].
  pose proof (Hseg _ _ N3 H1 S3) as [_ T3].
  rewrite (SplitN_cut _ _ 2 _ _ (cut_byte_app _ _ _ T1)).
  rewrite (SplitN_cut _ _ 1 _ _ (cut_byte_app _ _ _ T2)).
  destruct Ht as [->|[t ->]].
  - rewrite app_nil_r. simpl SplitN.
    destruct (cut_byte slash (Token2 cfg ++ e3)) as [[]|] eqn:Ec; [|done].
    apply cut_byte_Some in Ec as [Ec _]. rewrite Ec in T3. set_solver.
  - rewrite (SplitN_cut _ _ 0 _ _ (cut_byte_app _ _ _ T3)). simpl SplitN.
    destruct (decide (t = [])) as [->|Hn]; [done|].
    rewrite !decide_False; [done|by intros [= ->]|done].
Qed.

Lemma redact_hides_secrets_witness :
  ∃ s1 s2 s3 tail, $"/panel/tok-one/tok-two/api" = path_of s1 s2 s3 tail ∧
    segment s1 ∧ segment s2 ∧ segment s3 ∧ tail_ok tail ∧
    redactPath (Some (SetHandler (New ex_cfg) true)) $"/panel/tok-one/tok-two/api" =
       $"/**/**/**" ++ (if decide (tail = [slash]) then [] else tail).
Proof.
  apply (redact_hides_secrets ex_cfg true); [decide_now|by vm_compute].
Defined.
