(* ===== verification/Lockout.v ===== *)
(** The per-IP lockout of the admin gate (src/internal/admin/lockout.go):
    two sliding failure windows, a short backoff and a long ban, with
    compaction of old timestamps and garbage collection of idle entries.

    The abstract specification keeps the whole failure history of an address
    and decides from it; the theorem of this file shows that the pruned,
    garbage-collected table takes the same decisions. *)

From S2P Require Import Prelude.

(** * Data *)

Inductive State := StateAllowed | StateSoftBackoff | StateHardBanned.

#[global] Instance State_eq_dec : EqDecision State.
Proof. solve_decision. Defined.

Record LockoutConfig := mkLockoutConfig {
  SoftThreshold : Z;
  SoftWindow : duration;
  SoftBackoff : duration;
  HardThreshold : Z;
  HardWindow : duration;
  HardBan : duration
}.

Record entry := mkEntry {
  failures : list time;
  softUntil : time;
  hardUntil : time
}.

(** The zero value [&entry{}]. *)
Definition entry_zero : entry := mkEntry [] time_zero time_zero.

(** The table [entries map[string]*entry]; the configuration is fixed and the
    clock is an argument of every operation. *)
Abbreviation Lockout := (gmap gostring entry).

Definition NewLockout : Lockout := ∅.

(** * Operations *)

Definition stateLocked (e : entry) (now : time) : State :=
  if After (hardUntil e) now then StateHardBanned
  else if After (softUntil e) now then StateSoftBackoff
  else StateAllowed.

(** The compaction loop: keep the timestamps that are not before the cutoff. *)
Definition compact (cutoff : time) (fs : list time) : list time :=
  List.filter (λ ts, negb (Before ts cutoff)) fs.

Definition RecordFailure (cfg : LockoutConfig) (now : time) (ipHash : gostring)
    (l : Lockout) : Lockout * State :=
  let e := default entry_zero (l !! ipHash) in
  let cutoff := time_add now (dur_neg (HardWindow cfg)) in
  let fs := compact cutoff (failures e ++ [now]) in
  let hardCount := Z.of_nat (length fs) in
  let softCutoff := time_add now (dur_neg (SoftWindow cfg)) in
  let softCount := Z.of_nat (length (compact softCutoff fs)) in
  let hu := if (Z.ltb 0 (HardThreshold cfg) && Z.leb (HardThreshold cfg) hardCount)%bool
            then time_add now (HardBan cfg) else hardUntil e in
  let newUntil := time_add now (SoftBackoff cfg) in
  let su := if (Z.ltb 0 (SoftThreshold cfg) && Z.leb (SoftThreshold cfg) softCount)%bool
            then (if After newUntil (softUntil e) then newUntil else softUntil e)
            else softUntil e in
  let e' := mkEntry fs su hu in
  (<[ipHash := e']> l, stateLocked e' now).

Definition RecordSuccess (ipHash : gostring) (l : Lockout) : Lockout := delete ipHash l.

Definition Check (now : time) (ipHash : gostring) (l : Lockout) : State :=
  match l !! ipHash with
  | None => StateAllowed
  | Some e => stateLocked e now
  end.

(** gcOnce on one entry: None when the entry is dropped. *)
Definition gc_entry (cfg : LockoutConfig) (now : time) (e : entry) : option entry :=
  if (After (hardUntil e) now || After (softUntil e) now)%bool then Some e
  else
    let keep := compact (time_add now (dur_neg (HardWindow cfg))) (failures e) in
    if decide (keep = []) then None else Some (mkEntry keep (softUntil e) (hardUntil e)).

Definition gcOnce (cfg : LockoutConfig) (now : time) (l : Lockout) : Lockout :=
  omap (gc_entry cfg now) l.

(** * Traces *)

Inductive event :=
| EvFailure (ip : gostring) (t : time)
| EvSuccess (ip : gostring) (t : time)
| EvGC (t : time).

Definition ev_time (ev : event) : time :=
  match ev with EvFailure _ t | EvSuccess _ t | EvGC t => t end.

Definition step (cfg : LockoutConfig) (l : Lockout) (ev : event) : Lockout :=
  match ev with
  | EvFailure ip t => fst (RecordFailure cfg t ip l)
  | EvSuccess ip _ => RecordSuccess ip l
  | EvGC t => gcOnce cfg t l
  end.

Definition run (cfg : LockoutConfig) (evs : list event) : Lockout :=
  foldl (step cfg) NewLockout evs.

(** * Abstract specification *)

(** The failures of an address since its last successful entry. *)
Definition spec_step (ip : gostring) (h : list time) (ev : event) : list time :=
  match ev with
  | EvFailure ip' t => if decide (ip' = ip) then h ++ [t] else h
  | EvSuccess ip' _ => if decide (ip' = ip) then [] else h
  | EvGC _ => h
  end.

Definition history (ip : gostring) (evs : list event) : list time :=
  foldl (spec_step ip) [] evs.

(** The failures no older than [w] at instant [t]. *)
Definition recent (w : duration) (t : time) (h : list time) : list time :=
  List.filter (λ ts, Z.leb (t - w) ts) h.

(** A failure at [t], preceded by the history [p], trips the threshold. *)
Definition trips (thr : Z) (w : duration) (p : list time) (t : time) : Prop :=
  (0 < thr ∧ thr ≤ Z.of_nat (length (recent w t (p ++ [t]))))%Z.

(** Some failure of the history tripped the threshold less than [ban] ago. *)
Definition ban_active (thr : Z) (w ban : duration) (h : list time) (now : time) : Prop :=
  ∃ p t q, h = p ++ t :: q ∧ trips thr w p t ∧ (now < t + ban)%Z.

Definition cfg_ok (cfg : LockoutConfig) : Prop :=
  (0 ≤ SoftWindow cfg ≤ HardWindow cfg)%Z ∧ (HardWindow cfg ≤ max_int64)%Z.

(** The clock does not run backwards along the trace and starts after year 1. *)
Definition monotone (evs : list event) (now : time) : Prop :=
  StronglySorted Z.le ((ev_time <$> evs) ++ [now]) ∧
  Forall (Z.le time_zero) ((ev_time <$> evs) ++ [now]).

(** * Lemmas *)

Lemma compact_recent w now fs :
  (0 ≤ w ≤ max_int64)%Z → compact (time_add now (dur_neg w)) fs = recent w now fs.
Proof.
  intros Hw. unfold compact, recent, time_add, dur_neg. rewrite wrap64_id.
  2:{ unfold in_int64, min_int64, max_int64 in *. lia. }
  induction fs as [|x fs IH]; [done|]. simpl. unfold Before in *. rewrite IH.
  replace (now + - w)%Z with (now - w)%Z by lia.
  by rewrite Z.leb_antisym.
Qed.

Lemma recent_app w t h h' : recent w t (h ++ h') = recent w t h ++ recent w t h'.
Proof. apply List.filter_app. Qed.

(** A later and narrower window sees the same failures after a wider, earlier
    compaction. *)
Lemma recent_recent w w' t t' h :
  (t' - w' ≤ t - w)%Z → recent w t (recent w' t' h) = recent w t h.
Proof.
  intros. induction h as [|x h IH]; [done|]. simpl.
  destruct (Z.leb_spec (t' - w') x); simpl; rewrite IH; [done|].
  destruct (Z.leb_spec (t - w) x); [lia|done].
Qed.

Lemma ban_active_nil thr w ban now : ¬ ban_active thr w ban [] now.
Proof. intros (p & t & q & Hh & _). by destruct p. Qed.

Lemma ban_active_snoc thr w ban h t now :
  ban_active thr w ban (h ++ [t]) now ↔
  ban_active thr w ban h now ∨ (trips thr w h t ∧ (now < t + ban)%Z).
Proof.
  split.
  - intros (p & t' & q & Hh & Ht & Hb). destruct q as [|y q _] using rev_ind.
    + apply app_inj_tail in Hh as [-> ->]. by right.
    + rewrite app_comm_cons, app_assoc in Hh. apply app_inj_tail in Hh as [-> ->].
      left. by exists p, t', q.
  - intros [(p & t' & q & -> & Ht & Hb)|[Ht Hb]].
    + exists p, t', (q ++ [t]). by rewrite <- app_assoc.
    + by exists h, t, [].
Qed.

Lemma ban_active_bound thr w ban h now t :
  Forall (λ x, x ≤ t)%Z h → ban_active thr w ban h now → (now < t + ban)%Z.
Proof.
  intros Hf (p & t' & q & -> & _ & Hb). rewrite Forall_app, Forall_cons in Hf. lia.
Qed.

(** The two ways a deadline is moved: overwritten by a later one, or extended
    when the new one is later. *)
Lemma deadline_overwrite thr n u t ban now :
  (After u now = true → now < t + ban)%Z →
  After (if (Z.ltb 0 thr && Z.leb thr n)%bool then (t + ban)%Z else u) now = true ↔
  After u now = true ∨ ((0 < thr ∧ thr ≤ n)%Z ∧ (now < t + ban)%Z).
Proof.
  unfold After. destruct (Z.ltb_spec 0 thr), (Z.leb_spec thr n); simpl;
    rewrite ?Z.ltb_lt; lia.
Qed.

Lemma deadline_extend thr n u t ban now :
  After (if (Z.ltb 0 thr && Z.leb thr n)%bool
         then (if After (t + ban) u then (t + ban)%Z else u) else u) now = true ↔
  After u now = true ∨ ((0 < thr ∧ thr ≤ n)%Z ∧ (now < t + ban)%Z).
Proof.
  unfold After. destruct (Z.ltb_spec 0 thr), (Z.leb_spec thr n), (Z.ltb_spec u (t + ban));
    simpl; rewrite ?Z.ltb_lt; lia.
Qed.

(** * The simulation invariant *)

Section invariant.
Context (cfg : LockoutConfig) (Hcfg : cfg_ok cfg).

(** The table entry [oe] of an address represents the history [h] at instant
    [last]: from then on it shows the same recent failures and the same live
    bans as the full history does. *)
Definition represents (oe : option entry) (h : list time) (last : time) : Prop :=
  let e := default entry_zero oe in
  Forall (λ t, t ≤ last)%Z h ∧
  ∀ now, (last ≤ now)%Z →
    recent (HardWindow cfg) now (failures e) = recent (HardWindow cfg) now h ∧
    (After (hardUntil e) now = true ↔
       ban_active (HardThreshold cfg) (HardWindow cfg) (HardBan cfg) h now) ∧
    (After (softUntil e) now = true ↔
       ban_active (SoftThreshold cfg) (SoftWindow cfg) (SoftBackoff cfg) h now).

Lemma represents_mono oe h l l' : (l ≤ l')%Z → represents oe h l → represents oe h l'.
Proof.
  intros Hl [Hb Hr]. split.
  - eapply Forall_impl; [done|]. simpl. lia.
  - intros now Hn. apply Hr. lia.
Qed.

Lemma represents_nil last : (time_zero ≤ last)%Z → represents None [] last.
Proof.
  intros Hz. split; [done|]. intros now Hn. simpl. unfold After. repeat split; try done.
  - intros ?%Z.ltb_lt. lia.
  - by intros ?%ban_active_nil.
  - intros ?%Z.ltb_lt. lia.
  - by intros ?%ban_active_nil.
Qed.

(** The counts computed on the pruned list are those of the full history. *)
Lemma pruned_counts oe h last t :
  represents oe h last → (last ≤ t)%Z →
  let fs := compact (time_add t (dur_neg (HardWindow cfg)))
              (failures (default entry_zero oe) ++ [t]) in
  fs = recent (HardWindow cfg) t (h ++ [t]) ∧
  compact (time_add t (dur_neg (SoftWindow cfg))) fs = recent (SoftWindow cfg) t (h ++ [t]).
Proof.
  intros Hr Ht fs. destruct Hcfg as [Hs Hm]. subst fs.
  rewrite !compact_recent by lia.
  assert (E : recent (HardWindow cfg) t (failures (default entry_zero oe) ++ [t])
            = recent (HardWindow cfg) t (h ++ [t])).
  { rewrite !recent_app. f_equal. by apply Hr. }
  rewrite E. split; [done|]. apply recent_recent. lia.
Qed.

Lemma represents_failure l ip h last t :
  represents (l !! ip) h last → (last ≤ t)%Z →
  represents (fst (RecordFailure cfg t ip l) !! ip) (h ++ [t]) t.
Proof.
  intros Hr Ht. unfold RecordFailure. cbn [fst].
  destruct (pruned_counts _ _ _ _ Hr Ht) as [-> ->].
  rewrite lookup_insert_eq. destruct Hr as [Hb Hr]. split.
  { apply Forall_app. split; [|by constructor]. eapply Forall_impl; [done|]. simpl. lia. }
  intros now Hn. cbn [default failures hardUntil softUntil].
  destruct (Hr now ltac:(lia)) as (_ & Hh & Hs).
  rewrite !ban_active_snoc. unfold trips, time_add. split; [|split].
  - apply recent_recent. lia.
  - rewrite <- Hh. apply deadline_overwrite. intros Ha%Hh.
    eapply ban_active_bound; [|done]. eapply Forall_impl; [done|]. simpl. lia.
  - rewrite <- Hs. apply deadline_extend.
Qed.

Lemma represents_other l ip ip' t : ip ≠ ip' →
  fst (RecordFailure cfg t ip' l) !! ip = l !! ip.
Proof. intros. unfold RecordFailure. cbn [fst]. by rewrite lookup_insert_ne. Qed.

(** Garbage collection is invisible from the collection instant on. *)
Lemma represents_gc oe h last t :
  represents oe h last → (last ≤ t)%Z → (time_zero ≤ t)%Z →
  represents (oe ≫= gc_entry cfg t) h t.
Proof.
  intros Hr Ht Hz. destruct oe as [e|]; simpl; [|by apply (represents_mono _ _ last)].
  destruct Hcfg as [Hw Hm]. unfold gc_entry.
  destruct (After (hardUntil e) t || After (softUntil e) t)%bool eqn:Ea.
  { by apply (represents_mono _ _ last). }
  apply orb_false_iff in Ea as [Eh Es]. rewrite compact_recent by lia.
  destruct (represents_mono _ _ _ _ Ht Hr) as [Hb Hr']. split; [done|].
  intros now Hn. destruct (Hr' now Hn) as (Hf & Hh & Hs). simpl in *.
  assert (He : recent (HardWindow cfg) now (recent (HardWindow cfg) t (failures e))
             = recent (HardWindow cfg) now h) by (rewrite recent_recent; [done|lia]).
  case_decide as Hd; [|done]. rewrite Hd in He. simpl. split; [done|].
  rewrite <- Hh, <- Hs. unfold After in *. rewrite !Z.ltb_lt. rewrite Z.ltb_ge in Eh, Es. lia.
Qed.

Lemma represents_step l ip h last ev :
  represents (l !! ip) h last → (last ≤ ev_time ev)%Z → (time_zero ≤ ev_time ev)%Z →
  represents (step cfg l ev !! ip) (spec_step ip h ev) (ev_time ev).
Proof.
  intros Hr Hl Hz. destruct ev as [ip' t|ip' t|t]; cbn [step spec_step ev_time] in *.
  - case_decide as Hd; subst; [by eapply represents_failure|].
    rewrite represents_other by done. by apply (represents_mono _ _ last).
  - unfold RecordSuccess. case_decide as Hd; subst.
    + rewrite lookup_delete_eq. by apply represents_nil.
    + rewrite lookup_delete_ne by done. by apply (represents_mono _ _ last).
  - unfold gcOnce. rewrite lookup_omap. by eapply represents_gc.
Qed.

Lemma represents_run evs now ip :
  monotone evs now → represents (run cfg evs !! ip) (history ip evs) now.
Proof.
  unfold run, history. intros [Hs Hz].
  assert (G : ∀ l h last, represents (l !! ip) h last →
    StronglySorted Z.le (last :: (ev_time <$> evs) ++ [now]) →
    represents (foldl (step cfg) l evs !! ip) (foldl (spec_step ip) h evs) now).
  { clear Hs. induction evs as [|ev evs IH]; intros l h last Hr Hst; simpl in *.
    - inversion Hst as [|?? _ Hf]; subst. inversion Hf; subst. by apply (represents_mono _ _ last).
    - inversion Hst as [|?? Hst' Hf]; subst. inversion Hf; subst. inversion Hz; subst.
      eapply (IH H4 _ _ (ev_time ev)); [|done]. by apply (represents_step _ _ _ last). }
  eapply (G _ _ time_zero); [by apply represents_nil|]. by constructor.
Qed.
End invariant.

Lemma Check_represents cfg l ip h now :
  represents cfg (l !! ip) h now → (time_zero ≤ now)%Z →
  (Check now ip l = StateHardBanned ↔
     ban_active (HardThreshold cfg) (HardWindow cfg) (HardBan cfg) h now) ∧
  (Check now ip l = StateAllowed ↔
     ¬ ban_active (HardThreshold cfg) (HardWindow cfg) (HardBan cfg) h now ∧
     ¬ ban_active (SoftThreshold cfg) (SoftWindow cfg) (SoftBackoff cfg) h now).
Proof.
  intros [_ Hr] Hz. destruct (Hr now ltac:(done)) as (_ & <- & <-).
  unfold Check. destruct (l !! ip) as [e|]; simpl.
  - unfold stateLocked. destruct (After (hardUntil e) now), (After (softUntil e) now); naive_solver.
  - unfold After. rewrite !Z.ltb_lt. split; split; try done; lia.
Qed.

Lemma monotone_zero evs now : monotone evs now → (time_zero ≤ now)%Z.
Proof. intros [_ Hf]. rewrite Forall_app in Hf. destruct Hf as [_ Hf]. by inversion Hf. Qed.

(** * Properties *)

Definition ex_lcfg : LockoutConfig :=
  mkLockoutConfig 3 (60 * Second) (30 * Second) 10 (10 * Minute) Hour.

Definition ex_ip : gostring := $"a1b2".

Definition ex_trace : list event :=
  [EvFailure ex_ip 0; EvFailure ex_ip Second; EvGC (2 * Second); EvFailure ex_ip (3 * Second)].

(** C15. The lockout table decides like the full failure history. With windows
    that are not negative, the soft one no longer than the hard one, along any
    trace of failures, successful entries and garbage collections with a
    clock that does not run backwards and stands after year 1, an address is hard-banned exactly when
    one of its failures since its last successful entry tripped the long
    window less than HardBan ago, and it is allowed exactly when neither
    window was tripped within its penalty; compaction and collection never
    change a decision. *)
Theorem lockout_refines_history cfg evs ip now :
  cfg_ok cfg → monotone evs now →
  (Check now ip (run cfg evs) = StateHardBanned ↔
     ban_active (HardThreshold cfg) (HardWindow cfg) (HardBan cfg) (history ip evs) now) ∧
  (Check now ip (run cfg evs) = StateAllowed ↔
     ¬ ban_active (HardThreshold cfg) (HardWindow cfg) (HardBan cfg) (history ip evs) now ∧
     ¬ ban_active (SoftThreshold cfg) (SoftWindow cfg) (SoftBackoff cfg) (history ip evs) now).
Proof.
  intros Hc Hm. apply Check_represents; [by apply represents_run|by eapply monotone_zero].
Qed.

Lemma ex_trace_monotone now : (3 * Second ≤ now)%Z → monotone ex_trace now.
Proof.
  unfold ex_trace, Second. intros. split; simpl; spread; unfold time_zero, Second; lia.
Qed.

Lemma lockout_refines_history_witness :
  ¬ ban_active 10 (10 * Minute) Hour (history ex_ip ex_trace) (4 * Second) ∧
  Check (4 * Second) ex_ip (run ex_lcfg ex_trace) = StateSoftBackoff.
Proof.
  split; [|by vm_compute].
  pose proof (lockout_refines_history ex_lcfg ex_trace ex_ip (4 * Second)
    ltac:(by vm_compute) (ex_trace_monotone (4 * Second) ltac:(unfold Second; lia))) as [H _].
  intros Hb%H. by vm_compute in Hb.
Defined.

Lemma ban_active_trips thr w ban h now :
  ban_active thr w ban h now → (thr ≤ Z.of_nat (length h))%Z.
Proof.
  intros (p & t & q & -> & [_ Ht] & _). etrans; [exact Ht|].
  unfold recent. pose proof (List.filter_length_le (λ ts, t - w <=? ts)%Z (p ++ [t])).
  rewrite !length_app in *. simpl in *. lia.
Qed.

Lemma ban_active_elem thr w ban h now :
  ban_active thr w ban h now → ∃ t, t ∈ h ∧ (now < t + ban)%Z.
Proof. intros (p & t & q & -> & _ & Hb). exists t. split; [set_solver|done]. Qed.

(** Nobody is locked out early, and nobody is locked out for good: an
    address with fewer failures since its last entry than either threshold is
    allowed, and so is any address whose every failure is older than both
    penalties. *)
Theorem lockout_no_false_lock cfg evs ip now :
  cfg_ok cfg → monotone evs now →
  (Z.of_nat (length (history ip evs)) < SoftThreshold cfg ∧
   Z.of_nat (length (history ip evs)) < HardThreshold cfg)%Z ∨
  (∀ t, t ∈ history ip evs → t + HardBan cfg ≤ now ∧ t + SoftBackoff cfg ≤ now)%Z →
  Check now ip (run cfg evs) = StateAllowed.
Proof.
  intros Hc Hm H. apply (Check_represents cfg _ _ (history ip evs));
    [by apply represents_run|by eapply monotone_zero|].
  destruct H as [[H1 H2]|H]; split; intros Hb.
  - apply ban_active_trips in Hb. lia.
  - apply ban_active_trips in Hb. lia.
  - apply ban_active_elem in Hb as (t & Ht & ?). apply H in Ht. lia.
  - apply ban_active_elem in Hb as (t & Ht & ?). apply H in Ht. lia.
Qed.

Lemma lockout_no_false_lock_witness :
  Check (2 * Hour) ex_ip (run ex_lcfg ex_trace) = StateAllowed.
Proof.
  apply (lockout_no_false_lock ex_lcfg ex_trace ex_ip (2 * Hour)).
  - by vm_compute.
  - apply ex_trace_monotone. unfold Second, Hour. lia.
  - right. intros t Ht. vm_compute in Ht. unfold ex_lcfg, Hour, Second; simpl.
    repeat (apply elem_of_cons in Ht as [->|Ht]; [lia|]). by apply elem_of_nil in Ht.
Defined.
