(* ===== verification/Session.v ===== *)
(** Admin sessions and CSRF tokens (src/internal/admin/session.go, csrf.go):
    the session store with its two expiry dimensions, the constant-time scan
    used for lookups, token generation and the CSRF check.

    Randomness is an input: every operation that draws random bytes takes
    them as an argument, None standing for a failing reader. *)

From S2P Require Import Prelude Http.

(** * Tokens: base64url without padding *)

Definition b64url_alphabet : gostring :=
  $"ABCDEFGHIJKLMNOPQRSTUVWXYZabcdefghijklmnopqrstuvwxyz0123456789-_".

Definition b64_char (n : N) : ascii :=
  default "A"%char (b64url_alphabet !! N.to_nat (N.land n 63)).

Fixpoint b64_encode (s : gostring) : gostring :=
  match s with
  | a :: b :: c :: s' =>
      let v := (N_of_ascii a * 65536 + N_of_ascii b * 256 + N_of_ascii c)%N in
      b64_char (N.shiftr v 18) :: b64_char (N.shiftr v 12) :: b64_char (N.shiftr v 6)
        :: b64_char v :: b64_encode s'
  | [a; b] =>
      let v := (N_of_ascii a * 65536 + N_of_ascii b * 256)%N in
      [b64_char (N.shiftr v 18); b64_char (N.shiftr v 12); b64_char (N.shiftr v 6)]
  | [a] =>
      let v := (N_of_ascii a * 65536)%N in
      [b64_char (N.shiftr v 18); b64_char (N.shiftr v 12)]
  | [] => []
  end.

Definition sessionIDBytes : Z := 32.
Definition csrfBytes : Z := 32.

Inductive token_error := ErrTokenSize | ErrRand.

(** [rnd] is what crypto/rand put into the n-byte buffer. *)
Definition randomToken (n : Z) (rnd : option gostring) : result token_error gostring :=
  if Z.leb n 0 then Err ErrTokenSize
  else match rnd with
       | None => Err ErrRand
       | Some buf => Ok (b64_encode buf)
       end.

Definition GenerateCSRFToken (rnd : option gostring) : result token_error gostring :=
  randomToken csrfBytes rnd.

(** * The session store *)

Record Session := mkSession {
  ID : gostring;
  IPHash : gostring;
  CreatedAt : time;
  LastSeen : time;
  CSRFToken : gostring;
  ExpiresAt : time
}.

Record SessionStore := mkStore {
  sessions : gmap gostring Session;
  idleTTL : duration;
  absoluteTTL : duration
}.

Definition NewSessionStore (idle absolute : duration) : SessionStore := mkStore ∅ idle absolute.

Definition set_sessions (s : SessionStore) (m : gmap gostring Session) : SessionStore :=
  mkStore m (idleTTL s) (absoluteTTL s).

Definition Create (now : time) (ipHash : gostring) (r1 r2 : option gostring) (s : SessionStore)
    : result token_error (SessionStore * Session) :=
  let* id := randomToken sessionIDBytes r1 in
  let* csrf := randomToken csrfBytes r2 in
  let sess := mkSession id ipHash now now csrf (time_add now (absoluteTTL s)) in
  Ok (set_sessions s (<[id := sess]> (sessions s)), sess).

(** Both expiry tests of the store, as Get, Refresh, gcOnce and Snapshot run them. *)
Definition expired (s : SessionStore) (now : time) (x : Session) : bool :=
  (negb (After (ExpiresAt x) now) || Z.leb (idleTTL s) (time_sub now (LastSeen x)))%bool.

(** The package's padTo: a fresh 64-byte buffer. *)
Definition padTo (src : gostring) : gostring := pad_to 64 src.

(** The scan of Get over the whole map: every entry is compared, the last hit wins. *)
Definition scan (id : gostring) (l : list (gostring * Session)) : option Session :=
  foldl (λ acc '(sid, sess),
           if Z.eqb (ConstantTimeCompare (padTo id) (padTo sid)) 1 then Some sess else acc)
        None l.

Definition Get (now : time) (id : gostring) (s : SessionStore) : option Session :=
  match scan id (map_to_list (sessions s)) with
  | None => None
  | Some x => if expired s now x then None else Some x
  end.

Definition touch (now : time) (x : Session) : Session :=
  mkSession (ID x) (IPHash x) (CreatedAt x) now (CSRFToken x) (ExpiresAt x).

Definition Refresh (now : time) (id : gostring) (s : SessionStore) : SessionStore * bool :=
  match sessions s !! id with
  | None => (s, false)
  | Some x =>
      if negb (After (ExpiresAt x) now) then (set_sessions s (delete id (sessions s)), false)
      else if Z.leb (idleTTL s) (time_sub now (LastSeen x))
      then (set_sessions s (delete id (sessions s)), false)
      else (set_sessions s (<[id := touch now x]> (sessions s)), true)
  end.

Definition Delete (id : gostring) (s : SessionStore) : SessionStore * bool :=
  match sessions s !! id with
  | None => (s, false)
  | Some _ => (set_sessions s (delete id (sessions s)), true)
  end.

Definition gcOnce (now : time) (s : SessionStore) : SessionStore :=
  set_sessions s (filter (λ kv, expired s now kv.2 = false) (sessions s)).

Definition Snapshot (now : time) (s : SessionStore) : list Session :=
  List.filter (λ x, negb (expired s now x)) (map_to_list (sessions s)).*2.

(** * Cookies *)

Definition CookieName : gostring := $"gw_adm".

(** The attributes of a Set-Cookie the handlers vary; HttpOnly, Secure and
    SameSite=Strict are fixed. *)
Record Cookie := mkCookie {
  ckName : gostring;
  ckValue : gostring;
  ckPath : gostring;
  ckMaxAge : Z
}.

Definition SetSessionCookie (pathPrefix : gostring) (x : Session) (idle : duration) : Cookie :=
  mkCookie CookieName (ID x) (if decide (pathPrefix = []) then $"/" else pathPrefix)
           (Z.quot idle Second).

Definition ClearSessionCookie (pathPrefix : gostring) : Cookie :=
  mkCookie CookieName [] (if decide (pathPrefix = []) then $"/" else pathPrefix) (-1).

Definition SessionIDFromRequest (r : Request) : gostring := default [] (Cookies r !! CookieName).

(** * CSRF *)

Definition CSRFHeader : gostring := $"X-Csrf-Token".

Definition isSafeMethod (m : gostring) : bool :=
  bool_decide (m = MethodGet ∨ m = MethodHead ∨ m = MethodOptions).

Definition ValidateCSRF (sess : option Session) (r : Request) : bool :=
  match sess with
  | None => false
  | Some x =>
      if isSafeMethod (Method r) then true
      else
        let provided := hdr_get (ReqHeader r) CSRFHeader in
        if decide (provided = []) then false
        else if decide (CSRFToken x = []) then false
        else Z.eqb (ConstantTimeCompare (pad_to 64 provided) (pad_to 64 (CSRFToken x))) 1
  end.

(** * Lemmas: tokens *)

Lemma b64_char_nonnul n : b64_char n ≠ NUL.
Proof.
  unfold b64_char. intros H.
  assert (Hf : Forall (λ c, c ≠ NUL) b64url_alphabet) by decide_now.
  destruct (b64url_alphabet !! _) as [c|] eqn:E; simpl in H; [|done].
  apply list_elem_of_lookup_2 in E. rewrite Forall_forall in Hf. by apply (Hf c).
Qed.

(** Induction three bytes at a time. *)
Lemma three_ind (P : gostring → Prop) :
  P [] → (∀ a, P [a]) → (∀ a b, P [a; b]) → (∀ a b c s, P s → P (a :: b :: c :: s)) →
  ∀ s, P s.
Proof.
  intros H0 H1 H2 H3.
  fix IH 1. intros [|a [|b [|c s]]]; [done|done|done|]. apply H3, IH.
Qed.

Lemma b64_encode_nul_free s : nul_free (b64_encode s).
Proof.
  unfold nul_free.
  induction s as [|a|a b|a b c s IH] using three_ind; simpl;
    rewrite ?not_elem_of_cons; repeat split; try apply not_elem_of_nil; try done;
    by apply not_eq_sym, b64_char_nonnul.
Qed.

Lemma length_b64_encode s :
  length (b64_encode s) = length s + length s / 3 + (if length s mod 3 =? 0 then 0 else 1).
Proof.
  induction s as [|a|a b|a b c s IH] using three_ind; [done..|].
  cbn [b64_encode length]. rewrite IH.
  replace (S (S (S (length s)))) with (length s + 1 * 3) by lia.
  rewrite Nat.div_add, Nat.Div0.mod_add by lia. lia.
Qed.

(** What a session id or CSRF token looks like. *)
Definition token_ok (t : gostring) : Prop := nul_free t ∧ length t = 43.

#[global] Instance token_ok_dec t : Decision (token_ok t).
Proof. unfold token_ok; apply _. Defined.

Lemma randomToken_ok n rnd t :
  (∀ buf, rnd = Some buf → Z.of_nat (length buf) = 32%Z) →
  randomToken n rnd = Ok t → token_ok t.
Proof.
  intros Hl. unfold randomToken. destruct (Z.leb n 0); [done|].
  destruct rnd as [buf|]; [|done]. intros [= <-].
  pose proof (Hl _ eq_refl). split; [apply b64_encode_nul_free|].
  rewrite length_b64_encode. by replace (length buf) with 32 by lia.
Qed.

(** Padding to 64 bytes tells a stored token from every other NUL-free string,
    also from longer ones, which it truncates. *)
Lemma padTo_token t s : token_ok t → nul_free s → padTo s = padTo t ↔ s = t.
Proof.
  intros [Ht Hl] Hs. unfold padTo. split; [|by intros ->]. intros Heq.
  destruct (decide (length s ≤ 64)) as [Hle|Hgt].
  - apply (pad_to_inj 64); try done. lia.
  - exfalso. apply Hs. rewrite pad_to_long, pad_to_short in Heq by lia.
    rewrite <- (take_drop 64 s), Heq. apply elem_of_app. left.
    apply elem_of_app. right. apply elem_of_replicate. split; [done|lia].
Qed.

(** * The store invariant *)

Definition session_wf (absolute : duration) (id : gostring) (x : Session) : Prop :=
  ID x = id ∧ token_ok id ∧ token_ok (CSRFToken x) ∧ ExpiresAt x = time_add (CreatedAt x) absolute.

Definition store_wf (s : SessionStore) : Prop :=
  map_Forall (session_wf (absoluteTTL s)) (sessions s).

Definition rnd_ok (rnd : option gostring) : Prop :=
  ∀ buf, rnd = Some buf → Z.of_nat (length buf) = 32%Z.

Lemma store_wf_new i a : store_wf (NewSessionStore i a).
Proof. apply map_Forall_empty. Qed.

Lemma store_wf_create now ip r1 r2 s s' x :
  rnd_ok r1 → rnd_ok r2 → store_wf s → Create now ip r1 r2 s = Ok (s', x) →
  store_wf s' ∧ session_wf (absoluteTTL s) (ID x) x ∧ sessions s' !! ID x = Some x.
Proof.
  intros H1 H2 Hs. unfold Create.
  destruct (randomToken sessionIDBytes r1) as [id|] eqn:E1; [|done].
  destruct (randomToken csrfBytes r2) as [cs|] eqn:E2; [|done].
  apply randomToken_ok in E1, E2; try done. intros [= <- <-]. simpl.
  assert (session_wf (absoluteTTL s) id (mkSession id ip now now cs (time_add now (absoluteTTL s))))
    by done.
  split; [by apply map_Forall_insert_2|]. split; [done|]. apply lookup_insert_eq.
Qed.

Lemma store_wf_refresh now id s : store_wf s → store_wf (fst (Refresh now id s)).
Proof.
  intros Hs. unfold Refresh. destruct (sessions s !! id) as [x|] eqn:E; [|done].
  split_cond; simpl; [by apply map_Forall_delete..|].
  apply map_Forall_insert_2; [|done]. apply Hs in E. by destruct x.
Qed.

Lemma store_wf_delete id s : store_wf s → store_wf (fst (Delete id s)).
Proof. intros Hs. unfold Delete. split_cond; [by apply map_Forall_delete|done]. Qed.

Lemma store_wf_gc now s : store_wf s → store_wf (gcOnce now s).
Proof.
  intros Hs id x Hx. simpl in Hx. apply map_lookup_filter_Some in Hx as [Hx _]. by apply Hs.
Qed.

#[export] Hint Resolve store_wf_new store_wf_refresh store_wf_delete store_wf_gc : gateway.

(** * The scan is a lookup *)

Lemma scan_snoc id l sid x :
  scan id (l ++ [(sid, x)]) =
  if decide (padTo id = padTo sid) then Some x else scan id l.
Proof.
  unfold scan. rewrite foldl_app. simpl. rewrite ConstantTimeCompare_cases.
  by case_decide.
Qed.

Lemma scan_spec id l :
  nul_free id → Forall (λ kv, token_ok kv.1) l → NoDup l.*1 →
  ∀ x, scan id l = Some x ↔ (id, x) ∈ l.
Proof.
  intros Hid. induction l as [|[sid y] l IH] using rev_ind; intros Hf Hnd x.
  - simpl. split; [done|by intros ?%elem_of_nil].
  - rewrite fmap_app in Hnd. apply NoDup_app in Hnd as (Hnd & Hni & _).
    apply Forall_app in Hf as [Hf Hs]. inversion Hs as [|?? Ht _]; subst. simpl in Ht.
    rewrite scan_snoc, elem_of_app, list_elem_of_singleton.
    case_decide as Hd; rewrite padTo_token in Hd by done; [subst id|].
    + split; [intros [= ->]; by right|].
      intros [Hin|[= ->]]; [|done]. exfalso. apply (Hni sid).
      * apply list_elem_of_fmap. by exists (sid, x).
      * by left.
    + rewrite IH by done. split; [by left|]. intros [?|[= ? ?]]; done.
Qed.

Lemma scan_lookup s id :
  store_wf s → nul_free id → scan id (map_to_list (sessions s)) = sessions s !! id.
Proof.
  intros Hwf Hid. apply option_eq. intros x.
  rewrite scan_spec, elem_of_map_to_list; [done|done| |apply NoDup_fst_map_to_list].
  apply Forall_forall. intros [k y] Hk%elem_of_map_to_list. by apply Hwf in Hk as (_ & ? & _).
Qed.

Lemma Get_lookup s id now :
  store_wf s → nul_free id →
  Get now id s = match sessions s !! id with
                 | Some x => if expired s now x then None else Some x
                 | None => None
                 end.
Proof. intros. unfold Get. by rewrite scan_lookup. Qed.

(** * Reachable stores *)

Inductive sstep (s : SessionStore) : SessionStore → Prop :=
| step_create now ip r1 r2 s' x :
    rnd_ok r1 → rnd_ok r2 → Create now ip r1 r2 s = Ok (s', x) → sstep s s'
| step_refresh now id : sstep s (fst (Refresh now id s))
| step_delete id : sstep s (fst (Delete id s))
| step_gc now : sstep s (gcOnce now s).

Definition reachable (idle absolute : duration) : SessionStore → Prop :=
  rtc sstep (NewSessionStore idle absolute).

Lemma sstep_wf s s' : sstep s s' → store_wf s → store_wf s'.
Proof.
  destruct 1 as [now ip r1 r2 s' x H1 H2 Hc| | |]; auto with gateway.
  intros Hw. by destruct (store_wf_create _ _ _ _ _ _ _ H1 H2 Hw Hc).
Qed.

Lemma sstep_ttl s s' :
  sstep s s' → idleTTL s' = idleTTL s ∧ absoluteTTL s' = absoluteTTL s.
Proof.
  destruct 1 as [now ip r1 r2 s' x _ _ Hc|now id|id|now]; 
    [|unfold Refresh; repeat case_match; done|unfold Delete; case_match; done|done].
  unfold Create in Hc. destruct (randomToken _ r1); [|done]. destruct (randomToken _ r2); [|done].
  by simplify_eq/=.
Qed.

Lemma reachable_inv i a s :
  reachable i a s → store_wf s ∧ idleTTL s = i ∧ absoluteTTL s = a.
Proof.
  unfold reachable. revert s. apply rtc_ind_r; [auto with gateway|].
  intros s1 s2 _ Hst (Hw & Hi & Ha). destruct (sstep_ttl _ _ Hst).
  split; [by eapply sstep_wf|]. split; congruence.
Qed.

(** * Properties *)

Definition ex_rnd (c : ascii) : option gostring := Some (replicate 32 c).

Lemma ex_rnd_ok c : rnd_ok (ex_rnd c).
Proof. intros buf [= <-]. done. Qed.

Definition ex_store : SessionStore :=
  match Create 0 $"iphash" (ex_rnd "a") (ex_rnd "b") (NewSessionStore (15 * Minute) (8 * Hour)) with
  | Ok (s, _) => s
  | Err _ => NewSessionStore 0 0
  end.

Definition ex_sid : gostring := b64_encode (replicate 32 "a"%char).

Lemma ex_store_reachable : reachable (15 * Minute) (8 * Hour) ex_store.
Proof.
  apply rtc_once.
  eapply (step_create _ 0 $"iphash" (ex_rnd "a") (ex_rnd "b"));
    [apply ex_rnd_ok..|reflexivity].
Qed.

(** C16. The constant-time scan is a map lookup: on every reachable store, for
    every cookie value without NUL bytes, Get returns what a direct lookup of
    the id with both expiry tests would, whatever order the map is iterated
    in and however long the presented value is. *)
Theorem session_get_is_lookup i a s id now :
  reachable i a s → nul_free id →
  Get now id s = match sessions s !! id with
                 | Some x => if expired s now x then None else Some x
                 | None => None
                 end.
Proof. intros (Hw & _ & _)%reachable_inv Hid. by apply Get_lookup. Qed.

Lemma session_get_is_lookup_witness :
  Get Minute ex_sid ex_store = sessions ex_store !! ex_sid ∧ is_Some (Get Minute ex_sid ex_store).
Proof.
  assert (H : Get Minute ex_sid ex_store = sessions ex_store !! ex_sid).
  { rewrite (session_get_is_lookup _ _ _ _ _ ex_store_reachable) by decide_now. by vm_compute. }
  split; [done|]. decide_now.
Defined.

Lemma expired_false s now x :
  expired s now x = false ↔
  (now < ExpiresAt x)%Z ∧ (time_sub now (LastSeen x) < idleTTL s)%Z.
Proof. unfold expired, After. rewrite orb_false_iff, negb_false_iff, Z.ltb_lt, Z.leb_gt. done. Qed.

(** Session lifetime. A session handed out by Get carries the id it was
    asked for, is younger than the absolute TTL counted from its creation (no
    sequence of refreshes extends that), and was seen less than the idle TTL
    ago; its CSRF token is a well-formed, non-empty token. *)
Theorem session_lifetime_bounded i a s id now x :
  reachable i a s → nul_free id → Get now id s = Some x →
  ID x = id ∧ (now < CreatedAt x + a)%Z ∧ (time_sub now (LastSeen x) < i)%Z ∧
  token_ok (CSRFToken x).
Proof.
  intros (Hw & Hi & Ha)%reachable_inv Hid Hg. rewrite Get_lookup in Hg by done.
  destruct (sessions s !! id) as [y|] eqn:E; [|done].
  destruct (expired s now y) eqn:Ex; [done|]. simplify_eq.
  apply expired_false in Ex as [Ex ?]. apply Hw in E as (? & _ & ? & Hexp).
  rewrite Hexp in Ex. done.
Qed.

Lemma session_lifetime_bounded_witness :
  ∃ x, Get Minute ex_sid ex_store = Some x ∧ (Minute < CreatedAt x + 8 * Hour)%Z.
Proof.
  eexists. split; [by vm_compute|].
  apply (session_lifetime_bounded (15 * Minute) (8 * Hour) ex_store ex_sid Minute);
    [apply ex_store_reachable|decide_now|by vm_compute].
Defined.

Lemma expired_mono s t now x :
  (t ≤ now)%Z → expired s t x = true → expired s now x = true.
Proof.
  unfold expired, After, time_sub. rewrite !orb_true_iff, !negb_true_iff, !Z.ltb_ge, !Z.leb_le. lia.
Qed.

(** Garbage collection is unobservable: collecting at instant [t] changes
    no later lookup and no later listing of the live sessions. *)
Theorem session_gc_unobservable i a s t now id :
  reachable i a s → (t ≤ now)%Z → nul_free id →
  Get now id (gcOnce t s) = Get now id s ∧
  (∀ x, x ∈ Snapshot now (gcOnce t s) ↔ x ∈ Snapshot now s).
Proof.
  intros (Hw & _ & _)%reachable_inv Ht Hid. split.
  - rewrite !Get_lookup by auto with gateway. simpl. rewrite map_lookup_filter.
    destruct (sessions s !! id) as [x|]; simpl; [|done].
    case_guard as Hg; simpl; [done|].
    rewrite not_false_iff_true in Hg. by rewrite (expired_mono _ _ _ _ Ht Hg).
  - intros x. unfold Snapshot. rewrite !list_elem_of_In, !List.filter_In, <- !list_elem_of_In.
    rewrite !list_elem_of_fmap. split; intros [([k y] & -> & Hy%elem_of_map_to_list) Hex]; simpl in *.
    + apply map_lookup_filter_Some in Hy as [Hy _]. split; [|done].
      exists (k, y). split; [done|]. by apply elem_of_map_to_list.
    + split; [|done]. exists (k, y). split; [done|]. apply elem_of_map_to_list. simpl.
      apply map_lookup_filter_Some. split; [done|]. simpl.
      destruct (expired s t y) eqn:E; [|done]. exfalso.
      apply (expired_mono s t now) in E; [|done]. unfold gcOnce in *. by rewrite E in Hex.
Qed.

Lemma session_gc_unobservable_witness :
  Get Minute ex_sid (gcOnce Second ex_store) = Get Minute ex_sid ex_store.
Proof.
  apply (session_gc_unobservable (15 * Minute) (8 * Hour) ex_store Second Minute ex_sid);
    [apply ex_store_reachable|unfold Second, Minute; lia|decide_now].
Defined.

Lemma ValidateCSRF_exact x r :
  token_ok (CSRFToken x) → nul_free (hdr_get (ReqHeader r) CSRFHeader) →
  ValidateCSRF (Some x) r = true ↔
  isSafeMethod (Method r) = true ∨ hdr_get (ReqHeader r) CSRFHeader = CSRFToken x.
Proof.
  intros Ht Hn. simpl. destruct (isSafeMethod (Method r)); [naive_solver|].
  destruct (decide (hdr_get (ReqHeader r) CSRFHeader = [])) as [E|E].
  { split; [done|]. intros [?|H]; [done|]. destruct Ht as [_ Ht]. by rewrite <- H, E in Ht. }
  destruct (decide (CSRFToken x = [])) as [E'|E'].
  { destruct Ht as [_ Ht]. by rewrite E' in Ht. }
  rewrite Z.eqb_eq, ConstantTimeCompare_1.
  change (pad_to 64 ?a) with (padTo a). rewrite padTo_token by done. naive_solver.
Qed.

Definition ex_session : Session :=
  mkSession ex_sid $"iphash" 0 0 (b64_encode (replicate 32 "b"%char)) (8 * Hour).

Definition ex_post : Request :=
  mkRequest MethodPost $"/api/x" [] [] [] [] {[CSRFHeader := CSRFToken ex_session]} ∅.

(** The CSRF check is exact. For a session with a well-formed token and a
    header value without NUL bytes, a request passes exactly when its method
    is GET, HEAD or OPTIONS or the header equals the session's token; padding
    both sides to 64 bytes admits no other value. *)
Theorem csrf_exact x r :
  token_ok (CSRFToken x) → nul_free (hdr_get (ReqHeader r) CSRFHeader) →
  ValidateCSRF (Some x) r = true ↔
  isSafeMethod (Method r) = true ∨ hdr_get (ReqHeader r) CSRFHeader = CSRFToken x.
Proof. apply ValidateCSRF_exact. Qed.

Lemma csrf_exact_witness : ValidateCSRF (Some ex_session) ex_post = true.
Proof.
  apply (csrf_exact ex_session ex_post); [decide_now|decide_now|]. right. by vm_compute.
Defined.
