(* ===== verification/Metrics.v ===== *)
(** Label values for metrics and for the lockout and audit keys
    (src/internal/metrics/opsec.go). SHA-256 is a parameter. *)

From S2P Require Import Prelude.

(** * Hex encoding (encoding/hex) *)

Definition hex_digits : gostring := $"0123456789abcdef".

Definition hex_digit (n : N) : ascii := default "0"%char (hex_digits !! N.to_nat (N.land n 15)).

Fixpoint hex_encode (s : gostring) : gostring :=
  match s with
  | [] => []
  | c :: s' => hex_digit (N.shiftr (N_of_ascii c) 4) :: hex_digit (N_of_ascii c) :: hex_encode s'
  end.

(** * Labeler *)

Section labeler.
Context (sha256 : gostring → gostring).

Definition tenantHashHex : nat := 16.
Definition clientIPHashHex : nat := 12.
Definition TenantNone : gostring := $"t:none".
Definition tenantPrefix : gostring := $"t:".

Record Labeler := mkLabeler {
  hashTenant : bool;
  salt : gostring
}.

Definition hashHex (l : Labeler) (input : gostring) (n : nat) : gostring :=
  let full := hex_encode (sha256 (salt l ++ input)) in
  if decide (length full ≤ n) then full else take n full.

Definition Tenant (l : Labeler) (host : gostring) : gostring :=
  if decide (host = []) then TenantNone
  else if negb (hashTenant l) then host
  else tenantPrefix ++ hashHex l host tenantHashHex.

Definition ClientIP (l : Labeler) (ip : gostring) : gostring :=
  if decide (ip = []) then [] else hashHex l ip clientIPHashHex.

(** checkSaltPerms on the permission bits of the salt file (non-Windows):
    [mode &^ 0600] must be zero. *)
Definition checkSaltPerms (mode : Z) : bool := Z.eqb (Z.ldiff mode 384) 0.

(** * Lemmas *)

Lemma length_hex_encode s : length (hex_encode s) = 2 * length s.
Proof. induction s; simpl; lia. Qed.

Lemma hex_encode_digits s : Forall (λ c, c ∈ hex_digits) (hex_encode s).
Proof.
  assert (H : ∀ n, hex_digit n ∈ hex_digits).
  { intros n. unfold hex_digit. destruct (hex_digits !! _) eqn:E; simpl.
    - by eapply list_elem_of_lookup_2.
    - left. }
  induction s; simpl; repeat (apply Forall_cons; split); auto.
Qed.

Lemma hashHex_shape l input n :
  length (sha256 (salt l ++ input)) = 32 → n ≤ 64 →
  length (hashHex l input n) = n ∧ Forall (λ c, c ∈ hex_digits) (hashHex l input n).
Proof.
  intros Hl Hn. unfold hashHex.
  pose proof (length_hex_encode (sha256 (salt l ++ input))).
  pose proof (hex_encode_digits (sha256 (salt l ++ input))).
  case_decide; split; try done; [lia|rewrite length_take; lia|by apply Forall_take].
Qed.
End labeler.

(** * Properties *)

(** Client labels have a fixed opaque shape. With a digest of 32 bytes,
    every non-empty address is turned into exactly 12 lower-case hex digits,
    so no label carries a dot, a colon or any other byte of an address
    literal, and equal addresses get equal labels. *)
Theorem client_label_opaque sha256 l ip :
  (∀ m, length (sha256 m) = 32) → ip ≠ [] →
  length (ClientIP sha256 l ip) = 12 ∧
  Forall (λ c, c ∈ hex_digits) (ClientIP sha256 l ip) ∧
  "."%char ∉ ClientIP sha256 l ip ∧ ":"%char ∉ ClientIP sha256 l ip.
Proof.
  intros Hs Hip. unfold ClientIP. rewrite decide_False by done.
  destruct (hashHex_shape sha256 l ip clientIPHashHex) as [Hl Hf]; [done|unfold clientIPHashHex; lia|].
  rewrite Forall_forall in Hf.
  split; [done|]. split; [by apply Forall_forall|].
  split; intros Hin%Hf; revert Hin; decide_now.
Qed.

Lemma client_label_opaque_witness :
  length (ClientIP (λ _, replicate 32 "x"%char) (mkLabeler true $"salt") $"10.1.2.3") = 12.
Proof.
  apply (client_label_opaque (λ _, replicate 32 "x"%char)); [done|done].
Defined.

(** The salt permission check accepts exactly the modes whose bits are
    within owner read and write: every mode with any other permission bit
    set is refused. *)
Theorem salt_perms_exact mode :
  (0 ≤ mode < 512)%Z →
  checkSaltPerms mode = true ↔ ∀ i, (0 ≤ i)%Z → Z.testbit mode i = true → i = 7%Z ∨ i = 8%Z.
Proof.
  intros Hm. unfold checkSaltPerms. rewrite Z.eqb_eq. split.
  - intros H i Hi Hb. assert (Hd : Z.testbit (Z.ldiff mode 384) i = false).
    { by rewrite H, Z.bits_0. }
    rewrite Z.ldiff_spec, Hb in Hd. simpl in Hd. apply negb_false_iff in Hd.
    change 384%Z with (2 ^ 8 + 2 ^ 7)%Z in Hd.
    destruct (decide (i = 7%Z)); [by left|]. destruct (decide (i = 8%Z)); [by right|].
    exfalso. assert (Hx : ∀ j, (0 ≤ j < 9)%Z → j ≠ 7%Z → j ≠ 8%Z → Z.testbit (2 ^ 8 + 2 ^ 7) j = false).
    { intros j Hj ??. assert (j = 0 ∨ j = 1 ∨ j = 2 ∨ j = 3 ∨ j = 4 ∨ j = 5 ∨ j = 6)%Z as Hc by lia.
      by destruct Hc as [->|[->|[->|[->|[->|[->| ->]]]]]]. }
    destruct (decide (i < 9)%Z); [by rewrite Hx in Hd by lia|].
    rewrite Z.bits_above_log2 in Hb; [done|lia|].
    destruct (decide (mode = 0)%Z) as [->|]; [simpl; lia|].
    apply Z.log2_lt_pow2; [lia|]. apply Z.lt_le_trans with 512%Z; [lia|].
    change 512%Z with (2 ^ 9)%Z. apply Z.pow_le_mono_r; lia.
  - intros H. apply Z.bits_inj'. intros i Hi. rewrite Z.ldiff_spec, Z.bits_0.
    destruct (Z.testbit mode i) eqn:E; [|done]. by destruct (H i Hi E) as [-> | ->].
Qed.

Lemma salt_perms_exact_witness : checkSaltPerms 384 = true ∧ checkSaltPerms 416 = false.
Proof.
  split.
  - apply (salt_perms_exact 384); [lia|]. intros i Hi Hb.
    apply (salt_perms_exact 384); [lia|by vm_compute|done|done].
  - by vm_compute.
Defined.
