(* ===== verification/Shared.v ===== *)
(** Data shared by the components (src/internal/shared/types.go): decoded
    JSON/YAML values, feature snapshots, tenants, nodes, mirrors and block
    actions. *)

From S2P Require Import Prelude Float.

(** * Values of type [any] as the decoders produce them *)

Inductive json :=
| JNull
| JBool (b : bool)
| JInt (n : Z)
| JFloat (f : spec_float)
| JString (s : gostring)
| JArray (l : list json)
| JObject (l : list (gostring * json)).

(** * Snapshots and tenants *)

Record FeatureSnapshot := mkFeatureSnapshot {
  fsEnabled : bool;
  fsParams : gmap gostring json;
  fsVersion : Z
}.

(** The zero value, which stands for a disabled feature. *)
Definition FeatureSnapshot_zero : FeatureSnapshot := mkFeatureSnapshot false ∅ 0.

Record BackendRef := mkBackendRef {
  OnionAddr : gostring;
  Weight : Z;
  NegativelyCached : bool
}.

Record TenantInfo := mkTenantInfo {
  tiHost : gostring;
  tiEnabled : bool;
  tiBackends : list BackendRef;
  tiFeatureSnapshots : gmap gostring FeatureSnapshot;
  tiVersion : Z
}.

Record NodeInfo := mkNodeInfo {
  niID : gostring;
  niType : gostring;
  niPublicKey : gostring;
  niAssignedTenants : list gostring;
  niCertSerial : gostring;
  niRegisteredAt : time;
  niLastSeen : time
}.

Record MirrorInfo := mkMirrorInfo {
  miHost : gostring;
  miVerdict : gostring;
  miManualBlock : bool;
  miWeight : Z;
  miTargetTenants : list gostring;
  miBlockedRegions : list gostring;
  miVersion : Z
}.

#[global] Instance MirrorInfo_eq_dec : EqDecision MirrorInfo.
Proof. solve_decision. Defined.

(** * Block actions *)

Definition BlockActionDrop : gostring := $"drop".
Definition BlockActionTimeout : gostring := $"timeout".
Definition BlockActionNotFound : gostring := $"404".
Definition BlockActionTooMany : gostring := $"429".

Definition BlockAction_IsValid (a : gostring) : bool :=
  bool_decide (a = BlockActionDrop ∨ a = BlockActionTimeout ∨
               a = BlockActionNotFound ∨ a = BlockActionTooMany).
