(* ===== verification/Bolt.v ===== *)
(** The interface of the embedded key-value store (go.etcd.io/bbolt) that the
    audit index and the timed block list are built on: one bucket with
    point reads and writes and a cursor that walks the keys in byte order.

    bbolt is not part of the repository: the components that use it are
    written against the class below, whose laws are its documented contract.
    The instance on finite maps shows that the laws can be met. *)

From S2P Require Import Prelude.

(** Strict byte order on keys. *)
Definition str_lt (x y : gostring) : Prop := str_le x y ∧ x ≠ y.

Class Bucket (B : Type) := {
  bk_empty : B;
  bk_get : B → gostring → option gostring;
  bk_put : gostring → gostring → B → B;
  bk_delete : gostring → B → B;
  (** The pairs a cursor yields from [Seek k] on with [Next]. *)
  bk_seek : gostring → B → list (gostring * gostring)
}.

Class BucketLaws (B : Type) `{Bucket B} : Prop := {
  bk_get_empty k : bk_get bk_empty k = None;
  bk_get_put_eq k v b : bk_get (bk_put k v b) k = Some v;
  bk_get_put_ne k k' v b : k ≠ k' → bk_get (bk_put k v b) k' = bk_get b k';
  bk_get_delete_eq k b : bk_get (bk_delete k b) k = None;
  bk_get_delete_ne k k' b : k ≠ k' → bk_get (bk_delete k b) k' = bk_get b k';
  bk_seek_sorted k b : StronglySorted str_lt (bk_seek k b).*1;
  bk_seek_elem k b k' v : (k', v) ∈ bk_seek k b ↔ bk_get b k' = Some v ∧ str_le k k'
}.

(** * Sequences of pairs in strict key order are determined by their elements *)

Lemma str_lt_irrefl x : ¬ str_lt x x.
Proof. by intros [_ ?]. Qed.

#[global] Instance str_lt_trans : Transitive str_lt.
Proof.
  intros x y z [Hxy Hn] [Hyz Hn']. split; [by trans y|].
  intros ->. apply Hn. by apply (anti_symm str_le).
Qed.

Lemma sorted_pairs_ext {V} (l l' : list (gostring * V)) :
  StronglySorted str_lt l.*1 → StronglySorted str_lt l'.*1 →
  (∀ kv, kv ∈ l ↔ kv ∈ l') → l = l'.
Proof.
  revert l'; induction l as [|[k v] l IH]; intros [|[k' v'] l'] Hs Hs' He.
  - done.
  - exfalso. destruct (He (k', v')) as [_ H]. eapply not_elem_of_nil, H. left.
  - exfalso. destruct (He (k, v)) as [H _]. eapply not_elem_of_nil, H. left.
  - simpl in Hs, Hs'. inversion Hs as [|?? Hs1 Hf]; inversion Hs' as [|?? Hs1' Hf']; subst.
    rewrite Forall_forall in Hf, Hf'.
    assert (Hhd : (k, v) = (k', v')).
    { assert ((k, v) ∈ (k', v') :: l') as [?|Hin]%elem_of_cons by (apply He; left); [done|].
      assert ((k', v') ∈ (k, v) :: l) as [?|Hin']%elem_of_cons by (apply He; left); [done|].
      exfalso. apply (str_lt_irrefl k). trans k'.
      - apply Hf. by apply (list_elem_of_fmap_2' fst _ (k', v')).
      - apply Hf'. by apply (list_elem_of_fmap_2' fst _ (k, v)). }
    simplify_eq. f_equal. apply IH; [done..|]. intros [a b].
    assert (Hni : ∀ l0 : list (gostring * V), (∀ x, x ∈ l0.*1 → str_lt k' x) → ∀ y, (k', y) ∉ l0).
    { intros l0 H y Hin. apply (str_lt_irrefl k'), H. by apply (list_elem_of_fmap_2' fst _ (k', y)). }
    split; intros Hin.
    + assert ((a, b) ∈ (k', v') :: l') as [?|?]%elem_of_cons by (apply He; by right); [|done].
      simplify_eq. exfalso. by apply (Hni l Hf v').
    + assert ((a, b) ∈ (k', v') :: l) as [?|?]%elem_of_cons by (apply He; by right); [|done].
      simplify_eq. exfalso. by apply (Hni l' Hf' v').
Qed.

(** Filtering keeps the strict order. *)
Lemma sorted_pairs_filter {V} (P : gostring * V → bool) l :
  StronglySorted str_lt l.*1 → StronglySorted str_lt (List.filter P l).*1.
Proof.
  induction l as [|kv l IH]; [done|]. simpl. intros Hs. inversion Hs as [|?? Hs1 Hf]; subst.
  destruct (P kv); [|by apply IH]. simpl. constructor; [by apply IH|].
  rewrite Forall_forall in Hf |- *. intros x (y & -> & Hy)%list_elem_of_fmap.
  apply Hf. apply (list_elem_of_fmap_2' fst _ y); [|done].
  apply list_elem_of_In, List.filter_In in Hy as [Hy _]. by apply list_elem_of_In.
Qed.

(** What one write of a fresh key does to a cursor walk: the new pair appears
    at its place, everything else stays. *)
Lemma seek_put_fresh `{BucketLaws B} k v start b :
  bk_get b k = None → str_le start k →
  ∃ l1 l2, bk_seek start b = l1 ++ l2 ∧ bk_seek start (bk_put k v b) = l1 ++ (k, v) :: l2.
Proof.
  intros Hnone Hle.
  assert (Hin : (k, v) ∈ bk_seek start (bk_put k v b)).
  { apply bk_seek_elem. by rewrite bk_get_put_eq. }
  apply list_elem_of_split in Hin as (l1 & l2 & Heq). exists l1, l2. split; [|done].
  pose proof (bk_seek_sorted start (bk_put k v b)) as Hs. rewrite Heq in Hs.
  apply sorted_pairs_ext; [apply bk_seek_sorted| |].
  - rewrite fmap_app in Hs |- *. simpl in Hs.
    apply StronglySorted_app in Hs as (Hc & H1 & H2). inversion H2; subst.
    apply StronglySorted_app. split; [|done]. intros x y Hx Hy. apply Hc; [done|by right].
  - intros [k' v']. rewrite bk_seek_elem.
    assert (Hk : k ∉ (l1 ++ l2).*1).
    { rewrite fmap_app in Hs |- *. simpl in Hs. apply StronglySorted_app in Hs as (Hc & H1 & H2).
      inversion H2 as [|?? ? Hf]; subst. rewrite Forall_forall in Hf.
      intros [Hx|Hx]%elem_of_app.
      - apply (str_lt_irrefl k), Hc; [done|left].
      - by apply (str_lt_irrefl k), Hf. }
    assert (Hmem : (k', v') ∈ l1 ++ (k, v) :: l2 ↔
              bk_get (bk_put k v b) k' = Some v' ∧ str_le start k').
    { rewrite <- Heq. apply bk_seek_elem. }
    destruct (decide (k = k')) as [<-|Hne].
    + split; [intros [Hg _]; congruence|]. intros Hx. exfalso. apply Hk.
      by apply (list_elem_of_fmap_2' fst _ (k, v')).
    + rewrite bk_get_put_ne in Hmem by done. rewrite <- Hmem.
      rewrite !elem_of_app, elem_of_cons. naive_solver.
Qed.

(** A write below the start key, like one that repeats nothing, is not seen. *)
Lemma seek_put_below `{BucketLaws B} k v start b :
  bk_get b k = None → ¬ str_le start k → bk_seek start (bk_put k v b) = bk_seek start b.
Proof.
  intros Hnone Hle. apply sorted_pairs_ext; try apply bk_seek_sorted.
  intros [k' v']. rewrite !bk_seek_elem. destruct (decide (k = k')) as [<-|Hne].
  - naive_solver.
  - by rewrite bk_get_put_ne.
Qed.

(** * The instance on finite maps *)

Definition kv_le (a b : gostring * gostring) : Prop := key_le fst a b.

#[global] Instance gmap_bucket : Bucket (gmap gostring gostring) := {
  bk_empty := ∅;
  bk_get b k := b !! k;
  bk_put k v b := <[k := v]> b;
  bk_delete k b := delete k b;
  bk_seek k b := List.filter (λ kv, str_leb k kv.1) (sort_by fst (map_to_list b))
}.

Lemma sorted_distinct_strict {V} (l : list (gostring * V)) :
  StronglySorted (key_le fst) l → NoDup l.*1 → StronglySorted str_lt l.*1.
Proof.
  induction l as [|[k v] l IH]; intros Hs Hnd; simpl in *; [constructor|].
  inversion Hs as [|?? Hs1 Hf]; subst. apply NoDup_cons in Hnd as [Hni Hnd].
  constructor; [by apply IH|]. rewrite Forall_forall in Hf. apply Forall_forall.
  intros x Hx. split.
  - apply list_elem_of_fmap in Hx as (y & -> & Hy). apply (Hf y Hy).
  - by intros ->.
Qed.

#[global] Instance gmap_bucket_laws : BucketLaws (gmap gostring gostring).
Proof.
  split; simpl; intros.
  - apply lookup_empty.
  - apply lookup_insert_eq.
  - by apply lookup_insert_ne.
  - apply lookup_delete_eq.
  - by apply lookup_delete_ne.
  - apply sorted_pairs_filter, sorted_distinct_strict; [apply sort_by_Sorted|].
    rewrite sort_by_Permutation. apply NoDup_fst_map_to_list.
  - rewrite list_elem_of_In, List.filter_In, <- list_elem_of_In, sort_by_Permutation, elem_of_map_to_list.
    done.
Qed.
