(* ===== verification/AuditLog.v ===== *)
(** The audit log of the admin surface (src/internal/admin/audit.go): daily
    JSONL files and a time-ordered index in an embedded store.

    The JSON codec and the store are parameters; the outcomes of file
    operations (open, write, sync, commit) are inputs of [Write]. A file is
    named by its UTC day number. *)

From S2P Require Import Prelude Shared Bolt.

(** * Big-endian integers (encoding/binary) *)

(** [BigEndian.PutUint{16,64}]: the w low bytes of n, most significant first. *)
Fixpoint be_encode (w : nat) (n : Z) : gostring :=
  match w with
  | 0 => []
  | S w' => ascii_of_N (Z.to_N (Z.land (Z.shiftr n (8 * Z.of_nat w')) 255)) :: be_encode w' n
  end.

Definition be_decode (s : gostring) : Z := foldl (λ acc c, (acc * 256 + byte_val c)%Z) 0%Z s.

(** * Data *)

Record Event := mkEvent {
  EvTime : time;
  Actor : gostring;
  ActorIP : gostring;
  NodeID : gostring;
  Action : gostring;
  Target : gostring;
  Diff : list (gostring * json);
  SessionID : gostring
}.

(** encoding/json on events, and the optional leak checker. *)
Class AuditCodec := {
  json_marshal : Event → option gostring;
  json_unmarshal : gostring → option Event;
  leak_check : option (gostring → bool)
}.

(** What the file system and the store answer during one [Write]: an opened
    day file, the bytes written when the write fails, sync and commit. *)
Record AuditIO := mkIO {
  io_now : time;
  io_open : bool;
  io_short_write : option nat;
  io_sync : bool;
  io_commit : bool
}.

Definition io_fine (now : time) : AuditIO := mkIO now true None true true.

Inductive audit_error :=
| ErrMarshal | ErrLeak | ErrClosed | ErrOpen | ErrWrite | ErrSync | ErrExhausted | ErrCommit.

Definition newline : ascii := ascii_of_N 10.

Section audit.
Context {B : Type} `{Bucket B} `{AuditCodec}.

Record Log := mkLog {
  files : gmap Z gostring;
  indexDB : B;
  curF : bool;
  curDay : Z;
  closed : bool
}.

Definition OpenLog : Log := mkLog ∅ bk_empty false 0 false.

(** * Keys of the index *)

(** time.Time.UnixNano. *)
Definition UnixNano (t : time) : Z := wrap64 t.

Definition nanoKey (t : time) : gostring :=
  let n := UnixNano t in
  be_encode 8 (if Z.ltb n 0 then 0 else n).

Definition appendSeq (base : gostring) (seq : Z) : gostring := base ++ be_encode 2 seq.

Definition keyAtOrBefore (k : gostring) (t : time) : bool :=
  if decide (length k < 8) then true
  else Z.leb (wrap64 (be_decode (take 8 k))) (UnixNano t).

(** The loop that looks for a free key: [seq] is a uint16. *)
Inductive probe_result := PFree (k : gostring) | PExhausted | PFuel.

Fixpoint probe (fuel : nat) (b : B) (key k : gostring) (seq : Z) : probe_result :=
  match fuel with
  | 0 => PFuel
  | S fuel' =>
      match bk_get b k with
      | None => PFree k
      | Some _ =>
          let seq' := Z.modulo (seq + 1) 65536 in
          if Z.eqb seq' 0 then PExhausted
          else probe fuel' b key (appendSeq key seq') seq'
      end
  end.

Definition probe_fuel : nat := Z.to_nat 65536.

(** * Operations *)

Definition dayOf (t : time) : Z := Z.div t (24 * Hour).

Definition ensureDayFileLocked (io : AuditIO) (t : time) (l : Log) : Log * option audit_error :=
  let day := dayOf t in
  if (curF l && Z.eqb (curDay l) day)%bool then (l, None)
  else if io_open io then
    (mkLog (<[day := default [] (files l !! day)]> (files l)) (indexDB l) true day (closed l), None)
  else (mkLog (files l) (indexDB l) false (curDay l) (closed l), Some ErrOpen).

(** Appends to the open day file. *)
Definition file_append (s : gostring) (l : Log) : Log :=
  mkLog (<[curDay l := default [] (files l !! curDay l) ++ s]> (files l))
        (indexDB l) (curF l) (curDay l) (closed l).

Definition set_index (b : B) (l : Log) : Log :=
  mkLog (files l) b (curF l) (curDay l) (closed l).

(** The transaction of [Write] on the index. *)
Definition index_put (io : AuditIO) (key payload : gostring) (l : Log) : Log * option audit_error :=
  match probe probe_fuel (indexDB l) key key 0 with
  | PFree k =>
      if io_commit io then (set_index (bk_put k payload (indexDB l)) l, None)
      else (l, Some ErrCommit)
  | _ => (l, Some ErrExhausted)
  end.

(** [Write] with the lock held, from the closed check on. *)
Definition write_locked (io : AuditIO) (t : time) (payload : gostring) (l : Log)
    : Log * option audit_error :=
  if closed l then (l, Some ErrClosed)
  else match ensureDayFileLocked io t l with
  | (l1, Some err) => (l1, Some err)
  | (l1, None) =>
      let line := payload ++ [newline] in
      match io_short_write io with
      | Some n => (file_append (take n line) l1, Some ErrWrite)
      | None =>
          let l2 := file_append line l1 in
          if io_sync io then index_put io (nanoKey t) payload l2 else (l2, Some ErrSync)
      end
  end.

Definition stamp (now : time) (e : Event) : Event :=
  if IsZero (EvTime e)
  then mkEvent now (Actor e) (ActorIP e) (NodeID e) (Action e) (Target e) (Diff e) (SessionID e)
  else e.

Definition Write (io : AuditIO) (e : Event) (l : Log) : Log * option audit_error :=
  let e := stamp (io_now io) e in
  match json_marshal e with
  | None => (l, Some ErrMarshal)
  | Some payload =>
      let leaks := match leak_check with None => false | Some ck => ck payload end in
      if leaks then (l, Some ErrLeak) else write_locked io (EvTime e) payload l
  end.

(** The collecting loop of [Query]; [out] is what was appended so far. *)
Fixpoint collect (limit : Z) (out : list Event) (l : list (gostring * gostring)) : list Event :=
  match l with
  | [] => out
  | (_, v) :: l' =>
      match json_unmarshal v with
      | None => collect limit out l'
      | Some e =>
          let out' := out ++ [e] in
          if (Z.ltb 0 limit && Z.leb limit (Z.of_nat (length out')))%bool then out'
          else collect limit out' l'
      end
  end.

Definition Query (since : time) (limit : Z) (l : Log) : list Event :=
  collect limit []
    (drop_while (λ kv, keyAtOrBefore kv.1 since) (bk_seek (nanoKey since) (indexDB l))).

Definition Close (l : Log) : Log := mkLog (files l) (indexDB l) false (curDay l) true.

(** * Specification: the index as a time-ordered sequence *)

Definition key_nano (k : gostring) : Z := be_decode (take 8 k).

Definition key_wf (k : gostring) : Prop :=
  8 ≤ length k ∧ (0 ≤ key_nano k ≤ max_int64)%Z.

Definition index_wf (b : B) : Prop := ∀ k v, bk_get b k = Some v → key_wf k.

(** Every record of the index newer than [since], oldest first. *)
Definition newer (since : time) (b : B) : list Event :=
  omap (λ kv, json_unmarshal kv.2)
       (List.filter (λ kv, Z.ltb (UnixNano since) (key_nano kv.1)) (bk_seek [] b)).

Definition first_n {A} (limit : Z) (l : list A) : list A :=
  if Z.ltb 0 limit then take (Z.to_nat limit) l else l.
End audit.
Arguments Log : clear implicits.

(** * Lemmas: big-endian keys *)

Lemma byte_val_range c : (0 ≤ byte_val c < 256)%Z.
Proof. unfold byte_val. pose proof (N_ascii_bounded c). lia. Qed.

Lemma be_decode_cons_acc s acc :
  foldl (λ acc c, (acc * 256 + byte_val c)%Z) acc s = (acc * 256 ^ Z.of_nat (length s) + be_decode s)%Z.
Proof.
  revert acc; induction s as [|c s IH]; intros acc; [simpl; unfold be_decode; simpl; lia|].
  unfold be_decode. cbn [foldl length]. rewrite (IH (acc * 256 + byte_val c)%Z), (IH (0 * 256 + byte_val c)%Z).
  rewrite Nat2Z.inj_succ, Z.pow_succ_r by lia. ring.
Qed.

Lemma be_decode_cons c s :
  be_decode (c :: s) = (byte_val c * 256 ^ Z.of_nat (length s) + be_decode s)%Z.
Proof. unfold be_decode at 1. cbn [foldl]. rewrite be_decode_cons_acc. ring. Qed.

Lemma be_decode_range s : (0 ≤ be_decode s < 256 ^ Z.of_nat (length s))%Z.
Proof.
  induction s as [|c s IH]; [done|]. rewrite be_decode_cons. cbn [length].
  rewrite Nat2Z.inj_succ, Z.pow_succ_r by lia. pose proof (byte_val_range c). nia.
Qed.

Lemma length_be_encode w n : length (be_encode w n) = w.
Proof. induction w; simpl; lia. Qed.

Lemma byte_val_of_N z : (0 ≤ z < 256)%Z → byte_val (ascii_of_N (Z.to_N z)) = z.
Proof. intros. unfold byte_val. rewrite N_ascii_embedding; lia. Qed.

Lemma be_decode_encode w n :
  be_decode (be_encode w n) = Z.modulo n (256 ^ Z.of_nat w).
Proof.
  induction w as [|w IH]; [by rewrite Z.mod_1_r|].
  cbn [be_encode]. rewrite be_decode_cons, length_be_encode, IH, byte_val_of_N.
  2:{ change 255%Z with (Z.ones 8). rewrite Z.land_ones by lia. apply Z.mod_pos_bound. lia. }
  change 255%Z with (Z.ones 8). rewrite Z.land_ones, Z.shiftr_div_pow2 by lia.
  rewrite (Z.pow_mul_r 2 8) by lia. change (2 ^ 8)%Z with 256%Z.
  rewrite Nat2Z.inj_succ, Z.pow_succ_r by lia.
  rewrite (Z.mul_comm 256 (256 ^ Z.of_nat w)), Z.rem_mul_r; [ring| |lia].
  apply Z.pow_nonzero; lia.
Qed.

#[global] Arguments be_encode : simpl never.
#[global] Arguments nanoKey : simpl never.
#[global] Arguments probe_fuel : simpl never.

(** On strings of one length the byte order is the numeric order. *)
Lemma str_le_be x y :
  length x = length y → str_le x y ↔ (be_decode x ≤ be_decode y)%Z.
Proof.
  revert y; induction x as [|a x IH]; intros [|b y] Hl; simplify_eq/=.
  - done.
  - rewrite !be_decode_cons, Hl. unfold str_le; simpl.
    pose proof (be_decode_range x) as Hx. pose proof (be_decode_range y) as Hy.
    rewrite Hl in Hx. specialize (IH y Hl). unfold str_le in IH. unfold byte_val.
    destruct (N.compare_spec (N_of_ascii a) (N_of_ascii b)) as [Hab|Hab|Hab].
    + rewrite IH, Hab. lia.
    + split; [nia|done].
    + split; [done|nia].
Qed.

Lemma str_le_take_mono n x y : str_le x y → str_le (take n x) (take n y).
Proof.
  revert n y; induction x as [|a x IH]; intros [|n] [|b y]; unfold str_le; simpl; try done.
  destruct (N.compare _ _); try done. by apply IH.
Qed.

Lemma str_le_take_r n x y : str_le x (take n y) → str_le x y.
Proof.
  revert n y; induction x as [|a x IH]; intros [|n] [|b y]; unfold str_le; simpl; try done.
  destruct (N.compare _ _); try done. by apply IH.
Qed.

Lemma drop_while_sorted {A} (P : A → bool) l (R : relation A) :
  StronglySorted R l → (∀ x y, x ∈ l → y ∈ l → R x y → P y = true → P x = true) →
  drop_while P l = List.filter (λ x, negb (P x)) l.
Proof.
  induction l as [|x l IH]; intros Hs HP; [done|]. inversion Hs as [|?? Hs1 Hf]; subst. simpl.
  destruct (P x) eqn:Ex; simpl.
  - apply IH; [done|]. intros ????. apply HP; by right.
  - f_equal. symmetry. apply forallb_filter_id. apply forallb_forall.
    intros y Hy%list_elem_of_In. apply negb_true_iff. apply not_true_iff_false. intros Py.
    rewrite Forall_forall in Hf.
    rewrite (HP x y) in Ex; [done|left|by right|by apply Hf|done].
Qed.

Lemma StronglySorted_fmap_inv {A C} (f : A → C) (R : relation C) l :
  StronglySorted R (f <$> l) → StronglySorted (λ x y, R (f x) (f y)) l.
Proof.
  induction l as [|x l IH]; simpl; intros Hs; constructor; inversion Hs as [|?? Hs1 Hf]; subst.
  - by apply IH.
  - apply Forall_forall. intros y Hy. rewrite Forall_forall in Hf. by apply Hf, list_elem_of_fmap_2.
Qed.

(** * Lemmas: the index *)

Section index_lemmas.
Context {B : Type} `{BucketLaws B} `{AuditCodec}.
Implicit Types l : Log B.

Lemma UnixNano_range t : in_int64 (UnixNano t).
Proof. apply wrap64_range. Qed.

Lemma length_nanoKey t : length (nanoKey t) = 8.
Proof. apply length_be_encode. Qed.

Lemma key_nano_app t s : key_nano (nanoKey t ++ s) = Z.max 0 (UnixNano t).
Proof.
  unfold key_nano. rewrite take_app_le by (rewrite length_nanoKey; lia).
  rewrite take_ge by (rewrite length_nanoKey; lia). unfold nanoKey. rewrite be_decode_encode.
  pose proof (UnixNano_range t) as Ht. unfold in_int64, min_int64, max_int64 in Ht.
  change (256 ^ Z.of_nat 8)%Z with 18446744073709551616%Z.
  destruct (Z.ltb_spec (UnixNano t) 0); rewrite Z.mod_small; lia.
Qed.

Lemma key_wf_app t s : key_wf (nanoKey t ++ s).
Proof.
  split; [rewrite length_app, length_nanoKey; lia|]. rewrite key_nano_app.
  pose proof (UnixNano_range t) as Ht. unfold in_int64, min_int64, max_int64 in *. lia.
Qed.

Lemma keyAtOrBefore_wf k t : key_wf k → keyAtOrBefore k t = Z.leb (key_nano k) (UnixNano t).
Proof.
  intros [Hl Hn]. unfold keyAtOrBefore. rewrite decide_False by lia.
  unfold key_nano in *. rewrite wrap64_id; [done|].
  unfold in_int64, min_int64, max_int64 in *. lia.
Qed.

Lemma key_nano_mono k k' : key_wf k → key_wf k' → str_le k k' → (key_nano k ≤ key_nano k')%Z.
Proof.
  intros [Hl _] [Hl' _] Hle. unfold key_nano. apply str_le_be.
  - rewrite !length_take. lia.
  - by apply str_le_take_mono.
Qed.

(** A key that is newer than [since] is at or after the cursor's start. *)
Lemma start_before k t : key_wf k → (UnixNano t < key_nano k)%Z → str_le (nanoKey t) k.
Proof.
  intros [Hl [Hn _]] Hlt. apply (str_le_take_r 8), str_le_be.
  - rewrite length_nanoKey, length_take. lia.
  - pose proof (key_nano_app t []) as Hk. rewrite app_nil_r in Hk. unfold key_nano in Hk, Hlt, Hn.
    rewrite take_ge in Hk by (rewrite length_nanoKey; lia). rewrite Hk. lia.
Qed.

Lemma seek_wf b start kv : index_wf b → kv ∈ bk_seek start b → key_wf kv.1.
Proof. destruct kv as [k v]. intros Hwf [Hg _]%bk_seek_elem. by eapply Hwf. Qed.

(** The skipping loop leaves exactly the records newer than [since]. *)
Lemma skip_exact b since :
  index_wf b →
  drop_while (λ kv, keyAtOrBefore kv.1 since) (bk_seek (nanoKey since) b)
  = List.filter (λ kv, Z.ltb (UnixNano since) (key_nano kv.1)) (bk_seek [] b).
Proof.
  intros Hwf. pose proof (bk_seek_sorted (nanoKey since) b) as Hs.
  rewrite (drop_while_sorted _ _ (λ x y : gostring * gostring, str_lt x.1 y.1));
    [|by apply StronglySorted_fmap_inv|].
  - apply sorted_pairs_ext; [by apply sorted_pairs_filter..| |].
    { apply sorted_pairs_filter, bk_seek_sorted. }
    intros [k v]. rewrite !list_elem_of_In, !List.filter_In, <- !list_elem_of_In, !bk_seek_elem. simpl.
    rewrite negb_true_iff. split.
    + intros [[Hg Hle] Hk]. rewrite keyAtOrBefore_wf, Z.leb_gt in Hk by (by eapply Hwf).
      split; [done|]. by apply Z.ltb_lt.
    + intros [[Hg _] Hk%Z.ltb_lt]. rewrite keyAtOrBefore_wf by (by eapply Hwf).
      split; [|by apply Z.leb_gt]. split; [done|]. apply start_before; [by eapply Hwf|done].
  - intros x y Hx Hy [Hle _]. pose proof (seek_wf _ _ _ Hwf Hx). pose proof (seek_wf _ _ _ Hwf Hy).
    rewrite !keyAtOrBefore_wf, !Z.leb_le by done.
    pose proof (key_nano_mono x.1 y.1). intuition lia.
Qed.

Lemma collect_spec limit out (l : list (gostring * gostring)) :
  (limit ≤ 0 ∨ Z.of_nat (length out) < limit)%Z →
  collect limit out l = first_n limit (out ++ omap (λ kv, json_unmarshal kv.2) l).
Proof.
  unfold first_n. revert out; induction l as [|[k v] l IH]; intros out Ho; cbn [collect omap list_omap].
  - rewrite app_nil_r. destruct (Z.ltb_spec 0 limit); [|done]. rewrite take_ge; [done|lia].
  - simpl. destruct (json_unmarshal v) as [e|]; [|by apply IH].
    rewrite length_app; cbn [length].
    destruct (Z.ltb_spec 0 limit) as [Hl|Hl]; simpl.
    + destruct (Z.leb_spec limit (Z.of_nat (length out + 1))) as [Hle|Hgt].
      * assert (Z.to_nat limit = length (out ++ [e])) as -> by (rewrite length_app; simpl; lia).
        rewrite (cons_middle e out (omap _ _)), (app_assoc out).
        by rewrite take_app_length.
      * rewrite IH by (rewrite length_app; simpl; lia). rewrite <- app_assoc.
        by destruct (Z.ltb_spec 0 limit); [|lia].
    + rewrite IH by lia. rewrite <- app_assoc. by destruct (Z.ltb_spec 0 limit); [lia|].
Qed.

Lemma Query_newer since limit l :
  index_wf (indexDB l) → Query since limit l = first_n limit (newer since (indexDB l)).
Proof.
  intros Hwf. unfold Query. rewrite skip_exact by done. rewrite collect_spec by (simpl; lia). done.
Qed.

(** * Lemmas: the free-key search *)

Definition probe_key (key : gostring) (seq : Z) : gostring :=
  if Z.eqb seq 0 then key else appendSeq key seq.

Lemma probe_spec fuel b key seq :
  (0 ≤ seq < 65536)%Z → (65536 - seq ≤ Z.of_nat fuel)%Z →
  match probe fuel b key (probe_key key seq) seq with
  | PFree k => bk_get b k = None ∧ ∃ s, k = key ++ s
  | PExhausted => ∀ i, (seq ≤ i < 65536)%Z → bk_get b (probe_key key i) ≠ None
  | PFuel => False
  end.
Proof.
  revert seq; induction fuel as [|fuel IH]; intros seq Hs Hf; [lia|]. cbn [probe].
  destruct (bk_get b (probe_key key seq)) eqn:E.
  - destruct (decide (seq = 65535)%Z) as [->|].
    + simpl. intros i Hi. assert (i = 65535)%Z as -> by lia. by rewrite E.
    + rewrite Z.mod_small by lia. destruct (Z.eqb_spec (seq + 1) 0); [lia|].
      specialize (IH (seq + 1)%Z). unfold probe_key at 1 in IH.
      rewrite (proj2 (Z.eqb_neq (seq + 1) 0)) in IH by lia.
      destruct (probe fuel b key (appendSeq key (seq + 1)) (seq + 1)) as [k| |]; try (apply IH; lia).
      intros i Hi. destruct (decide (i = seq)) as [->|]; [by rewrite E|]. apply IH; lia.
  - split; [done|]. unfold probe_key. destruct (Z.eqb seq 0); [exists []; by rewrite app_nil_r|].
    by exists (be_encode 2 seq).
Qed.

(** With the fuel of [index_put] the search always ends by itself. *)
Lemma probe_run b key :
  match probe probe_fuel b key key 0 with
  | PFree k => bk_get b k = None ∧ ∃ s, k = key ++ s
  | PExhausted => ∀ i, (0 ≤ i < 65536)%Z → bk_get b (probe_key key i) ≠ None
  | PFuel => False
  end.
Proof.
  apply (probe_spec probe_fuel b key 0); [done|].
  unfold probe_fuel. by rewrite Z2Nat.id.
Qed.

Lemma index_put_ok io t payload l l' :
  index_put io (nanoKey t) payload l = (l', None) →
  ∃ s, bk_get (indexDB l) (nanoKey t ++ s) = None ∧
       indexDB l' = bk_put (nanoKey t ++ s) payload (indexDB l) ∧ files l' = files l.
Proof.
  unfold index_put. pose proof (probe_run (indexDB l) (nanoKey t)) as Hp.
  destruct (probe _ _ _ _ _) as [k| |]; [|done|done].
  destruct Hp as [Hn [s ->]]. destruct (io_commit io); [|done].
  intros [<- _]%pair_equal_spec. by exists s.
Qed.

Lemma ensureDayFileLocked_index io t l : indexDB (fst (ensureDayFileLocked io t l)) = indexDB l.
Proof. unfold ensureDayFileLocked. by repeat case_match. Qed.

(** An accepted [Write] stored its payload under a fresh key of its instant. *)
Lemma Write_ok io e l l' :
  Write io e l = (l', None) →
  ∃ p s, json_marshal (stamp (io_now io) e) = Some p ∧
    let k := nanoKey (EvTime (stamp (io_now io) e)) ++ s in
    bk_get (indexDB l) k = None ∧ indexDB l' = bk_put k p (indexDB l).
Proof.
  unfold Write. destruct (json_marshal _) as [p|]; [|done].
  destruct (match leak_check with Some _ => _ | None => _ end); [done|].
  unfold write_locked. destruct (closed l); [done|].
  set (t := EvTime _). pose proof (ensureDayFileLocked_index io t l) as Hi.
  destruct (ensureDayFileLocked io t l) as [l1 [?|]]; [done|]. simpl in Hi.
  destruct (io_short_write io); [done|]. destruct (io_sync io); [|done].
  intros (s & Hn & Hp & _)%index_put_ok. exists p, s. split; [done|].
  cbn [file_append indexDB] in Hn, Hp. by rewrite Hi in Hn, Hp.
Qed.

(** A refused [Write] leaves the index alone. *)
Lemma Write_err io e l l' err : Write io e l = (l', Some err) → indexDB l' = indexDB l.
Proof.
  unfold Write. destruct (json_marshal _) as [p|]; [|by intros [= <- _]].
  destruct (match leak_check with Some _ => _ | None => _ end); [by intros [= <- _]|].
  unfold write_locked. destruct (closed l); [by intros [= <- _]|].
  set (t := EvTime _). pose proof (ensureDayFileLocked_index io t l) as Hi.
  destruct (ensureDayFileLocked io t l) as [l1 [?|]]; simpl in Hi; [by intros [= <- _]|].
  destruct (io_short_write io); [by intros [= <- _]|].
  destruct (io_sync io); [|by intros [= <- _]].
  unfold index_put. destruct (probe _ _ _ _ _); try by intros [= <- _].
  destruct (io_commit io); by intros [= <- _].
Qed.

(** * Reachable logs *)

Inductive log_step : Log B → Log B → Prop :=
| step_write io e l : log_step l (fst (Write io e l))
| step_close l : log_step l (Close l).

Definition log_reachable : Log B → Prop := rtc log_step OpenLog.

Lemma index_wf_put b k p : index_wf b → key_wf k → index_wf (bk_put k p b).
Proof.
  intros Hb Hk k' v'. destruct (decide (k = k')) as [<-|Hne]; [done|].
  rewrite bk_get_put_ne by done. apply Hb.
Qed.

Lemma log_reachable_wf l : log_reachable l → index_wf (indexDB l).
Proof.
  unfold log_reachable. revert l. apply rtc_ind_r.
  - intros k v. simpl. by rewrite bk_get_empty.
  - intros l l' _ Hs Hwf. destruct Hs as [io e l|l]; [|done].
    destruct (Write io e l) as [l' [err|]] eqn:E; simpl.
    + by rewrite (Write_err _ _ _ _ _ E).
    + destruct (Write_ok _ _ _ _ E) as (p & s & _ & _ & ->).
      apply index_wf_put; [done|apply key_wf_app].
Qed.
End index_lemmas.

Lemma newer_put_fresh {B} `{BucketLaws B} `{AuditCodec} since k p (b : B) :
  bk_get b k = None →
  ∃ l1 l2, newer since b = l1 ++ l2 ∧
    newer since (bk_put k p b)
    = l1 ++ (if Z.ltb (UnixNano since) (key_nano k) then option_list (json_unmarshal p) else []) ++ l2.
Proof.
  intros Hk. destruct (seek_put_fresh k p [] b Hk) as (a & c & He & He'); [done|].
  unfold newer. rewrite He, He'. rewrite !List.filter_app, !omap_app. cbn [List.filter].
  eexists _, _. split; [done|]. f_equal.
  destruct (Z.ltb _ _); [|done]. simpl. by destruct (json_unmarshal p).
Qed.

(** * Concrete instances for the witnesses *)

#[local] Instance ex_codec : AuditCodec := {
  json_marshal e := Some (Action e);
  json_unmarshal p := Some (mkEvent 0 [] [] [] p [] [] []);
  leak_check := None
}.

Definition ex_event (t : time) (a : gostring) : Event := mkEvent t [] [] [] a [] [] [].

Definition ex_log : Log (gmap gostring gostring) :=
  fst (Write (io_fine 5) (ex_event 7 $"b") (fst (Write (io_fine 5) (ex_event 7 $"a") OpenLog))).

Lemma ex_log_reachable : log_reachable ex_log.
Proof.
  eapply rtc_l; [apply (step_write (io_fine 5) (ex_event 7 $"a"))|].
  apply rtc_once, (step_write (io_fine 5) (ex_event 7 $"b")).
Qed.

(** * Properties *)

(** [Query] returns exactly the indexed records strictly newer than
    [since], oldest first, cut at a positive limit: the cursor start, the
    skipping loop and the limit test never drop or add a record, also when
    several records share a nanosecond or [since] lies before the epoch. *)
Theorem audit_query_exact {B} `{BucketLaws B} `{AuditCodec} since limit (l : Log B) :
  log_reachable l →
  Query since limit l = first_n limit (newer since (indexDB l)) ∧
  StronglySorted Z.le (key_nano <$> (bk_seek [] (indexDB l)).*1).
Proof.
  intros Hl%log_reachable_wf. split; [by apply Query_newer|].
  pose proof (bk_seek_sorted [] (indexDB l)) as Hs.
  assert (Hk : Forall key_wf (bk_seek [] (indexDB l)).*1).
  { apply Forall_forall. intros k (kv & -> & Hkv)%list_elem_of_fmap. by eapply seek_wf. }
  induction Hs as [|k ks Hs IH Hf]; [constructor|]. apply Forall_cons in Hk as [Hk Hks].
  rewrite fmap_cons. constructor; [by apply IH|]. apply Forall_fmap.
  rewrite Forall_forall in Hf, Hks. apply Forall_forall. intros k' Hk'.
  apply key_nano_mono; [done|by apply Hks|by apply Hf].
Qed.

Lemma audit_query_exact_witness :
  Query 3 1 ex_log = first_n 1 (newer 3 (indexDB ex_log)) ∧
  Action <$> Query 3 0 ex_log = [$"a"; $"b"].
Proof.
  split; [apply audit_query_exact, ex_log_reachable|by vm_compute].
Defined.

(** An accepted [Write] is never lost: whatever was visible to a query
    stays visible, in the same order, and the new record appears exactly in
    the queries whose [since] is before its instant, also when its nanosecond
    is already taken. *)
Theorem audit_write_visible {B} `{BucketLaws B} `{AuditCodec} io e (l l' : Log B) since :
  log_reachable l → Write io e l = (l', None) →
  ∃ p l1 l2,
    json_marshal (stamp (io_now io) e) = Some p ∧
    Query since 0 l = l1 ++ l2 ∧
    Query since 0 l' =
      l1 ++ (if Z.ltb (UnixNano since) (Z.max 0 (UnixNano (EvTime (stamp (io_now io) e))))
             then option_list (json_unmarshal p) else []) ++ l2.
Proof.
  intros Hl Hw. destruct (Write_ok _ _ _ _ Hw) as (p & s & Hp & Hfree & Hi).
  rewrite (Query_newer since 0 l) by (by apply log_reachable_wf).
  rewrite (Query_newer since 0 l').
  2:{ rewrite Hi. apply index_wf_put; [by apply log_reachable_wf|apply key_wf_app]. }
  destruct (newer_put_fresh since _ p _ Hfree) as (l1 & l2 & Hq1 & Hq2).
  exists p, l1, l2. unfold first_n; simpl. rewrite Hi, <- (key_nano_app _ s). done.
Qed.

Lemma audit_write_visible_witness :
  ∃ p l1 l2,
    json_marshal (stamp 5 (ex_event 7 $"c")) = Some p ∧
    Query 3 0 ex_log = l1 ++ l2 ∧
    Query 3 0 (fst (Write (io_fine 5) (ex_event 7 $"c") ex_log))
    = l1 ++ option_list (json_unmarshal p) ++ l2.
Proof.
  assert (Hw : snd (Write (io_fine 5) (ex_event 7 $"c") ex_log) = None)
    by (vm_compute; reflexivity).
  destruct (audit_write_visible (io_fine 5) (ex_event 7 $"c") ex_log _ 3 ex_log_reachable
    (eq_trans (surjective_pairing _) (f_equal (pair _) Hw))) as (p & l1 & l2 & Hq).
  exists p, l1, l2. exact Hq.
Defined.

(** A short write leaves a partial line without its newline, and the next
    record of the day is glued to it: one line of the file then holds both. *)
Theorem audit_short_write_glues {B} `{BucketLaws B} `{AuditCodec} (l : Log B) t e1 e2 p1 p2 n :
  leak_check = None → closed l = false →
  json_marshal e1 = Some p1 → json_marshal e2 = Some p2 →
  EvTime e1 = t → EvTime e2 = t → t ≠ time_zero → n ≤ length p1 →
  let l1 := fst (Write (mkIO t true (Some n) true true) e1 l) in
  let l2 := fst (Write (io_fine t) e2 l1) in
  files l2 !! dayOf t
  = Some (default [] (files l !! dayOf t) ++ take n p1 ++ p2 ++ [newline]).
Proof.
  intros Hck Hcl Hm1 Hm2 Ht1 Ht2 Hz Hn.
  assert (Hst : ∀ e, EvTime e = t → stamp t e = e).
  { intros e He. unfold stamp, IsZero. by rewrite He, (proj2 (Z.eqb_neq t time_zero)). }
  assert (Hday : ∀ io (l0 : Log B), io_open io = true → closed l0 = false →
    ∃ l3, ensureDayFileLocked io t l0 = (l3, None) ∧ curF l3 = true ∧ curDay l3 = dayOf t ∧
          closed l3 = false ∧ default [] (files l3 !! dayOf t) = default [] (files l0 !! dayOf t)).
  { intros io l0 Ho Hc. unfold ensureDayFileLocked. rewrite Ho.
    destruct (curF l0 && (curDay l0 =? dayOf t)%Z)%bool eqn:E.
    - apply andb_true_iff in E as [? ?%Z.eqb_eq]. by exists l0.
    - eexists. split; [done|]. simpl. by rewrite lookup_insert_eq. }
  unfold Write. cbn [io_now io_fine]. rewrite (Hst e1), (Hst e2) by done. rewrite Hm1, Hm2, Hck.
  unfold write_locked at 2. rewrite Hcl, Ht1.
  destruct (Hday (mkIO t true (Some n) true true) l) as (l3 & -> & Hf & Hd & Hc & Hfl); [done..|].
  cbn [io_short_write fst]. unfold write_locked. rewrite Ht2.
  set (l4 := file_append _ l3). assert (closed l4 = false) as -> by done.
  destruct (Hday (io_fine t) l4) as (l5 & -> & Hf5 & Hd5 & Hc5 & Hfl5); [done..|].
  cbn [io_short_write io_sync io_fine]. set (l6 := file_append _ l5).
  assert (Hfin : ∀ io key p (l0 : Log B), files (fst (index_put io key p l0)) = files l0).
  { intros. unfold index_put. destruct (probe _ _ _ _ _); try done. by destruct (io_commit io). }
  rewrite Hfin. unfold l6, file_append. cbn [files]. rewrite Hd5, lookup_insert_eq, Hfl5.
  unfold l4, file_append. cbn [files]. rewrite Hd, lookup_insert_eq. cbn [default from_option id].
  rewrite Hfl, take_app_le by done. by rewrite <- !app_assoc.
Qed.
