(* ===== verification/AdminHandler.v ===== *)
(** The admin request lifecycle (src/internal/admin/handler.go): lockout,
    session resolution, first-load redirect, CSRF, dispatch, logout and the
    embedded UI, composed from the components they call.

    One request reads the clock several times and draws random bytes; the
    readings are the fields of [Env]. The API router behind /api/ is another
    handler: the model ends with the request handed to it. *)

From S2P Require Import Prelude Http Lockout Session Metrics Bolt AuditLog.

(** * Data *)

(** [hcUI] is the embedded file system (None: no UI); [hcAPI] whether an API
    router is installed. *)
Record HandlerConfig := mkHandlerConfig {
  hcNodeID : gostring;
  hcPathPrefix : gostring;
  hcLabeler : Labeler;
  hcUI : option (gostring → option gostring);
  hcAPI : bool
}.

Record Env := mkEnv {
  tCheck : time;
  tGet : time;
  tRefresh : time;
  tCreate : time;
  tAudit : time;
  rnd1 : option gostring;
  rnd2 : option gostring;
  auditIO : AuditIO
}.

(** A finished response with its cookies, an http.Redirect, or the API router
    called on the request with the header map set so far. *)
Inductive Reply :=
| RResp (resp : Response) (cookies : list Cookie)
| RRedirect (target : gostring) (code : Z) (h : header) (cookies : list Cookie)
| RAPI (r : Request) (h : header).

Section handler.
Context (sha256 : gostring → gostring).
Context {B : Type} `{Bucket B} `{AuditCodec}.

(** The collaborators the handler mutates. *)
Record AdminState := mkAdminState {
  asSessions : SessionStore;
  asLockout : Lockout;
  asAudit : Log B
}.

(** * Operations *)

Definition ipHash (cfg : HandlerConfig) (r : Request) : gostring :=
  let host := match SplitHostPort (RemoteAddr r) with
              | Some (hh, _) => hh
              | None => RemoteAddr r
              end in
  ClientIP sha256 (hcLabeler cfg) host.

(** Session resolution: the state, the session and whether it was issued
    here; None when minting failed. *)
Definition resolveSession (env : Env) (ip sid : gostring) (st : AdminState)
    : option (AdminState * Session * bool) :=
  let existing := if decide (sid = []) then None else Get (tGet env) sid (asSessions st) in
  match existing with
  | Some x =>
      Some (mkAdminState (fst (Refresh (tRefresh env) sid (asSessions st)))
                         (asLockout st) (asAudit st), x, false)
  | None =>
      match Create (tCreate env) ip (rnd1 env) (rnd2 env) (asSessions st) with
      | Err _ => None
      | Ok (ss, x) =>
          Some (mkAdminState ss (RecordSuccess ip (asLockout st)) (asAudit st), x, true)
      end
  end.

Definition writeAudit (env : Env) (e : Event) (st : AdminState) : AdminState :=
  mkAdminState (asSessions st) (asLockout st) (fst (Write (auditIO env) e (asAudit st))).

Definition serveLogout (cfg : HandlerConfig) (env : Env) (h : header) (x : Session)
    (ip : gostring) (st : AdminState) : AdminState * Reply :=
  let ss := fst (Delete (ID x) (asSessions st)) in
  let ck := ClearSessionCookie (hcPathPrefix cfg) in
  let e := mkEvent (tAudit env) (ID x) ip (hcNodeID cfg) $"session.logout" [] [] (ID x) in
  (writeAudit env e (mkAdminState ss (asLockout st) (asAudit st)),
   RResp (mkResponse StatusNoContent h []) [ck]).

Definition uiContentType (name : gostring) (h : header) : header :=
  if HasSuffix name $".html" then hdr_set ContentType $"text/html; charset=utf-8" h
  else if HasSuffix name $".css" then hdr_set ContentType $"text/css; charset=utf-8" h
  else if HasSuffix name $".js" then hdr_set ContentType $"application/javascript" h
  else if HasSuffix name $".json" then hdr_set ContentType $"application/json" h
  else if HasSuffix name $".svg" then hdr_set ContentType $"image/svg+xml" h
  else h.

Definition serveUI (cfg : HandlerConfig) (h : header) (name : gostring) : Reply :=
  match hcUI cfg with
  | None => RResp (writeEmpty h StatusNoContent) []
  | Some read =>
      match read name with
      | None => RResp (writeEmpty h StatusNotFound) []
      | Some data => RResp (mkResponse StatusOK (uiContentType name h) data) []
      end
  end.

Definition dispatch (cfg : HandlerConfig) (env : Env) (h : header) (r : Request) (x : Session)
    (ip : gostring) (st : AdminState) : AdminState * Reply :=
  let path := Path r in
  if decide (path = $"/logout") then serveLogout cfg env h x ip st
  else if HasPrefix path $"/api/" then
    (st, if hcAPI cfg then RAPI r h else RResp (writeEmpty h StatusNotFound) [])
  else if HasPrefix path $"/static/" then
    (st, serveUI cfg h ($"ui/" ++ TrimPrefix path $"/"))
  else if decide (path = $"/" ∨ path = []) then (st, serveUI cfg h $"ui/index.html")
  else (st, RResp (writeEmpty h StatusNotFound) []).

Definition ServeHTTP (cfg : HandlerConfig) (env : Env) (r : Request) (st : AdminState)
    : AdminState * Reply :=
  let ip := ipHash cfg r in
  if negb (bool_decide (Check (tCheck env) ip (asLockout st) = StateAllowed))
  then (st, RResp (writeEmpty ∅ StatusNotFound) [])
  else match resolveSession env ip (SessionIDFromRequest r) st with
  | None => (st, RResp (writeEmpty ∅ StatusInternalServerError) [])
  | Some (st1, x, issued) =>
      let h := hdr_set CSRFHeader (CSRFToken x) ∅ in
      if issued then
        (st1, RRedirect (hcPathPrefix cfg ++ $"/") StatusFound h
                [SetSessionCookie (hcPathPrefix cfg) x (idleTTL (asSessions st1))])
      else if negb (ValidateCSRF (Some x) r) then
        let e := mkEvent (tAudit env) (ID x) ip (hcNodeID cfg) $"csrf.reject" (Path r) [] (ID x) in
        (writeAudit env e st1, RResp (writeEmpty h StatusForbidden) [])
      else dispatch cfg env h r x ip st1
  end.

(** * Vocabulary of the statements *)

(** The request acts as the stored session [x]. *)
Definition authenticated (env : Env) (r : Request) (st : AdminState) (x : Session) : Prop :=
  sessions (asSessions st) !! SessionIDFromRequest r = Some x ∧
  expired (asSessions st) (tGet env) x = false.

(** No entry for the cookie, or one that is expired. *)
Definition anonymous (env : Env) (r : Request) (st : AdminState) : Prop :=
  ∀ x, ¬ authenticated env r st x.

(** net/http delivers header and cookie values without NUL bytes. *)
Definition request_ok (r : Request) : Prop :=
  nul_free (SessionIDFromRequest r) ∧ nul_free (hdr_get (ReqHeader r) CSRFHeader).

Definition allowed (cfg : HandlerConfig) (env : Env) (r : Request) (st : AdminState) : Prop :=
  Check (tCheck env) (ipHash cfg r) (asLockout st) = StateAllowed.
End handler.
Arguments AdminState : clear implicits.

(** * Lemmas *)

Section handler_lemmas.
Context (sha256 : gostring → gostring).
Context {B : Type} `{BucketLaws B} `{AuditCodec}.
Implicit Types (st : AdminState B) (cfg : HandlerConfig) (env : Env) (r : Request).

(** A stored id is never empty, so the empty cookie is nobody. *)
Lemma existing_spec env r st :
  store_wf (asSessions st) → request_ok r →
  (if decide (SessionIDFromRequest r = []) then None
   else Get (tGet env) (SessionIDFromRequest r) (asSessions st))
  = match sessions (asSessions st) !! SessionIDFromRequest r with
    | Some x => if expired (asSessions st) (tGet env) x then None else Some x
    | None => None
    end.
Proof.
  intros Hwf [Hn _]. case_decide as E; [|by apply Get_lookup].
  rewrite E. destruct (sessions (asSessions st) !! []) as [x|] eqn:Hx; [|done].
  apply Hwf in Hx as (_ & [_ Hl] & _). done.
Qed.

(** The branch of a request that carries a live session. *)
Lemma serve_authenticated cfg env r st x :
  store_wf (asSessions st) → request_ok r → allowed sha256 cfg env r st →
  authenticated env r st x →
  let st1 := mkAdminState (fst (Refresh (tRefresh env) (SessionIDFromRequest r) (asSessions st)))
                          (asLockout st) (asAudit st) in
  let h := hdr_set CSRFHeader (CSRFToken x) ∅ in
  let ip := ipHash sha256 cfg r in
  ServeHTTP sha256 cfg env r st =
  if ValidateCSRF (Some x) r then dispatch cfg env h r x ip st1
  else (writeAudit env (mkEvent (tAudit env) (ID x) ip (hcNodeID cfg) $"csrf.reject"
                          (Path r) [] (ID x)) st1,
        RResp (writeEmpty h StatusForbidden) []).
Proof.
  intros Hwf Hr Ha [Hx He]. cbv zeta. unfold ServeHTTP. rewrite bool_decide_true by done. cbn [negb].
  unfold resolveSession. rewrite existing_spec, Hx, He by done.
  by destruct (ValidateCSRF (Some x) r).
Qed.

(** The branch of a request without a live session. *)
Lemma serve_anonymous cfg env r st :
  store_wf (asSessions st) → request_ok r → allowed sha256 cfg env r st →
  anonymous env r st →
  ServeHTTP sha256 cfg env r st =
  match Create (tCreate env) (ipHash sha256 cfg r) (rnd1 env) (rnd2 env) (asSessions st) with
  | Err _ => (st, RResp (writeEmpty ∅ StatusInternalServerError) [])
  | Ok (ss, x) =>
      (mkAdminState ss (RecordSuccess (ipHash sha256 cfg r) (asLockout st)) (asAudit st),
       RRedirect (hcPathPrefix cfg ++ $"/") StatusFound (hdr_set CSRFHeader (CSRFToken x) ∅)
         [SetSessionCookie (hcPathPrefix cfg) x (idleTTL ss)])
  end.
Proof.
  intros Hwf Hr Ha Hn. unfold ServeHTTP. rewrite bool_decide_true by done. cbn [negb].
  unfold resolveSession. rewrite existing_spec by done. unfold anonymous, authenticated in Hn.
  assert (match sessions (asSessions st) !! SessionIDFromRequest r with
          | Some x => if expired (asSessions st) (tGet env) x then None else Some x
          | None => None end = None) as ->.
  { destruct (sessions _ !! _) as [x|]; [|done].
    destruct (expired _ _ x) eqn:E; [done|]. by destruct (Hn x). }
  destruct (Create _ _ _ _ _) as [[ss x]|]; done.
Qed.

Lemma authenticated_or_anonymous env r st :
  (∃ x, authenticated env r st x) ∨ anonymous env r st.
Proof.
  unfold anonymous, authenticated.
  destruct (sessions (asSessions st) !! SessionIDFromRequest r) as [x|].
  - destruct (expired (asSessions st) (tGet env) x) eqn:E.
    + right. intros y [[= <-] Hy]. congruence.
    + left. by exists x.
  - right. by intros y [? _].
Qed.

(** The only way to the API router. *)
Lemma serve_api cfg env r st st' r' h :
  store_wf (asSessions st) → request_ok r →
  ServeHTTP sha256 cfg env r st = (st', RAPI r' h) →
  allowed sha256 cfg env r st ∧
  ∃ x, authenticated env r st x ∧ ValidateCSRF (Some x) r = true ∧ r' = r ∧ HasPrefix (Path r) $"/api/" = true ∧
       h = hdr_set CSRFHeader (CSRFToken x) ∅ ∧
       st' = mkAdminState (fst (Refresh (tRefresh env) (SessionIDFromRequest r) (asSessions st)))
               (asLockout st) (asAudit st).
Proof.
  intros Hwf Hr Hs.
  destruct (decide (Check (tCheck env) (ipHash sha256 cfg r) (asLockout st) = StateAllowed))
    as [Ha|Ha]; [|unfold ServeHTTP in Hs; by rewrite bool_decide_false in Hs].
  split; [done|]. destruct (authenticated_or_anonymous env r st) as [[x Hx]|Hn].
  - exists x. rewrite (serve_authenticated _ _ _ _ x) in Hs by done.
    destruct (ValidateCSRF (Some x) r); [|done].
    unfold dispatch in Hs. destruct (decide (Path r = _)); [done|].
    destruct (HasPrefix (Path r) $"/api/") eqn:Ep.
    + destruct (hcAPI cfg); [|done]. apply (f_equal fst) in Hs as Hst. apply (f_equal snd) in Hs. cbn [fst snd] in *.
      injection Hs as <- <-. by split_and!.
    + unfold serveUI in Hs. repeat case_match; simplify_eq.
  - rewrite serve_anonymous in Hs by done. destruct (Create _ _ _ _ _) as [[]|]; done.
Qed.
End handler_lemmas.

(** * Concrete instances for the witnesses *)

#[local] Instance hx_codec : AuditCodec := {
  json_marshal e := Some (Action e ++ $" " ++ Target e);
  json_unmarshal p := Some (mkEvent 0 [] [] [] p [] [] []);
  leak_check := None
}.

Definition hx_sha : gostring → gostring := λ _, replicate 32 "x"%char.

Definition hx_cfg : HandlerConfig :=
  mkHandlerConfig $"node-1" $"/s/a/b" (mkLabeler true $"salt") None true.

Definition hx_env (t : time) : Env :=
  mkEnv t t t t t (ex_rnd "a") (ex_rnd "b") (io_fine t).

Definition hx_st0 : AdminState (gmap gostring gostring) :=
  mkAdminState (NewSessionStore (15 * Minute) (8 * Hour)) NewLockout OpenLog.

Definition hx_first : Request := mkRequest MethodGet $"/" [] [] [] $"10.0.0.1:5555" ∅ ∅.

(** The state after the first visit, and a request carrying its cookie. *)
Definition hx_st1 : AdminState (gmap gostring gostring) :=
  fst (ServeHTTP hx_sha hx_cfg (hx_env Second) hx_first hx_st0).

Definition hx_call (m path csrf : gostring) : Request :=
  mkRequest m path [] [] [] $"10.0.0.1:5555" {[CSRFHeader := csrf]} {[CookieName := ex_sid]}.

Definition hx_csrf : gostring := b64_encode (replicate 32 "b"%char).

Lemma hx_st1_wf : store_wf (asSessions hx_st1).
Proof. decide_now. Qed.

Lemma hx_request_ok m path csrf : nul_free csrf → request_ok (hx_call m path csrf).
Proof.
  intros Hc. split; [|unfold hdr_get; simpl; by rewrite lookup_singleton_eq].
  unfold SessionIDFromRequest; simpl. rewrite lookup_singleton_eq. decide_now.
Qed.

Definition hx_x : Session :=
  mkSession ex_sid (ipHash hx_sha hx_cfg hx_first) Second Second hx_csrf (Second + 8 * Hour).

Lemma hx_authenticated m path csrf :
  authenticated (hx_env Minute) (hx_call m path csrf) hx_st1 hx_x.
Proof.
  split; [|by vm_compute]. unfold SessionIDFromRequest; simpl Cookies.
  rewrite lookup_singleton_eq. by vm_compute.
Qed.

(** * Properties *)

(** C1. Nothing reaches the admin API unauthenticated. Whenever the handler
    hands a request to the API router, the address is not locked out, the
    cookie names a stored session that is within both lifetimes, the path is
    under /api/, and a mutating method carried exactly the CSRF token of that
    session; the router gets the request unchanged. *)
Theorem admin_api_authenticated sha256 {B} `{BucketLaws B} `{AuditCodec} cfg env r
    (st st' : AdminState B) r' h :
  store_wf (asSessions st) → request_ok r →
  ServeHTTP sha256 cfg env r st = (st', RAPI r' h) →
  allowed sha256 cfg env r st ∧
  ∃ x, authenticated env r st x ∧ r' = r ∧ HasPrefix (Path r) $"/api/" = true ∧
       (isSafeMethod (Method r) = false → hdr_get (ReqHeader r) CSRFHeader = CSRFToken x) ∧
       hdr_get h CSRFHeader = CSRFToken x.
Proof.
  intros Hwf Hr Hs. destruct (serve_api _ _ _ _ _ _ _ _ Hwf Hr Hs) as (Ha & x & Hx & Ev & -> & Hp & -> & _).
  split; [done|]. exists x. pose proof Hx as [Hl _]. apply Hwf in Hl as (_ & _ & Ht & _).
  apply ValidateCSRF_exact in Ev; [|done|apply Hr]. unfold hdr_get at 2, hdr_set. rewrite lookup_insert_eq.
  split_and!; try done. intros Hm. destruct Ev; [congruence|done].
Qed.

Lemma admin_api_authenticated_witness :
  ∃ x, authenticated (hx_env Minute) (hx_call MethodPost $"/api/x" hx_csrf) hx_st1 x ∧
       CSRFToken x = hx_csrf.
Proof.
  destruct (@admin_api_authenticated hx_sha _ _ _ hx_codec hx_cfg (hx_env Minute)
    (hx_call MethodPost $"/api/x" hx_csrf) hx_st1
    (fst (ServeHTTP hx_sha hx_cfg (hx_env Minute) (hx_call MethodPost $"/api/x" hx_csrf) hx_st1))
    (hx_call MethodPost $"/api/x" hx_csrf) (hdr_set CSRFHeader hx_csrf ∅)
    hx_st1_wf (hx_request_ok MethodPost $"/api/x" hx_csrf ltac:(decide_now)))
    as [_ (x & Hx & _ & _ & Hc & _)].
  - rewrite (surjective_pairing (ServeHTTP _ _ _ _ _)). f_equal; by vm_compute.
  - exists x. split; [exact Hx|]. symmetry. rewrite <- Hc by reflexivity. by vm_compute.
Defined.

(** A locked-out address learns nothing and changes nothing: whatever the
    request asks for and whichever cookie it carries, the answer is the same
    empty 404, and sessions, lockout table and audit log stay as they were. *)
Theorem admin_lockout_silent sha256 {B} `{Bucket B} `{AuditCodec} cfg env r (st : AdminState B) :
  ¬ allowed sha256 cfg env r st ↔
  ServeHTTP sha256 cfg env r st = (st, RResp (writeEmpty ∅ StatusNotFound) []).
Proof.
  unfold allowed. split; intros Ha.
  - unfold ServeHTTP. by rewrite bool_decide_false.
  - intros Hc. unfold ServeHTTP in Ha. rewrite bool_decide_true in Ha by done. cbn [negb] in Ha.
    destruct (resolveSession _ _ _ _) as [[[st1 x] []]|]; [done| |done].
    destruct (ValidateCSRF (Some x) r); [|done]. simpl in Ha.
    apply (f_equal snd) in Ha. simpl in Ha.
    assert (Hh : ∀ s : Z, writeEmpty (hdr_set CSRFHeader (CSRFToken x) ∅) s
                   ≠ writeEmpty ∅ StatusNotFound).
    { intros s Hh. apply (f_equal (λ x, RespHeader x !! CSRFHeader)) in Hh. by vm_compute in Hh. }
    unfold dispatch, serveUI in Ha.
    repeat case_match; cbn [fst snd serveLogout] in Ha; try discriminate Ha;
      by injection Ha as Ha%Hh || (injection Ha; discriminate).
Qed.

(** A live session on a banned address. *)
Definition hx_banned : AdminState (gmap gostring gostring) :=
  mkAdminState (asSessions hx_st1) {[ ipHash hx_sha hx_cfg hx_first := mkEntry [] time_zero Hour ]} OpenLog.

Lemma admin_lockout_silent_witness :
  ServeHTTP hx_sha hx_cfg (hx_env Minute) (hx_call MethodGet $"/api/tenants" []) hx_banned =
  (hx_banned, RResp (writeEmpty ∅ StatusNotFound) []).
Proof.
  apply (@admin_lockout_silent hx_sha _ _ hx_codec hx_cfg (hx_env Minute)
    (hx_call MethodGet $"/api/tenants" []) hx_banned).
  vm_compute. discriminate.
Defined.

(** The first visit with the secret URL. Without a live session, and with
    randomness available, the handler stores a fresh session, answers with a
    302 to the clean prefix and a cookie naming that session, and clears the
    lockout record of the address; the session is found by [Get] until one of
    the lifetimes ends. *)
Theorem admin_first_visit sha256 {B} `{BucketLaws B} `{AuditCodec} cfg env r (st : AdminState B) b1 b2 :
  store_wf (asSessions st) → request_ok r → allowed sha256 cfg env r st →
  anonymous env r st →
  rnd1 env = Some b1 → rnd2 env = Some b2 → length b1 = 32 → length b2 = 32 →
  ∃ st' x,
    ServeHTTP sha256 cfg env r st =
      (st', RRedirect (hcPathPrefix cfg ++ $"/") StatusFound
              (hdr_set CSRFHeader (CSRFToken x) ∅)
              [SetSessionCookie (hcPathPrefix cfg) x (idleTTL (asSessions st))]) ∧
    asLockout st' !! ipHash sha256 cfg r = None ∧ asAudit st' = asAudit st ∧
    (∀ now, Get now (ID x) (asSessions st') =
       if (Z.ltb now (tCreate env + absoluteTTL (asSessions st)) &&
           negb (Z.leb (idleTTL (asSessions st)) (time_sub now (tCreate env))))%bool
       then Some x else None).
Proof.
  intros Hwf Hr Ha Hn E1 E2 L1 L2. rewrite serve_anonymous by done.
  destruct (Create _ _ _ _ _) as [[ss x]|err] eqn:Ec.
  2:{ by rewrite E1, E2 in Ec. }
  pose proof Ec as Ec'.
  apply store_wf_create in Ec' as (Hwf' & (_ & Ht & _) & Hl);
    [|unfold rnd_ok; intros; simplify_eq; lia..|done].
  rewrite E1, E2 in Ec. injection Ec as <- <-.
  eexists _, _. split; [done|]. split; [apply lookup_delete_eq|]. split; [done|].
  intros now. cbn [asSessions]. rewrite Get_lookup, Hl by (done || apply Ht).
  unfold expired, After, time_add. cbn [ExpiresAt LastSeen set_sessions idleTTL].
  by destruct (Z.ltb _ _), (Z.leb _ _).
Qed.

Lemma admin_first_visit_witness :
  ∃ st' x, ServeHTTP (B := gmap gostring gostring) (H0 := hx_codec)
      hx_sha hx_cfg (hx_env Second) hx_first hx_st0 =
    (st', RRedirect $"/s/a/b/" StatusFound (hdr_set CSRFHeader (CSRFToken x) ∅)
            [SetSessionCookie $"/s/a/b" x (15 * Minute)]).
Proof.
  destruct (@admin_first_visit hx_sha _ _ _ hx_codec hx_cfg (hx_env Second) hx_first hx_st0
    (replicate 32 "a"%char) (replicate 32 "b"%char)) as (st' & x & Hs & _).
  - apply store_wf_new.
  - split; decide_now.
  - by vm_compute.
  - by intros x [? _].
  - reflexivity.
  - reflexivity.
  - reflexivity.
  - reflexivity.
  - exists st', x. exact Hs.
Defined.

Lemma Delete_gone id s : sessions (fst (Delete id s)) !! id = None.
Proof. unfold Delete. destruct (sessions s !! id) eqn:E; [apply lookup_delete_eq|done]. Qed.

(** Logging out revokes the session for good. A request for /logout that
    carries a live session and passes the CSRF check is answered 204 with the
    cookie cleared, and afterwards no request with the same cookie is
    authenticated, at any time; the lockout table is untouched. *)
Theorem admin_logout_revokes sha256 {B} `{BucketLaws B} `{AuditCodec} cfg env r (st : AdminState B) x :
  store_wf (asSessions st) → request_ok r → allowed sha256 cfg env r st →
  authenticated env r st x → ValidateCSRF (Some x) r = true → Path r = $"/logout" →
  ∃ st', ServeHTTP sha256 cfg env r st =
           (st', RResp (mkResponse StatusNoContent (hdr_set CSRFHeader (CSRFToken x) ∅) [])
                   [ClearSessionCookie (hcPathPrefix cfg)]) ∧
         asLockout st' = asLockout st ∧
         ∀ env' r', SessionIDFromRequest r' = SessionIDFromRequest r → anonymous env' r' st'.
Proof.
  intros Hwf Hr Ha Hx Hv Hp. rewrite (serve_authenticated _ _ _ _ _ x), Hv by done.
  unfold dispatch. rewrite decide_True by done. unfold serveLogout.
  eexists. split; [done|]. split; [done|].
  intros env' r' Heq y [Hy _]. revert Hy. rewrite Heq.
  pose proof Hx as [Hl _]. apply Hwf in Hl as (Hid & _). rewrite Hid.
  cbn [writeAudit asSessions]. by rewrite Delete_gone.
Qed.

Lemma admin_logout_revokes_witness :
  ∃ st', ServeHTTP hx_sha hx_cfg (hx_env Minute) (hx_call MethodGet $"/logout" []) hx_st1 =
    (st', RResp (mkResponse StatusNoContent (hdr_set CSRFHeader hx_csrf ∅) [])
            [ClearSessionCookie $"/s/a/b"]).
Proof.
  destruct (@admin_logout_revokes hx_sha _ _ _ hx_codec hx_cfg (hx_env Minute)
    (hx_call MethodGet $"/logout" []) hx_st1 hx_x hx_st1_wf) as (st' & Hs & _).
  - apply hx_request_ok. decide_now.
  - by vm_compute.
  - apply hx_authenticated.
  - reflexivity.
  - reflexivity.
  - exists st'. exact Hs.
Defined.

(** The session store only moves by the store's own operations. *)
Lemma serve_sessions_steps sha256 {B} `{BucketLaws B} `{AuditCodec} cfg env r (st : AdminState B) :
  rnd_ok (rnd1 env) → rnd_ok (rnd2 env) →
  rtc sstep (asSessions st) (asSessions (fst (ServeHTTP sha256 cfg env r st))).
Proof.
  intros Hr1 Hr2. unfold ServeHTTP. destruct (negb _); [done|].
  destruct (resolveSession _ _ _ _) as [[[st1 x] issued]|] eqn:Er; [|done].
  assert (Hst1 : rtc sstep (asSessions st) (asSessions st1)).
  { unfold resolveSession in Er. destruct (if decide _ then _ else _).
    - simplify_eq/=. apply rtc_once, step_refresh.
    - destruct (Create _ _ _ _ _) as [[ss y]|] eqn:Ec; simplify_eq/=.
      apply rtc_once. by apply (step_create _ (tCreate env) (ipHash sha256 cfg r) _ _ _ _ Hr1 Hr2 Ec). }
  destruct issued; [done|]. destruct (ValidateCSRF (Some x) r); [|done]. cbn [negb].
  unfold dispatch. destruct (decide (Path r = _)).
  - cbn [serveLogout fst writeAudit asSessions]. eapply rtc_r; [done|]. apply step_delete.
  - by repeat case_match.
Qed.

(** The lockout table only moves by clearing the caller's own record. *)
Lemma serve_lockout_step sha256 {B} `{BucketLaws B} `{AuditCodec} cfg env r (st : AdminState B) :
  let st' := fst (ServeHTTP sha256 cfg env r st) in
  asLockout st' = asLockout st ∨
  asLockout st' = RecordSuccess (ipHash sha256 cfg r) (asLockout st).
Proof.
  cbv zeta. unfold ServeHTTP. destruct (negb _); [by left|].
  destruct (resolveSession _ _ _ _) as [[[st1 x] issued]|] eqn:Er; [|by left].
  assert (Hst1 : asLockout st1 = asLockout st ∨
    asLockout st1 = RecordSuccess (ipHash sha256 cfg r) (asLockout st)).
  { unfold resolveSession in Er. destruct (if decide _ then _ else _); [simplify_eq/=; by left|].
    destruct (Create _ _ _ _ _) as [[ss y]|]; simplify_eq/=. by right. }
  destruct issued; [done|]. destruct (ValidateCSRF (Some x) r); [|done]. cbn [negb].
  unfold dispatch. destruct (decide (Path r = _)); [done|]. by repeat case_match.
Qed.

(** The handler preserves the invariants of its collaborators: from a
    session store reachable by its operations it only reaches such stores,
    and it never weakens anybody else's lockout: the record of every other
    address is exactly what it was. *)
Theorem admin_handler_invariant sha256 {B} `{BucketLaws B} `{AuditCodec} cfg env r (st : AdminState B) i a :
  rnd_ok (rnd1 env) → rnd_ok (rnd2 env) → reachable i a (asSessions st) →
  let st' := fst (ServeHTTP sha256 cfg env r st) in
  reachable i a (asSessions st') ∧
  ∀ ip, ip ≠ ipHash sha256 cfg r → asLockout st' !! ip = asLockout st !! ip.
Proof.
  intros Hr1 Hr2 Hreach. cbv zeta. split.
  - unfold reachable in *. etrans; [exact Hreach|]. by apply serve_sessions_steps.
  - intros ip Hip. destruct (serve_lockout_step sha256 cfg env r st) as [-> | ->]; [done|].
    by apply lookup_delete_ne.
Qed.

Lemma admin_handler_invariant_witness : reachable (15 * Minute) (8 * Hour) (asSessions hx_st1).
Proof.
  apply (@admin_handler_invariant hx_sha _ _ _ hx_codec hx_cfg (hx_env Second) hx_first hx_st0);
    [apply ex_rnd_ok|apply ex_rnd_ok|apply rtc_refl].
Defined.
