(* ===== verification/Onion.v ===== *)
(** Tor v3 hidden-service addresses (src/internal/shared/onion.go):
    [ValidateOnionV3], [BuildOnionV3] and the unpadded base32 they use.
    SHA3-256 is a parameter. *)

From S2P Require Import Prelude.

(** * Unpadded base32 (encoding/base32) on bit strings, most significant first *)

Definition b32_alphabet : gostring := $"ABCDEFGHIJKLMNOPQRSTUVWXYZ234567".

Abbreviation quintet := (bool * bool * bool * bool * bool)%type.

Definition bits_of_byte (c : ascii) : list bool :=
  match c with Ascii b0 b1 b2 b3 b4 b5 b6 b7 => [b7; b6; b5; b4; b3; b2; b1; b0] end.

Fixpoint bits_of_bytes (s : gostring) : list bool :=
  match s with
  | [] => []
  | c :: s' => bits_of_byte c ++ bits_of_bytes s'
  end.

(** Whole bytes only: a tail of fewer than eight bits is dropped. *)
Fixpoint bytes_of_bits (l : list bool) : gostring :=
  match l with
  | b7 :: b6 :: b5 :: b4 :: b3 :: b2 :: b1 :: b0 :: l' =>
      Ascii b0 b1 b2 b3 b4 b5 b6 b7 :: bytes_of_bits l'
  | _ => []
  end.

Definition quintet_val (q : quintet) : nat :=
  let '(a, b, c, d, e) := q in
  16 * Nat.b2n a + 8 * Nat.b2n b + 4 * Nat.b2n c + 2 * Nat.b2n d + Nat.b2n e.

(** Groups of five bits, the last one filled up with zeros. *)
Fixpoint quintets_of_bits (l : list bool) : list quintet :=
  match l with
  | a :: b :: c :: d :: e :: l' => (a, b, c, d, e) :: quintets_of_bits l'
  | [a; b; c; d] => [(a, b, c, d, false)]
  | [a; b; c] => [(a, b, c, false, false)]
  | [a; b] => [(a, b, false, false, false)]
  | [a] => [(a, false, false, false, false)]
  | [] => []
  end.

Fixpoint bits_of_quintets (l : list quintet) : list bool :=
  match l with
  | [] => []
  | (a, b, c, d, e) :: l' => a :: b :: c :: d :: e :: bits_of_quintets l'
  end.

Definition b32_char (q : quintet) : ascii := default "A"%char (b32_alphabet !! quintet_val q).

Definition all_quintets : list quintet :=
  a ← [false; true]; b ← [false; true]; c ← [false; true]; d ← [false; true];
  e ← [false; true]; mret (a, b, c, d, e).

(** The inverse alphabet (the decode map). *)
Definition b32_val (c : ascii) : option quintet :=
  snd <$> list_find (λ q, b32_char q = c) all_quintets.

Definition EncodeToString (s : gostring) : gostring :=
  b32_char <$> quintets_of_bits (bits_of_bytes s).

Definition DecodeString (s : gostring) : option gostring :=
  match mapM b32_val s with
  | None => None
  | Some qs => Some (bytes_of_bits (bits_of_quintets qs))
  end.

(** * Operations *)

Inductive onion_error :=
| ErrOnionEmpty
| ErrOnionSuffix
| ErrOnionLength
| ErrOnionNotLowercase
| ErrOnionBadBase32
| ErrOnionV2Deprecated
| ErrOnionVersion
| ErrOnionChecksum.

Definition onionSuffix : gostring := $".onion".

Definition onion_char (c : ascii) : bool :=
  let n := N_of_ascii c in
  ((N.leb 97 n && N.leb n 122) || (N.leb 50 n && N.leb n 55))%bool.

Definition version_byte : ascii := ascii_of_N 3.

Section onion.
Context `{GoUnicode} (sha3_256 : gostring → gostring).

(** The checksum input: the tag, the key, the version byte. *)
Definition onion_sum (pubkey : gostring) : gostring :=
  sha3_256 ($".onion checksum" ++ pubkey ++ [version_byte]).

(** None is a nil error. *)
Definition ValidateOnionV3 (addr : gostring) : option onion_error :=
  if decide (addr = []) then Some ErrOnionEmpty
  else if negb (HasSuffix addr onionSuffix) then Some ErrOnionSuffix
  else
    let prefix := take (length addr - length onionSuffix) addr in
    if decide (prefix = []) then Some ErrOnionLength
    else if decide (length prefix = 16 ∨ length prefix = 22) then Some ErrOnionV2Deprecated
    else if decide (length prefix ≠ 56) then Some ErrOnionLength
    else if decide (ToLower prefix ≠ prefix) then Some ErrOnionNotLowercase
    else if negb (forallb onion_char prefix) then Some ErrOnionBadBase32
    else match DecodeString (ToUpper prefix) with
    | None => Some ErrOnionBadBase32
    | Some decoded =>
        if decide (length decoded ≠ 35) then Some ErrOnionLength
        else if decide (decoded !! 34 ≠ Some version_byte) then Some ErrOnionVersion
        else
          let pubkey := take 32 decoded in
          let gotChecksum := drop 32 (take 34 decoded) in
          let sum := onion_sum pubkey in
          if decide (sum !! 0 ≠ gotChecksum !! 0 ∨ sum !! 1 ≠ gotChecksum !! 1)
          then Some ErrOnionChecksum else None
    end.

Definition BuildOnionV3 (pubkey : gostring) : option gostring :=
  if decide (length pubkey ≠ 32) then None
  else
    let sum := onion_sum pubkey in
    let payload := pubkey ++ take 2 sum ++ [version_byte] in
    Some (ToLower (EncodeToString payload) ++ onionSuffix).
End onion.

(** * Lemmas: base32 *)

Lemma eight_ind (P : list bool → Prop) :
  (∀ l, length l < 8 → P l) →
  (∀ a b c d e f g h l, P l → P (a :: b :: c :: d :: e :: f :: g :: h :: l)) → ∀ l, P l.
Proof.
  intros H0 H1. fix IH 1.
  intros [|a [|b [|c [|d [|e [|f [|g [|h l]]]]]]]]; try (apply H0; simpl; lia).
  apply H1, IH.
Qed.

Lemma bytes_bits_roundtrip s : bytes_of_bits (bits_of_bytes s) = s.
Proof. induction s as [|[] s IH]; simpl; [done|]. by rewrite IH. Qed.

Lemma bits_bytes_roundtrip l n : length l = n * 8 → bits_of_bytes (bytes_of_bits l) = l.
Proof.
  revert n. induction l as [l Hl|a b c d e f g h l IH] using eight_ind; intros n Hn.
  - assert (length l = 0) as ->%nil_length_inv by lia. done.
  - simpl in *. by rewrite (IH (n - 1)) by lia.
Qed.

Lemma length_bits_of_bytes s : length (bits_of_bytes s) = length s * 8.
Proof. induction s as [|[] s IH]; simpl; lia. Qed.

Lemma length_bytes_of_bits l n : length l = n * 8 → length (bytes_of_bits l) = n.
Proof.
  revert n. induction l as [l Hl|a b c d e f g h l IH] using eight_ind; intros n Hn.
  - assert (length l = 0) as ->%nil_length_inv by lia. simpl in *. lia.
  - simpl in *. rewrite (IH (n - 1)) by lia. lia.
Qed.

Lemma quintets_bits_roundtrip qs : quintets_of_bits (bits_of_quintets qs) = qs.
Proof. induction qs as [|[[[[a b] c] d] e] qs IH]; simpl; [done|]. by rewrite IH. Qed.

Lemma bits_quintets_roundtrip n l :
  length l = n * 5 → bits_of_quintets (quintets_of_bits l) = l ∧ length (quintets_of_bits l) = n.
Proof.
  revert l; induction n as [|n IH]; intros l Hl.
  - by apply nil_length_inv in Hl as ->.
  - destruct l as [|a [|b [|c [|d [|e l]]]]]; simpl in Hl; try lia.
    destruct (IH l) as [H1 H2]; [lia|]. simpl. by rewrite H1, H2.
Qed.

Lemma length_bits_of_quintets qs : length (bits_of_quintets qs) = length qs * 5.
Proof. induction qs as [|[[[[a b] c] d] e] qs IH]; simpl; lia. Qed.

Lemma b32_val_char q : b32_val (b32_char q) = Some q.
Proof. by destruct q as [[[[[] []] []] []] []]. Qed.

Lemma b32_char_val c q : b32_val c = Some q → b32_char q = c.
Proof.
  unfold b32_val. destruct (list_find _ _) as [[i q']|] eqn:E; simpl; [|done].
  apply list_find_Some in E as (_ & Hc & _). by intros [= <-].
Qed.

Lemma mapM_b32_char qs : mapM b32_val (b32_char <$> qs) = Some qs.
Proof. apply mapM_fmap_Some. intros. apply b32_val_char. Qed.

(** Decoding inverts encoding on whole 40-bit groups. *)
Lemma decode_encode s n : length s = n * 5 → DecodeString (EncodeToString s) = Some s.
Proof.
  intros Hl. unfold DecodeString, EncodeToString. rewrite mapM_b32_char.
  destruct (bits_quintets_roundtrip (n * 8) (bits_of_bytes s)) as [-> _].
  { rewrite length_bits_of_bytes. lia. }
  by rewrite bytes_bits_roundtrip.
Qed.

Lemma length_encode s n : length s = n * 5 → length (EncodeToString s) = n * 8.
Proof.
  intros Hl. unfold EncodeToString. rewrite length_fmap.
  apply bits_quintets_roundtrip. rewrite length_bits_of_bytes. lia.
Qed.

Lemma encode_decode t s n :
  length t = n * 8 → DecodeString t = Some s → EncodeToString s = t ∧ length s = n * 5.
Proof.
  unfold DecodeString. intros Hl. destruct (mapM b32_val t) as [qs|] eqn:Eq; [|done].
  intros [= <-]. apply mapM_Some in Eq.
  assert (Hq : length (bits_of_quintets qs) = n * 5 * 8).
  { rewrite length_bits_of_quintets, <- (Forall2_length _ _ _ Eq). lia. }
  split; [|by apply length_bytes_of_bits].
  unfold EncodeToString. rewrite (bits_bytes_roundtrip _ _ Hq), quintets_bits_roundtrip.
  clear -Eq. induction Eq as [|c q t qs Hc _ IH]; [done|].
  simpl. rewrite (b32_char_val _ _ Hc). f_equal. exact IH.
Qed.

(** * Lemmas: letter case on the alphabet *)

Lemma b32_char_case q :
  is_ascii_byte (b32_char q) = true ∧ is_ascii_byte (lower_byte (b32_char q)) = true ∧
  upper_byte (lower_byte (b32_char q)) = b32_char q ∧
  lower_byte (lower_byte (b32_char q)) = lower_byte (b32_char q) ∧
  onion_char (lower_byte (b32_char q)) = true.
Proof. by destruct q as [[[[[] []] []] []] []]. Qed.

Lemma onion_char_case c :
  onion_char c = true →
  is_ascii_byte c = true ∧ lower_byte (upper_byte c) = c ∧ is_ascii_byte (upper_byte c) = true.
Proof. destruct c as [[] [] [] [] [] [] [] []]; by vm_compute. Qed.

Lemma onion_char_b32 c : onion_char c = true → is_Some (b32_val (upper_byte c)).
Proof.
  destruct c as [[] [] [] [] [] [] [] []]; vm_compute; intros; try done; by eexists.
Qed.

Section case_lemmas.
Context `{GoUnicode}.

Lemma ToLower_ascii s : forallb is_ascii_byte s = true → ToLower s = map lower_byte s.
Proof. unfold ToLower. by intros ->. Qed.

Lemma ToUpper_ascii s : forallb is_ascii_byte s = true → ToUpper s = map upper_byte s.
Proof. unfold ToUpper. by intros ->. Qed.

Lemma forallb_map_fmap {A C} (P : C → bool) (f : A → C) l :
  (∀ x, P (f x) = true) → forallb P (f <$> l) = true.
Proof. intros HP. induction l as [|x l IH]; [done|]. cbn. rewrite HP. exact IH. Qed.

(** Case folding of an encoded string is undone by upper-casing. *)
Lemma lower_encoded s :
  let p := ToLower (EncodeToString s) in
  length p = length (EncodeToString s) ∧ ToLower p = p ∧ forallb onion_char p = true ∧
  ToUpper p = EncodeToString s.
Proof.
  cbv zeta. unfold EncodeToString. set (qs := quintets_of_bits _).
  rewrite (ToLower_ascii (b32_char <$> qs)) by (apply forallb_map_fmap; apply b32_char_case).
  change (map lower_byte (b32_char <$> qs)) with (lower_byte <$> (b32_char <$> qs)).
  rewrite <- list_fmap_compose. split; [by rewrite !length_fmap|].
  assert (Ha : forallb is_ascii_byte (lower_byte ∘ b32_char <$> qs) = true)
    by (apply forallb_map_fmap; intros; apply b32_char_case).
  rewrite (ToLower_ascii _ Ha), (ToUpper_ascii _ Ha).
  change (map ?f ?l) with (f <$> l). rewrite <- !list_fmap_compose. split; [|split].
  - apply list_fmap_ext. intros. apply b32_char_case.
  - apply forallb_map_fmap. intros. apply b32_char_case.
  - apply list_fmap_ext. intros. apply b32_char_case.
Qed.

Lemma upper_onion p :
  forallb onion_char p = true →
  ToUpper p = map upper_byte p ∧ forallb is_ascii_byte (map upper_byte p) = true ∧
  ToLower (map upper_byte p) = p ∧ is_Some (mapM b32_val (map upper_byte p)).
Proof.
  intros Hp. rewrite forallb_forall in Hp.
  assert (Ha : forallb is_ascii_byte p = true).
  { apply forallb_forall. intros c Hc. by apply onion_char_case, Hp. }
  assert (Hu : forallb is_ascii_byte (map upper_byte p) = true).
  { apply forallb_forall. intros c (d & <- & Hd)%in_map_iff. by apply onion_char_case, Hp. }
  split; [by apply ToUpper_ascii|]. split; [done|]. split.
  - rewrite ToLower_ascii, List.map_map by done. rewrite <- (List.map_id p) at 2.
    apply map_ext_in. intros c Hc. by apply onion_char_case, Hp.
  - apply mapM_is_Some. apply Forall_forall.
    intros c (d & -> & Hd)%list_elem_of_fmap. apply onion_char_b32, Hp. by apply list_elem_of_In.
Qed.
End case_lemmas.

Lemma HasSuffix_spec s p : HasSuffix s p = true ↔ p `suffix_of` s.
Proof.
  unfold HasSuffix. rewrite HasPrefix_spec. split; intros [k Hk].
  - exists (reverse k). rewrite <- (reverse_involutive s), Hk, reverse_app. by rewrite reverse_involutive.
  - exists (reverse k). by rewrite Hk, reverse_app.
Qed.

(** * Lemmas: the payload *)

Section payload.
Context `{GoUnicode} (sha3_256 : gostring → gostring).
Context (sha3_len : ∀ m, length (sha3_256 m) = 32).

Lemma onion_sum_two pk : ∃ x y r, onion_sum sha3_256 pk = x :: y :: r.
Proof.
  pose proof (sha3_len ($".onion checksum" ++ pk ++ [version_byte])) as Hl.
  fold (onion_sum sha3_256 pk) in Hl.
  destruct (onion_sum sha3_256 pk) as [|x [|y r]]; [done|done|]. by exists x, y, r.
Qed.

(** The checks on the decoded bytes hold exactly of the payload of their key. *)
Lemma decoded_checks dec :
  length dec = 35 →
  (dec !! 34 = Some version_byte ∧
   onion_sum sha3_256 (take 32 dec) !! 0 = drop 32 (take 34 dec) !! 0 ∧
   onion_sum sha3_256 (take 32 dec) !! 1 = drop 32 (take 34 dec) !! 1) ↔
  dec = take 32 dec ++ take 2 (onion_sum sha3_256 (take 32 dec)) ++ [version_byte].
Proof.
  intros Hl. destruct (onion_sum_two (take 32 dec)) as (x & y & r & ->). cbn [take].
  assert (∃ pk a b c, dec = pk ++ [a; b; c] ∧ length pk = 32) as (pk & a & b & c & -> & Hpk).
  { exists (take 32 dec). destruct (drop 32 dec) as [|a [|b [|c [|]]]] eqn:E;
      apply (f_equal length) in E as E'; rewrite length_drop in E'; simpl in E'; try lia.
    exists a, b, c. rewrite <- E, take_drop. split; [done|]. rewrite length_take. lia. }
  rewrite lookup_app_r, Hpk by lia.
  rewrite (take_app_ge _ _ 34), Hpk by lia. rewrite drop_app_ge, Hpk by lia.
  rewrite (take_app_le pk), (take_ge pk) by lia. cbn. split.
  - intros (? & ? & ?). by simplify_eq.
  - intros Heq%app_inv_head. injection Heq as <- <- <-. done.
Qed.
End payload.

(** * Properties *)

(** C33. The validator accepts exactly the addresses the builder produces. For
    a 32-byte digest, [ValidateOnionV3] returns nil on an address if and only
    if it is [BuildOnionV3] of some 32-byte key: every built address passes
    (length, alphabet, case, version, checksum), and nothing else does. *)
Theorem onion_validate_iff_built `{GoUnicode} sha3_256 addr :
  (∀ m, length (sha3_256 m) = 32) →
  ValidateOnionV3 sha3_256 addr = None ↔
  ∃ pk, length pk = 32 ∧ BuildOnionV3 sha3_256 pk = Some addr.
Proof.
  intros Hsha. split.
  - unfold ValidateOnionV3. destruct (decide (addr = [])); [done|].
    destruct (HasSuffix addr onionSuffix) eqn:Hsuf; [|done]. cbn [negb].
    apply HasSuffix_spec in Hsuf as [p ->].
    rewrite length_app, Nat.add_sub, take_app_length.
    destruct (decide (p = [])); [done|]. destruct (decide (length p = 16 ∨ _)); [done|].
    destruct (decide (length p ≠ 56)) as [|Hlen]; [done|]. apply dec_stable in Hlen.
    destruct (decide (ToLower p ≠ p)); [done|].
    destruct (forallb onion_char p) eqn:Hoc; [|done]. cbn [negb].
    destruct (upper_onion p Hoc) as (-> & _ & Hback & _).
    destruct (DecodeString (map upper_byte p)) as [dec|] eqn:Hd; [|done].
    assert (Hu : length (map upper_byte p) = 7 * 8) by by rewrite length_map.
    destruct (encode_decode _ _ _ Hu Hd) as [Henc Hl].
    destruct (decide (length dec ≠ 35)); [done|].
    destruct (decide (dec !! 34 ≠ _)) as [|Hv]; [done|]. apply dec_stable in Hv.
    case_decide as Hc; [done|]. intros _.
    exists (take 32 dec). split; [rewrite length_take; lia|].
    unfold BuildOnionV3. rewrite decide_False by (rewrite length_take; lia).
    rewrite <- (proj1 (decoded_checks sha3_256 Hsha dec Hl)), Henc, Hback; [done|].
    split; [done|]. split; apply dec_stable; tauto.
  - intros (pk & Hpk & Hb). unfold BuildOnionV3 in Hb. rewrite decide_False in Hb by lia.
    set (payload := pk ++ take 2 (onion_sum sha3_256 pk) ++ [version_byte]) in *.
    assert (Hl : length payload = 7 * 5).
    { unfold payload. destruct (onion_sum_two sha3_256 Hsha pk) as (x & y & r & ->).
      rewrite !length_app. simpl. lia. }
    injection Hb as <-. destruct (lower_encoded payload) as (Hlen & Hlow & Hoc & Hup).
    set (p := ToLower (EncodeToString payload)) in *.
    rewrite (length_encode _ 7 Hl) in Hlen.
    unfold ValidateOnionV3. rewrite decide_False by (by destruct p).
    rewrite (proj2 (HasSuffix_spec _ _)) by (by exists p). cbn [negb].
    rewrite length_app, Nat.add_sub, take_app_length.
    rewrite !decide_False by (destruct p; simpl in *; done || lia).
    rewrite Hlow, decide_False by auto. rewrite Hoc, Hup, (decode_encode _ _ Hl). cbn [negb].
    rewrite decide_False by lia.
    assert (Htk : take 32 payload = pk) by (unfold payload; by rewrite take_app_le, take_ge by lia).
    destruct (proj2 (decoded_checks sha3_256 Hsha payload Hl)) as (H34 & H0 & H1).
    { by rewrite Htk. }
    rewrite H34, decide_False by auto. rewrite H0, H1. rewrite decide_False; [done|]. tauto.
Qed.

#[local] Instance ex_unicode : GoUnicode := {| unicode_lower s := s; unicode_upper s := s; unicode_trim s := s |}.

Lemma onion_validate_iff_built_witness :
  let sha := λ m : gostring, replicate 32 (default NUL (last (take 20 m))) in
  ∃ a, BuildOnionV3 sha (replicate 32 "k"%char) = Some a ∧ ValidateOnionV3 sha a = None.
Proof.
  cbv zeta. set (sha := λ m : gostring, replicate 32 (default NUL (last (take 20 m)))).
  destruct (BuildOnionV3 sha (replicate 32 "k"%char)) as [a|] eqn:E; [|by vm_compute in E].
  exists a. split; [done|]. apply (onion_validate_iff_built sha a); [intros m; apply length_replicate|].
  exists (replicate 32 "k"%char). split; [done|exact E].
Defined.
