(* ===== verification/NegCache.v ===== *)
(** The negative cache of onion backends
    (src/internal/feature/negcache/negcache.go): consecutive-failure counters
    and a blacklist with deadlines, keyed by (tenant, onion).

    The abstract specification follows one pair on its own; the refinement
    theorem shows that the shared maps, the eager clean-up of [IsBlacklisted]
    and [Sweep] never change what the pair observes. *)

From S2P Require Import Prelude.

(** * Data *)

Record Entry := mkEntry {
  Tenant : gostring;
  Onion : gostring;
  ExpiresAt : time
}.

Record Cache := mkCache {
  counters : gmap gostring Z;
  blacklist : gmap gostring time;
  ttl : duration;
  threshold : Z
}.

(** * Operations *)

Definition NewCache (defaultTTL : duration) (failureThreshold : Z) : Cache :=
  mkCache ∅ ∅ defaultTTL failureThreshold.

Definition Configure (defaultTTL : duration) (failureThreshold : Z) (c : Cache) : Cache :=
  mkCache (counters c) (blacklist c) defaultTTL failureThreshold.

Definition keyFor (tenant onion : gostring) : gostring := tenant ++ NUL :: onion.

Definition splitKey (key : gostring) : option (gostring * gostring) := cut_byte NUL key.

Definition IsBlacklisted (now : time) (tenant onion : gostring) (c : Cache) : Cache * bool :=
  let key := keyFor tenant onion in
  match blacklist c !! key with
  | None => (c, false)
  | Some e =>
      if Before now e then (c, true)
      else (mkCache (counters c) (delete key (blacklist c)) (ttl c) (threshold c), false)
  end.

(** [now1] is the clock reading of the redundancy test, [now2] the one the
    deadline is computed from. *)
Definition RecordFailure (now1 now2 : time) (tenant onion : gostring) (c : Cache) : Cache :=
  if Z.leb (threshold c) 0 then c
  else
    let key := keyFor tenant onion in
    let '(c1, redundant) :=
      match blacklist c !! key with
      | None => (c, false)
      | Some _ => IsBlacklisted now1 tenant onion c
      end in
    if redundant then c1
    else
      let n := wrap64 (default 0%Z (counters c1 !! key) + 1) in
      let c2 := mkCache (<[key := n]> (counters c1)) (blacklist c1) (ttl c1) (threshold c1) in
      if Z.ltb n (threshold c) then c2
      else if Z.ltb 0 (ttl c) then
        match blacklist c2 !! key with
        | Some _ => c2
        | None => mkCache (counters c2) (<[key := time_add now2 (ttl c)]> (blacklist c2))
                          (ttl c2) (threshold c2)
        end
      else c2.

Definition RecordSuccess (tenant onion : gostring) (c : Cache) : Cache :=
  let key := keyFor tenant onion in
  mkCache (match counters c !! key with
           | Some _ => <[key := 0%Z]> (counters c)
           | None => counters c
           end)
          (delete key (blacklist c)) (ttl c) (threshold c).

(** The cache and the number of removed entries. *)
Definition Sweep (now : time) (c : Cache) : Cache * nat :=
  let dead := filter (λ kv, Before now kv.2 = false) (blacklist c) in
  (mkCache (counters c) (filter (λ kv, Before now kv.2 = true) (blacklist c)) (ttl c) (threshold c),
   size dead).

(** [sort.Slice] by tenant, then onion. *)
Definition entry_le (a b : Entry) : Prop :=
  if decide (Tenant a = Tenant b) then str_le (Onion a) (Onion b) else str_le (Tenant a) (Tenant b).

#[global] Instance entry_le_dec : RelDecision entry_le.
Proof. intros a b. unfold entry_le. case_decide; apply _. Defined.

Definition snapshot_entry (now : time) (kv : gostring * time) : option Entry :=
  match splitKey (kv.1) with
  | None => None
  | Some (tenant, onion) =>
      if negb (Before now (kv.2)) then None else Some (mkEntry tenant onion (kv.2))
  end.

Definition Snapshot (now : time) (c : Cache) : list Entry :=
  merge_sort entry_le (omap (snapshot_entry now) (map_to_list (blacklist c))).

(** * Traces *)

Inductive event :=
| EvFailure (tenant onion : gostring) (t1 t2 : time)
| EvSuccess (tenant onion : gostring) (t : time)
| EvPoll (tenant onion : gostring) (t : time)
| EvSweep (t : time)
| EvConfigure (d : duration) (n : Z) (t : time).

Definition step (c : Cache) (ev : event) : Cache :=
  match ev with
  | EvFailure tn o t1 t2 => RecordFailure t1 t2 tn o c
  | EvSuccess tn o _ => RecordSuccess tn o c
  | EvPoll tn o t => fst (IsBlacklisted t tn o c)
  | EvSweep t => fst (Sweep t c)
  | EvConfigure d n _ => Configure d n c
  end.

Definition run (d : duration) (n : Z) (evs : list event) : Cache := foldl step (NewCache d n) evs.

(** The clock readings of an event, and when it is over. *)
Definition ev_times (ev : event) : list time :=
  match ev with
  | EvFailure _ _ t1 t2 => [t1; t2]
  | EvSuccess _ _ t | EvPoll _ _ t | EvSweep t | EvConfigure _ _ t => [t]
  end.

(** The clock does not run backwards. *)
Definition monotone (evs : list event) (now : time) : Prop :=
  StronglySorted Z.le ((evs ≫= ev_times) ++ [now]).

Definition ev_wf (ev : event) : Prop :=
  match ev with
  | EvFailure tn _ _ _ | EvSuccess tn _ _ | EvPoll tn _ _ => nul_free tn
  | _ => True
  end.

(** * Abstract specification: one pair on its own *)

Record pair_state := mkPair {
  fails : Z;
  until : option time;
  ps_ttl : duration;
  ps_thr : Z
}.

Definition live (t : time) (u : option time) : bool :=
  match u with Some d => Before t d | None => false end.

Definition spec_step (tn o : gostring) (p : pair_state) (ev : event) : pair_state :=
  match ev with
  | EvFailure tn' o' t1 t2 =>
      if decide (tn' = tn ∧ o' = o) then
        if (Z.leb (ps_thr p) 0 || live t1 (until p))%bool then p
        else mkPair (fails p + 1)
               (if (Z.leb (ps_thr p) (fails p + 1) && Z.ltb 0 (ps_ttl p))%bool
                then Some (t2 + ps_ttl p)%Z else None)
               (ps_ttl p) (ps_thr p)
      else p
  | EvSuccess tn' o' _ =>
      if decide (tn' = tn ∧ o' = o) then mkPair 0 None (ps_ttl p) (ps_thr p) else p
  | EvConfigure d n _ => mkPair (fails p) (until p) d n
  | EvPoll _ _ _ | EvSweep _ => p
  end.

Definition spec (tn o : gostring) (d : duration) (n : Z) (evs : list event) : pair_state :=
  foldl (spec_step tn o) (mkPair 0 None d n) evs.

(** * Lemmas: keys *)

Lemma splitKey_keyFor tn o : nul_free tn → splitKey (keyFor tn o) = Some (tn, o).
Proof. apply cut_byte_app. Qed.

Lemma keyFor_inj tn o tn' o' :
  nul_free tn → nul_free tn' → keyFor tn o = keyFor tn' o' → tn = tn' ∧ o = o'.
Proof.
  intros H H' Heq. apply (f_equal splitKey) in Heq.
  rewrite !splitKey_keyFor in Heq by done. by simplify_eq.
Qed.

(** * Lemmas: the simulation *)

(** At instant [t] the maps hold for the key what the specification says; a
    deadline that has passed may already have been cleaned up. *)
Record sim (key : gostring) (t : time) (c : Cache) (p : pair_state) : Prop := mkSim {
  sim_cnt : default 0%Z (counters c !! key) = fails p;
  sim_bl : blacklist c !! key = until p ∨ (blacklist c !! key = None ∧ live t (until p) = false);
  sim_ttl : ttl c = ps_ttl p;
  sim_thr : threshold c = ps_thr p
}.

Lemma live_mono t t' u : (t ≤ t')%Z → live t u = false → live t' u = false.
Proof. destruct u; simpl; [|done]. unfold Before. rewrite !Z.ltb_ge. lia. Qed.

Lemma sim_mono key t t' c p : (t ≤ t')%Z → sim key t c p → sim key t' c p.
Proof. intros Ht [? [?|[? ?]] ? ?]; split; eauto using live_mono. Qed.

Lemma sim_poll key t c p tn o :
  sim key t c p → sim key t (fst (IsBlacklisted t tn o c)) p ∧
  (key = keyFor tn o → snd (IsBlacklisted t tn o c) = live t (until p)).
Proof.
  intros [Hc Hb Ht Hn]. unfold IsBlacklisted.
  destruct (blacklist c !! keyFor tn o) as [e|] eqn:E.
  - destruct (Before t e) eqn:Eb; simpl; split; try done.
    + intros ->. rewrite E in Hb. destruct Hb as [<-|[? _]]; [by simpl|done].
    + split; simpl; try done. destruct (decide (key = keyFor tn o)) as [->|Hne].
      * right. rewrite lookup_delete_eq. split; [done|].
        rewrite E in Hb. destruct Hb as [<-|[? _]]; done.
      * by rewrite lookup_delete_ne by done.
    + intros ->. rewrite E in Hb. destruct Hb as [<-|[? _]]; done.
  - simpl. split; [done|]. intros ->. rewrite E in Hb. by destruct Hb as [<-|[_ ->]].
Qed.

(** The redundancy test of [RecordFailure] is a poll in both of its cases. *)
Lemma RecordFailure_poll t1 t2 tn o c :
  RecordFailure t1 t2 tn o c =
  if Z.leb (threshold c) 0 then c
  else
    let '(c1, redundant) := IsBlacklisted t1 tn o c in
    if redundant then c1
    else
      let key := keyFor tn o in
      let n := wrap64 (default 0%Z (counters c1 !! key) + 1) in
      let c2 := mkCache (<[key := n]> (counters c1)) (blacklist c1) (ttl c1) (threshold c1) in
      if Z.ltb n (threshold c) then c2
      else if Z.ltb 0 (ttl c) then
        match blacklist c2 !! key with
        | Some _ => c2
        | None => mkCache (counters c2) (<[key := time_add t2 (ttl c)]> (blacklist c2))
                          (ttl c2) (threshold c2)
        end
      else c2.
Proof.
  unfold RecordFailure. destruct (Z.leb (threshold c) 0); [done|].
  unfold IsBlacklisted. by destruct (blacklist c !! keyFor tn o).
Qed.

(** After a poll that answered false there is no entry left. *)
Lemma poll_false_None t tn o c c1 :
  IsBlacklisted t tn o c = (c1, false) →
  blacklist c1 !! keyFor tn o = None ∧ ttl c1 = ttl c ∧ threshold c1 = threshold c.
Proof.
  unfold IsBlacklisted. destruct (blacklist c !! keyFor tn o) as [e|] eqn:E.
  - destruct (Before t e); [done|]. intros [= <-]. simpl. by rewrite lookup_delete_eq.
  - by intros [= <-].
Qed.

Lemma sim_failure_other key t1 t2 c p tn o :
  key ≠ keyFor tn o → (t1 ≤ t2)%Z → sim key t1 c p → sim key t2 (RecordFailure t1 t2 tn o c) p.
Proof.
  intros Hne Ht Hs. rewrite RecordFailure_poll. destruct (Z.leb _ 0); [by eapply sim_mono|].
  pose proof (proj1 (sim_poll key t1 c p tn o Hs)) as Hs1.
  destruct (IsBlacklisted t1 tn o c) as [c1 b]. simpl in Hs1.
  assert (Hs2 : sim key t2 c1 p) by by eapply sim_mono.
  destruct b; [done|]. destruct Hs2 as [? Hb ? ?].
  cbv zeta. set (n := wrap64 _). clearbody n.
  destruct (Z.ltb n _); [|destruct (Z.ltb 0 _); [destruct (_ !! keyFor tn o)|]];
    split; cbn [counters blacklist ttl threshold]; rewrite ?lookup_insert_ne by congruence; done.
Qed.

Lemma sim_failure_same t1 t2 c p tn o :
  (t1 ≤ t2)%Z → (0 ≤ fails p < max_int64)%Z → sim (keyFor tn o) t1 c p →
  sim (keyFor tn o) t2 (RecordFailure t1 t2 tn o c) (spec_step tn o p (EvFailure tn o t1 t2)).
Proof.
  intros Ht Hf Hs. rewrite RecordFailure_poll. simpl. rewrite decide_True by done.
  rewrite <- (sim_thr _ _ _ _ Hs), <- (sim_ttl _ _ _ _ Hs).
  destruct (Z.leb (threshold c) 0) eqn:Ethr; [by eapply sim_mono|]. simpl.
  destruct (sim_poll _ _ _ _ tn o Hs) as [Hs1 Hans]. specialize (Hans eq_refl).
  destruct (IsBlacklisted t1 tn o c) as [c1 b] eqn:Ep. simpl in Hs1, Hans. subst b.
  destruct (live t1 (until p)) eqn:El; [by eapply sim_mono|].
  apply poll_false_None in Ep as (Hnone & Htt & Hth).
  destruct Hs1 as [Hcnt _ Httl1 Hthr1]. rewrite Hcnt, wrap64_id by (unfold in_int64, min_int64, max_int64 in *; lia).
  simpl. rewrite Hnone, Z.ltb_antisym.
  destruct (Z.leb (threshold c) (fails p + 1)) eqn:Ele; simpl.
  - destruct (Z.ltb 0 (ttl c)); split; simpl; rewrite ?lookup_insert_eq; try done; try congruence; by left.
  - split; simpl; rewrite ?lookup_insert_eq; try done; try congruence; by left.
Qed.

Lemma sim_success key t c p tn o tn' o' :
  key = keyFor tn o → nul_free tn → nul_free tn' → sim key t c p →
  sim key t (RecordSuccess tn' o' c) (spec_step tn o p (EvSuccess tn' o' t)).
Proof.
  intros -> Hn Hn' [Hc Hb Ht Hthr]. unfold RecordSuccess. simpl. case_decide as E.
  - destruct E as [-> ->]. split; simpl; try done.
    + destruct (counters c !! keyFor tn o) eqn:Ec; [by rewrite lookup_insert_eq|by rewrite Ec].
    + left. apply lookup_delete_eq.
  - assert (Hne : keyFor tn' o' ≠ keyFor tn o).
    { intros Heq. apply E. by apply keyFor_inj in Heq. }
    split; simpl; try done; [|by rewrite lookup_delete_ne by done].
    destruct (counters c !! keyFor tn' o'); [by rewrite lookup_insert_ne by done|done].
Qed.

Lemma sim_sweep key t c p : sim key t c p → sim key t (fst (Sweep t c)) p.
Proof.
  intros [Hc Hb Ht Hthr]. split; simpl; try done.
  destruct (blacklist c !! key) as [e|] eqn:E.
  - destruct Hb as [<-|[? _]]; [|done]. destruct (Before t e) eqn:Eb.
    + left. by apply map_lookup_filter_Some.
    + right. split; [|done]. apply map_lookup_filter_None. right. intros x Hx.
      simplify_eq. simpl. congruence.
  - rewrite (proj2 (map_lookup_filter_None _ _ _)) by (by left). by destruct Hb as [<-|[_ ?]]; [left|right].
Qed.

Lemma spec_step_fails tn o p ev :
  (0 ≤ fails p)%Z → (0 ≤ fails (spec_step tn o p ev) ≤ fails p + 1)%Z.
Proof. intros. destruct ev; simpl; repeat case_match; simpl; lia. Qed.

Lemma sim_step tn o t c p ev rest :
  nul_free tn → ev_wf ev → (0 ≤ fails p < max_int64)%Z →
  StronglySorted Z.le (t :: ev_times ev ++ rest) →
  sim (keyFor tn o) t c p →
  ∃ t', StronglySorted Z.le (t' :: rest) ∧
        sim (keyFor tn o) t' (step c ev) (spec_step tn o p ev).
Proof.
  intros Hn Hwf Hf Hs Hsim. inversion Hs as [|?? Hs1 Hle]; subst.
  assert (H1 : ∀ t0, ev_times ev = [t0] →
    sim (keyFor tn o) t0 c p ∧ StronglySorted Z.le (t0 :: rest)).
  { intros t0 E. rewrite E in Hs1, Hle. inversion Hle; subst. split; [by eapply sim_mono|done]. }
  destruct ev as [tn' o' t1 t2|tn' o' t1|tn' o' t1|t1|d n t1].
  - simpl in Hs1, Hle. inversion Hle as [|?? Ht1 _]; subst. inversion Hs1 as [|?? Hs2 Hle1]; subst.
    inversion Hle1 as [|?? Ht12 _]; subst. exists t2. split; [done|]. cbn [step].
    destruct (decide (tn' = tn ∧ o' = o)) as [[-> ->]|Hne].
    + apply sim_failure_same; [done|lia|by eapply sim_mono].
    + simpl. rewrite decide_False by done. apply sim_failure_other; [|done|by eapply sim_mono].
      intros Heq. apply Hne. apply keyFor_inj in Heq; [naive_solver|done|done].
  - exists t1. destruct (H1 t1 eq_refl). split; [done|]. by apply sim_success.
  - exists t1. destruct (H1 t1 eq_refl). split; [done|]. by apply sim_poll.
  - exists t1. destruct (H1 t1 eq_refl). split; [done|]. by apply sim_sweep.
  - exists t1. destruct (H1 t1 eq_refl) as [[? ? _ _] ?]. split; [done|]. by split.
Qed.

Lemma run_sim tn o evs now : ∀ t c p,
  nul_free tn → Forall ev_wf evs →
  (0 ≤ fails p ∧ fails p + Z.of_nat (length evs) ≤ max_int64)%Z →
  StronglySorted Z.le (t :: (evs ≫= ev_times) ++ [now]) →
  sim (keyFor tn o) t c p →
  sim (keyFor tn o) now (foldl step c evs) (foldl (spec_step tn o) p evs).
Proof.
  induction evs as [|ev evs IH]; intros t c p Hn Hwf Hf Hs Hsim.
  - inversion Hs as [|?? _ Hle]; subst. inversion Hle; subst. by eapply sim_mono.
  - rewrite bind_cons, <- app_assoc in Hs. apply Forall_cons in Hwf as [Hev Hwf].
    cbn [length] in Hf.
    destruct (sim_step tn o t c p ev _ Hn Hev ltac:(lia) Hs Hsim) as (t' & Hs' & Hsim').
    cbn [foldl]. apply (IH t'); try done.
    pose proof (spec_step_fails tn o p ev). lia.
Qed.

(** * Lemmas: the snapshot order *)

#[global] Instance entry_le_total : Total entry_le.
Proof.
  intros a b. unfold entry_le. destruct (decide (Tenant a = Tenant b)) as [E|E].
  - rewrite decide_True by done. apply (total str_le).
  - rewrite decide_False by auto. apply (total str_le).
Qed.

#[global] Instance entry_le_trans : Transitive entry_le.
Proof.
  intros a b c. unfold entry_le.
  destruct (decide (Tenant a = Tenant b)) as [E1|E1], (decide (Tenant b = Tenant c)) as [E2|E2];
    intros H1 H2.
  - rewrite decide_True by congruence. by trans (Onion b).
  - rewrite decide_False by congruence. by rewrite E1.
  - rewrite decide_False by congruence. by rewrite <- E2.
  - destruct (decide (Tenant a = Tenant c)) as [E3|E3]; [|by trans (Tenant b)].
    exfalso. apply E1. apply (anti_symm str_le); [done|]. by rewrite E3.
Qed.

(** Every key of the blacklist was formed by [keyFor] from a NUL-free tenant. *)
Definition keys_wf (c : Cache) : Prop :=
  map_Forall (λ k _, ∃ tn o, k = keyFor tn o ∧ nul_free tn) (blacklist c).

Lemma keys_wf_step c ev : ev_wf ev → keys_wf c → keys_wf (step c ev).
Proof.
  intros Hwf Hc.
  assert (Hpoll : ∀ t tn o, keys_wf (fst (IsBlacklisted t tn o c))).
  { intros t tn o. unfold IsBlacklisted. repeat case_match; try done. by apply map_Forall_delete. }
  destruct ev as [tn o t1 t2|tn o t|tn o t|t|d n t]; cbn [step]; try done.
  - rewrite RecordFailure_poll. destruct (Z.leb _ 0); [done|]. specialize (Hpoll t1 tn o).
    destruct (IsBlacklisted t1 tn o c) as [c1 b]. simpl in Hpoll. destruct b; [done|].
    cbv zeta. repeat case_match; try done. apply map_Forall_insert_2; [|done]. by exists tn, o.
  - by apply map_Forall_delete.
  - intros k e Hk. simpl in Hk. apply map_lookup_filter_Some in Hk as [Hk _]. by apply (Hc k e).
Qed.

Lemma keys_wf_run d n evs : Forall ev_wf evs → keys_wf (run d n evs).
Proof.
  unfold run. assert (keys_wf (NewCache d n)) as H by apply map_Forall_empty. revert H.
  generalize (NewCache d n). induction evs as [|ev evs IH]; intros c Hc Hf; [done|].
  apply Forall_cons in Hf as [Hev Hf]. apply IH; [by apply keys_wf_step|done].
Qed.

(** * Properties *)

Definition ex_trace : list event :=
  [EvFailure $"a" $"x" 1 1; EvFailure $"b" $"x" 2 2; EvFailure $"a" $"x" 3 4; EvPoll $"a" $"x" 5].

(** C30. The cache implements its per-pair specification. After any trace of
    failures, successes, polls, sweeps and reconfigurations of any pairs,
    with a clock that does not run backwards and tenant names without NUL,
    [IsBlacklisted] answers for a pair what the pair's own failures and
    successes determine: blacklisted from the failure that reaches the
    threshold until the deadline set at that failure. Other pairs, the
    clean-up of expired entries and [Sweep] are unobservable. *)
Theorem negcache_refines_pair d n evs tn o now :
  nul_free tn → Forall ev_wf evs → monotone evs now →
  (Z.of_nat (length evs) ≤ max_int64)%Z →
  snd (IsBlacklisted now tn o (run d n evs)) = live now (until (spec tn o d n evs)).
Proof.
  intros Hn Hwf Hm Hl.
  set (t := match (evs ≫= ev_times) ++ [now] with x :: _ => x | [] => now end).
  assert (Hs : StronglySorted Z.le (t :: (evs ≫= ev_times) ++ [now])).
  { constructor; [done|]. unfold monotone in Hm. subst t.
    destruct ((evs ≫= ev_times) ++ [now]) as [|x l]; [constructor|].
    inversion Hm; subst. constructor; [lia|done]. }
  apply (sim_poll (keyFor tn o)); [|done].
  apply (run_sim tn o evs now t); try done. split; [done|by left|done|done].
Qed.

Lemma negcache_refines_pair_witness :
  snd (IsBlacklisted 10 $"a" $"x" (run 20 2 ex_trace)) = true ∧
  snd (IsBlacklisted 10 $"b" $"x" (run 20 2 ex_trace)) = false.
Proof.
  split.
  - rewrite (negcache_refines_pair 20 2 ex_trace $"a" $"x" 10); [done|decide_now| | |done].
    + spread; try decide_now.
    + unfold monotone; simpl. spread; lia.
  - rewrite (negcache_refines_pair 20 2 ex_trace $"b" $"x" 10); [done|decide_now| | |done].
    + spread; try decide_now.
    + unfold monotone; simpl. spread; lia.
Defined.

(** [Snapshot] is a sorted, complete view of the live blacklist: it is
    ordered by (tenant, onion), and a triple is in it exactly when the pair
    has an entry whose deadline is still ahead. *)
Theorem negcache_snapshot_exact d n evs now tn o dl :
  Forall ev_wf evs → nul_free tn →
  StronglySorted entry_le (Snapshot now (run d n evs)) ∧
  (mkEntry tn o dl ∈ Snapshot now (run d n evs) ↔
   blacklist (run d n evs) !! keyFor tn o = Some dl ∧ (now < dl)%Z).
Proof.
  intros Hwf Hn. unfold Snapshot. split; [apply StronglySorted_merge_sort; apply _|].
  rewrite merge_sort_Permutation, list_elem_of_omap.
  pose proof (keys_wf_run d n evs Hwf) as Hk. split.
  - intros ([k t] & Hin%elem_of_map_to_list & Hs). destruct (Hk k t Hin) as (tn' & o' & -> & Hn').
    unfold snapshot_entry in Hs. simpl in Hs. rewrite splitKey_keyFor in Hs by done.
    unfold Before in Hs. destruct (Z.ltb_spec now t); simplify_eq/=. done.
  - intros [Hin Hlt]. exists (keyFor tn o, dl). split; [by apply elem_of_map_to_list|].
    unfold snapshot_entry. simpl. rewrite splitKey_keyFor by done.
    unfold Before. by rewrite (proj2 (Z.ltb_lt now dl)).
Qed.

Lemma negcache_snapshot_exact_witness :
  mkEntry $"a" $"x" 24 ∈ Snapshot 10 (run 20 2 ex_trace).
Proof.
  apply (negcache_snapshot_exact 20 2 ex_trace 10 $"a" $"x" 24).
  - spread; decide_now.
  - decide_now.
  - split; [by vm_compute|lia].
Defined.
