(* ===== verification/FeatureRegistry.v ===== *)
(** The feature registry (src/internal/feature/registry.go, resolver.go,
    context.go): registration, the two-phase reload, the resolver's
    precedence and the middleware chain.

    A handler is a function of the snapshot published at the time of the call
    and of the tenant in the request's context, so a chain built once observes
    later reloads. *)

From S2P Require Import Prelude Shared.

(** * Data *)

Abbreviation GlobalsSnapshot := (gmap gostring FeatureSnapshot).

Record TenantSnapshot := mkTenantSnapshot {
  tsHost : gostring;
  tsEnabled : bool;
  tsFeatures : gmap gostring FeatureSnapshot
}.

Record snapshotState := mkSnapshotState {
  globals : GlobalsSnapshot;
  tenants : gmap gostring TenantSnapshot
}.

(** The context of a request holds at most one tenant snapshot. *)
Abbreviation Context := (option TenantSnapshot).

Definition WithTenant (_ : Context) (t : option TenantSnapshot) : Context := t.
Definition TenantFromContext (c : Context) : option TenantSnapshot := c.

Definition Handler (A : Type) : Type := snapshotState → Context → A.

Section registry.
Context {A : Type}.

Record Feature := mkFeature {
  Name : gostring;
  Middleware : option (Handler A → Handler A);
  Validate : FeatureSnapshot → option gostring
}.

(** Observers are identified by numbers; a reload lists the calls it makes. *)
Record Registry := mkRegistry {
  order : list gostring;
  features : gmap gostring Feature;
  observers : gmap gostring (list nat);
  current : snapshotState
}.

(** * Operations *)

Definition NewRegistry : Registry := mkRegistry [] ∅ ∅ (mkSnapshotState ∅ ∅).

(** None is a panic: an empty or a duplicate name. *)
Definition Register (f : Feature) (r : Registry) : option Registry :=
  if decide (Name f = []) then None
  else match features r !! Name f with
       | Some _ => None
       | None => Some (mkRegistry (order r ++ [Name f]) (<[Name f := f]> (features r))
                                  (observers r) (current r))
       end.

Definition AddReloadObserver (name : gostring) (obs : nat) (r : Registry) : Registry :=
  mkRegistry (order r) (features r)
             (<[name := default [] (observers r !! name) ++ [obs]]> (observers r)) (current r).

(** Composition in reverse order of registration. *)
Definition BuildChain (r : Registry) (inner : Handler A) : Handler A :=
  foldl (λ h name,
           match features r !! name with
           | Some f => match Middleware f with Some mw => mw h | None => h end
           | None => h
           end)
        inner (reverse (order r)).

(** The snapshot a tenant is validated against. *)
Definition effective (g : GlobalsSnapshot) (t : TenantSnapshot) (name : gostring) : FeatureSnapshot :=
  match tsFeatures t !! name with
  | Some override => override
  | None => default FeatureSnapshot_zero (g !! name)
  end.

Inductive reload_error :=
| ErrGlobals (name : gostring) (err : gostring)
| ErrTenant (name host : gostring) (err : gostring).

Definition validate_feature (f : Feature) (name : gostring) (g : GlobalsSnapshot)
    (ts : gmap gostring TenantSnapshot) : list reload_error :=
  let gCfg := default FeatureSnapshot_zero (g !! name) in
  match Validate f gCfg with Some e => [ErrGlobals name e] | None => [] end
  ++ omap (λ ht, ErrTenant name ht.1 <$> Validate f (effective g ht.2 name)) (map_to_list ts).

Definition validate_all (r : Registry) (g : GlobalsSnapshot) (ts : gmap gostring TenantSnapshot)
    : list reload_error :=
  order r ≫= λ name,
    match features r !! name with
    | Some f => validate_feature f name g ts
    | None => []
    end.

(** The result: the errors, or the observer calls in order. *)
Definition Reload (g : GlobalsSnapshot) (ts : gmap gostring TenantSnapshot) (r : Registry)
    : Registry * (list reload_error + list (nat * FeatureSnapshot)) :=
  let errs := validate_all r g ts in
  match errs with
  | _ :: _ => (r, inl errs)
  | [] =>
      (mkRegistry (order r) (features r) (observers r) (mkSnapshotState g ts),
       inr (order r ≫= λ name,
              (λ obs, (obs, default FeatureSnapshot_zero (g !! name)))
                <$> default [] (observers r !! name)))
  end.

Definition Tenants (r : Registry) : gmap gostring TenantSnapshot := tenants (current r).
Definition Globals (r : Registry) : GlobalsSnapshot := globals (current r).

(** registryResolver.Resolve on the snapshot published now. *)
Definition Resolve (snap : snapshotState) (ctx : Context) (name : gostring) : FeatureSnapshot :=
  match TenantFromContext ctx with
  | Some t =>
      match tsFeatures t !! name with
      | Some fs => fs
      | None => default FeatureSnapshot_zero (globals snap !! name)
      end
  | None => default FeatureSnapshot_zero (globals snap !! name)
  end.

(** * Histories *)

Inductive op :=
| OpRegister (f : Feature)
| OpObserver (name : gostring) (obs : nat)
| OpReload (g : GlobalsSnapshot) (ts : gmap gostring TenantSnapshot).

Definition apply_op (o : op) (r : Registry) : option Registry :=
  match o with
  | OpRegister f => Register f r
  | OpObserver n obs => Some (AddReloadObserver n obs r)
  | OpReload g ts => Some (fst (Reload g ts r))
  end.

Inductive rstep (r : Registry) : Registry → Prop :=
| rstep_op o r' : apply_op o r = Some r' → rstep r r'.

Definition reachable : Registry → Prop := rtc rstep NewRegistry.

(** The steps after startup: no registration. *)
Inductive runtime_step (r : Registry) : Registry → Prop :=
| rt_observer n obs : runtime_step r (AddReloadObserver n obs r)
| rt_reload g ts : runtime_step r (fst (Reload g ts r)).

(** * Well-formedness *)

Record registry_wf (r : Registry) : Prop := mkWf {
  wf_nodup : NoDup (order r);
  wf_dom : ∀ name, name ∈ order r ↔ is_Some (features r !! name);
  wf_name : ∀ name f, features r !! name = Some f → Name f = name ∧ name ≠ []
}.

Lemma registry_wf_new : registry_wf NewRegistry.
Proof.
  split; simpl; [constructor| |by intros ??; rewrite lookup_empty].
  intros name. rewrite lookup_empty. split; [by intros ?%elem_of_nil|by intros []].
Qed.

Lemma registry_wf_op o r r' : apply_op o r = Some r' → registry_wf r → registry_wf r'.
Proof.
  intros Ho [Hnd Hdom Hname]. destruct o as [f|n obs|g ts]; simpl in Ho.
  - unfold Register in Ho. destruct (decide (Name f = [])); [done|].
    destruct (features r !! Name f) eqn:E; [done|]. injection Ho as <-. split; simpl.
    + apply NoDup_app. split; [done|]. split; [|apply NoDup_singleton].
      intros x Hx ->%list_elem_of_singleton. apply Hdom in Hx as [? ?]. congruence.
    + intros x. rewrite elem_of_app, list_elem_of_singleton, Hdom.
      destruct (decide (Name f = x)) as [<-|Hne].
      * rewrite lookup_insert_eq. naive_solver.
      * rewrite lookup_insert_ne by done. naive_solver.
    + intros x f'. destruct (decide (Name f = x)) as [<-|Hne].
      * rewrite lookup_insert_eq. naive_solver.
      * rewrite lookup_insert_ne by done. apply Hname.
  - injection Ho as <-. by split.
  - injection Ho as <-. unfold Reload. destruct (validate_all r g ts); by split.
Qed.

Lemma reachable_wf r : reachable r → registry_wf r.
Proof.
  unfold reachable. revert r. apply rtc_ind_r; [apply registry_wf_new|].
  intros r1 r2 _ [o r' Ho] Hwf. by eapply registry_wf_op.
Qed.

(** * Lemmas: validation and the chain *)

Lemma validate_all_nil r g ts :
  registry_wf r →
  validate_all r g ts = [] ↔
  ∀ name f, features r !! name = Some f →
    Validate f (default FeatureSnapshot_zero (g !! name)) = None ∧
    ∀ host t, ts !! host = Some t → Validate f (effective g t name) = None.
Proof.
  intros [_ Hdom _]. unfold validate_all.
  assert (Hb : ∀ l (k : gostring → list reload_error), l ≫= k = [] ↔ Forall (λ x, k x = []) l).
  { intros l k. induction l as [|x l IH]; [done|]. rewrite bind_cons, Forall_cons, <- IH.
    rewrite app_nil. done. }
  rewrite Hb, Forall_forall. split.
  - intros H name f Hf. assert (Hin : name ∈ order r) by (apply Hdom; by eexists).
    apply H in Hin. rewrite Hf in Hin. unfold validate_feature in Hin.
    apply app_nil in Hin as [Hg Ht]. split; [by destruct (Validate f _)|].
    intros host t Hts. destruct (Validate f (effective g t name)) as [e|] eqn:E; [|done].
    exfalso. assert (ErrTenant name host e ∈ ([] : list reload_error)) as Hx.
    { rewrite <- Ht. apply list_elem_of_omap. exists (host, t).
      split; [by apply elem_of_map_to_list|]. simpl. by rewrite E. }
    by apply elem_of_nil in Hx.
  - intros H name Hin. destruct (features r !! name) as [f|] eqn:Hf; [|done].
    destruct (H name f Hf) as [Hg Ht]. unfold validate_feature. rewrite Hg. simpl.
    assert (Ho : ∀ l, (∀ ht, ht ∈ l → ts !! ht.1 = Some ht.2) →
      omap (λ ht : gostring * TenantSnapshot,
              ErrTenant name ht.1 <$> Validate f (effective g ht.2 name)) l = []).
    { intros l. induction l as [|[h t] l IH]; intros Hl; [done|]. simpl.
      rewrite (Ht h t) by (apply (Hl (h, t)); left). simpl. apply IH. intros. apply Hl. by right. }
    apply Ho. intros [h t] Hht%elem_of_map_to_list. done.
Qed.

Lemma BuildChain_foldr r inner :
  BuildChain r inner =
  foldr (λ name h, match features r !! name with
                   | Some f => match Middleware f with Some mw => mw h | None => h end
                   | None => h
                   end) inner (order r).
Proof.
  unfold BuildChain. generalize (order r) as l. intros l.
  induction l as [|x l IH] using list_ind; [done|].
  by rewrite reverse_cons, foldl_app, IH.
Qed.

(** Every feature accepts what it would be resolved to, for any tenant of the
    published snapshot and for requests without a tenant. *)
Definition validated (r : Registry) : Prop :=
  ∀ name f ctx, features r !! name = Some f →
    (ctx = None ∨ ∃ host t, Tenants r !! host = Some t ∧ ctx = Some t) →
    Validate f (Resolve (current r) ctx name) = None.

Lemma reload_validated g ts r :
  registry_wf r → validate_all r g ts = [] → validated (fst (Reload g ts r)).
Proof.
  intros Hwf Hv. pose proof (proj1 (validate_all_nil r g ts Hwf) Hv) as H.
  unfold Reload. rewrite Hv. intros name f ctx Hf Hctx.
  destruct (H name f Hf) as [Hg Ht]. destruct Hctx as [->|(host & t & Hts & ->)]; [done|].
  apply (Ht host t Hts).
Qed.

Lemma runtime_step_inv r r' :
  runtime_step r r' → registry_wf r → validated r → registry_wf r' ∧ validated r'.
Proof.
  intros Hs Hwf Hval. destruct Hs as [n obs|g ts].
  - split; [by apply (registry_wf_op (OpObserver n obs) r)|done].
  - split; [by apply (registry_wf_op (OpReload g ts) r)|].
    destruct (validate_all r g ts) as [|e l] eqn:E.
    + by apply reload_validated.
    + unfold Reload. by rewrite E.
Qed.
End registry.
Arguments Feature : clear implicits.
Arguments Registry : clear implicits.

(** * Concrete instances for the witnesses *)

(** A feature that accepts snapshots up to version 9 and tags its requests. *)
Definition ex_feature (name : gostring) : Feature (list gostring) :=
  mkFeature name (Some (λ h s c, name :: h s c))
    (λ fs, if Z.ltb 9 (fsVersion fs) then Some $"version" else None).

Definition ex_registry : Registry (list gostring) :=
  default NewRegistry (Register (ex_feature $"rl") NewRegistry ≫= Register (ex_feature $"geo")).

Lemma ex_registry_reachable : reachable ex_registry.
Proof.
  eapply rtc_l; [by apply (rstep_op _ (OpRegister (ex_feature $"rl")))|].
  apply rtc_once. by apply (rstep_op _ (OpRegister (ex_feature $"geo"))).
Qed.

Definition ex_globals : GlobalsSnapshot := {[ $"rl" := mkFeatureSnapshot true ∅ 3 ]}.

Definition ex_tenants : gmap gostring TenantSnapshot :=
  {[ $"a.example" := mkTenantSnapshot $"a.example" true {[ $"geo" := mkFeatureSnapshot true ∅ 5 ]} ]}.

(** * Properties *)



(** What is resolved at run time was validated. After a successful reload,
    and through any later reloads (accepted or rejected) and observer
    registrations, every feature accepts the snapshot the resolver returns
    for a request without a tenant and for a request of any published
    tenant. *)
Theorem registry_resolve_validated {A} g ts (r0 r : Registry A) :
  reachable r0 → validate_all r0 g ts = [] →
  rtc runtime_step (fst (Reload g ts r0)) r → validated r.
Proof.
  intros Hr Hv Hsteps. apply reachable_wf in Hr.
  assert (registry_wf r ∧ validated r) as [_ ?]; [|done].
  revert r Hsteps. apply rtc_ind_r.
  - split; [by apply (registry_wf_op (OpReload g ts) r0)|by apply reload_validated].
  - intros r1 r2 _ Hstep [Hwf Hval]. by apply (runtime_step_inv r1).
Qed.

Lemma registry_resolve_validated_witness :
  validated (fst (Reload {[ $"rl" := mkFeatureSnapshot true ∅ 99 ]} ∅
                    (fst (Reload ex_globals ex_tenants ex_registry)))).
Proof.
  apply (registry_resolve_validated ex_globals ex_tenants ex_registry).
  - apply ex_registry_reachable.
  - by vm_compute.
  - apply rtc_once, rt_reload.
Defined.

(** The chain runs the features in registration order. When every feature
    tags a request with its name and passes it on, the tags appear in the
    order of registration, outermost first, before what the inner handler
    produces; a feature without middleware is skipped. *)
Theorem registry_chain_order (r : Registry (list gostring)) inner snap ctx :
  (∀ name f, features r !! name = Some f →
     Middleware f = None ∨ Middleware f = Some (λ h s c, name :: h s c)) →
  BuildChain r inner snap ctx =
  List.filter (λ name, match features r !! name with
                       | Some f => match Middleware f with Some _ => true | None => false end
                       | None => false
                       end) (order r) ++ inner snap ctx.
Proof.
  intros Hmw. rewrite BuildChain_foldr. induction (order r) as [|x l IH]; [done|]. simpl.
  destruct (features r !! x) as [f|] eqn:Hf; [|done].
  destruct (Hmw x f Hf) as [-> | ->]; [done|]. simpl. by rewrite IH.
Qed.

Lemma registry_chain_order_witness :
  BuildChain ex_registry (λ _ _, [$"inner"]) (current ex_registry) None = [$"rl"; $"geo"; $"inner"].
Proof.
  rewrite (registry_chain_order ex_registry); [done|].
  intros name f Hf. right. revert Hf.
  destruct (decide (name = $"geo")) as [->|H1]; [by vm_compute; intros [= <-]|].
  destruct (decide (name = $"rl")) as [->|H2]; [by vm_compute; intros [= <-]|].
  change (features ex_registry) with
    (<[ $"geo" := ex_feature $"geo" ]> (<[ $"rl" := ex_feature $"rl" ]> (∅ : gmap gostring (Feature (list gostring))))).
  rewrite !lookup_insert_ne by congruence. by rewrite lookup_empty.
Defined.
