(* ===== verification/HostRouter.v ===== *)
(** The host router of the proxy (src/internal/proxy/router.go): the Host
    header picks a tenant of the published snapshot, unknown hosts are
    misdirected, disabled tenants are blocked.

    [hostLookup] is the interface the router is written against;
    [registryLookup] implements it on top of the feature registry. *)

From S2P Require Import Prelude Http Shared FeatureRegistry.

(** * Block responses *)

(** How the writer answers Hijack: unsupported, failing, or taking over. *)
Inductive hijack := NoHijacker | HijackFails | HijackWorks.

(** The end of a blocked request: the connection closed, or a response. *)
Inductive BlockOutcome :=
| ConnClosed
| BlockResponse (resp : Response).

Definition hijackOrEmpty (hj : hijack) (fallbackCode : Z) : BlockOutcome :=
  let code := if Z.eqb fallbackCode 0 then StatusBadRequest else fallbackCode in
  match hj with
  | NoHijacker | HijackFails => BlockResponse (writeEmpty ∅ code)
  | HijackWorks => ConnClosed
  end.

(** The outcome and how long the request may be held first. *)
Definition applyBlockAction (hj : hijack) (action : gostring) (timeout : duration)
    : BlockOutcome * duration :=
  if decide (action = BlockActionNotFound) then (BlockResponse (writeEmpty ∅ StatusNotFound), 0%Z)
  else if decide (action = BlockActionTooMany)
  then (BlockResponse (writeEmpty ∅ StatusTooManyRequests), 0%Z)
  else if decide (action = BlockActionTimeout) then
    let sleep := if Z.leb timeout 0 then (30 * Second)%Z else timeout in
    (hijackOrEmpty hj StatusGatewayTimeout, sleep)
  else if decide (action = BlockActionDrop) then (hijackOrEmpty hj 0, 0%Z)
  else (BlockResponse (writeEmpty ∅ StatusNotFound), 0%Z).

(** * The lookup interface *)

Class hostLookup (L : Type) := {
  LookupHost : L → gostring → option TenantSnapshot;
  BlockDefault : L → gostring;
  BlockTimeout : L → duration
}.

(** The parts of the static configuration newRegistryLookup reads. *)
Record RouterConfig := mkRouterConfig {
  cfgModeLocal : bool;
  cfgDomain : gostring;
  cfgBackends : list gostring
}.

(** [blockAction]/[blockTimeoutFn] are None when nil, otherwise what the
    closure returns at the call. *)
Record registryLookup := mkRegistryLookup {
  rlTenants : gmap gostring TenantSnapshot;
  rlImplicit : option TenantSnapshot;
  rlBlockAction : option gostring;
  rlBlockTimeout : option duration
}.

Section router.
Context `{GoUnicode}.

Definition defaultImplicitTenantHost : gostring := $"default".

Definition registry_LookupHost (l : registryLookup) (host : gostring) : option TenantSnapshot :=
  match rlImplicit l with
  | Some t => if decide (rlTenants l = ∅) then Some t else rlTenants l !! host
  | None => rlTenants l !! host
  end.

Definition registry_BlockDefault (l : registryLookup) : gostring :=
  match rlBlockAction l with
  | None => BlockActionNotFound
  | Some a => if negb (BlockAction_IsValid a) then BlockActionNotFound else a
  end.

Definition registry_BlockTimeout (l : registryLookup) : duration := default 0%Z (rlBlockTimeout l).

#[global] Instance registryLookup_hostLookup : hostLookup registryLookup := {
  LookupHost := registry_LookupHost;
  BlockDefault := registry_BlockDefault;
  BlockTimeout := registry_BlockTimeout
}.

(** newRegistryLookup at a moment when [snap] is published. *)
Definition newRegistryLookup (cfg : option RouterConfig) (snap : snapshotState) : registryLookup :=
  let implicit :=
    match cfg with
    | Some c =>
        if (cfgModeLocal c && negb (bool_decide (cfgBackends c = [])))%bool
        then Some (mkTenantSnapshot
                     (if decide (cfgDomain c = []) then defaultImplicitTenantHost
                      else ToLower (cfgDomain c)) true ∅)
        else None
    | None => None
    end in
  mkRegistryLookup (tenants snap) implicit (Some BlockActionNotFound) (Some 0%Z).

(** * The router *)

Definition extractHost (r : Request) : gostring :=
  if decide (ReqHost r = []) then []
  else
    let h := ReqHost r in
    let h := match IndexByte h ":"%char with Some idx => take idx h | None => h end in
    ToLower h.

Inductive RouterOutcome :=
| Misdirected (resp : Response)
| Blocked (out : BlockOutcome) (hold : duration)
| Forward (ctx : Context).

Definition hostRouterWith {L} `{hostLookup L} (l : L) (hj : hijack) (r : Request) : RouterOutcome :=
  let host := extractHost r in
  match LookupHost l host with
  | None => Misdirected (writeEmpty ∅ StatusMisdirectedRequest)
  | Some tenant =>
      if negb (tsEnabled tenant) then
        let '(out, hold) := applyBlockAction hj (BlockDefault l) (BlockTimeout l) in
        Blocked out hold
      else Forward (WithTenant None (Some tenant))
  end.

Definition HostRouter (snap : snapshotState) (hj : hijack) (r : Request) : RouterOutcome :=
  hostRouterWith (mkRegistryLookup (tenants snap) None None None) hj r.

Definition HostRouterFromConfig (cfg : option RouterConfig) (snap : snapshotState)
    (hj : hijack) (r : Request) : RouterOutcome :=
  hostRouterWith (newRegistryLookup cfg snap) hj r.

(** Legacy single-tenant mode: local, with backends, and no tenants published. *)
Definition legacy (cfg : option RouterConfig) (snap : snapshotState) : Prop :=
  tenants snap = ∅ ∧ ∃ c, cfg = Some c ∧ cfgModeLocal c = true ∧ cfgBackends c ≠ [].

(** * Lemmas *)

(** A port never takes part in the lookup. *)
Lemma extractHost_port r r' h p :
  ":"%char ∉ h → h ≠ [] → ReqHost r = h → ReqHost r' = h ++ ":"%char :: p →
  extractHost r' = extractHost r.
Proof.
  intros Hc Hne Hr Hr'. unfold extractHost. rewrite Hr, Hr'.
  rewrite !decide_False by (by destruct h). rewrite IndexByte_app, IndexByte_None by done.
  by rewrite take_app_length.
Qed.

Lemma lookup_legacy cfg snap host :
  LookupHost (newRegistryLookup cfg snap) host = tenants snap !! host ∨
  (legacy cfg snap ∧ ∃ t, LookupHost (newRegistryLookup cfg snap) host = Some t ∧
     tsEnabled t = true ∧ tsFeatures t = ∅).
Proof.
  simpl. unfold registry_LookupHost, newRegistryLookup. simpl.
  destruct cfg as [c|]; [|by left].
  destruct (cfgModeLocal c) eqn:Em; simpl; [|by left].
  case_bool_decide as Eb; simpl; [by left|].
  destruct (decide (tenants snap = ∅)) as [Et|Et]; [|by left].
  right. split; [split; [done|by exists c]|]. by eexists.
Qed.

Lemma lookup_published cfg snap host :
  ¬ legacy cfg snap → LookupHost (newRegistryLookup cfg snap) host = tenants snap !! host.
Proof. intros Hl. destruct (lookup_legacy cfg snap host) as [?|[? _]]; done. Qed.

(** [name] is [key] with some of its letters in upper case; a key of the
    tenant map is ASCII and has none. *)
Definition same_letter (c k : ascii) : Prop :=
  (N_of_ascii k < 128)%N ∧ ¬ (65 ≤ N_of_ascii k ≤ 90)%N ∧
  (c = k ∨ (97 ≤ N_of_ascii k ≤ 122)%N ∧ (N_of_ascii c + 32 = N_of_ascii k)%N).

#[global] Instance same_letter_dec c k : Decision (same_letter c k).
Proof. unfold same_letter. apply _. Defined.

Definition spells (name key : gostring) : Prop := Forall2 same_letter name key.

(** A Host header that names [key]: in any case, alone or with a port. *)
Definition names_host (host key : gostring) : Prop :=
  ∃ name, spells name key ∧ ":"%char ∉ name ∧ name ≠ [] ∧
    (host = name ∨ ∃ port, host = name ++ ":"%char :: port).

Lemma same_letter_lower c k : same_letter c k → is_ascii_byte c = true ∧ lower_byte c = k.
Proof.
  intros (Hk & Hup & Hc). unfold is_ascii_byte, lower_byte. rewrite N.ltb_lt. destruct Hc as [-> |[Hl Hc]].
  - split; [lia|]. destruct (N.leb_spec 65 (N_of_ascii k)), (N.leb_spec (N_of_ascii k) 90); cbn [andb]; try done. lia.
  - split; [lia|]. rewrite (proj2 (N.leb_le 65 _)), (proj2 (N.leb_le _ 90)) by lia. cbn [andb].
    by rewrite Hc, ascii_N_embedding.
Qed.

Lemma spells_lower name key : spells name key → ToLower name = key.
Proof.
  intros Hs. unfold ToLower. assert (Hb : forallb is_ascii_byte name = true ∧ map lower_byte name = key).
  { induction Hs as [|c k name key Hc Hs [IH1 IH2]]; [done|]. apply same_letter_lower in Hc as [Hc1 Hc2].
    cbn. by rewrite Hc1, Hc2, IH1, IH2. }
  destruct Hb as [-> ->]. done.
Qed.

Lemma names_host_extract r key : names_host (ReqHost r) key → extractHost r = key.
Proof.
  intros (name & Hs & Hc & Hne & Hh). unfold extractHost. destruct Hh as [-> |[port ->]].
  - rewrite decide_False, IndexByte_None by done. by apply spells_lower.
  - rewrite decide_False by (by destruct name). rewrite IndexByte_app, take_app_length by done. by apply spells_lower.
Qed.
End router.

(** * Properties *)

(** C18. Tenants are isolated by host. Outside legacy mode (local, with
    backends and no tenants), a request whose Host names an ASCII key, in
    whatever case and with or without a port, is passed on in the context of a
    tenant exactly when that tenant is the one published under the key in
    lower case and is enabled; it is answered with an empty 421 exactly when
    no tenant is published there; and otherwise, the tenant being disabled, it
    is blocked. It is never passed on without a tenant. *)
Theorem router_tenant_isolation `{GoUnicode} cfg snap hj r key :
  ~ legacy cfg snap → names_host (ReqHost r) key →
  let out := HostRouterFromConfig cfg snap hj r in
  (∀ t, out = Forward (Some t) ↔ tenants snap !! key = Some t ∧ tsEnabled t = true) ∧
  (out = Misdirected (writeEmpty ∅ StatusMisdirectedRequest) ↔ tenants snap !! key = None) ∧
  ((∃ b hold, out = Blocked b hold) ↔ ∃ t, tenants snap !! key = Some t ∧ tsEnabled t = false) ∧
  out ≠ Forward None.
Proof.
  intros Hl Hk. apply names_host_extract in Hk. cbv zeta. unfold HostRouterFromConfig, hostRouterWith.
  rewrite Hk, lookup_published by done. destruct (tenants snap !! key) as [t|].
  - destruct (tsEnabled t) eqn:He; cbn [negb].
    + split_and!; [|done|split; [by intros (b & hold & ?)|intros (t' & [= <-] & ?); congruence]|done].
      intros t'. split; [by intros [= <-]|by intros [[= <-] _]].
    + destruct (applyBlockAction _ _ _) as [b hold].
      split_and!; [|done|split; [by exists t|by exists b, hold]|done].
      intros t'. split; [done|intros [[= <-] ?]; congruence].
  - split_and!; [intros t; split; [done|by intros []]|done|split; [by intros (b & hold & ?)|by intros (t & ? & _)]|done].
Qed.

#[local] Instance rx_unicode : GoUnicode := {| unicode_lower s := s; unicode_upper s := s; unicode_trim s := s |}.

Definition rx_request (host : gostring) : Request := mkRequest MethodGet $"/" [] [] host [] ∅ ∅.

Definition rx_a : TenantSnapshot := mkTenantSnapshot $"a.example" true {[ $"geo" := mkFeatureSnapshot true ∅ 5 ]}.

Lemma router_tenant_isolation_witness :
  HostRouterFromConfig None (mkSnapshotState ∅ ex_tenants) NoHijacker (rx_request $"A.Example:443") = Forward (Some rx_a).
Proof.
  assert (Hl : ¬ legacy None (mkSnapshotState ∅ ex_tenants)) by (by intros [? (c & ? & _)]).
  apply (router_tenant_isolation None _ NoHijacker (rx_request $"A.Example:443") $"a.example" Hl).
  - exists $"A.Example". split; [|split; [decide_now|split; [discriminate|right; by exists $"443"]]].
    unfold spells. decide_now.
  - vm_compute. split; reflexivity.
Defined.

(** The block actions are total and safe: every configured action, valid
    or not, ends the request with an empty response of a fixed status or a
    closed connection, never with the next handler; only the timeout action
    holds the request, for the configured time or 30 seconds. *)
Theorem block_action_closed hj action timeout :
  let '(out, hold) := applyBlockAction hj action timeout in
  (out = ConnClosed ∧ hj = HijackWorks ∧ (action = BlockActionTimeout ∨ action = BlockActionDrop) ∨
   ∃ code, out = BlockResponse (writeEmpty ∅ code) ∧
     code ∈ [StatusBadRequest; StatusNotFound; StatusTooManyRequests; StatusGatewayTimeout]) ∧
  (hold = 0%Z ∨ action = BlockActionTimeout ∧ (0 < hold)%Z ∧
     (hold = timeout ∨ (timeout ≤ 0)%Z ∧ hold = (30 * Second)%Z)).
Proof.
  unfold applyBlockAction, hijackOrEmpty.
  destruct (decide (action = BlockActionNotFound)); [split; [right; eexists; split; [done|set_solver]|by left]|].
  destruct (decide (action = BlockActionTooMany)); [split; [right; eexists; split; [done|set_solver]|by left]|].
  destruct (decide (action = BlockActionTimeout)) as [->|].
  - split.
    + destruct hj; [right; eexists; split; [done|set_solver]..|left; auto].
    + right. split; [done|]. destruct (Z.leb_spec timeout 0); unfold Second; split; try lia; auto.
  - destruct (decide (action = BlockActionDrop)) as [->|].
    + split; [|by left]. destruct hj; [right; eexists; split; [done|set_solver]..|left; auto].
    + split; [right; eexists; split; [done|set_solver]|by left].
Qed.
