(* ===== verification/Queue.v ===== *)
(** The bounded queue between the hub's broadcasters and one subscriber
    (subState of src/internal/hub/registry.go; mirrorSubState of mirrors.go
    is the same structure for mirror events): overflow drops the oldest
    event. *)

From S2P Require Import Prelude.

Definition subBuffer : nat := 32.

Section queue.
Context {A : Type}.

(** The buffered channel, whether it is closed, and what drain has handed to
    the subscriber. *)
Record subState := mkSub {
  sub_ch : list A;
  sub_closed : bool;
  sub_out : list A
}.

Definition newSub : subState := mkSub [] false [].

(** The loop of enqueue: append when there is room, otherwise drop the oldest
    and retry. *)
Fixpoint enqueue_loop (fuel : nat) (ch : list A) (ev : A) : list A :=
  match fuel with
  | 0 => ch
  | S fuel' =>
      if decide (length ch < subBuffer) then ch ++ [ev] else enqueue_loop fuel' (tail ch) ev
  end.

Definition enqueue (ev : A) (s : subState) : subState :=
  if sub_closed s then s
  else mkSub (enqueue_loop (S (length (sub_ch s))) (sub_ch s) ev) false (sub_out s).

Definition closeChan (s : subState) : subState := mkSub (sub_ch s) true (sub_out s).

(** One iteration of the drain goroutine. *)
Definition drain1 (s : subState) : subState :=
  match sub_ch s with
  | [] => s
  | ev :: ch => mkSub ch (sub_closed s) (sub_out s ++ [ev])
  end.

(** Everything delivered or still queued, oldest first. *)
Definition seen (s : subState) : list A := sub_out s ++ sub_ch s.

(** * Lemmas: queues *)

Lemma enqueue_loop_spec ch ev :
  length ch ≤ subBuffer →
  enqueue_loop (S (length ch)) ch ev =
  (if decide (length ch < subBuffer) then ch else tail ch) ++ [ev].
Proof.
  intros Hl. cbn [enqueue_loop]. case_decide as E; [done|].
  destruct ch as [|x ch]; [simpl in E; unfold subBuffer in *; lia|].
  cbn [length enqueue_loop tail]. simpl in Hl. by rewrite decide_True by (simpl; lia).
Qed.

(** A subscriber's life: broadcasts interleaved with deliveries. *)
Inductive sub_op := OpEnqueue (ev : A) | OpDrain.

Definition sub_run (ops : list sub_op) : subState :=
  foldl (λ s o, match o with OpEnqueue ev => enqueue ev s | OpDrain => drain1 s end)
        newSub ops.

Definition sent (ops : list sub_op) : list A :=
  omap (λ o, match o with OpEnqueue ev => Some ev | OpDrain => None end) ops.

Lemma sub_run_inv ops :
  let s := sub_run ops in
  sub_closed s = false ∧ length (sub_ch s) ≤ subBuffer ∧
  sub_out s ++ sub_ch s `sublist_of` sent ops ∧ last (sub_out s ++ sub_ch s) = last (sent ops).
Proof.
  induction ops as [|o ops IH] using rev_ind.
  { split; [done|]. split; [simpl; lia|]. split; [constructor|done]. }
  cbv zeta in *. unfold sub_run, sent in *. rewrite foldl_app, omap_app. simpl.
  set (s := foldl _ _ ops) in *. destruct IH as (Hc & Hl & Hsub & Hlast).
  destruct o as [ev|]; simpl.
  - unfold enqueue. rewrite Hc. cbn [sub_closed sub_ch sub_out].
    rewrite enqueue_loop_spec by done. split; [done|]. split.
    { rewrite length_app. case_decide as E; [simpl; lia|].
      destruct (sub_ch s); unfold subBuffer in *; simpl in *; lia. }
    rewrite app_assoc, !last_snoc. split; [|done]. apply sublist_app; [|done].
    case_decide; [done|]. etrans; [|exact Hsub]. apply sublist_app; [done|].
    destruct (sub_ch s); [done|]. simpl. by apply sublist_cons.
  - rewrite app_nil_r. unfold drain1. destruct (sub_ch s) as [|x ch] eqn:E; [by rewrite E|].
    cbn [sub_closed sub_ch sub_out]. rewrite <- app_assoc. simpl in *.
    split; [done|]. split; [lia|]. done.
Qed.

(** While there is room, an event is appended. *)
Lemma seen_enqueue ev s :
  sub_closed s = false → length (sub_ch s) < subBuffer → seen (enqueue ev s) = seen s ++ [ev].
Proof.
  intros Hc Hl. unfold enqueue, seen. rewrite Hc. cbn [sub_out sub_ch].
  rewrite enqueue_loop_spec by lia. rewrite decide_True by done. by rewrite app_assoc.
Qed.

Lemma seen_drain1 s : seen (drain1 s) = seen s.
Proof. unfold drain1, seen. destruct (sub_ch s) eqn:E; [by rewrite E|]. simpl. by rewrite <- app_assoc. Qed.
End queue.
Arguments subState : clear implicits.
Arguments sub_op : clear implicits.

(** * Properties *)

(** Subscribers see an ordered stream that always ends with the newest
    event. For any interleaving of broadcasts and deliveries, what was
    delivered followed by what is queued is a subsequence of what was sent,
    in the order it was sent; the queue never exceeds 32 events; and the most
    recent event is never the one dropped on overflow. *)
Theorem sub_queue_fifo {A} (ops : list (sub_op A)) :
  let s := sub_run ops in
  length (sub_ch s) ≤ subBuffer ∧
  sub_out s ++ sub_ch s `sublist_of` sent ops ∧
  last (sub_out s ++ sub_ch s) = last (sent ops).
Proof. apply (sub_run_inv ops). Qed.
