(* ===== verification/Mirrors.v ===== *)
(** The hub's mirror registry (src/internal/hub/mirrors.go, with sanitizeHost
    of storage.go): mirror records on disk and in memory, health verdicts, the
    operator's kill switch, and the bounded event queues of subscribers.

    Every mutation runs as a task whose atomic steps are the code's critical
    sections, so both sequential histories and interleavings can be stated.
    YAML is a parameter over an abstract document type; the result of disk
    operations and the state of the caller's context are inputs. *)

From S2P Require Import Prelude Float Shared Queue.

(** * Data *)

Definition VerdictLive : gostring := $"live".
Definition VerdictDegraded : gostring := $"degraded".
Definition VerdictBlocked : gostring := $"blocked".
Definition VerdictUnknown : gostring := $"unknown".

Record RegionStatus := mkRegionStatus {
  rsStatus : gostring;
  rsLatencyMs : Z;
  rsAt : time
}.

Record MirrorHealth := mkMirrorHealth {
  mhHost : gostring;
  LastCheck : time;
  Regions : gmap gostring RegionStatus;
  Verdict : gostring;
  BlockedCount : Z;
  TotalChecked : Z;
  ManualBlock : bool;
  ManualNote : gostring;
  mhWeight : Z;
  TargetTenants : list gostring
}.

Inductive MirrorEventType := MirrorEventSnapshot | MirrorEventUpsert | MirrorEventDelete.

Record MirrorEvent := mkMirrorEvent {
  meType : MirrorEventType;
  meMirrors : list MirrorHealth;
  meMirror : option MirrorHealth;
  meHost : gostring;
  meTimestamp : time;
  meVersion : Z
}.

(** gopkg.in/yaml.v3 on mirror records, documents of type [D]. *)
Class YamlCodec (D : Type) := {
  yaml_marshal : MirrorHealth → option D;
  yaml_unmarshal : D → option MirrorHealth
}.

Inductive mirror_error := ErrCtx | ErrHostRequired | ErrMarshal | ErrDisk | ErrUnknownHost.

(** What one call sees: its context, the disk, the clock. *)
Record Env := mkEnv { ctx_ok : bool; disk_ok : bool; env_now : time }.
Definition env_fine (now : time) : Env := mkEnv true true now.

(** * Verdicts *)

Section verdicts.
Context `{GoUnicode}.

Definition statusIsFailure (s : gostring) : bool :=
  let l := ToLower s in
  if decide (l = $"ok" ∨ l = []) then bool_decide (s = []) else true.

Definition countFailures (rr : gmap gostring RegionStatus) : Z :=
  Z.of_nat (length (List.filter (λ kv, statusIsFailure (rsStatus (kv.2))) (map_to_list rr))).
End verdicts.

(** The switch of UpdateHealth for a non-empty result set. *)
Definition classify (blocked total : Z) (thresholdPct : spec_float) : gostring :=
  let frac := f64_div (f64_of_Z blocked) (f64_of_Z total) in
  if f64_ge frac thresholdPct then VerdictBlocked
  else if Z.ltb 0 blocked then VerdictDegraded else VerdictLive.

Definition newVerdict (manual : bool) (old : gostring) (blocked total : Z) (thr : spec_float) : gostring :=
  if manual then VerdictBlocked
  else if Z.eqb total 0 then (if decide (old = []) then VerdictUnknown else old)
  else classify blocked total thr.

(** * Subscribers *)

(** mirrorSubState is the queue of the tenant registry at mirror events. *)
Abbreviation mirrorSubState := (subState MirrorEvent).
Definition mirror_enqueue (ev : MirrorEvent) (s : mirrorSubState) : mirrorSubState := enqueue ev s.
Definition mirror_drain1 (s : mirrorSubState) : mirrorSubState := drain1 s.

(** * The registry *)

Section registry.
Context {D : Type} `{EqDecision D} `{YamlCodec D} `{GoUnicode}.

Record MirrorRegistry := mkMirrors {
  files : gmap gostring D;
  mirrors : gmap gostring MirrorHealth;
  version : Z;
  closed : bool;
  subID : Z;
  subs : gmap Z mirrorSubState
}.

Definition set_mirrors (f : gmap gostring D) (m : gmap gostring MirrorHealth) (v : Z)
    (r : MirrorRegistry) : MirrorRegistry :=
  mkMirrors f m v (closed r) (subID r) (subs r).

Definition set_subs (s : gmap Z mirrorSubState) (r : MirrorRegistry) : MirrorRegistry :=
  mkMirrors (files r) (mirrors r) (version r) (closed r) (subID r) s.

Definition sanitize_rune (r : Z) : ascii :=
  if ((Z.leb 97 r && Z.leb r 122) || (Z.leb 48 r && Z.leb r 57)
      || (Z.eqb r 45 || Z.eqb r 46 || Z.eqb r 95))%bool
  then ascii_of_N (Z.to_N r) else "-"%char.

Definition sanitizeHost (host : gostring) : gostring :=
  sanitize_rune <$> runes (ToLower (TrimSpace host)).

Definition mirrorExt : gostring := $".yaml".

Definition mirrorPath (host : gostring) : gostring := sanitizeHost host ++ mirrorExt.

Definition List_ (r : MirrorRegistry) : list MirrorHealth :=
  sort_by mhHost (map_to_list (mirrors r)).*2.

Definition Get (host : gostring) (r : MirrorRegistry) : option MirrorHealth := mirrors r !! host.

(** The defaults Upsert fills in. *)
Definition normalize (m : MirrorHealth) : MirrorHealth :=
  mkMirrorHealth (mhHost m) (LastCheck m) (Regions m)
    (if decide (Verdict m = []) then VerdictUnknown else Verdict m)
    (BlockedCount m) (TotalChecked m) (ManualBlock m) (ManualNote m)
    (if Z.eqb (mhWeight m) 0 then 1%Z else mhWeight m) (TargetTenants m).

Definition zero_mirror (host : gostring) : MirrorHealth :=
  mkMirrorHealth host time_zero ∅ [] 0 0 false [] 1 [].

Definition broadcast (ev : MirrorEvent) (r : MirrorRegistry) : MirrorRegistry :=
  set_subs (mirror_enqueue ev <$> subs r) r.

(** writeMirror: marshal, then the atomic write. *)
Definition writeMirror (disk : bool) (m : MirrorHealth) (r : MirrorRegistry)
    : MirrorRegistry * option mirror_error :=
  match yaml_marshal m with
  | None => (r, Some ErrMarshal)
  | Some d =>
      if disk
      then (set_mirrors (<[mirrorPath (mhHost m) := d]> (files r)) (mirrors r) (version r) r, None)
      else (r, Some ErrDisk)
  end.

(** The critical section of Upsert, which yields the event to broadcast. *)
Definition commit (now : time) (m : MirrorHealth) (r : MirrorRegistry) : MirrorRegistry * MirrorEvent :=
  let v := wrapu64 (version r + 1) in
  (set_mirrors (files r) (<[mhHost m := m]> (mirrors r)) v r,
   mkMirrorEvent MirrorEventUpsert [] (Some m) (mhHost m) now v).

(** The critical sections that prepare a record from the current one. *)
Definition forced (host note : gostring) (r : MirrorRegistry) : MirrorHealth :=
  let m := default (zero_mirror host) (mirrors r !! host) in
  mkMirrorHealth (mhHost m) (LastCheck m) (Regions m) VerdictBlocked (BlockedCount m)
    (TotalChecked m) true note (mhWeight m) (TargetTenants m).

Definition unblocked (m : MirrorHealth) : MirrorHealth :=
  mkMirrorHealth (mhHost m) (LastCheck m) (Regions m) VerdictUnknown (BlockedCount m)
    (TotalChecked m) false [] (mhWeight m) (TargetTenants m).

Definition checked (now : time) (host : gostring) (rr : option (gmap gostring RegionStatus))
    (thr : spec_float) (r : MirrorRegistry) : MirrorHealth :=
  let m := default (zero_mirror host) (mirrors r !! host) in
  let results := default ∅ rr in
  let total := Z.of_nat (size results) in
  let blocked := countFailures results in
  mkMirrorHealth (mhHost m) now (match rr with Some x => x | None => Regions m end)
    (newVerdict (ManualBlock m) (Verdict m) blocked total thr) blocked total
    (ManualBlock m) (ManualNote m) (mhWeight m) (TargetTenants m).

(** * Tasks: one atomic step per critical section *)

Inductive task :=
| TForce (host note : gostring)
| TUnblock (host : gostring)
| TUpdate (host : gostring) (rr : option (gmap gostring RegionStatus)) (thr : spec_float)
| TUpsert (m : MirrorHealth)
| TWrite (m : MirrorHealth)
| TCommit (m : MirrorHealth)
| TDelete (host : gostring)
| TDelCommit (host : gostring)
| TCast (ev : MirrorEvent)
| TDone (err : option mirror_error).

(** The guards every public mutation starts with. *)
Definition guarded (e : Env) (host : gostring) (t : task) : task :=
  if negb (ctx_ok e) then TDone (Some ErrCtx)
  else if decide (host = []) then TDone (Some ErrHostRequired) else t.

Definition task_step (e : Env) (t : task) (r : MirrorRegistry) : MirrorRegistry * task :=
  match t with
  | TForce host note => (r, guarded e host (TUpsert (forced host note r)))
  | TUnblock host =>
      (r, guarded e host
            (match mirrors r !! host with
             | None => TDone (Some ErrUnknownHost)
             | Some m => TUpsert (unblocked m)
             end))
  | TUpdate host rr thr => (r, guarded e host (TUpsert (checked (env_now e) host rr thr r)))
  | TUpsert m => (r, guarded e (mhHost m) (TWrite (normalize m)))
  | TWrite m =>
      match writeMirror (disk_ok e) m r with
      | (r', None) => (r', TCommit m)
      | (r', Some err) => (r', TDone (Some err))
      end
  | TCommit m => let '(r', ev) := commit (env_now e) m r in (r', TCast ev)
  | TDelete host =>
      match guarded e host (TDelCommit host) with
      | TDelCommit h =>
          if disk_ok e
          then (set_mirrors (delete (mirrorPath h) (files r)) (mirrors r) (version r) r, TDelCommit h)
          else (r, TDone (Some ErrDisk))
      | t' => (r, t')
      end
  | TDelCommit host =>
      match mirrors r !! host with
      | None => (r, TDone None)
      | Some _ =>
          let v := wrapu64 (version r + 1) in
          (set_mirrors (files r) (delete host (mirrors r)) v r,
           TCast (mkMirrorEvent MirrorEventDelete [] None host (env_now e) v))
      end
  | TCast ev => (broadcast ev r, TDone None)
  | TDone err => (r, TDone err)
  end.

(** Runs a task on its own: five critical sections are the longest chain. *)
Fixpoint run_task (fuel : nat) (e : Env) (t : task) (r : MirrorRegistry)
    : MirrorRegistry * option mirror_error :=
  match t, fuel with
  | TDone err, _ => (r, err)
  | _, 0 => (r, None)
  | _, S fuel' => let '(r', t') := task_step e t r in run_task fuel' e t' r'
  end.

Definition task_fuel : nat := 5.

Definition Upsert e m r := run_task task_fuel e (TUpsert m) r.
Definition Delete e host r := run_task task_fuel e (TDelete host) r.
Definition ForceBlock e host note r := run_task task_fuel e (TForce host note) r.
Definition Unblock e host r := run_task task_fuel e (TUnblock host) r.
Definition UpdateHealth e host rr thr r := run_task task_fuel e (TUpdate host rr thr) r.

(** * Subscriptions *)

(** The critical section of Subscribe: the subscriber is registered and the
    snapshot taken; the snapshot is enqueued in a step of its own. *)
Definition subscribe_register (now : time) (r : MirrorRegistry) : MirrorRegistry * option (Z * MirrorEvent) :=
  let id := wrapu64 (subID r + 1) in
  let r1 := mkMirrors (files r) (mirrors r) (version r) (closed r) id (subs r) in
  if closed r then (r1, None)
  else (set_subs (<[id := newSub]> (subs r1)) r1,
        Some (id, mkMirrorEvent MirrorEventSnapshot (List_ r) None [] now (version r))).

Definition subscribe_seed (id : Z) (ev : MirrorEvent) (r : MirrorRegistry) : MirrorRegistry :=
  set_subs (alter (mirror_enqueue ev) id (subs r)) r.

Definition Subscribe (now : time) (r : MirrorRegistry) : MirrorRegistry * option Z :=
  match subscribe_register now r with
  | (r1, None) => (r1, None)
  | (r1, Some (id, ev)) => (subscribe_seed id ev r1, Some id)
  end.

Definition removeSub (id : Z) (r : MirrorRegistry) : MirrorRegistry := set_subs (delete id (subs r)) r.

Definition drain (id : Z) (r : MirrorRegistry) : MirrorRegistry :=
  set_subs (alter mirror_drain1 id (subs r)) r.

Definition Close (r : MirrorRegistry) : MirrorRegistry :=
  mkMirrors (files r) (mirrors r) (version r) true (subID r) ∅.

(** * Reloading from disk *)

(** One directory entry: skipped, an error, or a record. *)
Definition load_entry (acc : gmap gostring MirrorHealth * bool) (kv : gostring * D)
    : gmap gostring MirrorHealth * bool :=
  if negb (HasSuffix (ToLower kv.1) mirrorExt) then acc
  else match yaml_unmarshal kv.2 with
  | None => (acc.1, true)
  | Some m =>
      if decide (mhHost m = []) then acc
      else (<[mhHost m := normalize m]> acc.1, acc.2)
  end.

(** ReadDir lists the entries by file name; the flag says whether a file
    failed to parse. *)
Definition loaded (f : gmap gostring D) : gmap gostring MirrorHealth * bool :=
  foldl load_entry (∅, false) (sort_by fst (map_to_list f)).

Definition loadFromDisk (r : MirrorRegistry) : MirrorRegistry * bool :=
  let '(l, failed) := loaded (files r) in
  (set_mirrors (files r) l (wrapu64 (version r + 1)) r, failed).

(** Construction over an existing directory [f]. *)
Definition NewMirrors (f : gmap gostring D) : MirrorRegistry :=
  fst (loadFromDisk (mkMirrors f ∅ 0 false 0 ∅)).

Definition mirrorEqual (a b : MirrorHealth) : bool :=
  match yaml_marshal a, yaml_marshal b with
  | Some x, Some y => bool_decide (x = y)
  | _, _ => false
  end.

(** The events onExternalChange broadcasts for a change of the map. *)
Definition diff_events (now : time) (v : Z) (prev cur : gmap gostring MirrorHealth) : list MirrorEvent :=
  omap (λ hm, match prev !! hm.1 with
              | Some pv => if mirrorEqual pv hm.2 then None
                           else Some (mkMirrorEvent MirrorEventUpsert [] (Some hm.2) hm.1 now v)
              | None => Some (mkMirrorEvent MirrorEventUpsert [] (Some hm.2) hm.1 now v)
              end) (sort_by fst (map_to_list cur))
  ++ omap (λ hm, match cur !! hm.1 with
                 | Some _ => None
                 | None => Some (mkMirrorEvent MirrorEventDelete [] None hm.1 now v)
                 end) (sort_by fst (map_to_list prev)).

Definition onExternalChange (now : time) (r : MirrorRegistry) : MirrorRegistry :=
  match loadFromDisk r with
  | (r1, true) => r1
  | (r1, false) =>
      foldl (λ r2 ev, broadcast ev r2) r1 (diff_events now (version r1) (mirrors r) (mirrors r1))
  end.
End registry.
Arguments MirrorRegistry : clear implicits.

(** * Lemmas: whole operations *)

Section op_lemmas.
Context {D : Type} `{EqDecision D} `{YamlCodec D} `{GoUnicode}.
Implicit Types r : MirrorRegistry D.

(** Upsert on every branch. *)
Lemma Upsert_spec e m r :
  Upsert e m r =
  if negb (ctx_ok e) then (r, Some ErrCtx)
  else if decide (mhHost m = []) then (r, Some ErrHostRequired)
  else match yaml_marshal (normalize m) with
  | None => (r, Some ErrMarshal)
  | Some d =>
      if disk_ok e then
        let v := wrapu64 (version r + 1) in
        (broadcast (mkMirrorEvent MirrorEventUpsert [] (Some (normalize m)) (mhHost m) (env_now e) v)
           (set_mirrors (<[mirrorPath (mhHost m) := d]> (files r))
                        (<[mhHost m := normalize m]> (mirrors r)) v r), None)
      else (r, Some ErrDisk)
  end.
Proof.
  unfold Upsert, task_fuel. cbn [run_task task_step]. unfold guarded.
  destruct (negb (ctx_ok e)); [done|]. destruct (decide (mhHost m = [])); [done|].
  cbn [task_step]. unfold writeMirror. cbn [normalize mhHost].
  destruct (yaml_marshal (normalize m)) as [d|]; [|done]. by destruct (disk_ok e).
Qed.

(** The preparing operations are Upsert of the prepared record. *)
Lemma ForceBlock_spec e host note r :
  ctx_ok e = true → host ≠ [] → ForceBlock e host note r = Upsert e (forced host note r) r.
Proof.
  intros Hc Hh. rewrite Upsert_spec. unfold ForceBlock, task_fuel.
  cbn [run_task task_step]. unfold guarded. rewrite Hc. cbn [negb]. rewrite decide_False by done.
  cbn [task_step]. unfold guarded. rewrite Hc. cbn [negb].
  destruct (decide (mhHost (forced host note r) = [])); [done|].
  cbn [task_step]. unfold writeMirror. cbn [normalize mhHost].
  destruct (yaml_marshal _) as [d|]; [|done]. by destruct (disk_ok e).
Qed.

Lemma UpdateHealth_spec e host rr thr r :
  ctx_ok e = true → host ≠ [] →
  UpdateHealth e host rr thr r = Upsert e (checked (env_now e) host rr thr r) r.
Proof.
  intros Hc Hh. rewrite Upsert_spec. unfold UpdateHealth, task_fuel.
  cbn [run_task task_step]. unfold guarded. rewrite Hc. cbn [negb]. rewrite decide_False by done.
  cbn [task_step]. unfold guarded. rewrite Hc. cbn [negb].
  destruct (decide (mhHost (checked _ _ _ _ _) = [])); [done|].
  cbn [task_step]. unfold writeMirror. cbn [normalize mhHost].
  destruct (yaml_marshal _) as [d|]; [|done]. by destruct (disk_ok e).
Qed.

Lemma Unblock_spec e host r :
  ctx_ok e = true → host ≠ [] →
  Unblock e host r = match mirrors r !! host with
                     | None => (r, Some ErrUnknownHost)
                     | Some m => Upsert e (unblocked m) r
                     end.
Proof.
  intros Hc Hh. unfold Unblock, task_fuel.
  cbn [run_task task_step]. unfold guarded. rewrite Hc. cbn [negb]. rewrite decide_False by done.
  destruct (mirrors r !! host) as [m|]; [|done]. rewrite Upsert_spec, Hc. cbn [negb].
  cbn [task_step]. unfold guarded. rewrite Hc. cbn [negb].
  destruct (decide (mhHost (unblocked m) = [])); [done|].
  cbn [task_step]. unfold writeMirror. cbn [normalize mhHost].
  destruct (yaml_marshal _) as [d|]; [|done]. by destruct (disk_ok e).
Qed.

Lemma Delete_spec e host r :
  Delete e host r =
  if negb (ctx_ok e) then (r, Some ErrCtx)
  else if decide (host = []) then (r, Some ErrHostRequired)
  else if disk_ok e then
    let f := delete (mirrorPath host) (files r) in
    match mirrors r !! host with
    | None => (set_mirrors f (mirrors r) (version r) r, None)
    | Some _ =>
        let v := wrapu64 (version r + 1) in
        (broadcast (mkMirrorEvent MirrorEventDelete [] None host (env_now e) v)
           (set_mirrors f (delete host (mirrors r)) v r), None)
    end
  else (r, Some ErrDisk).
Proof.
  unfold Delete, task_fuel. cbn [run_task task_step]. unfold guarded.
  destruct (negb (ctx_ok e)); [done|]. destruct (decide (host = [])); [done|].
  destruct (disk_ok e); [|done]. cbn [run_task task_step set_mirrors mirrors].
  by destruct (mirrors r !! host).
Qed.

(** An Upsert that fails changes nothing; one that succeeds sets one record. *)
Lemma Upsert_mirrors e m r :
  (snd (Upsert e m r) ≠ None ∧ fst (Upsert e m r) = r) ∨
  (snd (Upsert e m r) = None ∧
   mirrors (fst (Upsert e m r)) = <[mhHost m := normalize m]> (mirrors r)).
Proof.
  rewrite Upsert_spec. destruct (negb (ctx_ok e)); [by left|].
  destruct (decide (mhHost m = [])); [by left|].
  destruct (yaml_marshal (normalize m)); [|by left].
  destruct (disk_ok e); [by right|by left].
Qed.
End op_lemmas.

(** * Sequential histories *)

Section histories.
Context {D : Type} `{EqDecision D} `{YamlCodec D} `{GoUnicode}.
Implicit Types r : MirrorRegistry D.

(** The calls of the registry. Changes of its directory and the reloads of its
    file watcher ([onExternalChange]) are steps of [hub_op] in Replication,
    which also shows the kill switch to hold across reloads. *)
Inductive mop :=
| MUpsert (m : MirrorHealth)
| MDelete (host : gostring)
| MForce (host note : gostring)
| MUnblock (host : gostring)
| MUpdate (host : gostring) (rr : option (gmap gostring RegionStatus)) (thr : spec_float)
| MSubscribe
| MUnsubscribe (id : Z)
| MDrain (id : Z).

Definition apply_mop (r : MirrorRegistry D) (eo : Env * mop) : MirrorRegistry D :=
  let '(e, o) := eo in
  match o with
  | MUpsert m => fst (Upsert e m r)
  | MDelete h => fst (Delete e h r)
  | MForce h note => fst (ForceBlock e h note r)
  | MUnblock h => fst (Unblock e h r)
  | MUpdate h rr thr => fst (UpdateHealth e h rr thr r)
  | MSubscribe => fst (Subscribe (env_now e) r)
  | MUnsubscribe id => removeSub id r
  | MDrain id => drain id r
  end.

Definition run_mops (r : MirrorRegistry D) (ops : list (Env * mop)) : MirrorRegistry D :=
  foldl apply_mop r ops.

(** Records are stored under their own, non-empty host, normalised. *)
Definition reg_wf r : Prop :=
  map_Forall (λ h m, mhHost m = h ∧ h ≠ [] ∧ normalize m = m) (mirrors r).

Lemma normalize_idemp m : normalize (normalize m) = normalize m.
Proof.
  unfold normalize; simpl. f_equal.
  - destruct (decide (Verdict m = [])); [done|by rewrite decide_False].
  - destruct (Z.eqb_spec (mhWeight m) 0); [done|]. by rewrite (proj2 (Z.eqb_neq _ _)).
Qed.

(** A record every operation would write for [host] from the current one. *)
Definition prepared r (host : gostring) (m : MirrorHealth) : Prop :=
  mhHost m = mhHost (default (zero_mirror host) (mirrors r !! host)).

Lemma prepared_host r host m : reg_wf r → prepared r host m → mhHost m = host.
Proof.
  unfold prepared. intros Hwf ->. destruct (mirrors r !! host) as [x|] eqn:E; [|done].
  by apply Hwf in E as [? _].
Qed.

(** Every operation is an Upsert of some record, a Delete, or leaves the
    map of mirrors alone. *)
Lemma apply_mop_cases r e o :
  mirrors (apply_mop r (e, o)) = mirrors r ∨
  (∃ m, (o = MUpsert m ∨ (∃ h note, o = MForce h note ∧ m = forced h note r) ∨
         (∃ h x, o = MUnblock h ∧ mirrors r !! h = Some x ∧ m = unblocked x) ∨
         (∃ h rr thr, o = MUpdate h rr thr ∧ h ≠ [] ∧ m = checked (env_now e) h rr thr r)) ∧
        mhHost m ≠ [] ∧ mirrors (apply_mop r (e, o)) = <[mhHost m := normalize m]> (mirrors r)) ∨
  (∃ h, o = MDelete h ∧ mirrors (apply_mop r (e, o)) = delete h (mirrors r)).
Proof.
  assert (Hup : ∀ m, mirrors (fst (Upsert e m r)) = mirrors r ∨
    mhHost m ≠ [] ∧ mirrors (fst (Upsert e m r)) = <[mhHost m := normalize m]> (mirrors r)).
  { intros m. rewrite Upsert_spec. destruct (negb (ctx_ok e)); [by left|].
    destruct (decide (mhHost m = [])); [by left|]. destruct (yaml_marshal _); [|by left].
    destruct (disk_ok e); [by right|by left]. }
  destruct o as [m|h|h note|h|h rr thr| | |]; cbn [apply_mop].
  - destruct (Hup m) as [?|[? ?]]; [by left|]. right; left. exists m. by split; [left|].
  - rewrite Delete_spec. destruct (negb (ctx_ok e)); [by left|].
    destruct (decide (h = [])); [by left|]. destruct (disk_ok e); [|by left].
    destruct (mirrors r !! h); [right; right; by exists h|by left].
  - destruct (ctx_ok e) eqn:Hc; [|left; unfold ForceBlock, task_fuel; cbn; unfold guarded; by rewrite Hc].
    destruct (decide (h = [])) as [->|Hh]; [left; unfold ForceBlock, task_fuel; cbn; unfold guarded; by rewrite Hc|].
    rewrite ForceBlock_spec by done. destruct (Hup (forced h note r)) as [?|[? ?]]; [by left|].
    right; left. eexists. split; [|done]. right; left. by exists h, note.
  - destruct (ctx_ok e) eqn:Hc; [|left; unfold Unblock, task_fuel; cbn; unfold guarded; by rewrite Hc].
    destruct (decide (h = [])) as [->|Hh]; [left; unfold Unblock, task_fuel; cbn; unfold guarded; by rewrite Hc|].
    rewrite Unblock_spec by done. destruct (mirrors r !! h) as [x|] eqn:Ex; [|by left].
    destruct (Hup (unblocked x)) as [?|[? ?]]; [by left|].
    right; left. eexists. split; [|done]. right; right; left. by exists h, x.
  - destruct (ctx_ok e) eqn:Hc; [|left; unfold UpdateHealth, task_fuel; cbn; unfold guarded; by rewrite Hc].
    destruct (decide (h = [])) as [->|Hh]; [left; unfold UpdateHealth, task_fuel; cbn; unfold guarded; by rewrite Hc|].
    rewrite UpdateHealth_spec by done.
    destruct (Hup (checked (env_now e) h rr thr r)) as [?|[? ?]]; [by left|].
    right; left. eexists. split; [|done]. right; right; right. by exists h, rr, thr.
  - left. unfold Subscribe, subscribe_register. by destruct (closed r).
  - by left.
  - by left.
Qed.

Lemma reg_wf_step r eo : reg_wf r → reg_wf (apply_mop r eo).
Proof.
  destruct eo as [e o]. intros Hwf. unfold reg_wf.
  destruct (apply_mop_cases r e o) as [->|[(m & _ & Hne & ->)|(h & _ & ->)]]; [done| |].
  - apply map_Forall_insert_2; [|done]. split; [done|]. split; [done|]. apply normalize_idemp.
  - by apply map_Forall_delete.
Qed.

Lemma reg_wf_run r ops : reg_wf r → reg_wf (run_mops r ops).
Proof.
  unfold run_mops. revert r; induction ops as [|eo ops IH]; intros r Hr; [done|].
  by apply IH, reg_wf_step.
Qed.

(** * The kill switch *)

Definition pinned (host : gostring) r : Prop :=
  ∃ m, mirrors r !! host = Some m ∧ ManualBlock m = true ∧ Verdict m = VerdictBlocked.

(** The operations by which an operator gives the record up. *)
Definition releases (host : gostring) (eo : Env * mop) : Prop :=
  match snd eo with
  | MUnblock h | MDelete h => h = host
  | MUpsert m => mhHost m = host
  | _ => False
  end.

Lemma pinned_step host r eo :
  reg_wf r → pinned host r → ¬ releases host eo → pinned host (apply_mop r eo).
Proof.
  destruct eo as [e o]. intros Hwf (m & Hm & Hman & Hv) Hrel.
  assert (Hhost : mhHost m = host) by (by apply Hwf in Hm as [? _]).
  unfold pinned. destruct (apply_mop_cases r e o) as [->|[(m' & Hc & _ & ->)|(h & -> & ->)]].
  - by exists m.
  - destruct (decide (mhHost m' = host)) as [E|E]; [|rewrite lookup_insert_ne by done; by exists m].
    rewrite E, lookup_insert_eq. exists (normalize m'). split; [done|].
    destruct Hc as [->|[(h & note & -> & ->)|[(h & x & -> & Hx & ->)|(h & rr & thr & -> & _ & ->)]]].
    + by destruct Hrel.
    + done.
    + exfalso. apply Hrel. simpl. apply Hwf in Hx as [<- _]. done.
    + assert (h = host) as ->.
      { rewrite <- E. symmetry. by apply (prepared_host r h). }
      unfold checked in *. rewrite Hm. simpl. rewrite Hman. by cbn.
  - rewrite lookup_delete_ne; [by exists m|]. intros ->. by apply Hrel.
Qed.
End histories.

(** * Concrete instances for the witnesses *)

#[local] Instance mx_codec : YamlCodec MirrorHealth := {| yaml_marshal := Some; yaml_unmarshal := Some |}.
#[local] Instance mx_unicode : GoUnicode :=
  {| unicode_lower s := s; unicode_upper s := s; unicode_trim s := s |}.

#[global] Instance RegionStatus_eq_dec : EqDecision RegionStatus.
Proof. solve_decision. Defined.
#[global] Instance MirrorHealth_eq_dec : EqDecision MirrorHealth.
Proof. solve_decision. Defined.

Definition mx_reg : MirrorRegistry MirrorHealth := NewMirrors ∅.
Definition mx_host : gostring := $"m1.example".
Definition thr_half : spec_float := f64_div (f64_of_Z 1) (f64_of_Z 2).
Definition mx_results (st : gostring) : gmap gostring RegionStatus :=
  {[ $"de" := mkRegionStatus st 20 0 ]}.

(** * Properties *)

(** Health verdicts under the default threshold of one half follow exact
    rational arithmetic: for up to 100 vantage points of which [b] fail, the
    computed verdict is blocked when at least half fail, degraded when some
    but fewer fail, and live when none fails; no rounding of the quotient
    moves a mirror across the boundary. *)
Theorem mirror_verdict_half b t :
  (0 ≤ b ≤ t)%Z → (0 < t ≤ 100)%Z →
  classify b t thr_half =
  if Z.leb t (2 * b) then VerdictBlocked
  else if Z.ltb 0 b then VerdictDegraded else VerdictLive.
Proof.
  intros Hb Ht.
  assert (Hall : forallb (λ t : nat, forallb (λ b : nat,
    bool_decide (classify (Z.of_nat b) (Z.of_nat t) thr_half =
      if Z.leb (Z.of_nat t) (2 * Z.of_nat b) then VerdictBlocked
      else if Z.ltb 0 (Z.of_nat b) then VerdictDegraded else VerdictLive)) (seq 0 (S t))) (seq 1 100) = true)
    by (vm_compute; reflexivity).
  rewrite forallb_forall in Hall. specialize (Hall (Z.to_nat t)).
  rewrite forallb_forall in Hall.
  assert (H1 : In (Z.to_nat t) (seq 1 100)) by (apply in_seq; lia).
  assert (H2 : In (Z.to_nat b) (seq 0 (S (Z.to_nat t)))) by (apply in_seq; lia).
  specialize (Hall H1 _ H2). apply bool_decide_eq_true in Hall.
  by rewrite !Z2Nat.id in Hall by lia.
Qed.

Lemma mirror_verdict_half_witness : classify 2 4 thr_half = VerdictBlocked.
Proof. apply (mirror_verdict_half 2 4); lia. Defined.

(** C32. The kill switch holds. Once ForceBlock succeeded for a host, no
    sequence of health updates with any results and thresholds, of further
    blocks, of subscriptions, and of operations on other mirrors, each
    running to completion, clears the manual block or moves the verdict away
    from blocked: only Unblock, Delete or Upsert of that very host does. *)
Theorem mirror_kill_switch {D} `{EqDecision D} `{YamlCodec D} `{GoUnicode}
    e host note (r : MirrorRegistry D) ops :
  reg_wf r → snd (ForceBlock e host note r) = None →
  Forall (λ eo, ¬ releases host eo) ops →
  pinned host (run_mops (fst (ForceBlock e host note r)) ops).
Proof.
  intros Hwf Hok Hops.
  assert (Hc : ctx_ok e = true ∧ host ≠ []).
  { unfold ForceBlock, task_fuel in Hok. cbn in Hok. unfold guarded in Hok.
    destruct (ctx_ok e); [|done]. cbn [negb] in Hok. by destruct (decide (host = [])). }
  destruct Hc as [Hc Hne].
  assert (Hp : pinned host (fst (ForceBlock e host note r))).
  { rewrite ForceBlock_spec in * by done.
    destruct (Upsert_mirrors e (forced host note r) r) as [[? _]|[_ Hm]]; [done|].
    assert (mhHost (forced host note r) = host) as E by (by apply (prepared_host r host)).
    unfold pinned. rewrite Hm, E, lookup_insert_eq. by eexists. }
  assert (Hwf1 : reg_wf (fst (ForceBlock e host note r)))
    by (apply (reg_wf_step r (e, MForce host note)), Hwf).
  revert Hp Hwf1. generalize (fst (ForceBlock e host note r)) as r1.
  induction ops as [|eo ops IH]; intros r1 Hp Hwf1; [done|].
  apply Forall_cons in Hops as [Ho Hops]. apply (IH Hops); [by apply pinned_step|by apply reg_wf_step].
Qed.

Lemma mirror_kill_switch_witness :
  pinned mx_host (run_mops (fst (ForceBlock (env_fine 1) mx_host $"incident" mx_reg))
    [(env_fine 2, MUpdate mx_host (Some (mx_results $"ok")) thr_half);
     (env_fine 3, MUnblock $"other.example")]).
Proof.
  apply mirror_kill_switch.
  - apply map_Forall_empty.
  - reflexivity.
  - spread; [by intros []|by intros H].
Defined.

(** The kill switch can be lost to a concurrent health update. From any
    registry that knows a host as not manually blocked, two overlapping
    calls can run as follows: UpdateHealth reads the record and prepares the
    new one; ForceBlock runs completely and returns nil; then UpdateHealth
    writes, commits and returns nil. Afterwards the record in memory is not
    manually blocked any more, without any Unblock. *)
Theorem mirror_kill_switch_race {D} `{EqDecision D} `{YamlCodec D} `{GoUnicode}
    (r : MirrorRegistry D) host m note rr thr now :
  reg_wf r → mirrors r !! host = Some m → ManualBlock m = false →
  (∀ x, is_Some (yaml_marshal x)) →
  let e := env_fine now in
  let '(r1, t1) := task_step e (TUpdate host rr thr) r in
  let '(r2, err_force) := ForceBlock e host note r1 in
  let '(r3, err_update) := run_task task_fuel e t1 r2 in
  err_force = None ∧ err_update = None ∧
  (∃ m2, mirrors r2 !! host = Some m2 ∧ ManualBlock m2 = true) ∧
  (∃ m3, mirrors r3 !! host = Some m3 ∧ ManualBlock m3 = false).
Proof.
  intros Hwf Hm Hman Hy. cbv zeta. pose proof (Hwf host m Hm) as (Hhost & Hne & _).
  cbn [task_step]. unfold guarded at 1. cbn [ctx_ok env_fine negb]. rewrite decide_False by done.
  destruct (ForceBlock (env_fine now) host note r) as [r2 ef] eqn:Ef.
  rewrite ForceBlock_spec in Ef by done. rewrite Upsert_spec in Ef. cbn [ctx_ok env_fine negb] in Ef.
  assert (Hfh : mhHost (forced host note r) = host) by (unfold forced; by rewrite Hm).
  rewrite Hfh, decide_False in Ef by done.
  destruct (Hy (normalize (forced host note r))) as [d Hd]. rewrite Hd in Ef.
  cbn [disk_ok env_fine] in Ef. injection Ef as <- <-.
  set (c := checked _ _ _ _ _). set (r2 := broadcast _ _).
  assert (Hch : mhHost c = host) by (unfold c, checked; by rewrite Hm).
  fold (Upsert (env_fine now) c r2).
  destruct (Upsert (env_fine now) c r2) as [r3 eu] eqn:Eu. rewrite Upsert_spec in Eu.
  cbn [ctx_ok env_fine negb] in Eu. rewrite Hch, decide_False in Eu by done.
  destruct (Hy (normalize c)) as [d' Hd']. rewrite Hd' in Eu. cbn [disk_ok env_fine] in Eu.
  injection Eu as <- <-. split; [done|]. split; [done|]. split.
  - eexists. split; [apply lookup_insert_eq|done].
  - eexists. split; [apply lookup_insert_eq|]. unfold c, checked. rewrite Hm. exact Hman.
Qed.

Lemma mirror_kill_switch_race_witness :
  let r := fst (Upsert (env_fine 1) (zero_mirror mx_host) mx_reg) in
  let e := env_fine 2 in
  let '(r1, t1) := task_step e (TUpdate mx_host (Some (mx_results $"ok")) thr_half) r in
  let '(r2, err_force) := ForceBlock e mx_host $"x" r1 in
  let '(r3, err_update) := run_task task_fuel e t1 r2 in
  err_force = None ∧ err_update = None ∧
  (∃ m2, mirrors r2 !! mx_host = Some m2 ∧ ManualBlock m2 = true) ∧
  (∃ m3, mirrors r3 !! mx_host = Some m3 ∧ ManualBlock m3 = false).
Proof.
  apply (mirror_kill_switch_race (fst (Upsert (env_fine 1) (zero_mirror mx_host) mx_reg)) mx_host
           (normalize (zero_mirror mx_host))).
  - apply (reg_wf_step mx_reg (env_fine 1, MUpsert (zero_mirror mx_host))), map_Forall_empty.
  - by vm_compute.
  - reflexivity.
  - intros x. by exists x.
Defined.
