(* ===== verification/HubRegistry.v ===== *)
(** The hub's tenant registry with its storage (src/internal/hub/registry.go,
    storage.go) and the runtime configuration it persists
    (src/internal/config/runtime.go).

    YAML is a parameter over documents of type [D]; whether json.Marshal can
    encode an event, and what the file system answers, are inputs. The nil
    map that a failed load leaves behind is kept apart from the empty map. *)

From S2P Require Import Prelude Shared Queue Mirrors.

(** * Runtime configuration *)

Record BackendConf := mkBackendConf { Addr : gostring; bcWeight : Z }.
Record FeatureConf := mkFeatureConf { fcEnabled : bool; fcParams : gmap gostring json }.

Record ClientAuthEntry := mkClientAuth { caOnion : gostring; caKeyFile : gostring }.
Record StealthHSConf := mkStealth { stEnabled : bool; stClientAuths : list ClientAuthEntry }.
Record NegativeCacheConf := mkNegCacheConf { ncEnabled : bool; ncTTL : duration; ncThreshold : Z }.
Record AbuseAPIConf := mkAbuseConf { abEnabled : bool; abPath : gostring; abNotifyEmail : gostring }.

Record TenantConf := mkTenantConf {
  tcHost : gostring;
  tcEnabled : bool;
  tcBackends : list BackendConf;
  tcFeatures : gmap gostring FeatureConf;
  tcStealthHS : StealthHSConf;
  tcNegativeCache : NegativeCacheConf;
  tcAbuseAPI : AbuseAPIConf;
  tcAssignedNodes : list gostring
}.

Record GlobalsConf := mkGlobalsConf {
  gcFeatures : gmap gostring FeatureConf;
  gcBlockDefault : gostring;
  gcTimeoutSeconds : Z;
  gcStripUpstream : list gostring;
  gcAddDownstream : list (gostring * gostring)
}.

Definition GlobalsConf_zero : GlobalsConf := mkGlobalsConf ∅ [] 0 [] [].

Inductive conf_error := ErrHost | ErrNoBackend | ErrBackendAddr (i : nat) | ErrBlockResponse.

Fixpoint validateBackends (i : nat) (l : list BackendConf) : result conf_error (list BackendConf) :=
  match l with
  | [] => Ok []
  | b :: l' =>
      if decide (Addr b = []) then Err (ErrBackendAddr i)
      else
        let* rest := validateBackends (S i) l' in
        Ok (mkBackendConf (Addr b) (if Z.eqb (bcWeight b) 0 then 1 else bcWeight b) :: rest)
  end.

Definition set_backends (bs : list BackendConf) (t : TenantConf) : TenantConf :=
  mkTenantConf (tcHost t) (tcEnabled t) bs (tcFeatures t) (tcStealthHS t)
               (tcNegativeCache t) (tcAbuseAPI t) (tcAssignedNodes t).

Definition validateTenant (t : TenantConf) : result conf_error TenantConf :=
  if decide (tcHost t = []) then Err ErrHost
  else if decide (tcBackends t = []) then Err ErrNoBackend
  else
    let* bs := validateBackends 0 (tcBackends t) in
    Ok (set_backends bs t).

Definition isValidBlockResponse (v : gostring) : bool := BlockAction_IsValid v.

Definition validateGlobals (g : GlobalsConf) : result conf_error GlobalsConf :=
  if (negb (bool_decide (gcBlockDefault g = [])) && negb (isValidBlockResponse (gcBlockDefault g)))%bool
  then Err ErrBlockResponse else Ok g.

(** * Stream events (src/internal/shared/events.go) *)

Inductive payload :=
| PSnapshot (tenants : list TenantInfo) (globals : option GlobalsConf) (version : Z)
| PTenant (t : TenantInfo)
| PTenantDelete (host : gostring)
| PGlobals (g : option GlobalsConf)
| PMirrors (ms : list MirrorInfo) (version : Z)
| PMirror (m : MirrorInfo)
| PMirrorDelete (host : gostring)
| PRaw (bytes : gostring).

Inductive event_type :=
| EventSnapshot | EventTenantUpsert | EventTenantDelete | EventGlobalsUpdate
| EventMirrorSnapshot | EventMirrorUpsert | EventMirrorDelete | EventOther (name : gostring).

Record ConfigStreamEvent := mkEvent {
  evType : event_type;
  evData : payload;
  evTimestamp : time
}.

(** encoding/json on payloads: whether Marshal succeeds (the bytes themselves
    are abstracted by the payload), and the encodings compared by the diff. *)
Class HubJson := {
  payload_encodes : payload → bool;
  tenant_json : TenantConf → option gostring;
  globals_json : GlobalsConf → option gostring
}.

(** The constructors of shared/events.go; None when Marshal fails. *)
Section events.
Context `{HubJson}.

Definition marshalled (ty : event_type) (p : payload) (now : time) : option ConfigStreamEvent :=
  if payload_encodes p then Some (mkEvent ty p now) else None.

Definition NewSnapshotEvent (tenants : list TenantInfo) (globals : option GlobalsConf) (version : Z) (now : time)
    : option ConfigStreamEvent := marshalled EventSnapshot (PSnapshot tenants globals version) now.

Definition NewTenantUpsertEvent (t : TenantInfo) (now : time) : option ConfigStreamEvent :=
  marshalled EventTenantUpsert (PTenant t) now.

Definition NewTenantDeleteEvent (host : gostring) (now : time) : option ConfigStreamEvent :=
  marshalled EventTenantDelete (PTenantDelete host) now.

Definition NewGlobalsEvent (g : option GlobalsConf) (now : time) : ConfigStreamEvent :=
  mkEvent EventGlobalsUpdate (PGlobals g) now.

Definition NewMirrorSnapshotEvent (ms : list MirrorInfo) (version : Z) (now : time) : option ConfigStreamEvent :=
  marshalled EventMirrorSnapshot (PMirrors ms version) now.

Definition NewMirrorUpsertEvent (m : MirrorInfo) (now : time) : option ConfigStreamEvent :=
  marshalled EventMirrorUpsert (PMirror m) now.

Definition NewMirrorDeleteEvent (host : gostring) (now : time) : option ConfigStreamEvent :=
  marshalled EventMirrorDelete (PMirrorDelete host) now.
End events.

(** gopkg.in/yaml.v3 on the two kinds of files. *)
Class ConfYaml (D : Type) := {
  tenant_marshal : TenantConf → option D;
  tenant_unmarshal : D → option TenantConf;
  globals_marshal : GlobalsConf → option D;
  globals_unmarshal : D → option GlobalsConf
}.

Section hub.
Context {D : Type} `{ConfYaml D} `{HubJson} `{GoUnicode}.

(** * Storage *)

Inductive dir_state := DirOK | DirMissing | DirErr.

Record Storage := mkStorage {
  stGlobals : option D;
  stGlobalsStatErr : bool;
  stTenants : gmap gostring D;
  stDir : dir_state
}.

Definition tenantExt : gostring := $".yaml".
Definition TenantPath (host : gostring) : gostring := sanitizeHost host ++ tenantExt.

Definition LoadTenantFile (d : D) : option TenantConf :=
  match tenant_unmarshal d with
  | None => None
  | Some t => match validateTenant t with Ok t' => Some t' | Err _ => None end
  end.

Definition LoadGlobalsFile (d : D) : option GlobalsConf :=
  match globals_unmarshal d with
  | None => None
  | Some g => match validateGlobals g with Ok g' => Some g' | Err _ => None end
  end.

(** One tenant file of LoadAll; the flag collects parse errors. *)
Definition load_tenant (acc : gmap gostring TenantConf * bool) (kv : gostring * D)
    : gmap gostring TenantConf * bool :=
  if negb (HasSuffix (ToLower kv.1) tenantExt) then acc
  else match LoadTenantFile kv.2 with
       | None => (acc.1, true)
       | Some tc => (<[tcHost tc := tc]> acc.1, acc.2)
       end.

(** Globals, tenants (None: the nil map of the error returns), error flag. *)
Definition LoadAll (s : Storage) : GlobalsConf * option (gmap gostring TenantConf) * bool :=
  let globals :=
    if stGlobalsStatErr s then None
    else match stGlobals s with
         | None => Some GlobalsConf_zero
         | Some d => LoadGlobalsFile d
         end in
  match globals with
  | None => (GlobalsConf_zero, None, true)
  | Some g =>
      match stDir s with
      | DirMissing => (g, Some ∅, false)
      | DirErr => (GlobalsConf_zero, None, true)
      | DirOK =>
          let '(ts, failed) := foldl load_tenant (∅, false) (sort_by fst (map_to_list (stTenants s))) in
          (g, Some ts, failed)
      end
  end.

Definition set_host (host : gostring) (t : TenantConf) : TenantConf :=
  mkTenantConf host (tcEnabled t) (tcBackends t) (tcFeatures t) (tcStealthHS t)
               (tcNegativeCache t) (tcAbuseAPI t) (tcAssignedNodes t).

(** None is an error; the disk flag is the outcome of the atomic write. *)
Definition WriteTenant (disk : bool) (host : gostring) (t : TenantConf) (s : Storage) : option Storage :=
  if decide (host = []) then None
  else match tenant_marshal (set_host host t) with
  | None => None
  | Some d =>
      if disk
      then Some (mkStorage (stGlobals s) (stGlobalsStatErr s)
                           (<[TenantPath host := d]> (stTenants s)) (stDir s))
      else None
  end.

Definition DeleteTenantFile (disk : bool) (host : gostring) (s : Storage) : option Storage :=
  if disk
  then Some (mkStorage (stGlobals s) (stGlobalsStatErr s) (delete (TenantPath host) (stTenants s)) (stDir s))
  else None.

Definition WriteGlobals (disk : bool) (g : GlobalsConf) (s : Storage) : option Storage :=
  match globals_marshal g with
  | None => None
  | Some d => if disk then Some (mkStorage (Some d) (stGlobalsStatErr s) (stTenants s) (stDir s)) else None
  end.

(** * The registry *)

Record Registry := mkRegistry {
  storage : Storage;
  globals : GlobalsConf;
  tenants : option (gmap gostring TenantConf);
  version : Z;
  closed : bool;
  subID : Z;
  subs : gmap Z (subState ConfigStreamEvent)
}.

(** Reading a nil map finds nothing. *)
Definition tenant_map (r : Registry) : gmap gostring TenantConf := default ∅ (tenants r).

Definition set_state (s : Storage) (g : GlobalsConf) (ts : option (gmap gostring TenantConf)) (v : Z)
    (r : Registry) : Registry :=
  mkRegistry s g ts v (closed r) (subID r) (subs r).

Definition set_subs (sb : gmap Z (subState ConfigStreamEvent)) (r : Registry) : Registry :=
  mkRegistry (storage r) (globals r) (tenants r) (version r) (closed r) (subID r) sb.

Definition LoadFromDisk (r : Registry) : Registry * bool :=
  let '(g, ts, failed) := LoadAll (storage r) in
  (set_state (storage r) g ts (wrapu64 (version r + 1)) r, failed).

(** New over existing storage: a load error is only logged. *)
Definition New (s : Storage) : Registry :=
  fst (LoadFromDisk (mkRegistry s GlobalsConf_zero (Some ∅) 0 false 0 ∅)).

Definition Tenant (host : gostring) (r : Registry) : option TenantConf := tenant_map r !! host.

Definition tenantInfoFrom (t : TenantConf) (v : Z) : TenantInfo :=
  mkTenantInfo (tcHost t) (tcEnabled t)
    ((λ b, mkBackendRef (Addr b) (bcWeight b) false) <$> tcBackends t)
    ((λ f, mkFeatureSnapshot (fcEnabled f) (fcParams f) v) <$> tcFeatures t) v.

Definition broadcast (ev : ConfigStreamEvent) (r : Registry) : Registry :=
  set_subs (enqueue ev <$> subs r) r.

(** A mutation ends with nil, an error, or a runtime panic. *)
Inductive outcome := Done | Failed | Panicked.

Definition UpsertTenant (e : Env) (t : TenantConf) (r : Registry) : Registry * outcome :=
  if negb (ctx_ok e) then (r, Failed)
  else if decide (tcHost t = []) then (r, Failed)
  else match WriteTenant (disk_ok e) (tcHost t) t (storage r) with
  | None => (r, Failed)
  | Some s =>
      match tenants r with
      | None => (set_state s (globals r) None (version r) r, Panicked)
      | Some ts =>
          let v := wrapu64 (version r + 1) in
          let r1 := set_state s (globals r) (Some (<[tcHost t := t]> ts)) v r in
          match NewTenantUpsertEvent (tenantInfoFrom t v) (env_now e) with
          | Some ev => (broadcast ev r1, Done)
          | None => (r1, Failed)
          end
      end
  end.

Definition DeleteTenant (e : Env) (host : gostring) (r : Registry) : Registry * outcome :=
  if negb (ctx_ok e) then (r, Failed)
  else if decide (host = []) then (r, Failed)
  else match DeleteTenantFile (disk_ok e) host (storage r) with
  | None => (r, Failed)
  | Some s =>
      match tenant_map r !! host with
      | None => (set_state s (globals r) (tenants r) (version r) r, Done)
      | Some _ =>
          let r1 := set_state s (globals r) (delete host <$> tenants r) (wrapu64 (version r + 1)) r in
          match NewTenantDeleteEvent host (env_now e) with
          | Some ev => (broadcast ev r1, Done)
          | None => (r1, Failed)
          end
      end
  end.

Definition SetGlobals (e : Env) (g : GlobalsConf) (r : Registry) : Registry * outcome :=
  if negb (ctx_ok e) then (r, Failed)
  else match WriteGlobals (disk_ok e) g (storage r) with
  | None => (r, Failed)
  | Some s =>
      let r1 := set_state s g (tenants r) (wrapu64 (version r + 1)) r in
      match globals_json g with
      | None => (r1, Failed)
      | Some _ => (broadcast (NewGlobalsEvent (Some g) (env_now e)) r1, Done)
      end
  end.

(** Subscribe in its two steps: registration with the snapshot taken under
    the lock, then the snapshot enqueued after the lock is released. *)
Definition subscribe_register (r : Registry) : Registry * option (Z * payload) :=
  let id := wrapu64 (subID r + 1) in
  let r1 := mkRegistry (storage r) (globals r) (tenants r) (version r) (closed r) id (subs r) in
  if closed r then (r1, None)
  else
    let infos := sort_by tiHost ((λ t, tenantInfoFrom t (version r)) <$> (map_to_list (tenant_map r)).*2) in
    let g := match globals_json (globals r) with Some _ => Some (globals r) | None => None end in
    (set_subs (<[id := newSub]> (subs r1)) r1, Some (id, PSnapshot infos g (version r))).

Definition subscribe_seed (now : time) (id : Z) (p : payload) (r : Registry) : Registry :=
  match (match p with PSnapshot ts g v => NewSnapshotEvent ts g v now | _ => None end) with
  | Some ev => set_subs (alter (enqueue ev) id (subs r)) r
  | None => r
  end.

Definition Subscribe (now : time) (r : Registry) : Registry * option Z :=
  match subscribe_register r with
  | (r1, None) => (r1, None)
  | (r1, Some (id, p)) => (subscribe_seed now id p r1, Some id)
  end.

Definition removeSub (id : Z) (r : Registry) : Registry := set_subs (delete id (subs r)) r.

Definition drain (id : Z) (r : Registry) : Registry := set_subs (alter drain1 id (subs r)) r.

Definition Close (r : Registry) : Registry :=
  mkRegistry (storage r) (globals r) (tenants r) (version r) true (subID r) ∅.

Definition tenantEqual (a b : TenantConf) : bool :=
  match tenant_json a, tenant_json b with
  | Some x, Some y => bool_decide (x = y)
  | _, _ => false
  end.

(** The events of a reload that replaced the state. *)
Definition diff_events (now : time) (v : Z) (prevG curG : GlobalsConf)
    (prev cur : gmap gostring TenantConf) : list ConfigStreamEvent :=
  (if decide (default [] (globals_json prevG) = default [] (globals_json curG)) then []
   else [NewGlobalsEvent (Some curG) now])
  ++ omap (λ ht,
       let same := match prev !! ht.1 with Some pt => tenantEqual pt ht.2 | None => false end in
       if same then None else NewTenantUpsertEvent (tenantInfoFrom ht.2 v) now)
     (sort_by fst (map_to_list cur))
  ++ omap (λ ht,
       match cur !! ht.1 with
       | Some _ => None
       | None => NewTenantDeleteEvent ht.1 now
       end)
     (sort_by fst (map_to_list prev)).

Definition onExternalChange (now : time) (r : Registry) : Registry :=
  match LoadAll (storage r) with
  | (_, _, true) => r
  | (g, ts, false) =>
      let v := wrapu64 (version r + 1) in
      let r1 := set_state (storage r) g ts v r in
      foldl (λ r2 ev, broadcast ev r2) r1
        (diff_events now v (globals r) g (tenant_map r) (default ∅ ts))
  end.
End hub.
Arguments Storage : clear implicits.
Arguments Registry : clear implicits.

(** * Lemmas *)

Lemma validateBackends_ok i l l' :
  validateBackends i l = Ok l' →
  length l' = length l ∧ Forall (λ b, Addr b ≠ [] ∧ bcWeight b ≠ 0%Z) l' ∧
  Addr <$> l' = Addr <$> l.
Proof.
  revert i l'; induction l as [|b l IH]; intros i l' Hv; cbn [validateBackends] in Hv.
  - by injection Hv as <-.
  - destruct (decide (Addr b = [])) as [|Hb]; [done|].
    destruct (validateBackends (S i) l) as [r|] eqn:E; [|done]. injection Hv as <-.
    apply IH in E as (Hl & Hf & Ha). split; [simpl; by rewrite Hl|]. split; [|rewrite !fmap_cons; by rewrite Ha].
    constructor; [|done]. split; [done|]. simpl. destruct (Z.eqb_spec (bcWeight b) 0); [done|done].
Qed.

(** * Properties *)

(** A tenant that passes validation can be served: it has a host and at
    least one backend, every backend has an address and a non-zero weight
    (zero weights became 1), and the addresses are those of the file, in
    order. *)
Theorem validate_tenant_serves t t' :
  validateTenant t = Ok t' →
  tcHost t' = tcHost t ∧ tcHost t ≠ [] ∧ tcBackends t' ≠ [] ∧
  Forall (λ b, Addr b ≠ [] ∧ bcWeight b ≠ 0%Z) (tcBackends t') ∧
  Addr <$> tcBackends t' = Addr <$> tcBackends t.
Proof.
  unfold validateTenant. destruct (decide (tcHost t = [])) as [|Hh]; [done|].
  destruct (decide (tcBackends t = [])) as [|Hb]; [done|].
  destruct (validateBackends 0 (tcBackends t)) as [bs|] eqn:E; [|done]. intros [= <-].
  apply validateBackends_ok in E as (Hl & Hf & Ha). cbn [set_backends tcHost tcBackends].
  split; [done|]. split; [done|]. split; [|done]. intros ->. by destruct (tcBackends t).
Qed.

Definition hx_tenant : TenantConf :=
  mkTenantConf $"a.example" true [mkBackendConf $"abc.onion" 0] ∅ (mkStealth false [])
    (mkNegCacheConf false 0 0) (mkAbuseConf false [] []) [].

Lemma validate_tenant_serves_witness :
  ∃ t', validateTenant hx_tenant = Ok t' ∧ bcWeight <$> tcBackends t' = [1%Z].
Proof.
  destruct (validateTenant hx_tenant) as [t'|] eqn:E; [|by vm_compute in E].
  destruct (validate_tenant_serves hx_tenant t' E) as (_ & _ & Hne & _).
  exists t'. split; [done|]. vm_compute in E. by injection E as <-.
Defined.

(** A globals.yaml that cannot be loaded leaves the hub without a tenant
    map. The registry is constructed all the same (the error is only logged);
    no tenant of the directory is known, and the first upsert of any tenant
    writes its file and then panics on the nil map. *)
Theorem hub_bad_globals_panics {D} `{ConfYaml D} `{HubJson} `{GoUnicode} (s : Storage D) d t now :
  stGlobalsStatErr s = false → stGlobals s = Some d → LoadGlobalsFile d = None →
  tcHost t ≠ [] → is_Some (tenant_marshal (set_host (tcHost t) t)) →
  let r := New s in
  tenants r = None ∧ (∀ host, Tenant host r = None) ∧
  snd (UpsertTenant (env_fine now) t r) = Panicked.
Proof.
  intros Hst Hg Hbad Hh [x Hx].
  assert (Hl : LoadAll s = (GlobalsConf_zero, None, true)).
  { unfold LoadAll. by rewrite Hst, Hg, Hbad. }
  assert (Hr : New s = mkRegistry s GlobalsConf_zero None (wrapu64 1) false 0 ∅).
  { unfold New, LoadFromDisk. cbn [storage]. by rewrite Hl. }
  cbv zeta. rewrite Hr. split; [done|]. split; [done|].
  unfold UpsertTenant. cbn [ctx_ok env_fine negb]. rewrite decide_False by done.
  unfold WriteTenant. rewrite decide_False by done. by rewrite Hx.
Qed.

Definition hx_bad_yaml : ConfYaml (option TenantConf) :=
  {| tenant_marshal t := Some (Some t); tenant_unmarshal d := d;
     globals_marshal _ := Some None; globals_unmarshal _ := None |}.

Definition hx_json : HubJson :=
  {| payload_encodes _ := true; tenant_json _ := None; globals_json _ := None |}.

Definition hx_unicode : GoUnicode :=
  {| unicode_lower s := s; unicode_upper s := s; unicode_trim s := s |}.

Lemma hub_bad_globals_panics_witness :
  let _ := hx_bad_yaml in let _ := hx_json in let _ := hx_unicode in
  snd (UpsertTenant (env_fine 1) hx_tenant (New (mkStorage (Some None) false ∅ DirOK))) = Panicked.
Proof.
  cbv zeta.
  apply (@hub_bad_globals_panics _ hx_bad_yaml hx_json hx_unicode
           (mkStorage (Some None) false ∅ DirOK) None hx_tenant 1);
    [reflexivity|reflexivity|reflexivity|done|by eexists].
Defined.
