(* ===== verification/SSE.v ===== *)
(** The server-sent-event framing of the config stream: the writer of the hub
    (writeSSE of src/internal/hub/stream.go) and the parser of the edges
    (readSSEEvents/handleSSELine of src/internal/proxy/snapshot.go, which
    parseSSE/handleLine of src/internal/door/snapshot.go repeat).

    The JSON encoding of an event is a parameter. *)

From S2P Require Import Prelude.

(** json.Marshal and json.Unmarshal on events, the event's type, and the event
    synthesised from a type and a raw payload. *)
Class EventCodec (E : Type) := {
  ev_type : E → gostring;
  ev_marshal : E → option gostring;
  ev_unmarshal : gostring → option E;
  ev_synth : gostring → gostring → E
}.

Definition newline : ascii := ascii_of_N 10.
Definition cr : ascii := ascii_of_N 13.
Definition colon_byte : ascii := ":"%char.

Section sse.
Context {E : Type} `{EventCodec E}.

(** * The writer *)

(** [fmt.Fprintf(w, "event: %s\ndata: %s\n\n", ev.Type, payload)]; None when
    the event cannot be encoded. *)
Definition writeSSE (ev : E) : option gostring :=
  match ev_marshal ev with
  | None => None
  | Some payload =>
      Some ($"event: " ++ ev_type ev ++ [newline] ++ $"data: " ++ payload ++ [newline; newline])
  end.

(** The heartbeat of the stream handler. *)
Definition keepalive : gostring := $": keepalive" ++ [newline; newline].

(** * The parser *)

(** The accumulated event type and data of the frame being read. *)
Record frame := mkFrame { frType : gostring; frData : gostring }.
Definition frame_zero : frame := mkFrame [] [].

Definition handleSSELine (line : gostring) (f : frame) : frame :=
  if HasPrefix line $":" then f
  else match cut_byte colon_byte line with
  | None => f
  | Some (key, val) =>
      let val := if HasPrefix val $" " then drop 1 val else val in
      if decide (key = $"event") then mkFrame val (frData f)
      else if decide (key = $"data") then
        mkFrame (frType f) (if decide (frData f = []) then val else frData f ++ newline :: val)
      else f
  end.

(** flush: nothing without data; otherwise the decoded event, or one
    synthesised from the type when the data is not an event, or nothing when
    there is no type either. *)
Definition flush (f : frame) : option E :=
  if decide (frData f = []) then None
  else match ev_unmarshal (frData f) with
  | Some ev => Some ev
  | None => if decide (frType f = []) then None else Some (ev_synth (frType f) (frData f))
  end.

(** The loop over the body: [line] is what ReadString has collected since the
    last newline, [n] how many events may still be emitted (None: no limit). *)
Fixpoint readSSE (n : option nat) (f : frame) (line : gostring) (body : gostring) : list E :=
  match body with
  | [] => if decide (line = []) then [] else option_list (flush (handleSSELine line f))
  | c :: body' =>
      if decide (c = newline) then
        let trimmed := TrimRight line (λ c, bool_decide (c = newline ∨ c = cr)) in
        if decide (trimmed = []) then
          match flush f with
          | None => readSSE n frame_zero [] body'
          | Some ev =>
              match n with
              | Some 0 | Some 1 => [ev]
              | Some (S k) => ev :: readSSE (Some k) frame_zero [] body'
              | None => ev :: readSSE None frame_zero [] body'
              end
          end
        else readSSE n (handleSSELine trimmed f) [] body'
      else readSSE n f (line ++ [c]) body'
  end.

Definition parseSSE (maxEvents : option nat) (body : gostring) : list E :=
  readSSE maxEvents frame_zero [] body.

(** * Lemmas *)

Definition line_ok (s : gostring) : Prop := newline ∉ s ∧ cr ∉ s.

Lemma TrimRight_id (P : ascii → bool) s : (∀ c, c ∈ s → P c = false) → TrimRight s P = s.
Proof.
  intros Hp. unfold TrimRight.
  assert (Hd : drop_while P (reverse s) = reverse s).
  { destruct (reverse s) as [|c l] eqn:Er; [done|]. simpl. rewrite Hp; [done|].
    apply elem_of_reverse. rewrite Er. left. }
  by rewrite Hd, reverse_involutive.
Qed.

(** Reading up to the next newline. *)
Lemma readSSE_line n f line s body :
  newline ∉ s → readSSE n f line (s ++ body) = readSSE n f (line ++ s) body.
Proof.
  revert line; induction s as [|c s IH]; intros line Hni; [by rewrite app_nil_r|].
  apply not_elem_of_cons in Hni as [Hc Hni]. cbn [app readSSE].
  rewrite decide_False by congruence. rewrite IH by done. by rewrite <- app_assoc.
Qed.

Lemma readSSE_full_line n f s body :
  line_ok s → s ≠ [] → readSSE n f [] (s ++ newline :: body) = readSSE n (handleSSELine s f) [] body.
Proof.
  intros [Hn Hr] Hne. rewrite readSSE_line by done. cbn [app readSSE].
  rewrite decide_True by done. rewrite TrimRight_id.
  2:{ intros c Hc. apply bool_decide_eq_false. intros [-> | ->]; done. }
  by rewrite decide_False.
Qed.

(** A budget that allows at least one more event, before and after one. *)
Definition budget (n : option nat) : Prop := n ≠ Some 0.
Definition spent (n : option nat) : option nat := pred <$> n.

Definition take_opt (n : option nat) (l : list E) : list E :=
  match n with None => l | Some k => take k l end.

Lemma readSSE_blank_none n f body :
  flush f = None → readSSE n f [] (newline :: body) = readSSE n frame_zero [] body.
Proof. intros Hf. cbn [readSSE]. rewrite !decide_True by done. by rewrite Hf. Qed.

Lemma readSSE_blank_some n f ev body :
  budget n → flush f = Some ev →
  readSSE n f [] (newline :: body) =
  ev :: (if decide (spent n = Some 0) then [] else readSSE (spent n) frame_zero [] body).
Proof.
  intros Hn Hf. cbn [readSSE]. rewrite !(decide_True (P := _ = _)) by done. rewrite Hf.
  destruct n as [[|[|k]]|]; done.
Qed.

Lemma handle_event f v : handleSSELine ($"event: " ++ v) f = mkFrame v (frData f).
Proof. reflexivity. Qed.

Lemma handle_data f v : frData f = [] → handleSSELine ($"data: " ++ v) f = mkFrame (frType f) v.
Proof. intros Hf. unfold handleSSELine. simpl. by rewrite Hf. Qed.

(** One item of the stream as the hub writes it. *)
Inductive item := IEvent (ev : E) | IKeepalive.

Definition write_item (i : item) : option gostring :=
  match i with
  | IEvent ev => writeSSE ev
  | IKeepalive => Some keepalive
  end.

(** The bytes of a stream; None when an event cannot be encoded. *)
Fixpoint wire (items : list item) : option gostring :=
  match items with
  | [] => Some []
  | i :: items' =>
      match write_item i, wire items' with
      | Some s, Some rest => Some (s ++ rest)
      | _, _ => None
      end
  end.

(** The event survives its own JSON encoding, which is compact: one
    non-empty line. *)
Definition item_ok (i : item) : Prop :=
  match i with
  | IEvent ev => line_ok (ev_type ev) ∧
                 ∃ p, ev_marshal ev = Some p ∧ ev_unmarshal p = Some ev ∧ line_ok p ∧ p ≠ []
  | IKeepalive => True
  end.

Definition events_of (l : list item) : list E :=
  omap (λ i, match i with IEvent ev => Some ev | IKeepalive => None end) l.

Lemma literal_line_ok (s : gostring) : bool_decide (newline ∉ s ∧ cr ∉ s) = true → line_ok s.
Proof. apply bool_decide_eq_true. Qed.

Lemma line_ok_app s t : line_ok s → line_ok t → line_ok (s ++ t).
Proof. intros [??] [??]. split; rewrite elem_of_app; tauto. Qed.

Lemma parse_keepalive n body :
  readSSE n frame_zero [] (keepalive ++ body) = readSSE n frame_zero [] body.
Proof.
  unfold keepalive.
  replace (($": keepalive" ++ [newline; newline]) ++ body)
    with ($": keepalive" ++ newline :: newline :: body) by (by rewrite <- app_assoc).
  rewrite readSSE_full_line; [|apply literal_line_ok; by vm_compute|done].
  by apply readSSE_blank_none.
Qed.

Lemma parse_event n ev s body :
  budget n → item_ok (IEvent ev) → writeSSE ev = Some s →
  readSSE n frame_zero [] (s ++ body) =
  ev :: (if decide (spent n = Some 0) then [] else readSSE (spent n) frame_zero [] body).
Proof.
  intros Hn (Ht & p & Hm & Hu & Hp & Hne) Hs. unfold writeSSE in Hs. rewrite Hm in Hs. simplify_eq.
  replace (($"event: " ++ ev_type ev ++ [newline] ++ $"data: " ++ p ++ [newline; newline]) ++ body)
    with (($"event: " ++ ev_type ev) ++ newline :: ($"data: " ++ p) ++ newline :: newline :: body)
    by (by rewrite <- !app_assoc).
  rewrite readSSE_full_line; [|apply line_ok_app; [apply literal_line_ok; by vm_compute|done]|done].
  rewrite readSSE_full_line; [|apply line_ok_app; [apply literal_line_ok; by vm_compute|done]|done].
  rewrite handle_event, handle_data by done. apply readSSE_blank_some; [done|].
  unfold flush. cbn [frData]. rewrite decide_False by done. by rewrite Hu.
Qed.

Lemma take_opt_cons n ev l :
  budget n →
  take_opt n (ev :: l) = ev :: (if decide (spent n = Some 0) then [] else take_opt (spent n) l).
Proof. destruct n as [[|[|k]]|]; intros Hn; [by destruct Hn|done|done|done]. Qed.

Lemma parse_wire items n :
  budget n → Forall item_ok items →
  ∃ body, wire items = Some body ∧ readSSE n frame_zero [] body = take_opt n (events_of items).
Proof.
  revert n. induction items as [|i items IH]; intros n Hn Hok.
  { exists []. split; [done|]. by destruct n as [[]|]. }
  apply Forall_cons in Hok as [Hi Hok]. destruct i as [ev|]; cbn [wire write_item].
  - assert (is_Some (writeSSE ev)) as [s Hs].
    { destruct Hi as (_ & p & Hm & _). unfold writeSSE. rewrite Hm. eauto. }
    rewrite Hs. unfold events_of. cbn [omap list_omap]. fold (events_of items).
    destruct (decide (spent n = Some 0)) as [He|He].
    + destruct (IH None) as (rest & -> & _); [done|done|]. exists (s ++ rest). split; [done|].
      rewrite (parse_event n ev) by done. rewrite take_opt_cons by done. by rewrite !decide_True.
    + destruct (IH (spent n)) as (rest & -> & Hrest); [done|done|]. exists (s ++ rest). split; [done|].
      rewrite (parse_event n ev) by done. rewrite take_opt_cons by done. rewrite !decide_False by done.
      by rewrite Hrest.
  - destruct (IH n) as (rest & -> & Hrest); [done|done|]. exists (keepalive ++ rest). split; [done|].
    rewrite parse_keepalive. unfold events_of. cbn [omap list_omap]. by rewrite Hrest.
Qed.
End sse.
Arguments item : clear implicits.

(** * Properties *)

(** C29. The stream round-trips. Writing any sequence of events and heartbeats
    the way the hub does succeeds, and parsing the bytes yields exactly the
    events, in order: none is lost, merged or invented, and heartbeats are
    invisible; a reader that stops after n events gets the first n. The events
    are those whose JSON encoding is one non-empty line that decodes to the
    event again. *)
Theorem sse_roundtrip {E} `{EventCodec E} (items : list (item E)) :
  Forall item_ok items →
  ∃ body, wire items = Some body ∧
    parseSSE None body = events_of items ∧
    ∀ n, 0 < n → parseSSE (Some n) body = take n (events_of items).
Proof.
  intros Hok. destruct (parse_wire items None) as (body & Hw & Hp); [done|done|].
  exists body. split_and!; [done|done|]. intros n Hn.
  destruct (parse_wire items (Some n)) as (body' & Hw' & Hp'); [unfold budget; congruence || (intros [= ->]; lia)|done|].
  unfold parseSSE. by simplify_eq.
Qed.

(** A codec of two-field events: the type and a one-line payload. *)
#[local] Instance sx_codec : EventCodec (gostring * gostring) := {|
  ev_type := fst;
  ev_marshal e := Some (fst e ++ "="%char :: snd e);
  ev_unmarshal := cut_byte "="%char;
  ev_synth := pair
|}.

Lemma sse_roundtrip_witness :
  ∃ body, wire [IEvent ($"mirror_delete", $"{}"); IKeepalive; IEvent ($"snapshot", $"{1}")] = Some body ∧
    parseSSE None body = [($"mirror_delete", $"{}"); ($"snapshot", $"{1}")] ∧
    ∀ n, 0 < n → parseSSE (Some n) body = take n [($"mirror_delete", $"{}"); ($"snapshot", $"{1}")].
Proof.
  apply (sse_roundtrip [IEvent ($"mirror_delete", $"{}"); IKeepalive; IEvent ($"snapshot", $"{1}")]).
  spread; try exact I;
    (split; [split; decide_now|eexists; split_and!; [reflexivity|reflexivity|split; decide_now|done]]).
Defined.
