(* ===== verification/Selector.v ===== *)
(** Mirror selection at the door (src/internal/door/selection.go) and the
    door's configuration rules (src/internal/config/door.go).

    The random source is an input: an injected function, or the 64-bit value
    drawn from crypto/rand (None when the reader fails). *)

From S2P Require Import Prelude Shared.

(** * Configuration *)

Definition CoverKindStaticFile : gostring := $"static_file".
Definition CoverKindStaticHTML : gostring := $"static_html".
Definition CoverKindPassthrough404 : gostring := $"passthrough_404".

Definition StrategyRandom : gostring := $"random".
Definition StrategyWeighted : gostring := $"weighted".
Definition StrategyRoundRobin : gostring := $"round_robin".

Record CoverConf := mkCoverConf {
  ccEnabled : bool;
  ccKind : gostring;
  ccPath : gostring;
  ccContentType : gostring;
  ccHeaders : gmap gostring gostring
}.

Record SlugConf := mkSlugConf {
  Slug : gostring;
  Strategy : gostring;
  scTargetTenants : list gostring;
  scStatus : Z;
  ExcludeRegions : list gostring;
  scWeight : Z
}.

Record DoorConf := mkDoorConf { Cover : CoverConf; Slugs : list SlugConf }.

Definition isValidCoverKind (k : gostring) : bool :=
  bool_decide (k = CoverKindStaticFile ∨ k = CoverKindStaticHTML ∨ k = CoverKindPassthrough404).

Definition isValidStrategy (s : gostring) : bool :=
  bool_decide (s = StrategyRandom ∨ s = StrategyWeighted ∨ s = StrategyRoundRobin).

Inductive door_error :=
| ErrCoverKind | ErrCoverPath | ErrNoSlugs
| ErrSlugEmpty (i : nat) | ErrSlugStrategy (i : nat) | ErrSlugStatus (i : nat).

(** The body of the loop over the slugs: the defaults, then the checks. *)
Definition validateSlug (i : nat) (s : SlugConf) : result door_error SlugConf :=
  if decide (Slug s = []) then Err (ErrSlugEmpty i)
  else
    let strategy := if decide (Strategy s = []) then StrategyRandom else Strategy s in
    if negb (isValidStrategy strategy) then Err (ErrSlugStrategy i)
    else
      let status := if Z.eqb (scStatus s) 0 then 302%Z else scStatus s in
      if (negb (Z.eqb status 302) && negb (Z.eqb status 307))%bool then Err (ErrSlugStatus i)
      else Ok (mkSlugConf (Slug s) strategy (scTargetTenants s) status (ExcludeRegions s) (scWeight s)).

Fixpoint validateSlugs (i : nat) (l : list SlugConf) : result door_error (list SlugConf) :=
  match l with
  | [] => Ok []
  | s :: l' =>
      let* s' := validateSlug i s in
      let* l'' := validateSlugs (S i) l' in
      Ok (s' :: l'')
  end.

Definition ValidateDoor (d : DoorConf) : result door_error DoorConf :=
  let c := Cover d in
  if (ccEnabled c && negb (isValidCoverKind (ccKind c)))%bool then Err ErrCoverKind
  else if (ccEnabled c && negb (bool_decide (ccKind c = CoverKindPassthrough404))
           && bool_decide (ccPath c = []))%bool then Err ErrCoverPath
  else if decide (Slugs d = []) then Err ErrNoSlugs
  else
    let* slugs := validateSlugs 0 (Slugs d) in
    Ok (mkDoorConf c slugs).

(** * The selector *)

Record Selector := mkSelector {
  sel_mirrors : list MirrorInfo;
  rrCounter : Z
}.

Definition NewSelector : Selector := mkSelector [] 0.

Definition UpdateMirrors (ms : list MirrorInfo) (s : Selector) : Selector := mkSelector ms (rrCounter s).

(** The first entry with the host is replaced, otherwise the entry is added. *)
Fixpoint upsert_list (m : MirrorInfo) (l : list MirrorInfo) : list MirrorInfo :=
  match l with
  | [] => [m]
  | x :: l' => if decide (miHost x = miHost m) then m :: l' else x :: upsert_list m l'
  end.

Fixpoint remove_list (host : gostring) (l : list MirrorInfo) : list MirrorInfo :=
  match l with
  | [] => []
  | x :: l' => if decide (miHost x = host) then l' else x :: remove_list host l'
  end.

Definition UpsertMirror (m : MirrorInfo) (s : Selector) : Selector :=
  mkSelector (upsert_list m (sel_mirrors s)) (rrCounter s).

Definition RemoveMirror (host : gostring) (s : Selector) : Selector :=
  mkSelector (remove_list host (sel_mirrors s)) (rrCounter s).

Definition tenantsMatch (mirrorTenants slugTenants : list gostring) : bool :=
  match slugTenants, mirrorTenants with
  | [], _ => true
  | _, [] => false
  | _, _ => existsb (λ wanted, existsb (λ got, bool_decide (wanted = got)) mirrorTenants) slugTenants
  end.

Definition regionBlocked (mirrorBlocked excludeRegions : list gostring) : bool :=
  match mirrorBlocked, excludeRegions with
  | [], _ | _, [] => false
  | _, _ => existsb (λ b, existsb (λ ex, bool_decide (b = ex)) excludeRegions) mirrorBlocked
  end.

Definition mirrorEligible (m : MirrorInfo) (slug : SlugConf) : bool :=
  if decide (miVerdict m ≠ $"live") then false
  else if miManualBlock m then false
  else if negb (tenantsMatch (miTargetTenants m) (scTargetTenants slug)) then false
  else if regionBlocked (miBlockedRegions m) (ExcludeRegions slug) then false
  else true.

(** The source of randomness of one pick. *)
Inductive rand_src :=
| RandFunc (f : Z → Z)
| CryptoRand (u : option Z).

Definition cryptoRandIntn (n : Z) (src : rand_src) : Z :=
  if Z.leb n 1 then 0
  else match src with
  | RandFunc f => f n
  | CryptoRand None => 0
  | CryptoRand (Some u) => wrap64 (Z.modulo u (wrapu64 n))
  end.

(** A host, no candidate, or an index out of range (a panic). *)
Inductive pick_result := PickHost (h : gostring) | PickNone | PickPanic.

Definition host_at (c : list MirrorInfo) (i : Z) : pick_result :=
  if Z.ltb i 0 then PickPanic
  else match c !! Z.to_nat i with Some m => PickHost (miHost m) | None => PickPanic end.

Definition pickRandom (c : list MirrorInfo) (src : rand_src) : pick_result :=
  host_at c (cryptoRandIntn (Z.of_nat (length c)) src).

Definition effWeight (m : MirrorInfo) : Z := if Z.leb (miWeight m) 0 then 1 else miWeight m.

(** The running-sum loop: the host of the first candidate whose cumulated
    weight exceeds [r]. *)
Fixpoint weighted_scan (r sum : Z) (c : list MirrorInfo) : option gostring :=
  match c with
  | [] => None
  | m :: c' =>
      let sum' := wrap64 (sum + effWeight m) in
      if Z.ltb r sum' then Some (miHost m) else weighted_scan r sum' c'
  end.

Definition totalWeight (c : list MirrorInfo) : Z :=
  foldl (λ total m, wrap64 (total + effWeight m)) 0%Z c.

Definition pickWeighted (c : list MirrorInfo) (src : rand_src) : pick_result :=
  let r := cryptoRandIntn (totalWeight c) src in
  match weighted_scan r 0 c with
  | Some h => PickHost h
  | None => match last c with Some m => PickHost (miHost m) | None => PickPanic end
  end.

Definition candidates (s : Selector) (slug : SlugConf) : list MirrorInfo :=
  List.filter (λ m, mirrorEligible m slug) (sel_mirrors s).

Definition Pick (slug : SlugConf) (src : rand_src) (s : Selector) : Selector * pick_result :=
  let c := candidates s slug in
  if decide (c = []) then (s, PickNone)
  else if decide (Strategy slug = StrategyRoundRobin) then
    let rr := wrapu64 (rrCounter s + 1) in
    let idx := wrapu64 (rr - 1) in
    (mkSelector (sel_mirrors s) rr, host_at c (Z.modulo idx (Z.of_nat (length c))))
  else if decide (Strategy slug = StrategyWeighted) then (s, pickWeighted c src)
  else (s, pickRandom c src).

(** A source stays in its range: an injected function honours its contract,
    eight random bytes are a uint64. *)
Definition src_ok (src : rand_src) : Prop :=
  match src with
  | RandFunc f => ∀ n, (1 < n)%Z → (0 ≤ f n < n)%Z
  | CryptoRand (Some u) => (0 ≤ u < two64)%Z
  | CryptoRand None => True
  end.

(** * Lemmas *)

Lemma tenantsMatch_spec mt st :
  tenantsMatch mt st = true ↔ st = [] ∨ ∃ t, t ∈ st ∧ t ∈ mt.
Proof.
  assert (He : ∀ l1 l2 : list gostring,
    existsb (λ w, existsb (λ g, bool_decide (w = g)) l2) l1 = true ↔ ∃ t, t ∈ l1 ∧ t ∈ l2).
  { intros l1 l2. rewrite existsb_exists. setoid_rewrite existsb_exists.
    setoid_rewrite bool_decide_eq_true. setoid_rewrite <- list_elem_of_In. naive_solver. }
  unfold tenantsMatch. destruct st as [|s st]; [naive_solver|]. destruct mt as [|m mt].
  - split; [done|]. intros [?|(t & _ & ?%elem_of_nil)]; done.
  - rewrite He. naive_solver.
Qed.

Lemma regionBlocked_spec mb ex : regionBlocked mb ex = true ↔ ∃ t, t ∈ mb ∧ t ∈ ex.
Proof.
  unfold regionBlocked. destruct mb as [|b mb]; [|destruct ex as [|e ex]].
  - split; [done|]. by intros (t & ?%elem_of_nil & _).
  - split; [done|]. by intros (t & _ & ?%elem_of_nil).
  - rewrite existsb_exists. setoid_rewrite existsb_exists.
    setoid_rewrite bool_decide_eq_true. setoid_rewrite <- list_elem_of_In. naive_solver.
Qed.

(** The meaning of eligibility. *)
Definition eligible (m : MirrorInfo) (slug : SlugConf) : Prop :=
  miVerdict m = $"live" ∧ miManualBlock m = false ∧
  (scTargetTenants slug = [] ∨ ∃ t, t ∈ scTargetTenants slug ∧ t ∈ miTargetTenants m) ∧
  ¬ ∃ g, g ∈ miBlockedRegions m ∧ g ∈ ExcludeRegions slug.

Lemma mirrorEligible_spec m slug : mirrorEligible m slug = true ↔ eligible m slug.
Proof.
  unfold mirrorEligible, eligible. rewrite <- tenantsMatch_spec, <- regionBlocked_spec.
  destruct (decide (miVerdict m ≠ _)) as [E|E]; [naive_solver|]. apply dec_stable in E.
  destruct (miManualBlock m); [naive_solver|].
  destruct (tenantsMatch _ _); simpl; [|naive_solver].
  destruct (regionBlocked _ _); naive_solver.
Qed.

Lemma candidates_elem s slug m : m ∈ candidates s slug ↔ m ∈ sel_mirrors s ∧ eligible m slug.
Proof.
  unfold candidates. rewrite list_elem_of_In, List.filter_In, <- list_elem_of_In.
  by rewrite mirrorEligible_spec.
Qed.

Lemma cryptoRandIntn_range n src :
  src_ok src → (1 ≤ n ≤ max_int64)%Z → (0 ≤ cryptoRandIntn n src < n)%Z.
Proof.
  intros Hs Hn. unfold cryptoRandIntn. destruct (Z.leb_spec n 1); [lia|].
  destruct src as [f|[u|]]; simpl in *; [apply Hs; lia| |lia].
  unfold wrapu64. unfold max_int64, two64 in *. rewrite (Z.mod_small n) by lia.
  pose proof (Z.mod_pos_bound u n). rewrite wrap64_id; [lia|].
  unfold in_int64, min_int64, max_int64. lia.
Qed.

Lemma host_at_in c i :
  (0 ≤ i < Z.of_nat (length c))%Z → ∃ m, m ∈ c ∧ host_at c i = PickHost (miHost m).
Proof.
  intros Hi. unfold host_at. destruct (Z.ltb_spec i 0); [lia|].
  destruct (lookup_lt_is_Some_2 c (Z.to_nat i)) as [m Hm]; [lia|]. rewrite Hm.
  exists m. split; [by eapply list_elem_of_lookup_2|done].
Qed.

(** The exact sum of the weights. *)
Definition weightSum (c : list MirrorInfo) : Z := foldr (λ m z, effWeight m + z)%Z 0%Z c.

Lemma effWeight_pos m : (1 ≤ effWeight m)%Z.
Proof. unfold effWeight. destruct (Z.leb_spec (miWeight m) 0); lia. Qed.

Lemma weightSum_length c : (Z.of_nat (length c) ≤ weightSum c)%Z.
Proof. induction c as [|m c IH]; [done|]. cbn [weightSum foldr length]. pose proof (effWeight_pos m). unfold weightSum in IH. lia. Qed.

Lemma totalWeight_exact c acc :
  (0 ≤ acc)%Z → (acc + weightSum c ≤ max_int64)%Z →
  foldl (λ total m, wrap64 (total + effWeight m)) acc c = (acc + weightSum c)%Z.
Proof.
  revert acc; induction c as [|m c IH]; intros acc Ha Hs; cbn [foldl weightSum foldr] in *; [lia|].
  fold (weightSum c) in *. pose proof (effWeight_pos m). pose proof (weightSum_length c).
  rewrite wrap64_id by (unfold in_int64, min_int64, max_int64 in *; lia).
  rewrite IH by lia. lia.
Qed.

(** The scan finds the candidate whose interval of cumulated weights holds r. *)
Lemma weighted_scan_spec c1 m c2 r acc :
  (0 ≤ acc)%Z → (acc + weightSum (c1 ++ m :: c2) ≤ max_int64)%Z →
  (acc + weightSum c1 ≤ r < acc + weightSum c1 + effWeight m)%Z →
  weighted_scan r acc (c1 ++ m :: c2) = Some (miHost m).
Proof.
  revert acc; induction c1 as [|x c1 IH]; intros acc Ha Hs Hr;
    cbn [app weighted_scan weightSum foldr] in *.
  - fold (weightSum c2) in *. pose proof (weightSum_length c2).
    rewrite wrap64_id by (pose proof (effWeight_pos m); unfold in_int64, min_int64, max_int64 in *; lia).
    destruct (Z.ltb_spec r (acc + effWeight m)); [done|lia].
  - fold (weightSum (c1 ++ m :: c2)) in *. fold (weightSum c1) in *.
    pose proof (effWeight_pos x). pose proof (weightSum_length (c1 ++ m :: c2)).
    pose proof (weightSum_length c1).
    rewrite wrap64_id by (unfold in_int64, min_int64, max_int64 in *; lia).
    destruct (Z.ltb_spec r (acc + effWeight x)); [lia|]. apply IH; lia.
Qed.

(** Every value below the total lies in the interval of one candidate. *)
Lemma weight_interval c r acc :
  (acc ≤ r < acc + weightSum c)%Z →
  ∃ c1 m c2, c = c1 ++ m :: c2 ∧ (acc + weightSum c1 ≤ r < acc + weightSum c1 + effWeight m)%Z.
Proof.
  revert acc; induction c as [|x c IH]; intros acc Hr; cbn [weightSum foldr] in Hr; [lia|].
  fold (weightSum c) in Hr. destruct (decide (r < acc + effWeight x)%Z).
  - exists [], x, c. simpl. split; [done|lia].
  - destruct (IH (acc + effWeight x)%Z) as (c1 & m & c2 & -> & Hm); [lia|].
    exists (x :: c1), m, c2. split; [done|]. cbn [weightSum foldr]. fold (weightSum c1). lia.
Qed.

Lemma pickWeighted_in c src :
  src_ok src → c ≠ [] → (weightSum c ≤ max_int64)%Z →
  ∃ m, m ∈ c ∧ pickWeighted c src = PickHost (miHost m).
Proof.
  intros Hs Hne Hw. unfold pickWeighted, totalWeight. rewrite totalWeight_exact by lia.
  assert (Hlen : (1 ≤ weightSum c)%Z).
  { pose proof (weightSum_length c). destruct c; [done|simpl in *; lia]. }
  pose proof (cryptoRandIntn_range (0 + weightSum c) src Hs ltac:(lia)) as Hr.
  set (r := cryptoRandIntn _ _) in *.
  destruct (weight_interval c r 0) as (c1 & m & c2 & -> & Hm); [lia|].
  rewrite (weighted_scan_spec c1 m c2) by lia. exists m. split; [set_solver|done].
Qed.

(** What one pick returns. *)
Lemma Pick_outcome slug src s :
  src_ok src → (weightSum (candidates s slug) ≤ max_int64)%Z →
  match snd (Pick slug src s) with
  | PickHost h => ∃ m, m ∈ sel_mirrors s ∧ eligible m slug ∧ miHost m = h
  | PickNone => ∀ m, m ∈ sel_mirrors s → ¬ eligible m slug
  | PickPanic => False
  end.
Proof.
  intros Hsrc Hw. set (c := candidates s slug) in *.
  assert (Hin : ∀ p, (∃ m, m ∈ c ∧ p = PickHost (miHost m)) → c ≠ [] →
    match p with
    | PickHost h => ∃ m, m ∈ sel_mirrors s ∧ eligible m slug ∧ miHost m = h
    | PickNone => ∀ m, m ∈ sel_mirrors s → ¬ eligible m slug
    | PickPanic => False
    end).
  { intros p (m & Hm & ->) _. apply candidates_elem in Hm as [? ?]. by exists m. }
  assert (Hlen : c ≠ [] → (1 ≤ Z.of_nat (length c))%Z) by (destruct c; simpl; [done|lia]).
  pose proof (weightSum_length c).
  unfold Pick. fold c. destruct (decide (c = [])) as [E|E]; simpl.
  { intros m Hm He. assert (m ∈ c) as Hmc by (by apply candidates_elem). rewrite E in Hmc.
    by apply elem_of_nil in Hmc. }
  specialize (Hlen E). destruct (decide (Strategy slug = StrategyRoundRobin)); simpl.
  - apply Hin; [|done]. apply host_at_in. apply Z.mod_pos_bound. lia.
  - destruct (decide (Strategy slug = StrategyWeighted)); simpl.
    + apply Hin; [|done]. by apply pickWeighted_in.
    + apply Hin; [|done]. apply host_at_in, cryptoRandIntn_range; [done|lia].
Qed.

(** * Consecutive picks *)

Fixpoint picks (k : nat) (slug : SlugConf) (src : rand_src) (s : Selector) : list pick_result :=
  match k with
  | 0 => []
  | S k' => let '(s', p) := Pick slug src s in p :: picks k' slug src s'
  end.

Lemma Pick_round_robin slug src s :
  Strategy slug = StrategyRoundRobin → candidates s slug ≠ [] →
  (0 ≤ rrCounter s < two64 - 1)%Z →
  Pick slug src s =
  (mkSelector (sel_mirrors s) (rrCounter s + 1),
   host_at (candidates s slug) (rrCounter s mod Z.of_nat (length (candidates s slug)))).
Proof.
  intros Hst Hne Hc. unfold Pick. rewrite decide_False, decide_True by done.
  unfold wrapu64. unfold two64 in *. rewrite (Z.mod_small (rrCounter s + 1)) by lia.
  replace (rrCounter s + 1 - 1)%Z with (rrCounter s) by lia.
  by rewrite (Z.mod_small (rrCounter s)) by lia.
Qed.

Lemma picks_round_robin k slug src s :
  Strategy slug = StrategyRoundRobin → candidates s slug ≠ [] →
  (0 ≤ rrCounter s)%Z → (rrCounter s + Z.of_nat k < two64)%Z →
  picks k slug src s =
  (λ i, host_at (candidates s slug)
          ((rrCounter s + Z.of_nat i) mod Z.of_nat (length (candidates s slug)))) <$> seq 0 k.
Proof.
  intros Hst. revert s; induction k as [|k IH]; intros s Hne H0 Hc; [done|].
  cbn [picks]. rewrite Pick_round_robin by (done || lia). rewrite IH; simpl; [|done|lia|lia].
  f_equal; [by rewrite Z.add_0_r|]. rewrite <- fmap_S_seq, <- list_fmap_compose.
  apply list_fmap_ext. intros i x _. unfold candidates. simpl. do 2 f_equal. lia.
Qed.

Lemma rotate_permutation {A} n (l : list A) : rotate n l ≡ₚ l.
Proof. unfold rotate. rewrite Permutation_app_comm. by rewrite take_drop. Qed.

(** * Concrete instances for the witnesses *)

Definition sx_mirror (h : gostring) (w : Z) (regions : list gostring) : MirrorInfo :=
  mkMirrorInfo h $"live" false w [] regions 1.

Definition sx_sel : Selector :=
  mkSelector [sx_mirror $"m1" 3 []; sx_mirror $"m2" 0 [$"ru"]; sx_mirror $"m3" 2 []] 5.

Definition sx_slug (strategy : gostring) : SlugConf := mkSlugConf $"go" strategy [] 302 [$"ru"] 0.

(** * Properties *)

(** A pick never leaves the eligible set. Whatever the strategy and the
    random draw, [Pick] returns the host of a mirror that is live, not
    manually blocked, shares a tenant with the slug when the slug names any,
    and is not blocked in an excluded region; it reports no mirror exactly
    when none is eligible, and it never fails (with weights whose sum fits an
    int). *)
Theorem pick_eligible slug src s :
  src_ok src → (weightSum (candidates s slug) ≤ max_int64)%Z →
  match snd (Pick slug src s) with
  | PickHost h => ∃ m, m ∈ sel_mirrors s ∧ eligible m slug ∧ miHost m = h
  | PickNone => ∀ m, m ∈ sel_mirrors s → ¬ eligible m slug
  | PickPanic => False
  end.
Proof. apply Pick_outcome. Qed.

Lemma pick_eligible_witness :
  snd (Pick (sx_slug StrategyWeighted) (CryptoRand (Some 9%Z)) sx_sel) = PickHost $"m3" ∧
  ∃ m, m ∈ sel_mirrors sx_sel ∧ eligible m (sx_slug StrategyWeighted) ∧ miHost m = $"m3".
Proof.
  split; [reflexivity|].
  exact (pick_eligible (sx_slug StrategyWeighted) (CryptoRand (Some 9%Z)) sx_sel
    ltac:(unfold src_ok, two64; lia) ltac:(vm_compute; discriminate)).
Defined.

(** The draws of a candidate's own interval select it. *)
Lemma pickWeighted_interval c1 m c2 r :
  (weightSum (c1 ++ m :: c2) ≤ max_int64)%Z →
  (weightSum c1 ≤ r < weightSum c1 + effWeight m)%Z →
  pickWeighted (c1 ++ m :: c2) (RandFunc (λ _, r)) = PickHost (miHost m).
Proof.
  intros Hw Hr. unfold pickWeighted, totalWeight. rewrite totalWeight_exact by lia.
  pose proof (weightSum_length (c1 ++ m :: c2)) as Hl. rewrite length_app in Hl. cbn [length] in Hl.
  assert (Hcr : cryptoRandIntn (0 + weightSum (c1 ++ m :: c2)) (RandFunc (λ _, r)) = r).
  { unfold cryptoRandIntn. destruct (Z.leb_spec (0 + weightSum (c1 ++ m :: c2)) 1) as [Hle|]; [|done].
    destruct c1 as [|x c1]; [|cbn [length] in Hl; lia]. cbn [app weightSum foldr] in *.
    fold (weightSum c2) in *. pose proof (weightSum_length c2). lia. }
  rewrite Hcr. by rewrite (weighted_scan_spec c1 m c2 r 0) by lia.
Qed.

#[global] Instance pick_result_eq_dec : EqDecision pick_result.
Proof. solve_decision. Defined.

(** [selects c h r]: the draw [r] makes weighted selection return [h]. *)
Definition selects (c : list MirrorInfo) (h : gostring) (r : Z) : bool :=
  bool_decide (pickWeighted c (RandFunc (λ _, r)) = PickHost h).

Definition named (h : gostring) (m : MirrorInfo) : bool := bool_decide (miHost m = h).

Lemma filter_const {A} (P : A → bool) (b : bool) l :
  (∀ x, x ∈ l → P x = b) → List.filter P l = if b then l else [].
Proof.
  induction l as [|x l IH]; intros Hc; [by destruct b|]. cbn [List.filter].
  rewrite (Hc x) by left. rewrite IH by (intros; apply Hc; by right). by destruct b.
Qed.

Lemma weightSum_app c1 c2 : weightSum (c1 ++ c2) = (weightSum c1 + weightSum c2)%Z.
Proof. induction c1 as [|m c1 IH]; [done|]. cbn [app weightSum foldr]. fold (weightSum (c1 ++ c2)). fold (weightSum c1). lia. Qed.

Lemma selecting_draws c1 c2 h :
  (weightSum (c1 ++ c2) ≤ max_int64)%Z →
  Z.of_nat (length (List.filter (selects (c1 ++ c2) h) (seqZ (weightSum c1) (weightSum c2)))) =
  weightSum (List.filter (named h) c2).
Proof.
  revert c1. induction c2 as [|m c2 IH]; intros c1 Hw; [done|].
  cbn [weightSum foldr List.filter]. fold (weightSum c2).
  pose proof (effWeight_pos m). pose proof (weightSum_length c2).
  rewrite seqZ_app by lia. rewrite List.filter_app, length_app, Nat2Z.inj_add.
  rewrite (filter_const _ (named h m)).
  2:{ intros r Hr%elem_of_seqZ. unfold selects, named. rewrite pickWeighted_interval by (done || lia).
      apply bool_decide_ext. naive_solver. }
  specialize (IH (c1 ++ [m])). rewrite <- app_assoc in IH. cbn [app] in IH. specialize (IH Hw).
  rewrite weightSum_app in IH. replace (weightSum [m]) with (effWeight m) in IH by (cbn; lia).
  rewrite IH. destruct (named h m); cbn [length weightSum foldr]; [rewrite length_seqZ|]; unfold weightSum; lia.
Qed.

(** Weighted selection is exactly proportional. With weights whose sum
    fits an int, the number of draws below the total for which a host is
    selected is the sum of the weights of the candidates with that host (a
    weight not above 0 counts as 1). *)
Theorem weighted_proportional c h :
  (weightSum c ≤ max_int64)%Z →
  Z.of_nat (length (List.filter (selects c h) (seqZ 0 (weightSum c)))) =
  weightSum (List.filter (named h) c).
Proof. intros Hw. by apply (selecting_draws [] c h). Qed.

Lemma weighted_proportional_witness :
  Z.of_nat (length (List.filter (selects [sx_mirror $"m1" 3 []; sx_mirror $"m3" 2 []] $"m3") (seqZ 0 5))) = 2%Z.
Proof.
  apply (weighted_proportional [sx_mirror $"m1" 3 []; sx_mirror $"m3" 2 []] $"m3"). by vm_compute.
Defined.

(** Round robin is fair. While the mirror table does not change and the
    counter does not wrap, as many consecutive picks as there are candidates
    run through a rotation of the candidates: each is chosen exactly once. *)
Theorem round_robin_fair slug src s :
  let c := candidates s slug in
  Strategy slug = StrategyRoundRobin → c ≠ [] →
  (0 ≤ rrCounter s)%Z → (rrCounter s + Z.of_nat (length c) < two64)%Z →
  picks (length c) slug src s = (λ m, PickHost (miHost m)) <$> rotate (Z.to_nat (rrCounter s)) c ∧
  rotate (Z.to_nat (rrCounter s)) c ≡ₚ c.
Proof.
  intros c Hst Hne H0 Hc. split; [|apply rotate_permutation].
  rewrite picks_round_robin by done. fold c. apply list_eq. intros i.
  rewrite !list_lookup_fmap. destruct (decide (i < length c)) as [Hi|Hi].
  - rewrite lookup_seq_lt by done. rewrite lookup_rotate_r by done. simpl.
    unfold rotate_nat_add, host_at. rewrite Z2Nat.id by lia.
    pose proof (Z.mod_pos_bound (rrCounter s + Z.of_nat i) (Z.of_nat (length c)) ltac:(lia)) as Hb.
    destruct (Z.ltb_spec ((rrCounter s + Z.of_nat i) mod Z.of_nat (length c)) 0); [lia|].
    destruct (c !! Z.to_nat _) as [m|] eqn:E; [done|].
    apply lookup_ge_None in E. lia.
  - rewrite lookup_seq_ge by lia. rewrite lookup_ge_None_2; [done|].
    rewrite length_rotate. lia.
Qed.

Lemma round_robin_fair_witness :
  picks 2 (sx_slug StrategyRoundRobin) (CryptoRand None) sx_sel = [PickHost $"m3"; PickHost $"m1"].
Proof.
  destruct (round_robin_fair (sx_slug StrategyRoundRobin) (CryptoRand None) sx_sel) as [H _];
    [reflexivity|done|vm_compute; discriminate|by vm_compute|exact H].
Defined.

Lemma validateSlug_ok i s s' :
  validateSlug i s = Ok s' →
  Slug s' = Slug s ∧ Slug s ≠ [] ∧ isValidStrategy (Strategy s') = true ∧
  (scStatus s' = 302%Z ∨ scStatus s' = 307%Z) ∧ validateSlug i s' = Ok s'.
Proof.
  unfold validateSlug. destruct (decide (Slug s = [])) as [|Hs]; [done|].
  set (st := if decide (Strategy s = []) then StrategyRandom else Strategy s).
  destruct (isValidStrategy st) eqn:Hst; [|done]. cbn [negb].
  set (x := if Z.eqb (scStatus s) 0 then 302%Z else scStatus s).
  destruct (negb (Z.eqb x 302) && negb (Z.eqb x 307))%bool eqn:Ex; [done|].
  assert (Hx : x = 302%Z ∨ x = 307%Z).
  { destruct (Z.eqb_spec x 302); [by left|]. destruct (Z.eqb_spec x 307); [by right|done]. }
  intros [= <-]. cbn [Slug Strategy scStatus scTargetTenants ExcludeRegions scWeight].
  split; [done|]. split; [done|]. split; [done|]. split; [done|].
  rewrite (decide_False (P := Slug s = [])) by done.
  rewrite (decide_False (P := st = [])) by (intros E; by rewrite E in Hst).
  rewrite Hst. cbn [negb]. clearbody x. destruct Hx as [-> | ->]; done.
Qed.

Lemma validateSlugs_ok i l l' :
  validateSlugs i l = Ok l' →
  Forall (λ s, Slug s ≠ [] ∧ isValidStrategy (Strategy s) = true ∧
               (scStatus s = 302%Z ∨ scStatus s = 307%Z)) l' ∧
  length l' = length l ∧ validateSlugs i l' = Ok l'.
Proof.
  revert i l'; induction l as [|s l IH]; intros i l' Hv; cbn [validateSlugs] in Hv.
  - injection Hv as <-. by split.
  - destruct (validateSlug i s) as [s'|] eqn:E; [|done]. cbn [res_bind] in Hv.
    destruct (validateSlugs (S i) l) as [l''|] eqn:E'; [|done]. injection Hv as <-.
    apply validateSlug_ok in E as (H1 & H2 & H3 & H4 & H5). apply IH in E' as (Hf & Hl & Hi).
    split; [constructor; [rewrite H1; auto|done]|]. split; [simpl; by rewrite Hl|].
    cbn [validateSlugs]. rewrite H5. cbn [res_bind]. by rewrite Hi.
Qed.

(** An accepted door configuration is complete: it has at least one slug,
    every slug is non-empty with a known strategy and a redirect status of
    302 or 307, an enabled cover has a known kind, and validating it again
    changes nothing. *)
Theorem validate_door_complete d d' :
  ValidateDoor d = Ok d' →
  Slugs d' ≠ [] ∧
  Forall (λ s, Slug s ≠ [] ∧ isValidStrategy (Strategy s) = true ∧
               (scStatus s = 302%Z ∨ scStatus s = 307%Z)) (Slugs d') ∧
  (ccEnabled (Cover d') = true → isValidCoverKind (ccKind (Cover d')) = true) ∧
  ValidateDoor d' = Ok d'.
Proof.
  unfold ValidateDoor.
  destruct (ccEnabled (Cover d) && negb (isValidCoverKind (ccKind (Cover d))))%bool eqn:E1; [done|].
  destruct (ccEnabled (Cover d) && _ && _)%bool eqn:E2; [done|].
  destruct (decide (Slugs d = [])) as [|Hne]; [done|].
  destruct (validateSlugs 0 (Slugs d)) as [l|] eqn:Ev; [|done]. intros [= <-].
  apply validateSlugs_ok in Ev as (Hf & Hl & Hi). cbn [Cover Slugs].
  assert (l ≠ []) as Hl' by (intros ->; by destruct (Slugs d)).
  split; [done|]. split; [done|]. split.
  - intros He. rewrite He in E1. by destruct (isValidCoverKind _).
  - rewrite E1, E2, decide_False by done. by rewrite Hi.
Qed.

Lemma validate_door_complete_witness :
  let d := mkDoorConf (mkCoverConf false [] [] [] ∅) [mkSlugConf $"go" [] [] 0 [] 0] in
  let d' := mkDoorConf (mkCoverConf false [] [] [] ∅) [mkSlugConf $"go" StrategyRandom [] 302 [] 0] in
  ValidateDoor d = Ok d' ∧ ValidateDoor d' = Ok d'.
Proof.
  cbv zeta. split; [reflexivity|].
  apply (validate_door_complete
    (mkDoorConf (mkCoverConf false [] [] [] ∅) [mkSlugConf $"go" [] [] 0 [] 0])). reflexivity.
Defined.
