(* ===== verification/DoorServer.v ===== *)
(** The door's HTTP surface (src/internal/door/redirect.go, cover.go,
    door.go): constant-time slug matching, the redirect, the cover page and
    the routing between them and the admin gate. *)

From stdpp Require Import pretty.
From S2P Require Import Prelude Http Shared Metrics AdminGate Selector.

(** fmt's %d. *)
Definition itoa (z : Z) : gostring := String.list_ascii_of_string (pretty z).

(** * Redirects *)

Definition splitFirstSegment (p : gostring) : gostring * gostring :=
  if decide (p = [] ∨ p = $"/") then ([], [])
  else
    let p := match p with c :: p' => if decide (c = slash) then p' else p | [] => p end in
    match IndexByte p slash with
    | None => (p, [])
    | Some idx => (take idx p, drop idx p)
    end.

Definition ensureLeadingSlash (p : gostring) : gostring :=
  match p with
  | [] => $"/"
  | c :: _ => if decide (c = slash) then p else slash :: p
  end.

(** The test the loop of Match runs for one compiled slug. *)
Definition slugMatches (first : gostring) (s : SlugConf) : bool :=
  let eq := ConstantTimeCompare (pad_to (length (Slug s)) first) (Slug s) in
  let lenEq := ConstantTimeByteEq (wrapu8 (Z.of_nat (length first)))
                                  (wrapu8 (Z.of_nat (length (Slug s)))) in
  (Z.eqb eq 1 && Z.eqb lenEq 1)%bool.

(** The loop: every slug is compared, the first hit is kept. *)
Definition Match (slugs : list SlugConf) (p : gostring) : option (SlugConf * gostring) :=
  let '(first, rest) := splitFirstSegment p in
  let hit := foldl (λ acc s, match acc with
                             | Some x => Some x
                             | None => if slugMatches first s then Some s else None
                             end) None slugs in
  match hit with
  | Some s => Some (s, rest)
  | None => None
  end.

Definition redirect_ServeHTTP (slugs : list SlugConf) (src : rand_src) (r : Request) (sel : Selector)
    : Selector * option Response :=
  if decide (Method r = MethodHead) then (sel, Some (writeEmpty ∅ StatusOK))
  else if decide (Method r ≠ MethodGet) then (sel, Some (writeEmpty ∅ StatusMethodNotAllowed))
  else match Match slugs (Path r) with
  | None => (sel, Some (writeEmpty ∅ StatusNotFound))
  | Some (slug, remainder) =>
      match Pick slug src sel with
      | (sel', PickPanic) => (sel', None)
      | (sel', PickNone) => (sel', Some (writeEmpty ∅ StatusServiceUnavailable))
      | (sel', PickHost host) =>
          let target := $"https://" ++ host ++ ensureLeadingSlash remainder in
          let target := if decide (RawQuery r = []) then target else target ++ $"?" ++ RawQuery r in
          (sel', Some (mkResponse (scStatus slug)
                         (hdr_set ContentLength $"0" (hdr_set Location target ∅)) []))
      end
  end.

(** * The cover page *)

(** textproto.CanonicalMIMEHeaderKey. *)
Definition is_token_byte (c : ascii) : bool :=
  let n := N_of_ascii c in
  ((N.leb 48 n && N.leb n 57) || (N.leb 65 n && N.leb n 90) || (N.leb 97 n && N.leb n 122)
   || bool_decide (c ∈ $"!#$%&'*+-.^_`|~"))%bool.

Fixpoint canonical_bytes (upper : bool) (s : gostring) : gostring :=
  match s with
  | [] => []
  | c :: s' => (if upper then upper_byte c else lower_byte c)
               :: canonical_bytes (bool_decide (c = "-"%char)) s'
  end.

Definition canonicalKey (k : gostring) : gostring :=
  if forallb is_token_byte k then canonical_bytes true k else k.

(** [chModTime] is the modification time in HTTP format. *)
Record CoverHandler := mkCover {
  chCfg : CoverConf;
  chBody : gostring;
  chModTime : gostring;
  chEtag : gostring
}.

Definition ETag : gostring := $"Etag".
Definition LastModified : gostring := $"Last-Modified".
Definition IfNoneMatch : gostring := $"If-None-Match".

(** [file] is what reading cfg.Path yields: content and time, or an error. *)
Definition NewCoverHandler (sha256 : gostring → gostring) (cfg : CoverConf)
    (file : option (gostring * gostring)) : option CoverHandler :=
  if (negb (ccEnabled cfg) || bool_decide (ccKind cfg = CoverKindPassthrough404))%bool
  then Some (mkCover cfg [] [] [])
  else if decide (ccPath cfg = []) then None
  else match file with
  | None => None
  | Some (body, mt) =>
      Some (mkCover cfg body mt
              ($"W/" ++ [ascii_of_N 34] ++ hex_encode (take 8 (sha256 body)) ++ [ascii_of_N 34]))
  end.

Definition configuredHeaders (cfg : CoverConf) (h : header) : header :=
  foldl (λ h kv, if decide (kv.2 = []) then delete (canonicalKey kv.1) h
                 else hdr_set (canonicalKey kv.1) kv.2 h) h (map_to_list (ccHeaders cfg)).

Definition cover_ServeHTTP (c : CoverHandler) (r : Request) : Response :=
  let cfg := chCfg c in
  if (negb (ccEnabled cfg) || bool_decide (ccKind cfg = CoverKindPassthrough404))%bool
  then writeEmpty ∅ StatusNotFound
  else if decide (Method r ≠ MethodGet ∧ Method r ≠ MethodHead)
  then writeEmpty ∅ StatusMethodNotAllowed
  else
    let h := configuredHeaders cfg ∅ in
    let h := if decide (ccContentType cfg ≠ []) then hdr_set ContentType (ccContentType cfg) h
             else if decide (ccKind cfg = CoverKindStaticHTML)
             then hdr_set ContentType $"text/html; charset=utf-8" h else h in
    let h := hdr_set LastModified (chModTime c) (hdr_set ETag (chEtag c) h) in
    let inm := hdr_get (ReqHeader r) IfNoneMatch in
    if decide (inm ≠ [] ∧ inm = chEtag c) then writeEmpty h StatusNotModified
    else
      let h := hdr_set ContentLength (itoa (Z.of_nat (length (chBody c)))) h in
      mkResponse StatusOK h (if decide (Method r = MethodHead) then [] else chBody c).

(** * The server *)

Record Server := mkServer {
  srvCover : CoverHandler;
  srvSlugs : list SlugConf;
  srvGate : Gate
}.

Definition UpdateSlugs (slugs : list SlugConf) (s : Server) : Server :=
  mkServer (srvCover s) slugs (srvGate s).

(** What the door does with a request: the admin gate, a response, or a
    panic of the selector. *)
Inductive DoorOutcome :=
| DoorGate (o : Outcome)
| DoorResp (resp : Response)
| DoorPanic.

Definition door_ServeHTTP (s : Server) (src : rand_src) (r : Request) (sel : Selector)
    : Selector * DoorOutcome :=
  if MatchesPrefix (srvGate s) (Path r) then (sel, DoorGate (AdminGate.ServeHTTP (srvGate s) r))
  else if decide (Method r = MethodHead) then (sel, DoorResp (writeEmpty ∅ StatusOK))
  else if decide (Method r ≠ MethodGet) then (sel, DoorResp (writeEmpty ∅ StatusMethodNotAllowed))
  else match Match (srvSlugs s) (Path r) with
  | Some _ =>
      match redirect_ServeHTTP (srvSlugs s) src r sel with
      | (sel', Some resp) => (sel', DoorResp resp)
      | (sel', None) => (sel', DoorPanic)
      end
  | None => (sel, DoorResp (cover_ServeHTTP (srvCover s) r))
  end.

(** * Lemmas *)

(** The loop is a search for the first matching slug. *)
Lemma Match_find slugs p :
  Match slugs p =
  (λ s, (s, snd (splitFirstSegment p))) <$> List.find (slugMatches (fst (splitFirstSegment p))) slugs.
Proof.
  unfold Match. destruct (splitFirstSegment p) as [first rest]. simpl.
  assert (Hf : ∀ acc, foldl (λ acc s, match acc with
                             | Some x => Some x
                             | None => if slugMatches first s then Some s else None
                             end) acc slugs
             = match acc with Some x => Some x | None => List.find (slugMatches first) slugs end).
  { induction slugs as [|s slugs IH]; intros acc; simpl; [by destruct acc|].
    rewrite IH. destruct acc; [done|]. by destruct (slugMatches first s). }
  rewrite Hf. by destruct (List.find _ _).
Qed.

Lemma slugMatches_spec first s :
  nul_free (Slug s) →
  slugMatches first s = true ↔
  Slug s `prefix_of` first ∧
  (Z.of_nat (length first) mod 256 = Z.of_nat (length (Slug s)) mod 256)%Z.
Proof.
  intros Hn. unfold slugMatches. rewrite andb_true_iff, !Z.eqb_eq, ConstantTimeCompare_1.
  rewrite pad_to_eq_prefix by done. unfold ConstantTimeByteEq, wrapu8.
  destruct (Z.eqb_spec (Z.of_nat (length first) mod 256) (Z.of_nat (length (Slug s)) mod 256));
    split; intros []; done || lia.
Qed.

(** Below 256 bytes the test is equality. *)
Lemma slugMatches_exact first s :
  nul_free (Slug s) → length first < 256 → length (Slug s) < 256 →
  slugMatches first s = true ↔ first = Slug s.
Proof.
  intros Hn Hf Hs. rewrite slugMatches_spec by done. split.
  - intros [[k ->] Hm]. rewrite length_app in *. rewrite !Z.mod_small in Hm by lia.
    destruct k; [by rewrite app_nil_r|simpl in *; lia].
  - by intros ->.
Qed.

(** The configured slugs the exact theorems cover. *)
Definition slugs_ok (slugs : list SlugConf) : Prop :=
  Forall (λ s, nul_free (Slug s) ∧ length (Slug s) < 256) slugs.

#[global] Instance slugs_ok_dec slugs : Decision (slugs_ok slugs).
Proof. unfold slugs_ok. apply _. Defined.

Definition dx_slug : SlugConf := sx_slug StrategyRoundRobin.

Definition dx_server : Server :=
  mkServer (mkCover (mkCoverConf false [] [] [] ∅) [] [] []) [dx_slug]
           (New (mkConfig false [] [] [])).

Definition dx_get (p q : gostring) : Request := mkRequest MethodGet p [] q $"door" [] ∅ ∅.

(** * Properties *)

(** Slug matching is exact for segments and slugs below 256 bytes: a
    path matches exactly when its first segment equals a configured slug, and
    then the first such slug of the configuration is returned with the rest
    of the path. *)
Theorem door_match_exact slugs p s rest :
  slugs_ok slugs → length (fst (splitFirstSegment p)) < 256 →
  Match slugs p = Some (s, rest) ↔
  ∃ before after, slugs = before ++ s :: after ∧
    Slug s = fst (splitFirstSegment p) ∧ rest = snd (splitFirstSegment p) ∧
    Forall (λ s', Slug s' ≠ fst (splitFirstSegment p)) before.
Proof.
  intros Hok Hlen. rewrite Match_find. destruct (splitFirstSegment p) as [first rest']. simpl in *.
  assert (Hm : ∀ x, x ∈ slugs → slugMatches first x = true ↔ first = Slug x).
  { intros x Hx. unfold slugs_ok in Hok. rewrite Forall_forall in Hok.
    destruct (Hok x Hx). by apply slugMatches_exact. }
  clear Hok. revert Hm. induction slugs as [|x slugs IH]; intros Hm; simpl.
  - split; [done|]. intros (b & a & Hb & _). by destruct b.
  - pose proof (Hm x ltac:(left)) as Hx. destruct (slugMatches first x) eqn:E; simpl.
    + assert (first = Slug x) as Hfx by (by apply Hx). split.
      * intros [= <- <-]. exists [], slugs. by split.
      * intros (b & a & Hb & Hs & -> & Hf). destruct b as [|y b]; simplify_eq/=; [done|].
        inversion Hf; subst. done.
    + rewrite IH by (intros; apply Hm; by right). split.
      * intros (b & a & -> & Hs & Hr & Hf). exists (x :: b), a. split; [done|]. split; [done|].
        split; [done|]. constructor; [|done]. intros Hc. symmetry in Hc. by apply Hx in Hc.
      * intros (b & a & Hb & Hs & Hr & Hf). destruct b as [|y b].
        -- injection Hb as <- <-. symmetry in Hs. by apply Hx in Hs.
        -- injection Hb as <- ->. inversion Hf; subst. by exists b, a.
Qed.

Lemma door_match_exact_witness : Match [dx_slug] $"/go/a" = Some (dx_slug, $"/a").
Proof.
  apply (door_match_exact [dx_slug] $"/go/a" dx_slug $"/a"); [decide_now|vm_compute; lia|].
  exists [], []. repeat split; by vm_compute.
Defined.

(** The length comparison of slug matching is taken modulo 256: a first
    segment that extends a slug by exactly 256 bytes, whatever they are,
    matches the slug. *)
Theorem door_match_wraps s junk :
  nul_free (Slug s) → slash ∉ Slug s → Slug s ≠ [] → slash ∉ junk → length junk = 256 →
  Match [s] (slash :: Slug s ++ junk) = Some (s, []) ∧ Slug s ++ junk ≠ Slug s.
Proof.
  intros Hn Hs Hne Hj Hl. split.
  - rewrite Match_find.
    assert (splitFirstSegment (slash :: Slug s ++ junk) = (Slug s ++ junk, [])) as ->.
    { unfold splitFirstSegment. rewrite decide_False.
      2:{ intros [?|[= Hc]]; [done|]. destruct (Slug s); done. }
      rewrite decide_True by done.
      assert (Hni : slash ∉ Slug s ++ junk) by set_solver.
      assert (IndexByte (Slug s ++ junk) slash = None) as ->; [|done].
      induction (Slug s ++ junk) as [|c l IH]; [done|]. apply not_elem_of_cons in Hni as [Hc Hni].
      simpl. rewrite decide_False by congruence. by rewrite IH. }
    simpl. rewrite (proj2 (slugMatches_spec (Slug s ++ junk) s Hn)); [done|].
    split; [by exists junk|]. rewrite length_app, Hl, Nat2Z.inj_add.
    change (Z.of_nat 256) with (1 * 256)%Z. by rewrite Z.mod_add.
  - intros Hc. apply (f_equal length) in Hc. rewrite length_app in Hc. lia.
Qed.

Lemma door_match_wraps_witness :
  Match [dx_slug] (slash :: $"go" ++ replicate 256 "x"%char) = Some (dx_slug, []).
Proof.
  apply (door_match_wraps dx_slug (replicate 256 "x"%char));
    [decide_now|decide_now|done|decide_now|by rewrite length_replicate].
Defined.

Lemma splitFirstSegment_path a rest :
  AdminGate.segment a → AdminGate.tail_ok rest → splitFirstSegment (slash :: a ++ rest) = (a, rest).
Proof.
  intros [Hne Ha] Ht. unfold splitFirstSegment.
  rewrite decide_False by (intros [?|[= Hc]]; [done|]; by destruct a).
  rewrite decide_True by done. destruct Ht as [-> |[t ->]].
  - rewrite app_nil_r. by rewrite IndexByte_None.
  - rewrite IndexByte_app by done. by rewrite take_app_length, drop_app_length.
Qed.

(** A GET of a configured slug is answered by the redirect path with it. *)
Lemma Match_slug slugs c rest :
  slugs_ok slugs → NoDup (Slug <$> slugs) → c ∈ slugs → AdminGate.segment (Slug c) → AdminGate.tail_ok rest →
  Match slugs (slash :: Slug c ++ rest) = Some (c, rest).
Proof.
  intros Hok Hnd Hc Hseg Ht. pose proof (splitFirstSegment_path (Slug c) rest Hseg Ht) as Hsp.
  apply list_elem_of_split in Hc as (before & after & ->).
  apply door_match_exact; rewrite ?Hsp; cbn [fst snd]; [done| |].
  - unfold slugs_ok in Hok. apply Forall_app in Hok as [_ [[_ Hl] _]%Forall_cons]. done.
  - exists before, after. split_and!; [done..|]. rewrite fmap_app, fmap_cons in Hnd.
    apply NoDup_app in Hnd as (_ & Hd & _). apply Forall_forall. intros s' Hs' Heq.
    apply (Hd (Slug s')); [by apply list_elem_of_fmap_2|]. rewrite Heq. left.
Qed.


Definition dx_sel : Selector := mkSelector [sx_mirror $"m1" 3 []; sx_mirror $"m2" 1 [$"ru"]; sx_mirror $"m3" 2 []] 5.


(** Non-matching requests reveal nothing about the configuration beyond
    the cover: every HEAD is an empty 200 and every other non-GET an empty
    405 on every path outside the gate, and a GET that matches no slug is
    answered by the cover alone, independently of slugs and mirrors. *)
Theorem door_cover_uniform s src r sel :
  MatchesPrefix (srvGate s) (Path r) = false →
  Method r ≠ MethodGet ∨ Match (srvSlugs s) (Path r) = None →
  door_ServeHTTP s src r sel =
  (sel, DoorResp (if decide (Method r = MethodHead) then writeEmpty ∅ StatusOK
                  else if decide (Method r = MethodGet) then cover_ServeHTTP (srvCover s) r
                  else writeEmpty ∅ StatusMethodNotAllowed)).
Proof.
  intros Hg Hm. unfold door_ServeHTTP. rewrite Hg.
  destruct (decide (Method r = MethodHead)); [done|].
  destruct (decide (Method r = MethodGet)) as [E|E].
  - rewrite decide_False by (by intros []). destruct Hm as [?|Hn]; [done|]. by rewrite Hn.
  - by rewrite decide_True.
Qed.

Lemma door_cover_uniform_witness :
  door_ServeHTTP dx_server (CryptoRand None) (dx_get $"/nothing" []) sx_sel =
  (sx_sel, DoorResp (writeEmpty ∅ StatusNotFound)).
Proof.
  apply (door_cover_uniform dx_server); [by vm_compute|right; by vm_compute].
Defined.
