(* ===== verification/HubStream.v ===== *)
(** What an edge sees of the hub: the node store (src/internal/hub/nodes.go),
    the per-node filter and the event adapters of the stream handler
    (src/internal/hub/stream.go), and the clients that apply the stream at
    the proxy (src/internal/proxy/snapshot.go) and at the door
    (src/internal/door/snapshot.go). *)

From S2P Require Import Prelude Shared Queue Mirrors HubRegistry Selector FeatureRegistry.

(** * Nodes *)

Record NodeRecord := mkNodeRecord {
  nrID : gostring;
  nrType : gostring;
  nrPublicKey : gostring;
  nrCertSerial : gostring;
  nrAssignedTenants : list gostring;
  nrRegisteredAt : time;
  nrLastSeen : time
}.

Abbreviation NodeStore := (gmap gostring NodeRecord).

Record RegisterRequest := mkRegisterRequest {
  rqNodeID : gostring;
  rqNodeType : gostring;
  rqCSRPEM : gostring;
  rqPublicKey : gostring
}.

Inductive node_error := ErrNodeID | ErrNodeType | ErrCSR | ErrNoCA | ErrSign | ErrUnknownNode.

(** [sign] is the CA: the certificate and its serial, None when SignCSR fails;
    no CA at all is None. *)
Definition Register (sign : option (RegisterRequest → option (gostring * gostring)))
    (t1 t2 : time) (req : RegisterRequest) (ns : NodeStore)
    : NodeStore * result node_error (gostring * gostring) :=
  if decide (rqNodeID req = []) then (ns, Err ErrNodeID)
  else if decide (rqNodeType req = []) then (ns, Err ErrNodeType)
  else if decide (rqCSRPEM req = []) then (ns, Err ErrCSR)
  else match sign with
  | None => (ns, Err ErrNoCA)
  | Some f =>
      match f req with
      | None => (ns, Err ErrSign)
      | Some (der, serial) =>
          (<[rqNodeID req := mkNodeRecord (rqNodeID req) (rqNodeType req) (rqPublicKey req)
                               serial [] t1 t2]> ns, Ok (der, serial))
      end
  end.

(** Any matching record may be found; the model takes the first in map order. *)
Definition GetBySerial (serial : gostring) (ns : NodeStore) : option NodeRecord :=
  List.find (λ r, bool_decide (nrCertSerial r = serial)) (map_to_list ns).*2.

Definition NodeList (ns : NodeStore) : list NodeRecord := sort_by nrID (map_to_list ns).*2.

(** The store and the serial that has to be revoked. *)
Definition DeleteNode (id : gostring) (ns : NodeStore) : NodeStore * option gostring :=
  match ns !! id with
  | None => (ns, None)
  | Some rec =>
      (delete id ns, if decide (nrCertSerial rec = []) then None else Some (nrCertSerial rec))
  end.

Definition set_assigned (hosts : list gostring) (r : NodeRecord) : NodeRecord :=
  mkNodeRecord (nrID r) (nrType r) (nrPublicKey r) (nrCertSerial r) hosts (nrRegisteredAt r) (nrLastSeen r).

Definition SetAssignedTenants (id : gostring) (hosts : list gostring) (ns : NodeStore)
    : result node_error NodeStore :=
  match ns !! id with
  | None => Err ErrUnknownNode
  | Some rec => Ok (<[id := set_assigned hosts rec]> ns)
  end.

Definition Touch (now : time) (id : gostring) (ns : NodeStore) : NodeStore :=
  match ns !! id with
  | None => ns
  | Some r => <[id := mkNodeRecord (nrID r) (nrType r) (nrPublicKey r) (nrCertSerial r)
                        (nrAssignedTenants r) (nrRegisteredAt r) now]> ns
  end.

Definition TenantAllowed (ns : NodeStore) (id host : gostring) : bool :=
  match ns !! id with
  | None => false
  | Some rec =>
      match nrAssignedTenants rec with
      | [] => true
      | l => existsb (λ h, bool_decide (h = $"*" ∨ h = host)) l
      end
  end.

Definition AsNodeInfos (ns : NodeStore) : list NodeInfo :=
  (λ r, mkNodeInfo (nrID r) (nrType r) (nrPublicKey r) (nrAssignedTenants r) (nrCertSerial r)
                   (nrRegisteredAt r) (nrLastSeen r)) <$> NodeList ns.

(** * The stream handler's filter *)

(** [nodes] is None when the handler has no node store. *)
Definition allow (nodes : option NodeStore) (nodeID : gostring) (ev : ConfigStreamEvent) : bool :=
  if decide (nodeID = []) then true
  else match nodes with
  | None => true
  | Some ns =>
      match evType ev with
      | EventTenantUpsert =>
          match evData ev with PTenant ti => TenantAllowed ns nodeID (tiHost ti) | _ => false end
      | EventTenantDelete =>
          match evData ev with PTenantDelete h => TenantAllowed ns nodeID h | _ => false end
      | _ => true
      end
  end.

Definition filterSnapshot (nodes : option NodeStore) (nodeID : gostring) (ev : ConfigStreamEvent)
    : ConfigStreamEvent :=
  if decide (nodeID = []) then ev
  else match nodes with
  | None => ev
  | Some ns =>
      match evData ev with
      | PSnapshot ts g v =>
          mkEvent (evType ev)
            (PSnapshot (List.filter (λ ti, TenantAllowed ns nodeID (tiHost ti)) ts) g v)
            (evTimestamp ev)
      | _ => ev
      end
  end.

(** One iteration of the handler's loop: what is written for an event. *)
Definition deliver (nodes : option NodeStore) (nodeID : gostring) (ev : ConfigStreamEvent)
    : option ConfigStreamEvent :=
  if negb (allow nodes nodeID ev) then None
  else match evType ev with
       | EventSnapshot => Some (filterSnapshot nodes nodeID ev)
       | _ => Some ev
       end.

(** * Subscribers of the stream *)

Definition streamBuffer : nat := 64.

(** OnEvent of streamSubscriber: send, or drop one and send once more. *)
Definition OnEvent {A} (cap : nat) (ev : A) (ch : list A) : list A :=
  if decide (length ch < cap) then ch ++ [ev]
  else
    let ch' := tail ch in
    if decide (length ch' < cap) then ch' ++ [ev] else ch'.

Section adapter.
Context `{GoUnicode}.

Definition mirrorInfoFromHealth (m : MirrorHealth) (v : Z) : MirrorInfo :=
  mkMirrorInfo (mhHost m) (Verdict m) (ManualBlock m) (mhWeight m) (TargetTenants m)
    (List.filter (λ kv, statusIsFailure (rsStatus (kv.2))) (map_to_list (Regions m))).*1 v.

(** mirrorStreamAdapter.OnMirrorEvent: the stream event, None when encoding
    fails. *)
Definition OnMirrorEvent `{HubJson} (now : time) (ev : MirrorEvent) : option ConfigStreamEvent :=
  match meType ev with
  | MirrorEventSnapshot =>
      NewMirrorSnapshotEvent ((λ m, mirrorInfoFromHealth m (meVersion ev)) <$> meMirrors ev) (meVersion ev) now
  | MirrorEventUpsert =>
      match meMirror ev with
      | Some m => NewMirrorUpsertEvent (mirrorInfoFromHealth m (meVersion ev)) now
      | None => NewMirrorUpsertEvent (mirrorInfoFromHealth (zero_mirror []) (meVersion ev)) now
      end
  | MirrorEventDelete => NewMirrorDeleteEvent (meHost ev) now
  end.

(** * The door's client *)

Definition door_apply (ev : ConfigStreamEvent) (s : Selector) : Selector :=
  match evType ev, evData ev with
  | EventMirrorSnapshot, PMirrors ms _ => UpdateMirrors ms s
  | EventMirrorUpsert, PMirror m => UpsertMirror m s
  | EventMirrorDelete, PMirrorDelete h => RemoveMirror h s
  | _, _ => s
  end.

(** * The proxy's client *)

Definition translateGlobals (g : GlobalsConf) : GlobalsSnapshot :=
  (λ fc, mkFeatureSnapshot (fcEnabled fc) (fcParams fc) 0) <$> gcFeatures g.

Definition translateGlobalsRaw (g : option GlobalsConf) : GlobalsSnapshot :=
  match g with None => ∅ | Some g => translateGlobals g end.

Definition tenantInfoToSnapshot (ti : TenantInfo) : TenantSnapshot :=
  mkTenantSnapshot (ToLower (tiHost ti)) (tiEnabled ti) (tiFeatureSnapshots ti).

Definition translateTenantsConf (ts : gmap gostring TenantConf) : gmap gostring TenantSnapshot :=
  list_to_map ((λ ht : gostring * TenantConf,
    (ToLower (ht.1),
     mkTenantSnapshot (ToLower (tcHost (ht.2))) (tcEnabled (ht.2))
       ((λ fc, mkFeatureSnapshot (fcEnabled fc) (fcParams fc) 0) <$> tcFeatures (ht.2))))
    <$> map_to_list ts).

(** The next globals and tenants, or a parse error. *)
Definition translateEvent (ev : ConfigStreamEvent) (g : GlobalsSnapshot)
    (ts : gmap gostring TenantSnapshot)
    : option (GlobalsSnapshot * gmap gostring TenantSnapshot) :=
  match evType ev with
  | EventSnapshot =>
      match evData ev with
      | PSnapshot infos pg _ =>
          Some (translateGlobalsRaw pg,
                foldl (λ m ti, <[ToLower (tiHost ti) := tenantInfoToSnapshot ti]> m) ∅ infos)
      | _ => None
      end
  | EventGlobalsUpdate =>
      match evData ev with
      | PGlobals pg => Some (translateGlobalsRaw pg, ts)
      | _ => Some (∅, ts)
      end
  | EventTenantUpsert =>
      match evData ev with
      | PTenant ti => Some (g, <[ToLower (tiHost ti) := tenantInfoToSnapshot ti]> ts)
      | _ => None
      end
  | EventTenantDelete =>
      match evData ev with
      | PTenantDelete h => Some (g, delete (ToLower h) ts)
      | _ => None
      end
  | _ => Some (g, ts)
  end.

(** applyEvent in remote mode: the registry is unchanged on a parse error and
    on a rejected reload. *)
Definition applyEvent {A} (ev : ConfigStreamEvent) (reg : FeatureRegistry.Registry A)
    : FeatureRegistry.Registry A :=
  match translateEvent ev (Globals reg) (Tenants reg) with
  | None => reg
  | Some (g, ts) => fst (Reload g ts reg)
  end.
End adapter.

(** * Properties *)

(** The tenants an event names; a mirror record names the tenants it serves. *)
Definition event_hosts (ev : ConfigStreamEvent) : list gostring :=
  match evType ev, evData ev with
  | EventSnapshot, PSnapshot ts _ _ => tiHost <$> ts
  | EventTenantUpsert, PTenant ti => [tiHost ti]
  | EventTenantDelete, PTenantDelete h => [h]
  | EventMirrorSnapshot, PMirrors ms _ => ms ≫= miTargetTenants
  | EventMirrorUpsert, PMirror m => miTargetTenants m
  | _, _ => []
  end.

(** Mirror health goes to every authenticated peer. *)
Definition mirror_event (ty : event_type) : bool :=
  match ty with EventMirrorSnapshot | EventMirrorUpsert | EventMirrorDelete => true | _ => false end.

Lemma TenantAllowed_spec ns id host :
  TenantAllowed ns id host = true ↔
  ∃ rec, ns !! id = Some rec ∧
    (nrAssignedTenants rec = [] ∨ $"*" ∈ nrAssignedTenants rec ∨ host ∈ nrAssignedTenants rec).
Proof.
  unfold TenantAllowed. destruct (ns !! id) as [rec|]; [|naive_solver].
  destruct (nrAssignedTenants rec) as [|a l] eqn:E; [naive_solver|].
  rewrite existsb_exists. setoid_rewrite bool_decide_eq_true. setoid_rewrite <- list_elem_of_In.
  split.
  - intros (h & Hin & [-> | ->]); exists rec; rewrite E; auto.
  - intros (rec' & [= <-] & [Hn|[Hs|Hh]]); rewrite E in *; [done| |]; eauto.
Qed.

Lemma deliver_mirror nodes nodeID ev : mirror_event (evType ev) = true → deliver nodes nodeID ev = Some ev.
Proof.
  unfold deliver, allow. intros Hm. destruct (evType ev); try done; case_decide; try done; by destruct nodes.
Qed.

(** What is withheld concerns only tenants the node may not see. *)
Lemma deliver_withheld ns nodeID ev h :
  deliver (Some ns) nodeID ev = None → h ∈ event_hosts ev → TenantAllowed ns nodeID h = false.
Proof.
  unfold deliver, allow, event_hosts. case_decide; [by destruct (evType ev)|].
  destruct ev as [ty p ts]; cbn [evType evData]. destruct ty, p; cbn [negb]; try done; try (by intros _ ?%elem_of_nil).
  all: destruct (TenantAllowed ns nodeID _) eqn:Ha; cbn [negb]; try done; by intros _ ->%list_elem_of_singleton.
Qed.


Definition nx_nodes : NodeStore :=
  {[ $"edge-1" := mkNodeRecord $"edge-1" $"proxy" [] $"7" [$"a.example"] 0 0 ]}.

Definition nx_event : ConfigStreamEvent :=
  mkEvent EventSnapshot
    (PSnapshot [mkTenantInfo $"a.example" true [] ∅ 1; mkTenantInfo $"b.example" true [] ∅ 1] None 1) 0.

