(* ===== verification/Replication.v ===== *)
(** From the hub to the door: the mirror table of a door that applies the
    event stream is the hub's mirror registry.

    The hub side is the registry of Mirrors.v with its event queues, the wire
    translation and the door's client are those of HubStream.v, the table is
    the selector of Selector.v. *)

From S2P Require Import Prelude Shared Queue HubRegistry Selector HubStream Mirrors.

(** * Mutations are events *)

Section event_sourcing.
Context {D : Type} `{EqDecision D} `{YamlCodec D} `{GoUnicode}.
Implicit Types r : MirrorRegistry D.

(** The effect of an event on the map of mirrors. *)
Definition ev_apply (ev : MirrorEvent) (M : gmap gostring MirrorHealth) : gmap gostring MirrorHealth :=
  match meType ev with
  | MirrorEventSnapshot => list_to_map ((λ m, (mhHost m, m)) <$> meMirrors ev)
  | MirrorEventUpsert => match meMirror ev with Some m => <[mhHost m := m]> M | None => M end
  | MirrorEventDelete => delete (meHost ev) M
  end.

(** An event as mutations produce them. *)
Definition delta (ev : MirrorEvent) : Prop :=
  (∃ m, meType ev = MirrorEventUpsert ∧ meMirror ev = Some m ∧ mhHost m ≠ []) ∨
  meType ev = MirrorEventDelete.

(** The operations of a history that do not touch the subscription table. *)
Definition mutating (o : mop) : Prop :=
  match o with MSubscribe | MUnsubscribe _ | MDrain _ => False | _ => True end.

Lemma Upsert_event e m r :
  (mirrors (fst (Upsert e m r)) = mirrors r ∧ subs (fst (Upsert e m r)) = subs r) ∨
  ∃ ev, delta ev ∧ mirrors (fst (Upsert e m r)) = ev_apply ev (mirrors r) ∧
        subs (fst (Upsert e m r)) = mirror_enqueue ev <$> subs r.
Proof.
  rewrite Upsert_spec. destruct (negb (ctx_ok e)); [by left|].
  destruct (decide (mhHost m = [])); [by left|]. destruct (yaml_marshal _); [|by left].
  destruct (disk_ok e); [|by left]. right. eexists. split; [|split; [|done]].
  - left. by exists (normalize m).
  - done.
Qed.

(** Every mutation either changes nothing or is one event, broadcast to all. *)
Lemma apply_mop_event r e o :
  mutating o →
  (mirrors (apply_mop r (e, o)) = mirrors r ∧ subs (apply_mop r (e, o)) = subs r) ∨
  ∃ ev, delta ev ∧ mirrors (apply_mop r (e, o)) = ev_apply ev (mirrors r) ∧
        subs (apply_mop r (e, o)) = mirror_enqueue ev <$> subs r.
Proof.
  intros Hm. destruct o as [m|h|h note|h|h rr thr| | |]; cbn [apply_mop]; try done.
  - apply Upsert_event.
  - rewrite Delete_spec. destruct (negb (ctx_ok e)); [by left|].
    destruct (decide (h = [])); [by left|]. destruct (disk_ok e); [|by left].
    destruct (mirrors r !! h); [|by left]. right. eexists. split; [|split; [|done]]; [by right|done].
  - destruct (ctx_ok e) eqn:Hc; [|left; unfold ForceBlock, task_fuel; cbn; unfold guarded; by rewrite Hc].
    destruct (decide (h = [])) as [->|Hh]; [left; unfold ForceBlock, task_fuel; cbn; unfold guarded; by rewrite Hc|].
    rewrite ForceBlock_spec by done. apply Upsert_event.
  - destruct (ctx_ok e) eqn:Hc; [|left; unfold Unblock, task_fuel; cbn; unfold guarded; by rewrite Hc].
    destruct (decide (h = [])) as [->|Hh]; [left; unfold Unblock, task_fuel; cbn; unfold guarded; by rewrite Hc|].
    rewrite Unblock_spec by done. destruct (mirrors r !! h); [apply Upsert_event|by left].
  - destruct (ctx_ok e) eqn:Hc; [|left; unfold UpdateHealth, task_fuel; cbn; unfold guarded; by rewrite Hc].
    destruct (decide (h = [])) as [->|Hh]; [left; unfold UpdateHealth, task_fuel; cbn; unfold guarded; by rewrite Hc|].
    rewrite UpdateHealth_spec by done. apply Upsert_event.
Qed.
End event_sourcing.

(** * The door's table *)

Section door_side.
Context `{GoUnicode} `{HubJson}.

(** One event through the adapter into the selector. *)
Definition door_step (s : Selector) (ev : MirrorEvent) : Selector :=
  match OnMirrorEvent (meTimestamp ev) ev with
  | Some e => door_apply e s
  | None => s
  end.

Definition door_view (evs : list MirrorEvent) : Selector := foldl door_step NewSelector evs.

(** The table agrees with the hub's map, up to the version stamps. *)
Definition same_mirror (x : MirrorInfo) (m : MirrorHealth) : Prop :=
  mirrorInfoFromHealth m (miVersion x) = x.

Record agrees (s : Selector) (M : gmap gostring MirrorHealth) : Prop := mkAgrees {
  ag_nodup : NoDup (miHost <$> sel_mirrors s);
  ag_sound : ∀ x, x ∈ sel_mirrors s → ∃ m, M !! miHost x = Some m ∧ same_mirror x m;
  ag_complete : ∀ h m, M !! h = Some m → ∃ x, x ∈ sel_mirrors s ∧ miHost x = h
}.

Lemma upsert_list_elem m l x :
  NoDup (miHost <$> l) →
  x ∈ upsert_list m l ↔ x = m ∨ (x ∈ l ∧ miHost x ≠ miHost m).
Proof.
  induction l as [|y l IH]; intros Hnd; cbn [upsert_list].
  - rewrite list_elem_of_singleton. set_solver.
  - rewrite fmap_cons in Hnd. apply NoDup_cons in Hnd as [Hni Hnd].
    assert (Hl : ∀ z, z ∈ l → miHost z ≠ miHost y).
    { intros z Hz Hc. apply Hni. rewrite <- Hc. by apply list_elem_of_fmap_2. }
    destruct (decide (miHost y = miHost m)) as [E|E].
    + rewrite !elem_of_cons. split.
      * intros [->|Hx]; [by left|]. right. split; [by right|]. rewrite <- E. by apply Hl.
      * intros [->|[[->|Hx] Hn]]; [by left|done|by right].
    + rewrite !elem_of_cons, IH by done. split.
      * intros [->|[->|[Hx Hn]]]; auto.
      * intros [->|[[->|Hx] Hn]]; auto.
Qed.

Lemma upsert_list_nodup m l :
  NoDup (miHost <$> l) → NoDup (miHost <$> upsert_list m l).
Proof.
  induction l as [|y l IH]; intros Hnd; cbn [upsert_list]; [apply NoDup_singleton|].
  rewrite fmap_cons in Hnd. apply NoDup_cons in Hnd as [Hni Hnd].
  destruct (decide (miHost y = miHost m)) as [E|E]; rewrite fmap_cons; apply NoDup_cons.
  - by rewrite <- E.
  - split; [|by apply IH]. intros (z & Hz & Hin)%list_elem_of_fmap.
    apply upsert_list_elem in Hin as [->|[Hin _]]; [done| |done].
    apply Hni. rewrite Hz. by apply list_elem_of_fmap_2.
Qed.

Lemma remove_list_elem h l x :
  NoDup (miHost <$> l) → x ∈ remove_list h l ↔ x ∈ l ∧ miHost x ≠ h.
Proof.
  induction l as [|y l IH]; intros Hnd; cbn [remove_list]; [set_solver|].
  rewrite fmap_cons in Hnd. apply NoDup_cons in Hnd as [Hni Hnd].
  assert (Hl : ∀ z, z ∈ l → miHost z ≠ miHost y).
  { intros z Hz Hc. apply Hni. rewrite <- Hc. by apply list_elem_of_fmap_2. }
  destruct (decide (miHost y = h)) as [E|E].
  - rewrite elem_of_cons. split.
    + intros Hx. split; [by right|]. rewrite <- E. by apply Hl.
    + intros [[->|?] ?]; done.
  - rewrite !elem_of_cons, IH by done. split.
    + intros [->|[? ?]]; auto.
    + intros [[->|?] ?]; auto.
Qed.

Lemma remove_list_nodup h l : NoDup (miHost <$> l) → NoDup (miHost <$> remove_list h l).
Proof.
  induction l as [|y l IH]; intros Hnd; cbn [remove_list]; [done|].
  rewrite fmap_cons in Hnd. apply NoDup_cons in Hnd as [Hni Hnd].
  destruct (decide (miHost y = h)); [done|]. rewrite fmap_cons. apply NoDup_cons.
  split; [|by apply IH]. intros (z & Hz & Hin)%list_elem_of_fmap.
  apply remove_list_elem in Hin as [Hin _]; [|done]. apply Hni. rewrite Hz.
  by apply list_elem_of_fmap_2.
Qed.

Lemma agrees_upsert s M m v :
  agrees s M → agrees (UpsertMirror (mirrorInfoFromHealth m v) s) (<[mhHost m := m]> M).
Proof.
  intros [Hnd Hs Hc]. split; cbn [UpsertMirror sel_mirrors].
  - by apply upsert_list_nodup.
  - intros x [->|[Hx Hne]]%upsert_list_elem; [| |done].
    + exists m. split; [apply lookup_insert_eq|done].
    + destruct (Hs x Hx) as (m' & Hm' & Heq). exists m'. split; [|done].
      rewrite lookup_insert_ne; [done|]. intros Hq. by apply Hne.
  - intros h m'. destruct (decide (mhHost m = h)) as [<-|Hne].
    + intros _. exists (mirrorInfoFromHealth m v). split; [|done].
      apply upsert_list_elem; [done|by left].
    + rewrite lookup_insert_ne by done. intros (x & Hx & <-)%Hc. exists x. split; [|done].
      apply upsert_list_elem; [done|]. right. split; [done|]. intros Hq. by apply Hne.
Qed.

Lemma agrees_remove s M h : agrees s M → agrees (RemoveMirror h s) (delete h M).
Proof.
  intros [Hnd Hs Hc]. split; cbn [RemoveMirror sel_mirrors].
  - by apply remove_list_nodup.
  - intros x [Hx Hne]%remove_list_elem; [|done]. destruct (Hs x Hx) as (m & Hm & Heq).
    exists m. split; [|done]. by rewrite lookup_delete_ne.
  - intros h' m. destruct (decide (h = h')) as [<-|Hne]; [by rewrite lookup_delete_eq|].
    rewrite lookup_delete_ne by done. intros (x & Hx & <-)%Hc. exists x. split; [|done].
    apply remove_list_elem; [done|]. by split.
Qed.

(** The snapshot of a well-formed registry. *)
Lemma agrees_snapshot {D} (r : MirrorRegistry D) s v :
  reg_wf r →
  agrees (UpdateMirrors ((λ m, mirrorInfoFromHealth m v) <$> List_ r) s) (mirrors r).
Proof.
  intros Hwf.
  assert (Hel : ∀ m, m ∈ List_ r ↔ mirrors r !! mhHost m = Some m).
  { intros m. unfold List_. rewrite sort_by_Permutation, list_elem_of_fmap. split.
    - intros ([h m'] & -> & Hin%elem_of_map_to_list). simpl. pose proof (Hwf _ _ Hin) as [Hh _].
      by rewrite Hh.
    - intros Hm. exists (mhHost m, m). split; [done|]. by apply elem_of_map_to_list. }
  split; cbn [UpdateMirrors sel_mirrors].
  - rewrite <- list_fmap_compose.
    assert (Hp : (miHost ∘ (λ m, mirrorInfoFromHealth m v)) <$> List_ r ≡ₚ (map_to_list (mirrors r)).*1).
    { unfold List_. rewrite sort_by_Permutation, <- list_fmap_compose.
      rewrite (list_fmap_ext _ fst); [done|].
      intros i [h m] Hin%list_elem_of_lookup_2%elem_of_map_to_list. simpl.
      by apply Hwf in Hin as [? _]. }
    rewrite Hp. apply NoDup_fst_map_to_list.
  - intros x (m & -> & Hm)%list_elem_of_fmap. exists m. split; [by apply Hel|done].
  - intros h m Hm. pose proof (Hwf _ _ Hm) as [Hh _]. exists (mirrorInfoFromHealth m v).
    split; [|done]. apply list_elem_of_fmap. exists m. split; [done|]. apply Hel. by rewrite Hh.
Qed.

Lemma agrees_delta s M ev :
  (∀ p, payload_encodes p = true) → delta ev → agrees s M →
  agrees (door_step s ev) (ev_apply ev M).
Proof.
  intros Henc Hd Ha. unfold door_step, OnMirrorEvent, NewMirrorUpsertEvent, NewMirrorDeleteEvent, marshalled, ev_apply.
  destruct Hd as [(m & -> & -> & _)| ->]; rewrite Henc; [by apply agrees_upsert|by apply agrees_remove].
Qed.
End door_side.

(** * Reloads are events *)

Section reloads.
Context {D : Type} `{EqDecision D} `{YamlCodec D} `{GoUnicode}.

Definition ev_run (evs : list MirrorEvent) (M : gmap gostring MirrorHealth) : gmap gostring MirrorHealth :=
  foldl (λ M ev, ev_apply ev M) M evs.

(** The upserts of the records that are not skipped. *)
Lemma ev_run_upserts (mk : gostring * MirrorHealth → option MirrorEvent) (skip : gostring * MirrorHealth → bool) l M h :
  NoDup l.*1 → (∀ hm, hm ∈ l → mhHost hm.2 = hm.1) →
  (∀ hm, if skip hm then mk hm = None else ∃ ev, mk hm = Some ev ∧ meType ev = MirrorEventUpsert ∧ meMirror ev = Some hm.2) →
  ev_run (omap mk l) M !! h =
  match list_to_map (M := gmap gostring MirrorHealth) l !! h with
  | Some m => if skip (h, m) then M !! h else Some m
  | None => M !! h
  end.
Proof.
  intros Hnd Hkey Hmk. revert M h. induction l as [|[k m] l IH]; intros M h; [done|].
  rewrite fmap_cons in Hnd. apply NoDup_cons in Hnd as [Hni Hnd]. cbn [fst] in Hni.
  assert (IH' := IH Hnd (λ hm Hin, Hkey hm (proj2 (elem_of_cons l hm (k, m)) (or_intror Hin)))). clear IH.
  assert (Hl : ∀ M', ev_run (omap mk l) M' !! k = M' !! k).
  { intros M'. rewrite IH'. by rewrite (not_elem_of_list_to_map_1 l k Hni). }
  pose proof (Hmk (k, m)) as Hm. pose proof (Hkey (k, m) ltac:(left)) as Hk. cbn [fst snd] in Hk.
  change (list_to_map ((k, m) :: l)) with (<[k := m]> (list_to_map l : gmap gostring MirrorHealth)).
  destruct (skip (k, m)) eqn:Hs; [|destruct Hm as (ev & Hm & Ht & Hmm)]; cbn [omap list_omap]; rewrite Hm.
  - destruct (decide (k = h)) as [<-|Hne]; [rewrite lookup_insert_eq, Hs; apply Hl|rewrite lookup_insert_ne by done; apply IH'].
  - unfold ev_run in *. cbn [foldl]. unfold ev_apply at 2. rewrite Ht, Hmm. cbn [snd]. rewrite Hk.
    destruct (decide (k = h)) as [<-|Hne].
    + rewrite lookup_insert_eq, Hs, Hl. apply lookup_insert_eq.
    + rewrite lookup_insert_ne, IH' by done. by rewrite lookup_insert_ne.
Qed.

(** The deletes of the hosts that are gone. *)
Lemma ev_run_deletes (mk : gostring * MirrorHealth → option MirrorEvent) (stays : gostring → bool) l M h :
  (∀ hm, if stays hm.1 then mk hm = None else ∃ ev, mk hm = Some ev ∧ meType ev = MirrorEventDelete ∧ meHost ev = hm.1) →
  ev_run (omap mk l) M !! h = if decide (h ∈ l.*1 ∧ stays h = false) then None else M !! h.
Proof.
  intros Hmk. revert M. induction l as [|[k m] l IH]; intros M.
  { cbn. rewrite decide_False; [done|]. by intros [?%not_elem_of_nil _]. }
  pose proof (Hmk (k, m)) as Hm. cbn [fst] in Hm. cbn [omap list_omap]. rewrite fmap_cons. cbn [fst].
  destruct (stays k) eqn:Hs; [rewrite Hm|destruct Hm as (ev & -> & Ht & Hh); unfold ev_run in *; cbn [foldl];
    unfold ev_apply at 2; rewrite Ht, Hh]; rewrite IH.
  - apply decide_ext. rewrite elem_of_cons. split; [intros [? ?]; auto|intros [[-> |?] ?]; [congruence|auto]].
  - destruct (decide (h ∈ l.*1 ∧ stays h = false)) as [Hd|Hd].
    + rewrite decide_True; [done|]. rewrite elem_of_cons. destruct Hd; auto.
    + destruct (decide (k = h)) as [<-|Hne].
      * rewrite decide_True by (rewrite elem_of_cons; auto). apply lookup_delete_eq.
      * rewrite decide_False; [by apply lookup_delete_ne|]. rewrite elem_of_cons. intros [[?|?] ?]; [congruence|]. by apply Hd.
Qed.

(** Equal YAML is equal records. *)
Definition yaml_faithful : Prop :=
  ∀ a b d, yaml_marshal a = Some d → yaml_marshal b = Some d → a = b.

Lemma sorted_map (m : gmap gostring MirrorHealth) :
  NoDup (sort_by fst (map_to_list m)).*1 ∧ list_to_map (sort_by fst (map_to_list m)) = m ∧
  ∀ hm, hm ∈ sort_by fst (map_to_list m) ↔ m !! hm.1 = Some hm.2.
Proof.
  assert (Hp : sort_by fst (map_to_list m) ≡ₚ map_to_list m) by apply sort_by_Permutation.
  assert (Hnd : NoDup (sort_by fst (map_to_list m)).*1) by (rewrite Hp; apply NoDup_fst_map_to_list).
  split_and!; [done| |].
  - rewrite (list_to_map_proper _ (map_to_list m)) by done. apply list_to_map_to_list.
  - intros [h x]. rewrite Hp. apply elem_of_map_to_list.
Qed.

(** The events of a reload lead from the old map to the new one. *)
Lemma diff_events_apply (now : time) (v : Z) (prev cur : gmap gostring MirrorHealth) :
  yaml_faithful → (∀ h m, cur !! h = Some m → mhHost m = h) → ev_run (diff_events (D := D) now v prev cur) prev = cur.
Proof.
  intros Hy Hkey. apply map_eq. intros h. unfold diff_events, ev_run. rewrite foldl_app. fold ev_run.
  destruct (sorted_map cur) as (Hnd & Hmap & Hel), (sorted_map prev) as (_ & Hmap' & Hel').
  set (skip := λ hm : gostring * MirrorHealth, match prev !! hm.1 with Some pv => mirrorEqual (D := D) pv hm.2 | None => false end).
  set (stays := λ k : gostring, bool_decide (is_Some (cur !! k))).
  match goal with |- foldl _ (foldl _ prev (omap ?mk _)) (omap ?mk' _) !! h = _ =>
    pose proof (ev_run_upserts mk skip (sort_by fst (map_to_list cur)) prev h Hnd) as Hup;
    pose proof (ev_run_deletes mk' stays (sort_by fst (map_to_list prev))
      (ev_run (omap mk (sort_by fst (map_to_list cur))) prev) h) as Hdel end.
  unfold ev_run in *. rewrite Hdel; clear Hdel.
  2: { intros [k x]. unfold stays. cbn [fst]. destruct (cur !! k); [by rewrite bool_decide_eq_true_2 by eauto|].
       rewrite bool_decide_eq_false_2 by (by intros []). by eexists. }
  rewrite Hup; clear Hup.
  2: { intros [k x] Hin%Hel. by apply Hkey. }
  2: { intros [k x]. unfold skip. cbn [fst snd]. destruct (prev !! k) as [pv|]; [destruct (mirrorEqual pv x)|]; [done|by eexists..]. }
  rewrite Hmap. unfold stays. destruct (cur !! h) as [m|] eqn:Hc.
  - rewrite decide_False by (intros [_ Hs]; by rewrite bool_decide_eq_true_2 in Hs by eauto).
    unfold skip. cbn [fst snd]. destruct (prev !! h) as [pv|]; [|done].
    destruct (mirrorEqual pv m) eqn:He; [|done]. unfold mirrorEqual in He.
    destruct (yaml_marshal pv) as [d|] eqn:H1; [|done]. destruct (yaml_marshal m) as [d'|] eqn:H2; [|done].
    apply bool_decide_eq_true in He as <-. f_equal. by eapply Hy.
  - destruct (decide _) as [|Hd]; [done|]. destruct (prev !! h) as [pv|] eqn:Hp; [|done]. destruct Hd. split.
    + apply list_elem_of_fmap. exists (h, pv). split; [done|]. by apply Hel'.
    + by rewrite bool_decide_eq_false_2 by (by intros []).
Qed.

Lemma loaded_keyed (f : gmap gostring D) h m : (loaded f).1 !! h = Some m → mhHost m = h ∧ h ≠ [].
Proof.
  unfold loaded. assert (Hgen : ∀ l acc, (∀ h m, acc.1 !! h = Some m → mhHost m = h ∧ h ≠ []) →
    ∀ h m, (foldl load_entry acc l).1 !! h = Some m → mhHost m = h ∧ h ≠ []).
  { induction l as [|[k d] l IH]; intros acc Hacc; [exact Hacc|]. cbn [foldl]. apply IH. unfold load_entry. cbn [fst snd].
    destruct (negb _); [done|]. destruct (yaml_unmarshal d) as [x|]; [|done]. destruct (decide (mhHost x = [])) as [|Hne]; [done|].
    cbn [fst]. intros h' m' [[<- <-]|[_ Hm]]%lookup_insert_Some; [done|by apply Hacc]. }
  apply Hgen. intros ??. cbn. by rewrite lookup_empty.
Qed.

Lemma diff_events_delta (now : time) (v : Z) (prev cur : gmap gostring MirrorHealth) :
  (∀ h m, cur !! h = Some m → mhHost m = h ∧ h ≠ []) → Forall delta (diff_events (D := D) now v prev cur).
Proof.
  intros Hkey. destruct (sorted_map cur) as (_ & _ & Hel). unfold diff_events. apply Forall_app. split; apply Forall_forall.
  - intros ev ([k x] & Hin%Hel & Hev)%list_elem_of_omap. cbn [fst snd] in *. destruct (Hkey k x Hin) as [Hk Hne].
    left. exists x. destruct (prev !! k) as [pv|]; [destruct (mirrorEqual pv x); [done|]|];
      apply (inj Some) in Hev as <-; (split_and!; [done|done|by rewrite Hk]).
  - intros ev ([k x] & _ & Hev)%list_elem_of_omap. right. cbn [fst snd] in Hev. destruct (cur !! k); [done|].
    by apply (inj Some) in Hev as <-.
Qed.
End reloads.

(** * Subscribed doors *)

Section subscribed.
Context {D : Type} `{EqDecision D} `{YamlCodec D} `{GoUnicode} `{HubJson}.
Implicit Types r : MirrorRegistry D.

(** The life of the registry: its calls, changes of the directory by others,
    and the watcher's reload of a directory that can be listed. *)
Inductive hub_op :=
| HCall (e : Env) (o : mop)
| HEdit (f : gmap gostring D)
| HWatch (now : time).

Definition hub_step r (o : hub_op) : MirrorRegistry D :=
  match o with
  | HCall e o => apply_mop r (e, o)
  | HEdit f => set_mirrors f (mirrors r) (version r) r
  | HWatch now => onExternalChange now r
  end.

Definition hub_run r (ops : list hub_op) : MirrorRegistry D := foldl hub_step r ops.

(** What the subscriber [id] has been sent, and the operations that leave its
    subscription in place. *)
Definition stream_of (id : Z) r : option (list MirrorEvent) := seen <$> subs r !! id.

Definition keeps (id : Z) (o : hub_op) : Prop :=
  match o with
  | HCall _ o => mutating o ∨ ∃ id', o = MDrain id' ∨ (o = MUnsubscribe id' ∧ id' ≠ id)
  | _ => True
  end.

(** The events an operation may broadcast, and whether a reload of the
    directory reads every file. *)
Definition op_events r (o : hub_op) : nat :=
  match o with
  | HCall _ _ => 1
  | HEdit _ => 0
  | HWatch now => length (diff_events (D := D) now (version r) (mirrors r) (loaded (files r)).1)
  end.

Definition op_loads r (o : hub_op) : Prop :=
  match o with HWatch _ => (loaded (files r)).2 = false | _ => True end.

(** The queue of [id] has room before every operation of the history for the
    events of the operation, and no reload fails. *)
Fixpoint roomy (id : Z) r (ops : list hub_op) : Prop :=
  match ops with
  | [] => True
  | o :: ops' =>
      (∃ q, subs r !! id = Some q ∧ length (sub_ch q) + op_events r o ≤ subBuffer) ∧ op_loads r o ∧
      roomy id (hub_step r o) ops'
  end.

(** The subscription is open and its stream reproduces the hub's map. *)
Definition following (id : Z) r : Prop :=
  ∃ q, subs r !! id = Some q ∧ sub_closed q = false ∧ agrees (door_view (seen q)) (mirrors r).

Lemma following_call id r e o q :
  (∀ p, payload_encodes p = true) → keeps id (HCall e o) →
  subs r !! id = Some q → length (sub_ch q) < subBuffer →
  following id r → following id (apply_mop r (e, o)).
Proof.
  intros Henc Hk Hq Hroom (q' & Hq' & Hc & Ha). simplify_eq.
  destruct Hk as [Hm|(id' & Ho)].
  - destruct (apply_mop_event r e o Hm) as [[Hmi Hsu]|(ev & Hd & Hmi & Hsu)].
    + exists q. by rewrite Hmi, Hsu.
    + exists (mirror_enqueue ev q). split; [by rewrite Hsu, lookup_fmap, Hq|].
      split; [unfold mirror_enqueue, enqueue; by rewrite Hc|].
      unfold mirror_enqueue. rewrite seen_enqueue by done. unfold door_view. rewrite foldl_app.
      rewrite Hmi. by apply agrees_delta.
  - destruct Ho as [-> | [-> Hne]]; unfold following; cbn [apply_mop].
    + destruct (decide (id' = id)) as [->|Hne].
      * exists (mirror_drain1 q). cbn [drain set_subs subs mirrors].
        split; [by rewrite lookup_alter_eq, Hq|]. unfold mirror_drain1. rewrite seen_drain1.
        split; [|done]. unfold drain1. by destruct (sub_ch q).
      * exists q. cbn [drain set_subs subs mirrors]. by rewrite lookup_alter_ne.
    + exists q. cbn [removeSub set_subs subs mirrors]. by rewrite lookup_delete_ne.
Qed.

(** Several events in a row, as far as there is room. *)
Lemma following_events evs q M :
  (∀ p, payload_encodes p = true) → Forall delta evs → sub_closed q = false →
  length (sub_ch q) + length evs ≤ subBuffer → agrees (door_view (seen q)) M →
  let q' := foldl (λ q ev, mirror_enqueue ev q) q evs in
  sub_closed q' = false ∧ agrees (door_view (seen q')) (ev_run evs M).
Proof.
  intros Henc. revert q M. induction evs as [|ev evs IH]; intros q M Hd Hc Hroom Ha; cbv zeta; [done|].
  apply Forall_cons in Hd as [Hd Hds]. cbn [length] in Hroom. cbn [foldl].
  assert (Hq : sub_closed (mirror_enqueue ev q) = false ∧ length (sub_ch (mirror_enqueue ev q)) = S (length (sub_ch q)) ∧
    seen (mirror_enqueue ev q) = seen q ++ [ev]).
  { unfold mirror_enqueue. rewrite seen_enqueue by (done || lia). unfold enqueue. rewrite Hc.
    cbn [sub_closed sub_ch]. rewrite enqueue_loop_spec by lia. rewrite decide_True by lia. rewrite length_app. cbn [length].
    split_and!; [done|lia|done]. }
  destruct Hq as (Hc' & Hl' & Hs'). apply IH; [done|done|lia|].
  rewrite Hs'. unfold door_view. rewrite foldl_app. by apply agrees_delta.
Qed.

Lemma broadcast_all evs r :
  let r' := foldl (λ r ev, broadcast ev r) r evs in
  mirrors r' = mirrors r ∧ subs r' = (λ q, foldl (λ q ev, mirror_enqueue ev q) q evs) <$> subs r.
Proof.
  revert r. induction evs as [|ev evs IH]; intros r; cbv zeta; [split; [done|by rewrite map_fmap_id]|].
  cbn [foldl]. destruct (IH (broadcast ev r)) as [-> ->]. split; [done|].
  unfold broadcast. cbn [set_subs subs]. by rewrite <- map_fmap_compose.
Qed.

Lemma diff_events_version (now : time) (v v' : Z) (prev cur : gmap gostring MirrorHealth) :
  length (diff_events (D := D) now v prev cur) = length (diff_events (D := D) now v' prev cur).
Proof.
  unfold diff_events. rewrite !length_app. f_equal.
  - induction (sort_by fst (map_to_list cur)) as [|[k x] l IH]; [done|]. cbn [omap list_omap fst snd].
    destruct (prev !! k) as [pv|]; [destruct (mirrorEqual pv x)|]; cbn [length]; by rewrite ?IH.
  - induction (sort_by fst (map_to_list prev)) as [|[k x] l IH]; [done|]. cbn [omap list_omap fst snd].
    destruct (cur !! k); cbn [length]; by rewrite ?IH.
Qed.

Lemma following_watch id r now q :
  (∀ p, payload_encodes p = true) → yaml_faithful (D := D) → op_loads r (HWatch now) →
  subs r !! id = Some q → length (sub_ch q) + op_events r (HWatch now) ≤ subBuffer →
  following id r → following id (onExternalChange now r).
Proof.
  intros Henc Hy Hload Hq Hroom (q' & Hq' & Hc & Ha). simplify_eq. cbn [op_loads op_events] in *.
  unfold onExternalChange, loadFromDisk. pose proof (loaded_keyed (files r)) as Hkey.
  destruct (loaded (files r)) as [cur failed]. cbn [fst snd] in *. subst failed.
  set (v := wrapu64 (version r + 1)). set (r1 := set_mirrors (files r) cur v r).
  assert (Hr1 : mirrors r1 = cur ∧ subs r1 = subs r ∧ version r1 = v) by done.
  destruct Hr1 as (Hm1 & Hs1 & Hv1). rewrite Hm1, Hv1.
  set (evs := diff_events now v (mirrors r) cur).
  destruct (broadcast_all evs r1) as [Hmi Hsu]. unfold following. rewrite Hmi, Hsu, Hm1, Hs1.
  destruct (following_events evs q (mirrors r) Henc (diff_events_delta now v _ _ Hkey) Hc) as [Hc' Ha'];
    [unfold evs; by rewrite (diff_events_version now v (version r))|done|].
  eexists. split; [by rewrite lookup_fmap, Hq|]. split; [exact Hc'|].
  unfold evs in Ha'. rewrite diff_events_apply in Ha'; [exact Ha'|done|]. intros h m Hm. by apply Hkey in Hm as [? _].
Qed.

Lemma following_run id r ops :
  (∀ p, payload_encodes p = true) → yaml_faithful (D := D) → Forall (keeps id) ops → roomy id r ops →
  following id r → following id (hub_run r ops).
Proof.
  intros Henc Hy. unfold hub_run. revert r; induction ops as [|o ops IH]; intros r Hk Hr Hf; [done|].
  apply Forall_cons in Hk as [Hk Hks]. destruct Hr as ((q & Hq & Hroom) & Hload & Hr).
  cbn [foldl]. apply IH; [done|done|]. destruct o as [e o|f|now]; cbn [hub_step].
  - eapply following_call; try done. cbn [op_events] in Hroom. lia.
  - destruct Hf as (q' & Hq' & Hc & Ha). exists q'. done.
  - by eapply following_watch.
Qed.

(** A fresh subscription follows: it is seeded with the snapshot. *)
Lemma following_subscribe now r r1 id :
  (∀ p, payload_encodes p = true) → reg_wf r →
  Subscribe now r = (r1, Some id) → following id r1.
Proof.
  intros Henc Hwf. unfold Subscribe, subscribe_register. destruct (closed r); [done|].
  intros [= <- <-]. set (ev := mkMirrorEvent _ _ _ _ _ _). set (i := wrapu64 _).
  exists (enqueue ev newSub). unfold subscribe_seed. cbn [set_subs subs mirrors].
  rewrite lookup_alter_eq, lookup_insert_eq. split; [done|]. split; [done|].
  rewrite seen_enqueue by (done || unfold subBuffer; simpl; lia). cbn [seen newSub sub_out sub_ch app].
  unfold door_view. cbn [foldl]. unfold door_step, OnMirrorEvent, NewMirrorSnapshotEvent, marshalled. cbn [meType ev]. rewrite Henc.
  cbn [door_apply evType evData meMirrors meVersion ev]. by apply agrees_snapshot.
Qed.
End subscribed.

(** * The kill switch across reloads *)

Section kill_switch.
Context {D : Type} `{EqDecision D} `{YamlCodec D} `{GoUnicode}.
Implicit Types r : MirrorRegistry D.

(** What yaml.v3 promises: a record that was written reads back as it was. *)
Definition yaml_roundtrip : Prop :=
  ∀ (m : MirrorHealth) (d : D), yaml_marshal m = Some d → yaml_unmarshal d = Some m.

(** The mirror an operation writes or removes. *)
Definition op_host (o : mop) : option gostring :=
  match o with
  | MUpsert m => Some (mhHost m)
  | MDelete h | MForce h _ | MUnblock h | MUpdate h _ _ => Some h
  | _ => None
  end.

(** An operation of the hub itself, or a reload of its watcher, that neither
    gives [host] up nor writes to the file of [host] for another name. *)
Definition respects (host : gostring) (o : hub_op (D := D)) : Prop :=
  match o with
  | HCall e o => ¬ releases host (e, o) ∧ ∀ h, op_host o = Some h → mirrorPath h = mirrorPath host → h = host
  | HEdit _ => False
  | HWatch _ => True
  end.

(** No file but its own speaks of [host]. *)
Definition sole (host : gostring) r : Prop :=
  ∀ k d m, files r !! k = Some d → yaml_unmarshal d = Some m → mhHost m = host → k = mirrorPath host.

Definition on_disk (host : gostring) r : Prop :=
  ∃ m d, mirrors r !! host = Some m ∧ files r !! mirrorPath host = Some d ∧ yaml_unmarshal d = Some m.

Lemma apply_mop_disk r e o :
  reg_wf r →
  (mirrors (apply_mop r (e, o)) = mirrors r ∧ files (apply_mop r (e, o)) = files r) ∨
  (∃ m d, op_host o = Some (mhHost m) ∧ yaml_marshal (normalize m) = Some d ∧
     mirrors (apply_mop r (e, o)) = <[mhHost m := normalize m]> (mirrors r) ∧
     files (apply_mop r (e, o)) = <[mirrorPath (mhHost m) := d]> (files r)) ∨
  (∃ h, o = MDelete h ∧ files (apply_mop r (e, o)) = delete (mirrorPath h) (files r)).
Proof.
  intros Hwf. assert (Hup : ∀ m, op_host o = Some (mhHost m) →
    (mirrors (Upsert e m r).1 = mirrors r ∧ files (Upsert e m r).1 = files r) ∨
    (∃ m' d, op_host o = Some (mhHost m') ∧ yaml_marshal (normalize m') = Some d ∧
      mirrors (Upsert e m r).1 = <[mhHost m' := normalize m']> (mirrors r) ∧
      files (Upsert e m r).1 = <[mirrorPath (mhHost m') := d]> (files r)) ∨
    (∃ h, o = MDelete h ∧ files (Upsert e m r).1 = delete (mirrorPath h) (files r))).
  { intros m Hm. rewrite Upsert_spec. destruct (negb (ctx_ok e)); [by left|]. destruct (decide _); [by left|].
    destruct (yaml_marshal (normalize m)) as [d|] eqn:Hd; [|by left]. destruct (disk_ok e); [|by left].
    right. left. by exists m, d. }
  destruct o as [m|h|h note|h|h rr thr| | |]; cbn [apply_mop]; [by apply Hup| | | | |left|by left|by left].
  - rewrite Delete_spec. destruct (negb (ctx_ok e)); [by left|]. destruct (decide _); [by left|].
    destruct (disk_ok e); [|by left]. right. right. exists h. split; [done|]. by destruct (mirrors r !! h).
  - destruct (ctx_ok e) eqn:Hc, (decide (h = [])) as [->|Hh];
      try (left; unfold ForceBlock, task_fuel; cbn; unfold guarded; by rewrite Hc).
    rewrite ForceBlock_spec by done. apply Hup. cbn [op_host]. f_equal. symmetry. by apply (prepared_host r h).
  - destruct (ctx_ok e) eqn:Hc, (decide (h = [])) as [->|Hh];
      try (left; unfold Unblock, task_fuel; cbn; unfold guarded; by rewrite Hc).
    rewrite Unblock_spec by done. destruct (mirrors r !! h) as [x|] eqn:Hx; [|by left].
    apply Hup. cbn [op_host unblocked mhHost]. f_equal. by apply Hwf in Hx as [-> _].
  - destruct (ctx_ok e) eqn:Hc, (decide (h = [])) as [->|Hh];
      try (left; unfold UpdateHealth, task_fuel; cbn; unfold guarded; by rewrite Hc).
    rewrite UpdateHealth_spec by done. apply Hup. cbn [op_host]. f_equal. symmetry. by apply (prepared_host r h).
  - unfold Subscribe, subscribe_register. by destruct (closed r).
Qed.

Lemma on_disk_call host r e o :
  yaml_roundtrip → reg_wf r → respects host (HCall e o) → pinned host r → on_disk host r → sole host r →
  on_disk host (apply_mop r (e, o)) ∧ sole host (apply_mop r (e, o)).
Proof.
  intros Hy Hwf [Hrel Hown] Hp (m & d & Hm & Hf & Hu) Hs.
  pose proof (pinned_step host r (e, o) Hwf Hp Hrel) as (m1 & Hm1 & _).
  unfold on_disk, sole. destruct (apply_mop_disk r e o Hwf) as [[-> ->]|[(m' & d' & Ho & Hd & HM & ->)|(h & -> & ->)]].
  - split; [by exists m, d|done].
  - rewrite HM. apply Hy in Hd. split.
    + destruct (decide (mhHost m' = host)) as [<-|Hne].
      * exists (normalize m'), d'. by rewrite !lookup_insert_eq.
      * exists m, d. rewrite !lookup_insert_ne; [done| |done]. intros Heq. by apply Hne, Hown.
    + intros k dk mk [[<- <-]|[_ Hk]]%lookup_insert_Some Hmk Hh; [|by eapply Hs].
      simplify_eq. done.
  - assert (Hpath : mirrorPath h ≠ mirrorPath host) by (intros Heq; apply Hrel; cbn; by apply Hown).
    assert (Hne : h ≠ host) by (by intros ->). split.
    + assert (Hkeep : mirrors (apply_mop r (e, MDelete h)) !! host = mirrors r !! host).
      { destruct (apply_mop_cases r e (MDelete h)) as [->|[(? & [?|[(?&?&?&_)|[(?&?&?&_)|(?&?&?&?&_)]]] & _)|(h' & [= <-] & ->)]]; try done.
        by rewrite lookup_delete_ne. }
      exists m, d. rewrite Hkeep. by rewrite lookup_delete_ne.
    + intros k dk mk [_ Hk]%lookup_delete_Some. by apply Hs.
Qed.

(** Names of mirror files are lower-case ASCII with the extension. *)
Lemma mirrorPath_listed host : HasSuffix (ToLower (mirrorPath host)) mirrorExt = true.
Proof.
  assert (Hc : ∀ z, is_ascii_byte (sanitize_rune z) = true ∧ lower_byte (sanitize_rune z) = sanitize_rune z).
  { intros z. unfold sanitize_rune. destruct (_ || _)%bool eqn:E; [|done].
    assert (Hz : z ∈ [45; 46; 95]%Z ++ seqZ 48 10 ++ seqZ 97 26).
    { rewrite !elem_of_app, !elem_of_seqZ, !elem_of_cons. repeat rewrite ?orb_true_iff, ?andb_true_iff, ?Z.leb_le, ?Z.eqb_eq in E. lia. }
    revert z Hz E. assert (Hall : Forall (λ z, is_ascii_byte (ascii_of_N (Z.to_N z)) = true ∧
      lower_byte (ascii_of_N (Z.to_N z)) = ascii_of_N (Z.to_N z)) ([45; 46; 95]%Z ++ seqZ 48 10 ++ seqZ 97 26)) by decide_now.
    rewrite Forall_forall in Hall. auto. }
  assert (Hl : ToLower (mirrorPath host) = mirrorPath host).
  { unfold ToLower, mirrorPath, sanitizeHost. generalize (runes (ToLower (TrimSpace host))) as l. intros l.
    assert (Hb : forallb is_ascii_byte ((sanitize_rune <$> l) ++ mirrorExt) = true ∧
      map lower_byte ((sanitize_rune <$> l) ++ mirrorExt) = (sanitize_rune <$> l) ++ mirrorExt).
    { induction l as [|z l [IH1 IH2]]; [done|]. destruct (Hc z) as [H1 H2]. rewrite fmap_cons. cbn [app forallb map]. by rewrite H1, H2, IH1, IH2. }
    by destruct Hb as [-> ->]. }
  rewrite Hl. unfold HasSuffix, mirrorPath. rewrite reverse_app. reflexivity.
Qed.

(** A reload finds the record of a host in the one file that speaks of it. *)
Lemma loaded_lookup host r m d :
  sole host r → files r !! mirrorPath host = Some d → yaml_unmarshal d = Some m → mhHost m = host → host ≠ [] →
  (loaded (files r)).1 !! host = Some (normalize m).
Proof.
  intros Hs Hf Hu Hh Hne. unfold loaded.
  assert (Hgen : ∀ l acc,
    (∀ k d' m', (k, d') ∈ l → yaml_unmarshal d' = Some m' → mhHost m' = host → m' = m) →
    acc.1 !! host = Some (normalize m) ∨ (mirrorPath host, d) ∈ l →
    (foldl load_entry acc l).1 !! host = Some (normalize m)).
  { induction l as [|[k d'] l IH]; intros acc Hall Hin; [destruct Hin as [?|?%elem_of_nil]; done|].
    cbn [foldl]. apply IH; [intros k' d2 m2 Hk; apply (Hall k'); by right|]. unfold load_entry. cbn [fst snd].
    destruct Hin as [Ha|[[= <- <-]|?]%elem_of_cons]; [left|left|by right].
    - destruct (negb _); [done|]. destruct (yaml_unmarshal d') as [m'|] eqn:Hm'; [|done]. destruct (decide _); [done|].
      cbn [fst]. destruct (decide (mhHost m' = host)) as [He|]; [|by rewrite lookup_insert_ne].
      rewrite (Hall k d' m' ltac:(left) Hm' He), Hh. apply lookup_insert_eq.
    - rewrite mirrorPath_listed, Hu. cbn [negb]. rewrite decide_False by congruence. cbn [fst]. rewrite Hh. apply lookup_insert_eq. }
  assert (Hperm : sort_by fst (map_to_list (files r)) ≡ₚ map_to_list (files r)) by apply sort_by_Permutation.
  apply Hgen.
  - intros k d' m' Hk%(elem_of_Permutation_proper _ _ _ Hperm)%elem_of_map_to_list Hm' He.
    pose proof (Hs k d' m' Hk Hm' He) as ->. simplify_eq. done.
  - right. rewrite Hperm. by apply elem_of_map_to_list.
Qed.

Lemma loaded_wf (f : gmap gostring D) h m : (loaded f).1 !! h = Some m → normalize m = m.
Proof.
  unfold loaded. assert (Hgen : ∀ l acc, (∀ h m, acc.1 !! h = Some m → normalize m = m) →
    ∀ h m, (foldl load_entry acc l).1 !! h = Some m → normalize m = m).
  { induction l as [|[k d] l IH]; intros acc Hacc; [exact Hacc|]. cbn [foldl]. apply IH. unfold load_entry. cbn [fst snd].
    destruct (negb _); [done|]. destruct (yaml_unmarshal d) as [x|]; [|done]. destruct (decide _); [done|].
    cbn [fst]. intros h' m' [[_ <-]|[_ Hm]]%lookup_insert_Some; [apply normalize_idemp|by eapply Hacc]. }
  apply Hgen. intros ??. cbn. by rewrite lookup_empty.
Qed.

Lemma onExternalChange_disk now r :
  mirrors (onExternalChange now r) = (loaded (files r)).1 ∧ files (onExternalChange now r) = files r.
Proof.
  unfold onExternalChange, loadFromDisk. destruct (loaded (files r)) as [l failed]. destruct failed; [done|].
  cbn [fst]. generalize (diff_events (D := D) now (version (set_mirrors (files r) l (wrapu64 (version r + 1)) r)) (mirrors r)
    (mirrors (set_mirrors (files r) l (wrapu64 (version r + 1)) r))) as evs. intros evs.
  assert (Hgen : ∀ r0, mirrors (foldl (λ r2 ev, broadcast ev r2) r0 evs) = mirrors r0 ∧
    files (foldl (λ r2 ev, broadcast ev r2) r0 evs) = files r0).
  { induction evs as [|ev evs IH]; intros r0; [done|]. cbn [foldl]. destruct (IH (broadcast ev r0)) as [-> ->]. done. }
  destruct (Hgen (set_mirrors (files r) l (wrapu64 (version r + 1)) r)) as [-> ->]. done.
Qed.

Lemma held_step host r o :
  yaml_roundtrip → respects host o → reg_wf r ∧ pinned host r ∧ on_disk host r ∧ sole host r →
  let r' := hub_step r o in reg_wf r' ∧ pinned host r' ∧ on_disk host r' ∧ sole host r'.
Proof.
  intros Hy Ho (Hwf & Hp & Hd & Hs). destruct o as [e o|f|now]; cbn [hub_step]; [| done|].
  - split; [by apply reg_wf_step|]. split; [destruct Ho; by apply pinned_step|]. by apply on_disk_call.
  - destruct (onExternalChange_disk now r) as [HM HF]. destruct Hd as (m & d & Hm & Hf & Hu).
    destruct (Hwf host m Hm) as (Hh & Hne & Hn).
    pose proof (loaded_lookup host r m d Hs Hf Hu Hh Hne) as Hl. rewrite Hn in Hl.
    destruct Hp as (m' & Hm' & Hman & Hv). assert (m' = m) as -> by congruence. unfold reg_wf, pinned, on_disk, sole. rewrite HM, HF.
    split; [|split; [by exists m|split; [by exists m, d|exact Hs]]].
    intros h x Hx. destruct (loaded_keyed _ _ _ Hx) as [? ?]. split_and!; [done|done|by eapply loaded_wf].
Qed.

Lemma forced_on_disk e host note r :
  yaml_roundtrip → reg_wf r → sole host r → (ForceBlock e host note r).2 = None →
  let r1 := (ForceBlock e host note r).1 in pinned host r1 ∧ on_disk host r1 ∧ sole host r1.
Proof.
  intros Hy Hwf Hs Hok. assert (Hc : ctx_ok e = true ∧ host ≠ []).
  { unfold ForceBlock, task_fuel in Hok. cbn in Hok. unfold guarded in Hok.
    destruct (ctx_ok e); [|done]. cbn [negb] in Hok. by destruct (decide (host = [])). }
  destruct Hc as [Hc Hne]. rewrite ForceBlock_spec in * by done.
  assert (Hh : mhHost (forced host note r) = host) by (by apply (prepared_host r host)).
  rewrite Upsert_spec in *. rewrite Hc, Hh in *. cbn [negb] in *. destruct (decide _); [done|].
  destruct (yaml_marshal _) as [d|] eqn:Hd; [|done]. destruct (disk_ok e); [|done]. apply Hy in Hd.
  cbn [fst]. unfold pinned, on_disk, sole. cbn [mirrors files broadcast set_subs set_mirrors]. rewrite !lookup_insert_eq.
  split; [by eexists|]. split; [by eexists _, d|].
  intros k dk mk [[<- <-]|[_ Hk]]%lookup_insert_Some Hmk Hmh; [done|by eapply Hs].
Qed.
End kill_switch.

(** * Concrete instances for the witnesses *)

#[local] Instance rp_json : HubJson :=
  {| payload_encodes _ := true; tenant_json _ := None; globals_json _ := None |}.
#[local] Instance rp_codec : YamlCodec MirrorHealth := {| yaml_marshal := Some; yaml_unmarshal := Some |}.
#[local] Instance rp_unicode : GoUnicode :=
  {| unicode_lower s := s; unicode_upper s := s; unicode_trim s := s |}.

Definition rp_ops : list (hub_op (D := MirrorHealth)) :=
  [HCall (env_fine 2) (MUpdate mx_host (Some (mx_results $"ok")) thr_half);
   HCall (env_fine 3) (MDrain 1); HCall (env_fine 4) (MForce $"m2.example" $"incident"); HWatch 5;
   HEdit {[ $"m3.example.yaml" := zero_mirror $"m3.example" ]}; HWatch 6].

Lemma mx_reg_wf : reg_wf mx_reg.
Proof. apply map_Forall_empty. Qed.

(** * Properties *)



(** C17. The kill switch holds across reloads. Once ForceBlock succeeded for a
    host of which no other file speaks, the mirror stays manually blocked with
    the verdict blocked through any sequence of completed calls of the registry
    and reloads of its file watcher, whether or not every file can be read, as
    long as no call is an Unblock, Delete or Upsert of that host or an
    operation on another mirror whose name is kept in the same file, and nobody
    else edits the directory; YAML that was written reads back. *)
Theorem kill_switch_survives_reloads {D} `{EqDecision D} `{YamlCodec D} `{GoUnicode}
    e host note (r : MirrorRegistry D) ops :
  yaml_roundtrip (D := D) → reg_wf r → sole host r → snd (ForceBlock e host note r) = None →
  Forall (respects host) ops → pinned host (hub_run (fst (ForceBlock e host note r)) ops).
Proof.
  intros Hy Hwf Hs Hok Hops.
  assert (Hbase : let r1 := (ForceBlock e host note r).1 in reg_wf r1 ∧ pinned host r1 ∧ on_disk host r1 ∧ sole host r1).
  { cbv zeta. split; [apply (reg_wf_step r (e, MForce host note)), Hwf|]. by apply forced_on_disk. }
  cbv zeta in Hbase. revert Hbase. unfold hub_run. generalize (ForceBlock e host note r).1 as r1.
  induction ops as [|o ops IH]; intros r1 Hb; [apply Hb|].
  apply Forall_cons in Hops as [Ho Hops]. cbn [foldl]. by apply (IH Hops), held_step.
Qed.

Lemma kill_switch_survives_reloads_witness :
  pinned mx_host (hub_run (fst (ForceBlock (env_fine 1) mx_host $"incident" mx_reg))
    [HWatch 2; HCall (env_fine 3) (MUpdate mx_host (Some (mx_results $"ok")) thr_half); HWatch 4;
     HCall (env_fine 5) (MUpsert (zero_mirror $"m2.example")); HWatch 6]).
Proof.
  apply kill_switch_survives_reloads.
  - intros m d Hd. injection Hd as <-. reflexivity.
  - exact mx_reg_wf.
  - intros k d m Hk. change (files mx_reg) with (∅ : gmap gostring MirrorHealth) in Hk. rewrite lookup_empty in Hk. discriminate Hk.
  - reflexivity.
  - spread; try exact I; (split; [first [by intros []|discriminate]|]);
      intros h Hh; injection Hh as <-; vm_compute; first [reflexivity|discriminate].
Defined.

(** A subscription can start out of date. Subscribe takes its snapshot
    under the lock but enqueues it after releasing the lock: when an upsert of
    a new mirror completes in between, its event reaches the subscriber
    before the older snapshot, and the table rebuilt from the stream lacks the
    mirror although the hub has it and no event was lost. *)
Theorem subscribe_snapshot_race {D} `{EqDecision D} `{YamlCodec D} `{GoUnicode} `{HubJson}
    (r : MirrorRegistry D) m now :
  (∀ p, payload_encodes p = true) → (∀ x, is_Some (yaml_marshal x)) → reg_wf r →
  closed r = false → mhHost m ≠ [] → mirrors r !! mhHost m = None →
  ∃ r1 id ev, subscribe_register now r = (r1, Some (id, ev)) ∧
  let '(r2, err) := Upsert (env_fine now) m r1 in
  let r3 := subscribe_seed id ev r2 in
  err = None ∧ is_Some (mirrors r3 !! mhHost m) ∧
  ∃ evs, stream_of id r3 = Some evs ∧ length evs = 2 ∧
    ∀ x, x ∈ sel_mirrors (door_view evs) → miHost x ≠ mhHost m.
Proof.
  intros Henc Hy Hwf Hc Hne Hnone. unfold subscribe_register. rewrite Hc.
  eexists _, _, _. split; [done|]. rewrite Upsert_spec. cbn [ctx_ok env_fine negb].
  rewrite decide_False by done. destruct (Hy (normalize m)) as [d ->]. cbn [disk_ok env_fine].
  split; [done|]. split; [cbn; rewrite lookup_insert_eq; by eexists|].
  set (up := mkMirrorEvent MirrorEventUpsert _ _ _ _ _).
  set (snap := mkMirrorEvent MirrorEventSnapshot _ _ _ _ _).
  exists [up; snap]. split; [|split; [done|]].
  - unfold stream_of, subscribe_seed, broadcast. cbn [set_subs subs set_mirrors].
    rewrite lookup_alter_eq, lookup_fmap, lookup_insert_eq. done.
  - unfold door_view. cbn [foldl]. unfold door_step at 1. unfold OnMirrorEvent, NewMirrorSnapshotEvent, marshalled.
    cbn [meType snap]. rewrite Henc. cbn [door_apply evType evData].
    intros x Hx Hh. pose proof (agrees_snapshot r (door_step NewSelector up) (version r) Hwf) as Ha.
    destruct (ag_sound _ _ Ha x Hx) as (m' & Hm' & _). by rewrite Hh, Hnone in Hm'.
Qed.

Lemma subscribe_snapshot_race_witness :
  ∃ r1 id ev, subscribe_register 5 mx_reg = (r1, Some (id, ev)) ∧
    is_Some (mirrors (subscribe_seed id ev (fst (Upsert (env_fine 5) (zero_mirror mx_host) r1))) !! mx_host).
Proof.
  destruct (subscribe_snapshot_race mx_reg (zero_mirror mx_host) 5) as (r1 & id & ev & Hs & H).
  - done.
  - intros x. by exists x.
  - exact mx_reg_wf.
  - reflexivity.
  - done.
  - by vm_compute.
  - exists r1, id, ev. split; [exact Hs|].
    destruct (Upsert (env_fine 5) (zero_mirror mx_host) r1) as [r2 err].
    exact (proj1 (proj2 H)).
Defined.
