(* ===== verification/TorPool.v ===== *)
(** The Tor pool (src/internal/torpool/manager.go, balancer.go, and
    BackendInfo of src/internal/shared/types.go): instances, scoring and
    selection, scaling with port allocation, replacement and shutdown.

    Starting a process is an input (whether the bootstrap succeeds); every
    instance remembers the context its process runs under, because cancelling
    that context kills the process. *)

From S2P Require Import Prelude Float.

(** * Scores *)

Record BackendInfo := mkBackendInfo {
  biPort : Z;
  biAlive : bool;
  biActiveConns : Z;
  biLatencyMs : Z;
  biErrorRate : float64;
  biBackend : gostring
}.

Definition Score (b : BackendInfo) : float64 :=
  if negb (biAlive b) then MaxFloat64
  else f64_add (f64_add (f64_of_Z (wrap64 (biActiveConns b * 2)))
                        (f64_div (f64_of_Z (biLatencyMs b)) (f64_of_Z 100)))
               (f64_mul (biErrorRate b) (f64_of_Z 10)).

(** pickBest: the pointer kept by the loop, as the value it points to. *)
Definition pickBest (backends : list BackendInfo) : option BackendInfo :=
  foldl (λ best b,
           if negb (biAlive b) then best
           else match best with
                | None => Some b
                | Some x => if f64_lt (Score b) (Score x) then Some b else best
                end) None backends.

(** * Instances *)

(** [tiCtx] names the context the process was started under. *)
Record TorInstance := mkTorInstance {
  tiPort : Z;
  tiBackend : gostring;
  tiAlive : bool;
  tiActiveConns : Z;
  tiLatencyMs : Z;
  tiErrorCount : Z;
  tiTotalCount : Z;
  tiCtx : nat
}.

Definition Info (t : TorInstance) : BackendInfo :=
  let errorRate := if Z.ltb 0 (tiTotalCount t)
                   then f64_div (f64_of_Z (tiErrorCount t)) (f64_of_Z (tiTotalCount t))
                   else S754_zero false in
  mkBackendInfo (tiPort t) (tiAlive t) (tiActiveConns t) (tiLatencyMs t) errorRate (tiBackend t).

Definition instScore (t : TorInstance) : float64 := Score (Info t).

Record TorConfig := mkTorConfig {
  MinInstances : Z;
  MaxInstances : Z;
  SocksBasePort : Z;
  cfgBackends : list gostring;
  MinSuccessfulOnStart : Z
}.

(** [forgotten] records the ForgetPort notifications. *)
Record Manager := mkManager {
  instances : list TorInstance;
  shuttingDown : bool;
  forgotten : list Z
}.

Definition NewManager : Manager := mkManager [] false [].

Definition set_instances (l : list TorInstance) (m : Manager) : Manager :=
  mkManager l (shuttingDown m) (forgotten m).

(** [Panicked] is a run-time panic (an index or a slice bound out of range). *)
Inductive pool_error :=
| ErrShuttingDown | ErrCtx | ErrSpawn (port : Z) | ErrNoInstance | ErrTooFew | ErrEnvironment | Panicked.

(** A freshly bootstrapped instance. *)
Definition fresh (port : Z) (backend : gostring) (ctx : nat) : TorInstance :=
  mkTorInstance port backend true 0 0 0 0 ctx.

(** spawnInstance under context [ctx]; [boots] is whether the process on a
    port reaches "Bootstrapped 100%". *)
Definition spawnInstance (boots : Z → bool) (ctx : nat) (port : Z) (backend : gostring) (m : Manager)
    : result pool_error Manager :=
  if boots port then Ok (set_instances (instances m ++ [fresh port backend ctx]) m)
  else Err (ErrSpawn port).

(** [backends[i%len(backends)].Addr], "" without backends; Go's remainder has
    the sign of [i], and a negative index panics (None). *)
Definition backend_for (cfg : TorConfig) (i : Z) : option gostring :=
  match cfgBackends cfg with
  | [] => Some []
  | l => let j := Z.rem i (Z.of_nat (length l)) in
         if Z.ltb j 0 then None else l !! Z.to_nat j
  end.

(** Cancelling a context kills the processes started under it. *)
Definition cancel_ctx (ctx : nat) (m : Manager) : Manager :=
  set_instances
    ((λ t, if decide (tiCtx t = ctx)
           then mkTorInstance (tiPort t) (tiBackend t) false (tiActiveConns t) (tiLatencyMs t)
                              (tiErrorCount t) (tiTotalCount t) (tiCtx t)
           else t) <$> instances m) m.

Definition Count (m : Manager) : nat * nat :=
  (length (instances m), length (List.filter tiAlive (instances m))).

Definition AliveInstances (m : Manager) : list TorInstance := List.filter tiAlive (instances m).

(** doMutation with the lock taken: [ctx_ok] is whether the caller's context
    is still live. *)
Definition doMutation (ctx_ok : bool) (m : Manager) (fn : Manager → Manager * option pool_error)
    : Manager * option pool_error :=
  if shuttingDown m then (m, Some ErrShuttingDown)
  else if negb ctx_ok then (m, Some ErrCtx) else fn m.

(** * Scaling *)

(** [sort.Slice] by score; ties may end in any order. *)
Definition score_le (a b : TorInstance) : Prop := f64_lt (instScore b) (instScore a) = false.

#[global] Instance score_le_dec : RelDecision score_le.
Proof. intros a b. unfold score_le. apply _. Defined.

Definition sort_instances (l : list TorInstance) : list TorInstance := merge_sort score_le l.

(** The inner loop [for usedPorts[port] { port++ }]. *)
Fixpoint next_port (fuel : nat) (used : gset Z) (port : Z) : Z :=
  match fuel with
  | 0 => port
  | S fuel' => if decide (port ∈ used) then next_port fuel' used (port + 1)%Z else port
  end.

(** The spawning loop of a scale-up. *)
Fixpoint scale_up (cfg : TorConfig) (boots : Z → bool) (ctx : nat) (needed : nat) (used : gset Z)
    (m : Manager) : Manager * option pool_error :=
  match needed with
  | 0 => (m, None)
  | S n =>
      let port := next_port (S (size used)) used (SocksBasePort cfg) in
      match backend_for cfg port with
      | None => (m, Some Panicked)
      | Some backend =>
          match spawnInstance boots ctx port backend m with
          | Err e => (m, Some e)
          | Ok m' => scale_up cfg boots ctx n ({[port]} ∪ used) m'
          end
      end
  end.

Definition clamp (cfg : TorConfig) (target : Z) : Z :=
  let t := if Z.ltb target (MinInstances cfg) then MinInstances cfg else target in
  if (Z.ltb 0 (MaxInstances cfg) && Z.ltb (MaxInstances cfg) t)%bool then MaxInstances cfg else t.

(** scaleToLocked. The slice expression [m.instances[target:]] panics for a
    negative target, after the sort. *)
Definition scaleToLocked (cfg : TorConfig) (boots : Z → bool) (ctx : nat) (target : Z) (m : Manager)
    : Manager * option pool_error :=
  let target := clamp cfg target in
  let current := Z.of_nat (length (instances m)) in
  if Z.ltb target current then
    let sorted := sort_instances (instances m) in
    if Z.ltb target 0 then (set_instances sorted m, Some Panicked) else
    let keep := take (Z.to_nat target) sorted in
    let toKill := drop (Z.to_nat target) sorted in
    (mkManager keep (shuttingDown m) (forgotten m ++ (tiPort <$> toKill)), None)
  else if Z.ltb current target then
    scale_up cfg boots ctx (Z.to_nat (target - current)) (list_to_set (tiPort <$> instances m)) m
  else (m, None).

Definition ScaleTo (cfg : TorConfig) (boots : Z → bool) (ctx_ok : bool) (ctx : nat) (target : Z)
    (m : Manager) : Manager * option pool_error :=
  doMutation ctx_ok m (scaleToLocked cfg boots ctx target).

(** * Replacement and shutdown *)

(** Splits at the first instance on the port. *)
Fixpoint take_port (port : Z) (l : list TorInstance) : option (TorInstance * list TorInstance) :=
  match l with
  | [] => None
  | x :: l' =>
      if decide (tiPort x = port) then Some (x, l')
      else match take_port port l' with
           | Some (y, r) => Some (y, x :: r)
           | None => None
           end
  end.

Definition ReplaceInstance (boots : Z → bool) (ctx_ok : bool) (ctx : nat) (port : Z) (m : Manager)
    : Manager * option pool_error :=
  doMutation ctx_ok m (λ m,
    match take_port port (instances m) with
    | None => (m, Some ErrNoInstance)
    | Some (dead, rest) =>
        let m1 := set_instances rest m in
        match spawnInstance boots ctx port (tiBackend dead) m1 with
        | Ok m2 => (m2, None)
        | Err e => (m1, Some e)
        end
    end).

(** Shutdown raises the flag, waits for the operation that holds opMu and then
    empties the pool. It is one step here, at the moment it holds opMu: from
    the flag on no operation begins, and the one it waits for is a step of its
    own before this one. *)
Definition Shutdown (m : Manager) : Manager := mkManager [] true (forgotten m).

(** The body of the goroutine of replaceAsync (health.go): a context of its
    own, the replacement, and the deferred cancel. *)
Definition replace_goroutine (boots : Z → bool) (ctx : nat) (port : Z) (m : Manager)
    : Manager * option pool_error :=
  let '(m1, err) := ReplaceInstance boots true ctx port m in (cancel_ctx ctx m1, err).

(** Start of a pool without instances: the ports base, base+1, ... are tried
    in parallel and the successes are kept in port order when there are enough
    of them. [env_ok] is whether the tor binary is found and the data directory
    can be made. *)
Definition start_tries (cfg : TorConfig) : list (Z * gostring) :=
  (λ i, (SocksBasePort cfg + Z.of_nat i, default [] (backend_for cfg (Z.of_nat i)))%Z)
    <$> seq 0 (Z.to_nat (MinInstances cfg)).

Definition start_min (cfg : TorConfig) : Z :=
  let minOK := if Z.leb (MinSuccessfulOnStart cfg) 0 then 1%Z else MinSuccessfulOnStart cfg in
  if Z.ltb (MinInstances cfg) minOK then MinInstances cfg else minOK.

Definition Start (cfg : TorConfig) (boots : Z → bool) (env_ok ctx_ok : bool) (ctx : nat) (m : Manager)
    : Manager * option pool_error :=
  if negb env_ok then (m, Some ErrEnvironment)
  else if Z.leb (MinInstances cfg) 0 then (m, None)
  else
    let successes := (λ pb, fresh pb.1 pb.2 ctx)
                       <$> List.filter (λ pb, ctx_ok && boots pb.1)%bool (start_tries cfg) in
    if negb ctx_ok then (m, Some ErrCtx)
    else if Z.ltb (Z.of_nat (length successes)) (start_min cfg) then (m, Some ErrTooFew)
    else (set_instances (instances m ++ successes) m, None).

(** * The scaler *)

Definition scaleDirection (load up down : float64) : Z :=
  if f64_gt load up then 1 else if f64_lt load down then -1 else 0.

(** 0.8, 0.2 and 0.9 as float64 literals. *)
Definition f64_0_8 : float64 := f64_div (f64_of_Z 8) (f64_of_Z 10).
Definition f64_0_2 : float64 := f64_div (f64_of_Z 2) (f64_of_Z 10).
Definition f64_0_9 : float64 := f64_div (f64_of_Z 9) (f64_of_Z 10).

Definition scaleStep (load : float64) : Z := if f64_gt load f64_0_9 then 3 else 1.

Record ScalerConfig := mkScalerConfig {
  ScaleCooldown : duration;
  ScaleUpThreshold : float64;
  ScaleDownThreshold : float64
}.

(** The size evaluate asks for: None when it does nothing. *)
Definition scale_target (cfg : TorConfig) (sc : ScalerConfig) (lastScale now : time) (m : Manager)
    : option Z :=
  let cooldown := if Z.eqb (ScaleCooldown sc) 0 then (60 * Second)%Z else ScaleCooldown sc in
  if (negb (IsZero lastScale) && Z.ltb (time_sub now lastScale) cooldown)%bool then None
  else
    let '(total, alive) := Count m in
    if Nat.eqb alive 0 then None
    else
      let conns := foldl (λ acc t, wrap64 (acc + tiActiveConns t)) 0%Z (instances m) in
      let load := f64_div (f64_of_Z conns) (f64_of_Z (Z.of_nat alive * 70)) in
      let up := if f64_is_zero (ScaleUpThreshold sc) then f64_0_8 else ScaleUpThreshold sc in
      let down := if f64_is_zero (ScaleDownThreshold sc) then f64_0_2 else ScaleDownThreshold sc in
      let dir := scaleDirection load up down in
      if Z.eqb dir 0 then None
      else
        let step := scaleStep load in
        let total := Z.of_nat total in
        let newTarget :=
          if Z.eqb dir 1 then (total + step)%Z
          else if Z.ltb (total - step) (MinInstances cfg) then MinInstances cfg else (total - step)%Z in
        if Z.eqb newTarget total then None else Some newTarget.

(** evaluate: the manager and the new lastScale; [now2] is read after the
    scaling. *)
Definition evaluate (cfg : TorConfig) (sc : ScalerConfig) (boots : Z → bool) (ctx_ok : bool) (ctx : nat)
    (lastScale now now2 : time) (m : Manager) : Manager * time :=
  match scale_target cfg sc lastScale now m with
  | None => (m, lastScale)
  | Some t =>
      match ScaleTo cfg boots ctx_ok ctx t m with
      | (m', None) => (m', now2)
      | (m', Some _) => (m', lastScale)
      end
  end.

(** * Selection *)

Definition pick_step (best : option BackendInfo) (b : BackendInfo) : option BackendInfo :=
  if negb (biAlive b) then best
  else match best with
       | None => Some b
       | Some x => if f64_lt (Score b) (Score x) then Some b else best
       end.

(** [improves b best]: [b] is the running best or beats it. *)
Definition improves (b : BackendInfo) (best : option BackendInfo) : Prop :=
  ∀ y, best = Some y → y = b ∨ f64_lt (Score b) (Score y) = true.

Lemma improves_not_worse b y : improves b (Some y) → f64_lt (Score y) (Score b) = false.
Proof. intros H. destruct (H y eq_refl) as [-> | Hlt]; [apply f64_lt_irrefl|by apply f64_lt_asym]. Qed.

Lemma pick_step_improves b best x :
  improves b (pick_step best x) →
  improves b best ∧ (biAlive x = true → f64_lt (Score x) (Score b) = false).
Proof.
  unfold pick_step. destruct (biAlive x); cbn [negb]; [|done].
  destruct best as [z|]; [destruct (f64_lt (Score x) (Score z)) eqn:E|].
  - intros H. split; [|intros _; by apply improves_not_worse].
    intros y [= <-]. right. destruct (H x eq_refl) as [<- | Hlt]; eauto using f64_lt_trans.
  - intros H. split; [done|]. intros _. destruct (f64_lt (Score x) (Score b)) eqn:E2; [|done].
    destruct (H z eq_refl) as [-> | Hlt]; [by rewrite E in E2|].
    by rewrite (f64_lt_trans _ _ _ E2 Hlt) in E.
  - intros H. split; [done|]. intros _. by apply improves_not_worse.
Qed.

Lemma pick_step_alive best x b :
  pick_step best x = Some b → best = Some b ∨ (b = x ∧ biAlive x = true).
Proof. unfold pick_step. destruct (biAlive x) eqn:?, best; cbn [negb]; try case_match; naive_solver. Qed.

Lemma pick_step_None best x : pick_step best x = None → best = None ∧ biAlive x = false.
Proof. unfold pick_step. destruct (biAlive x) eqn:?, best; cbn [negb]; try case_match; naive_solver. Qed.

Lemma foldl_pick_Some l best b :
  foldl pick_step best l = Some b →
  (best = Some b ∨ (b ∈ l ∧ biAlive b = true)) ∧ improves b best ∧
  (∀ x, x ∈ l → biAlive x = true → f64_lt (Score x) (Score b) = false).
Proof.
  revert best. induction l as [|x l IH]; cbn [foldl]; intros best H.
  - split_and!; [by left| |by intros ? ?%elem_of_nil]. intros y Hy. left. congruence.
  - apply IH in H as (Hin & [Hi Hx]%pick_step_improves & Hl). split_and!; [|done|].
    + destruct Hin as [[?|[-> ?]]%pick_step_alive|[??]]; set_solver.
    + intros y [->|?]%elem_of_cons; auto.
Qed.

Lemma foldl_pick_None l best :
  foldl pick_step best l = None → best = None ∧ Forall (λ x, biAlive x = false) l.
Proof.
  revert best. induction l as [|x l IH]; cbn [foldl]; intros best H; [by split|].
  apply IH in H as [[-> ?]%pick_step_None ?]. split; [done|by constructor].
Qed.

(** The balancer picks a best live backend: a result is a live backend of
    the list and no live backend has a strictly lower score; there is no
    result exactly when no backend is alive. *)
Theorem pick_best_optimal (l : list BackendInfo) :
  match pickBest l with
  | Some b => b ∈ l ∧ biAlive b = true ∧
              ∀ x, x ∈ l → biAlive x = true → f64_lt (Score x) (Score b) = false
  | None => Forall (λ x, biAlive x = false) l
  end.
Proof.
  change (pickBest l) with (foldl pick_step None l).
  destruct (foldl pick_step None l) as [b|] eqn:E.
  - apply foldl_pick_Some in E as ([[=]|[??]] & _ & ?). done.
  - by apply foldl_pick_None in E as [_ ?].
Qed.

(** * Ports *)

(** The fuel is enough: among as many consecutive ports as there are used
    ones plus one, some port is free, and the first such is returned. *)
Lemma next_port_cases fuel used p :
  let r := next_port fuel used p in
  (r ∉ used ∧ p ≤ r ∧ ∀ q, p ≤ q < r → q ∈ used)%Z ∨
  (∀ q, p ≤ q < p + Z.of_nat fuel → q ∈ used)%Z.
Proof.
  revert p. induction fuel as [|n IH]; intros p; cbn [next_port]; [right; lia|].
  case_decide as Hp; [|left; split_and!; [done|lia|lia]].
  destruct (IH (p + 1)%Z) as [(Hr & Hle & Hq)|Hall].
  - left. split_and!; [done|lia|]. intros q Hq'. destruct (decide (q = p)) as [-> |]; [done|apply Hq; lia].
  - right. intros q Hq'. destruct (decide (q = p)) as [-> |]; [done|apply Hall; lia].
Qed.

Lemma next_port_free used p :
  let r := next_port (S (size used)) used p in
  r ∉ used ∧ (p ≤ r)%Z ∧ ∀ q, (p ≤ q < r)%Z → q ∈ used.
Proof.
  destruct (next_port_cases (S (size used)) used p) as [H|Hall]; [done|exfalso].
  assert (Hsub : list_to_set (C := gset Z) (seqZ p (Z.of_nat (S (size used)))) ⊆ used).
  { intros q Hq%elem_of_list_to_set%elem_of_seqZ. apply Hall. lia. }
  apply subseteq_size in Hsub. rewrite size_list_to_set in Hsub by apply NoDup_seqZ.
  rewrite length_seqZ in Hsub. lia.
Qed.

Lemma next_port_le used p : (next_port (S (size used)) used p ≤ p + Z.of_nat (size used))%Z.
Proof.
  destruct (next_port_free used p) as (_ & Hle & Hall). set (r := next_port _ _ _) in *.
  assert (Hsub : list_to_set (C := gset Z) (seqZ p (r - p)) ⊆ used).
  { intros q Hq%elem_of_list_to_set%elem_of_seqZ. apply Hall. lia. }
  apply subseteq_size in Hsub. rewrite size_list_to_set in Hsub by apply NoDup_seqZ.
  rewrite length_seqZ in Hsub. lia.
Qed.

Lemma backend_for_Some cfg i : (0 ≤ i)%Z → is_Some (backend_for cfg i).
Proof.
  intros Hi. unfold backend_for. destruct (cfgBackends cfg) as [|b l] eqn:E; [by eexists|].
  pose proof (Z.rem_bound_pos i (Z.of_nat (length (b :: l))) Hi ltac:(cbn [length]; lia)) as Hb.
  cbv zeta. destruct (Z.ltb_spec (Z.rem i (Z.of_nat (length (b :: l)))) 0); [lia|].
  apply lookup_lt_is_Some. lia.
Qed.

(** What a run of the spawning loop for [needed] instances added, whether it
    finished or not. *)
Record added (cfg : TorConfig) (boots : Z → bool) (used : gset Z) (needed : nat)
    (new : list TorInstance) : Prop := {
  added_nodup : NoDup (tiPort <$> new);
  added_each : Forall (λ t, tiPort t ∉ used ∧ (SocksBasePort cfg ≤ tiPort t)%Z ∧
                            boots (tiPort t) = true ∧ tiAlive t = true ∧
                            (tiPort t < SocksBasePort cfg + Z.of_nat (size used + needed))%Z) new
}.

Lemma scale_up_added cfg boots ctx needed used m :
  ∃ new, let '(m', err) := scale_up cfg boots ctx needed used m in
    m' = set_instances (instances m ++ new) m ∧ added cfg boots used needed new ∧
    match err with None => length new = needed | Some _ => length new < needed end.
Proof.
  revert used m. induction needed as [|n IH]; intros used m; cbn [scale_up]; cbv zeta.
  - exists []. split_and!; [by destruct m; unfold set_instances; rewrite app_nil_r| |done].
    split; [apply NoDup_nil_2|apply Forall_nil_2].
  - destruct (next_port_free used (SocksBasePort cfg)) as (Hfree & Hle & _).
    pose proof (next_port_le used (SocksBasePort cfg)) as Htop.
    set (p := next_port (S (size used)) used (SocksBasePort cfg)) in *.
    assert (Hnone : added cfg boots used (S n) []) by (split; [apply NoDup_nil_2|apply Forall_nil_2]).
    assert (Hm : m = set_instances (instances m ++ []) m)
      by (by destruct m; unfold set_instances; rewrite app_nil_r).
    destruct (backend_for cfg p) as [backend|]; [|exists []; split_and!; [done|done|cbn; lia]].
    unfold spawnInstance. destruct (boots p) eqn:Ep; [|exists []; split_and!; [done|done|cbn; lia]].
    destruct (IH ({[p]} ∪ used) (set_instances (instances m ++ [fresh p backend ctx]) m)) as [new Hnew].
    exists (fresh p backend ctx :: new). destruct (scale_up _ _ _ n _ _) as [m' err].
    destruct Hnew as (-> & [Hnd Hall] & Hlen).
    split_and!; [unfold set_instances; cbn [instances shuttingDown forgotten];
                 by rewrite <- app_assoc| |destruct err; cbn [length]; lia].
    split.
    + cbn [fmap list_fmap tiPort fresh]. apply NoDup_cons. split; [|done].
      intros (t & Ht & Hin)%list_elem_of_fmap. rewrite Forall_forall in Hall.
      destruct (Hall _ Hin) as (Hn & _). apply Hn. rewrite <- Ht. set_solver.
    + rewrite size_union, size_singleton in Hall by set_solver.
      apply Forall_cons_2; [cbn [tiPort tiAlive fresh]; split_and!; [done..|lia]|].
      eapply Forall_impl; [done|]. cbn beta. intros t (Hn&?&?&?&?). split_and!; [set_solver|done..|lia].
Qed.

Lemma scale_up_succeeds cfg boots ctx needed used m :
  (0 ≤ SocksBasePort cfg)%Z → (∀ p, (SocksBasePort cfg ≤ p)%Z → boots p = true) →
  (scale_up cfg boots ctx needed used m).2 = None.
Proof.
  intros Hb Hboots. revert used m. induction needed as [|n IH]; intros used m; [done|].
  cbn [scale_up]. cbv zeta. destruct (next_port_free used (SocksBasePort cfg)) as (_ & Hle & _).
  set (p := next_port _ _ _) in *. destruct (backend_for_Some cfg p ltac:(lia)) as [backend ->].
  unfold spawnInstance. rewrite Hboots by done. apply IH.
Qed.

(** * Scaling *)

Definition scored (l : list TorInstance) : Prop := Forall (λ t, f64_is_nan (instScore t) = false) l.

Lemma sort_instances_perm l : sort_instances l ≡ₚ l.
Proof. apply merge_sort_Permutation. Qed.

#[global] Instance score_le_total : Total score_le.
Proof.
  intros a b. unfold score_le. destruct (f64_lt (instScore b) (instScore a)) eqn:E; [|by left].
  right. by apply f64_lt_asym.
Qed.

(** Without NaN scores the sorted list is ordered throughout, not only
    between neighbours. *)
Lemma sort_instances_ordered l i :
  scored l → ∀ k d, k ∈ take i (sort_instances l) → d ∈ drop i (sort_instances l) → score_le k d.
Proof.
  intros Hs k d. assert (Hs' : scored (sort_instances l)) by (unfold scored; by rewrite sort_instances_perm).
  pose proof (Sorted_merge_sort score_le l) as Hsort.
  change (merge_sort score_le l) with (sort_instances l) in Hsort.
  revert i Hs' Hsort. induction (sort_instances l) as [|x s IH]; intros i Hs' Hsort.
  { by rewrite take_nil; intros ?%elem_of_nil. }
  assert (Hx : ∀ y, y ∈ s → score_le x y).
  { clear IH. revert x Hs' Hsort. induction s as [|z s IHs]; intros x Hs' Hsort y Hy; [by apply elem_of_nil in Hy|].
    apply Sorted_inv in Hsort as [Hsort Hhd]. apply HdRel_inv in Hhd.
    apply Forall_cons in Hs' as [Hnx Hs']. apply elem_of_cons in Hy as [-> |Hy]; [done|].
    assert (Hzy : score_le z y) by (by apply IHs).
    apply Forall_cons in Hs' as [Hnz Hs']. rewrite Forall_forall in Hs'.
    unfold score_le in *. eapply (f64_nlt_trans (instScore x) (instScore z)); eauto. }
  destruct i as [|i]; cbn [take drop]; [by intros ?%elem_of_nil|].
  intros [-> |Hk]%elem_of_cons Hd.
  - apply Hx. rewrite <- (take_drop i s). apply elem_of_app. by right.
  - apply Sorted_inv in Hsort as [Hsort _]. apply Forall_cons in Hs' as [_ Hs']. eauto.
Qed.

Definition ports (m : Manager) : list Z := tiPort <$> instances m.

(** What a scale-down must achieve. *)
Record shrunk (m m' : Manager) (killed : list TorInstance) : Prop := {
  shrunk_split : instances m' ++ killed ≡ₚ instances m;
  shrunk_worst : ∀ k d, k ∈ instances m' → d ∈ killed → f64_lt (instScore d) (instScore k) = false;
  shrunk_forgotten : forgotten m' = forgotten m ++ (tiPort <$> killed)
}.

(** What a scale-up must achieve. *)
Record grown (cfg : TorConfig) (m m' : Manager) (new : list TorInstance) : Prop := {
  grown_app : instances m' = instances m ++ new;
  grown_ports : NoDup (tiPort <$> new) ∧ ∀ t, t ∈ new → tiPort t ∉ ports m;
  grown_alive : Forall (λ t, tiAlive t = true ∧ (SocksBasePort cfg ≤ tiPort t)%Z) new
}.

Lemma scale_down_shrunk m n :
  scored (instances m) →
  shrunk m (mkManager (take n (sort_instances (instances m))) (shuttingDown m)
              (forgotten m ++ (tiPort <$> drop n (sort_instances (instances m)))))
         (drop n (sort_instances (instances m))).
Proof.
  intros Hs. split; cbn [instances forgotten]; [|by apply sort_instances_ordered|done].
  rewrite take_drop. apply sort_instances_perm.
Qed.

Lemma added_grown cfg boots m needed new m' :
  m' = set_instances (instances m ++ new) m →
  added cfg boots (list_to_set (ports m)) needed new → grown cfg m m' new.
Proof.
  intros -> [Hnd Hall]. rewrite Forall_forall in Hall. split; [done| |].
  - split; [done|]. intros t Ht. destruct (Hall t Ht) as (Hn & _). set_solver.
  - rewrite Forall_forall. intros t Ht. destruct (Hall t Ht) as (_ & ? & _ & ? & _). done.
Qed.

(** ScaleTo reaches the clamped target. While the pool is open, the
    caller's context is live and new processes bootstrap, ScaleTo succeeds and
    leaves exactly the requested number of instances, clamped to the
    configured bounds. Shrinking removes instances none of which scores better
    than a kept one and forgets the health state of exactly their ports;
    growing keeps every instance and adds live ones on distinct ports that
    were free and not below the base port. *)
Theorem scale_to_exact (cfg : TorConfig) (boots : Z → bool) (ctx : nat) (target : Z) (m : Manager) :
  (0 ≤ MinInstances cfg)%Z → (0 ≤ SocksBasePort cfg)%Z →
  (∀ p, (SocksBasePort cfg ≤ p)%Z → boots p = true) →
  shuttingDown m = false → scored (instances m) →
  ∃ m', ScaleTo cfg boots true ctx target m = (m', None) ∧
    Z.of_nat (length (instances m')) = clamp cfg target ∧
    ((∃ killed, shrunk m m' killed) ∨ (∃ new, grown cfg m m' new)).
Proof.
  intros Hmin Hbase Hboots Hopen Hs. unfold ScaleTo, doMutation. rewrite Hopen. cbn [negb].
  unfold scaleToLocked. cbv zeta. set (c := clamp cfg target).
  assert (Hc : (0 ≤ c)%Z) by (subst c; unfold clamp; cbv zeta; solve_cases).
  destruct (Z.ltb_spec c (Z.of_nat (length (instances m)))) as [Hlt|Hge].
  - destruct (Z.ltb_spec c 0); [lia|]. eexists. split; [done|]. split.
    + cbn [instances]. rewrite length_take, (Permutation_length (sort_instances_perm _)). lia.
    + left. eexists. by apply scale_down_shrunk.
  - destruct (Z.ltb_spec (Z.of_nat (length (instances m))) c) as [Hlt|Hge'].
    + set (needed := Z.to_nat _). set (used := list_to_set _).
      pose proof (scale_up_succeeds cfg boots ctx needed used m Hbase Hboots) as Hok.
      destruct (scale_up_added cfg boots ctx needed used m) as [new Hnew].
      destruct (scale_up cfg boots ctx needed used m) as [m' err]. cbn [snd] in Hok. subst err.
      destruct Hnew as (Hm' & Hadd & Hlen). exists m'. split; [done|]. split.
      * subst m'. cbn [instances set_instances]. rewrite length_app. lia.
      * right. exists new. by eapply added_grown.
    + exists m. split; [done|]. split; [lia|]. right. exists []. split.
      * by rewrite app_nil_r.
      * split; [apply NoDup_nil_2|by intros ? ?%elem_of_nil].
      * apply Forall_nil_2.
Qed.

(** A pool of three: idle, busy and dead. *)
Definition ex_cfg : TorConfig := mkTorConfig 1 4 9050 [$"a.onion:80"; $"b.onion:80"] 1.
Definition ex_pool : Manager :=
  mkManager [mkTorInstance 9050 ($"a.onion:80") true 40 120 1 10 0;
             mkTorInstance 9051 ($"b.onion:80") false 0 80 5 10 0;
             mkTorInstance 9052 ($"a.onion:80") true 2 90 0 10 0] false [].

Lemma scale_to_exact_witness :
  (∃ m', ScaleTo ex_cfg (λ _, true) true 7 2 ex_pool = (m', None) ∧
    Z.of_nat (length (instances m')) = clamp ex_cfg 2 ∧
    ((∃ killed, shrunk ex_pool m' killed) ∨ (∃ new, grown ex_cfg ex_pool m' new))) ∧
  ports (ScaleTo ex_cfg (λ _, true) true 7 2 ex_pool).1 = [9052; 9050]%Z ∧
  ports (ScaleTo ex_cfg (λ _, true) true 7 9 ex_pool).1 = [9050; 9051; 9052; 9053]%Z.
Proof.
  split; [|by vm_compute].
  apply (scale_to_exact ex_cfg (λ _, true) 7 2 ex_pool); [vm_compute; done|vm_compute; done|done|done|].
  unfold scored. repeat first [apply Forall_nil_2 | apply Forall_cons_2]; by vm_compute.
Defined.

(** * The pool invariant *)

Record pool_inv (cfg : TorConfig) (m : Manager) : Prop := {
  inv_ports : NoDup (ports m);
  inv_base : Forall (λ p, (SocksBasePort cfg ≤ p)%Z) (ports m);
  inv_cap : (0 < MaxInstances cfg)%Z →
            (Z.of_nat (length (instances m)) ≤ Z.max (MinInstances cfg) (MaxInstances cfg))%Z;
  inv_top : (0 < MaxInstances cfg)%Z →
            Forall (λ p, (p < SocksBasePort cfg + Z.max (MinInstances cfg) (MaxInstances cfg))%Z) (ports m);
  inv_down : shuttingDown m = true → instances m = []
}.

Lemma pool_inv_sub cfg m l sd fg :
  pool_inv cfg m → l ⊆+ ports m → (sd = true → shuttingDown m = true) →
  ∀ is', tiPort <$> is' = l → pool_inv cfg (mkManager is' sd fg).
Proof.
  intros [Hnd Hb Hcap Htop Hdown] Hsub Hsd is' <-.
  assert (Hlen : length is' ≤ length (instances m)).
  { apply submseteq_length in Hsub. unfold ports in Hsub. by rewrite !length_fmap in Hsub. }
  split; unfold ports; cbn [instances shuttingDown].
  - destruct (submseteq_Permutation _ _ Hsub) as [k Hk]. rewrite Hk in Hnd. by apply NoDup_app in Hnd as [? _].
  - destruct (submseteq_Permutation _ _ Hsub) as [k Hk]. rewrite Hk in Hb. by apply Forall_app in Hb as [? _].
  - intros Hp. specialize (Hcap Hp). lia.
  - intros Hp. destruct (submseteq_Permutation _ _ Hsub) as [k Hk]. specialize (Htop Hp). rewrite Hk in Htop.
    by apply Forall_app in Htop as [? _].
  - intros Ht. rewrite (Hdown (Hsd Ht)) in Hlen. by destruct is'; [|cbn in Hlen; lia].
Qed.

Lemma pool_inv_same_ports cfg m is' :
  pool_inv cfg m → tiPort <$> is' ≡ₚ ports m → pool_inv cfg (set_instances is' m).
Proof. intros H Hp. eapply pool_inv_sub; [done| |done|done]. by rewrite Hp. Qed.

Lemma take_port_Some port l y r : take_port port l = Some (y, r) → tiPort y = port ∧ l ≡ₚ y :: r.
Proof.
  revert r. induction l as [|x l IH]; cbn [take_port]; intros r; [done|].
  case_decide; [by intros [= <- <-]|].
  destruct (take_port port l) as [[y' r']|]; [|done]. intros [= <- <-].
  destruct (IH r' eq_refl) as [? Hp]. split; [done|]. rewrite Hp. constructor.
Qed.

Lemma take_port_is_Some port l : port ∈ tiPort <$> l → is_Some (take_port port l).
Proof.
  induction l as [|x l IH]; cbn [take_port fmap list_fmap]; [by intros ?%elem_of_nil|].
  intros [-> |Hin]%elem_of_cons; [by rewrite decide_True; eauto|].
  case_decide; [eauto|]. destruct (IH Hin) as [[y r] ->]. eauto.
Qed.

Lemma ReplaceInstance_inv cfg boots ok ctx port m :
  pool_inv cfg m → pool_inv cfg (ReplaceInstance boots ok ctx port m).1.
Proof.
  intros H. unfold ReplaceInstance, doMutation.
  destruct (shuttingDown m) eqn:Hd; [done|]. destruct ok; cbn [negb]; [|done].
  destruct (take_port port (instances m)) as [[dead rest]|] eqn:E; [|done].
  apply take_port_Some in E as [Hport Hperm]. unfold spawnInstance.
  destruct (boots port); cbn [fst].
  - apply (pool_inv_same_ports cfg m (rest ++ [fresh port (tiBackend dead) ctx])); [done|].
    unfold ports. rewrite Hperm, fmap_app. cbn [fmap list_fmap tiPort fresh]. rewrite Hport.
    by rewrite Permutation_app_comm.
  - eapply pool_inv_sub; [done| |done|done]. unfold ports. rewrite Hperm. cbn [fmap list_fmap].
    apply submseteq_cons. done.
Qed.

Lemma ScaleTo_inv cfg boots ok ctx target m :
  pool_inv cfg m → pool_inv cfg (ScaleTo cfg boots ok ctx target m).1.
Proof.
  intros H. unfold ScaleTo, doMutation. destruct (shuttingDown m) eqn:Hd; [done|].
  destruct ok; cbn [negb]; [|done]. unfold scaleToLocked. cbv zeta. set (c := clamp cfg target).
  assert (Hc : (0 < MaxInstances cfg → c ≤ MaxInstances cfg)%Z).
  { subst c. unfold clamp. cbv zeta. intros ?. solve_cases. }
  destruct (Z.ltb_spec c (Z.of_nat (length (instances m)))) as [Hlt|Hge].
  - destruct (Z.ltb c 0); cbn [fst].
    + apply pool_inv_same_ports; [done|]. unfold ports. by rewrite sort_instances_perm.
    + eapply (pool_inv_sub cfg m); [done| |by intros Ht; rewrite Hd in Ht|done].
      unfold ports. rewrite <- (sort_instances_perm (instances m)) at 2.
      rewrite <- (take_drop (Z.to_nat c) (sort_instances (instances m))) at 2.
      rewrite fmap_app. apply submseteq_inserts_r. done.
  - destruct (Z.ltb_spec (Z.of_nat (length (instances m))) c) as [Hlt|Hge']; [|done].
    destruct (scale_up_added cfg boots ctx (Z.to_nat (c - Z.of_nat (length (instances m))))
                (list_to_set (ports m)) m) as [new Hnew].
    unfold ports at 1 in Hnew. destruct (scale_up _ _ _ _ _ m) as [m' err].
    destruct Hnew as (Hm' & Hadd & Hlen). cbn [fst].
    destruct (added_grown _ _ _ _ _ _ Hm' Hadd) as [Happ [Hnd Hfree] Hal].
    destruct H as [Hnd0 Hb0 Hcap0 Htop0 Hdown0]. split; unfold ports; rewrite ?Happ, ?fmap_app.
    + apply NoDup_app. split_and!; [done| |done].
      intros p Hp (t & -> & Ht)%list_elem_of_fmap. by apply (Hfree t).
    + apply Forall_app. split; [done|]. apply Forall_fmap. eapply Forall_impl; [done|]. by cbn; intros ? [? ?].
    + intros Hp. rewrite length_app. specialize (Hc Hp).
      assert (length new ≤ Z.to_nat (c - Z.of_nat (length (instances m)))) by (destruct err; lia). lia.
    + intros Hp. specialize (Hc Hp). apply Forall_app. split; [by apply Htop0|]. apply Forall_fmap.
      destruct Hadd as [_ Heach]. eapply Forall_impl; [exact Heach|]. cbn beta. intros t (_ & _ & _ & _ & Ht).
      rewrite size_list_to_set in Ht by done. unfold ports in Ht. rewrite length_fmap in Ht.
      cbn [compose]. lia.
    + subst m'. cbn. by rewrite Hd.
Qed.

Lemma cancel_ctx_inv cfg ctx m : pool_inv cfg m → pool_inv cfg (cancel_ctx ctx m).
Proof.
  intros H. apply pool_inv_same_ports; [done|]. unfold ports. rewrite <- list_fmap_compose.
  apply Permutation_refl'. apply list_fmap_ext. intros i t _. cbn. by case_decide.
Qed.

Lemma replace_goroutine_inv cfg boots ctx port m :
  pool_inv cfg m → pool_inv cfg (replace_goroutine boots ctx port m).1.
Proof.
  intros H. unfold replace_goroutine.
  pose proof (ReplaceInstance_inv cfg boots true ctx port m H) as Hr.
  destruct (ReplaceInstance _ _ _ _ m). by apply cancel_ctx_inv.
Qed.

Lemma evaluate_inv cfg sc boots ok ctx last now now2 m :
  pool_inv cfg m → pool_inv cfg (evaluate cfg sc boots ok ctx last now now2 m).1.
Proof.
  intros H. unfold evaluate. destruct (scale_target _ _ _ _ _) as [t|]; [|done].
  pose proof (ScaleTo_inv cfg boots ok ctx t m H) as Hs.
  destruct (ScaleTo _ _ _ _ _ m) as [m' [e|]]; done.
Qed.

Lemma filter_fst_sublist {A B} (P : A * B → bool) l : (List.filter P l).*1 `sublist_of` l.*1.
Proof. induction l as [|x l IH]; [constructor|]. cbn. destruct (P x); cbn; by constructor. Qed.

Lemma start_tries_ports cfg : (start_tries cfg).*1 = seqZ (SocksBasePort cfg) (MinInstances cfg).
Proof.
  unfold start_tries, seqZ. rewrite <- list_fmap_compose. apply list_fmap_ext. intros i x _. cbn. lia.
Qed.

Lemma Start_inv cfg boots env_ok ctx_ok ctx :
  pool_inv cfg (Start cfg boots env_ok ctx_ok ctx NewManager).1.
Proof.
  assert (H0 : pool_inv cfg NewManager).
  { split; unfold ports; cbn; [apply NoDup_nil_2|apply Forall_nil_2|lia|intros _; apply Forall_nil_2|done]. }
  unfold Start. destruct env_ok; cbn [negb]; [|done].
  destruct (Z.leb_spec (MinInstances cfg) 0) as [|Hpos]; [done|]. cbv zeta.
  set (l := List.filter _ _). destruct ctx_ok; cbn [negb]; [|done].
  destruct (Z.ltb _ (start_min cfg)); [done|]. cbn [fst app instances NewManager].
  assert (Hp : tiPort <$> ((λ pb, fresh pb.1 pb.2 ctx) <$> l) = l.*1)
    by (rewrite <- list_fmap_compose; by apply list_fmap_ext).
  assert (Hsub : l.*1 `sublist_of` seqZ (SocksBasePort cfg) (MinInstances cfg))
    by (rewrite <- start_tries_ports; apply filter_fst_sublist).
  split; unfold ports; cbn [instances set_instances shuttingDown NewManager]; rewrite ?Hp; [| | | |done].
  - pose proof (NoDup_seqZ (SocksBasePort cfg) (MinInstances cfg)) as Hnd.
    apply sublist_submseteq, submseteq_Permutation in Hsub as [k Hk]. rewrite Hk in Hnd.
    by apply NoDup_app in Hnd as [? _].
  - rewrite Forall_forall. intros p Hin. apply sublist_submseteq in Hsub.
    apply (elem_of_submseteq _ _ _ Hin), elem_of_seqZ in Hsub. lia.
  - intros _. apply sublist_length in Hsub. rewrite length_seqZ, length_fmap in Hsub.
    rewrite length_fmap. lia.
  - intros _. rewrite Forall_forall. intros p Hin. apply sublist_submseteq in Hsub.
    apply (elem_of_submseteq _ _ _ Hin), elem_of_seqZ in Hsub. lia.
Qed.

(** What can happen to a started pool: every operation, with any spawn
    outcomes and contexts, and updates of the atomic counters. *)
Inductive pool_step (cfg : TorConfig) (m : Manager) : Manager → Prop :=
| step_scale boots ok ctx target : pool_step cfg m (ScaleTo cfg boots ok ctx target m).1
| step_replace boots ok ctx port : pool_step cfg m (ReplaceInstance boots ok ctx port m).1
| step_replace_async boots ctx port : pool_step cfg m (replace_goroutine boots ctx port m).1
| step_evaluate sc boots ok ctx last now now2 :
    pool_step cfg m (evaluate cfg sc boots ok ctx last now now2 m).1
| step_cancel ctx : pool_step cfg m (cancel_ctx ctx m)
| step_atomics f : (∀ t, tiPort (f t) = tiPort t) → pool_step cfg m (set_instances (f <$> instances m) m)
| step_shutdown : pool_step cfg m (Shutdown m).

Lemma pool_step_inv cfg m m' : pool_step cfg m m' → pool_inv cfg m → pool_inv cfg m'.
Proof.
  intros Hst Hm; destruct Hst; eauto using ScaleTo_inv, ReplaceInstance_inv, replace_goroutine_inv, evaluate_inv, cancel_ctx_inv.
  - apply pool_inv_same_ports; [done|]. unfold ports. rewrite <- list_fmap_compose.
    apply Permutation_refl'. apply list_fmap_ext. intros i t _. cbn. auto.
  - unfold Shutdown. split; unfold ports; cbn; [apply NoDup_nil_2|apply Forall_nil_2|lia|intros _; apply Forall_nil_2|done].
Qed.

(** C27. The pool stays well formed. However Start went and whatever sequence
    of scalings, replacements, scaler ticks, context cancellations, counter
    updates and shutdown follows, with any spawn failures: no two instances
    share a SOCKS port, no port is below the base port, a configured maximum
    is respected (up to a larger minimum) and bounds the ports as well, and a
    pool that is shutting down holds no instance. *)
Theorem pool_reachable_inv (cfg : TorConfig) (boots : Z → bool) (env_ok ctx_ok : bool) (ctx : nat)
    (m : Manager) :
  rtc (pool_step cfg) (Start cfg boots env_ok ctx_ok ctx NewManager).1 m → pool_inv cfg m.
Proof.
  revert m. apply rtc_ind_r; [apply Start_inv|]. intros m m' _ Hstep H. by eapply pool_step_inv.
Qed.

Lemma pool_reachable_inv_witness :
  pool_inv ex_cfg (ReplaceInstance (λ _, false) true 2 9050 (Start ex_cfg (λ _, true) true true 1 NewManager).1).1.
Proof.
  apply (pool_reachable_inv ex_cfg (λ _, true) true true 1). apply rtc_once. apply step_replace.
Defined.

(** * Replacement *)

(** The replacement of a dead instance is killed as soon as it is up. The
    goroutine started by the health checker runs ReplaceInstance under a
    context of its own and cancels that context when it returns; the new
    process runs under the same context. So after a replacement that
    succeeded, the pool holds an instance on the port again, and it is not
    alive. *)
Theorem replacement_dies (boots : Z → bool) (ctx : nat) (port : Z) (m : Manager) :
  shuttingDown m = false → port ∈ ports m → NoDup (ports m) → boots port = true →
  let '(m', err) := replace_goroutine boots ctx port m in
  err = None ∧ port ∈ ports m' ∧
  ∀ t, t ∈ instances m' → tiPort t = port → tiAlive t = false.
Proof.
  intros Hopen Hin Hnd Hboot. unfold replace_goroutine, ReplaceInstance, doMutation.
  rewrite Hopen. cbn [negb].
  destruct (take_port port (instances m)) as [[dead rest]|] eqn:E.
  - apply take_port_Some in E as [Hport Hperm]. unfold spawnInstance. rewrite Hboot.
    cbn [instances set_instances cancel_ctx]. rewrite fmap_app. cbn [fmap list_fmap fresh tiCtx].
    rewrite decide_True by done. split_and!; [done| |].
    + unfold ports, cancel_ctx. cbn [instances set_instances]. rewrite !fmap_app. cbn [fmap list_fmap].
      rewrite decide_True by done. cbn [tiPort fresh]. apply elem_of_app. right. by apply list_elem_of_singleton.
    + unfold ports in Hnd. rewrite Hperm in Hnd. cbn [fmap list_fmap] in Hnd.
      apply NoDup_cons in Hnd as [Hni _]. intros t [Ht|Ht]%elem_of_app Hp.
      * exfalso. apply Hni. apply list_elem_of_fmap in Ht as (t0 & -> & Ht0).
        apply list_elem_of_fmap. exists t0. split; [|done]. rewrite Hport, <- Hp. by case_decide.
      * apply list_elem_of_singleton in Ht as ->. done.
  - exfalso. apply take_port_is_Some in Hin as [? Hs]. congruence.
Qed.

Lemma replacement_dies_witness :
  let '(m', err) := replace_goroutine (λ _, true) 9 9051 ex_pool in
  err = None ∧ (9051 ∈ ports m')%Z ∧
  ∀ t, t ∈ instances m' → tiPort t = 9051%Z → tiAlive t = false.
Proof.
  apply (replacement_dies (λ _, true) 9 9051 ex_pool); [done|decide_now|decide_now|done].
Defined.

Lemma take_port_None port l : port ∉ tiPort <$> l → take_port port l = None.
Proof.
  induction l as [|x l IH]; cbn [take_port fmap list_fmap]; [done|]. intros Hn.
  rewrite decide_False by set_solver. rewrite IH by set_solver. done.
Qed.

(** A replacement that fails to bootstrap is final. The instance has
    already left the pool, so the pool stays one smaller, and every later
    replacement of the port fails with "no instance on port", whatever the
    next bootstrap would do: no later tick retries it. *)
Theorem failed_replacement_final (boots boots' : Z → bool) (ctx ctx' : nat) (port : Z) (m : Manager) :
  shuttingDown m = false → port ∈ ports m → NoDup (ports m) → boots port = false →
  let '(m', err) := ReplaceInstance boots true ctx port m in
  err = Some (ErrSpawn port) ∧ length (instances m') = length (instances m) - 1 ∧
  ReplaceInstance boots' true ctx' port m' = (m', Some ErrNoInstance).
Proof.
  intros Hopen Hin Hnd Hboot. unfold ReplaceInstance, doMutation. rewrite Hopen. cbn [negb].
  destruct (take_port port (instances m)) as [[dead rest]|] eqn:E.
  - apply take_port_Some in E as [Hport Hperm]. unfold spawnInstance. rewrite Hboot.
    cbn [instances set_instances shuttingDown]. rewrite Hopen. split_and!; [done| |].
    + rewrite (Permutation_length Hperm). cbn [length]. lia.
    + rewrite take_port_None; [done|]. unfold ports in Hnd. rewrite Hperm in Hnd.
      cbn [fmap list_fmap] in Hnd. apply NoDup_cons in Hnd as [Hni _]. by rewrite Hport in Hni.
  - exfalso. apply take_port_is_Some in Hin as [? Hs]. congruence.
Qed.

Lemma failed_replacement_final_witness :
  let '(m', err) := ReplaceInstance (λ _, false) true 9 9051 ex_pool in
  err = Some (ErrSpawn 9051) ∧ length (instances m') = length (instances ex_pool) - 1 ∧
  ReplaceInstance (λ _, true) true 10 9051 m' = (m', Some ErrNoInstance).
Proof.
  apply (failed_replacement_final (λ _, false) (λ _, true) 9 10 9051 ex_pool);
    [done|decide_now|decide_now|done].
Defined.
