(* ===== verification/Health.v ===== *)
(** Health checking of the Tor pool (src/internal/torpool/health.go): failure
    counters, quarantine with a grace period, replacement, and forgetting a
    port.

    The outcome of a probe (does the SOCKS dialer exist, did an HTTP response
    arrive, how long did it take, what is the time afterwards) is an input.
    A replace flag is an object the goroutine keeps a pointer to: it carries
    an identity, and storing into a flag that is no longer in the map changes
    nothing. *)

From S2P Require Import Prelude Float TorPool.

(** * Failure counters *)

Record failureTracker := mkTracker { consecutive : Z; threshold : Z }.

Definition recordFailure (f : failureTracker) : failureTracker :=
  mkTracker (wrap64 (consecutive f + 1)) (threshold f).
Definition recordSuccess (f : failureTracker) : failureTracker := mkTracker 0 (threshold f).
Definition reset (f : failureTracker) : failureTracker := mkTracker 0 (threshold f).
Definition isDead (f : failureTracker) : bool := Z.leb (threshold f) (consecutive f).

(** * The checker *)

Record quarantineEntry := mkQuarantine { since : time; expiresAt : time }.

Record HealthChecker := mkHealthChecker {
  quarantineGrace : duration;
  trackers : gmap Z failureTracker;
  probeTransports : gset Z;
  replacing : gmap Z (nat * bool);
  quarantined : gmap Z quarantineEntry;
  nextFlag : nat
}.

Definition NewHealthCheckerWithGrace (grace : duration) : HealthChecker :=
  mkHealthChecker grace ∅ ∅ ∅ ∅ 0.
Definition NewHealthChecker : HealthChecker := NewHealthCheckerWithGrace (5 * Minute).

Definition set_tracker (port : Z) (t : failureTracker) (h : HealthChecker) : HealthChecker :=
  mkHealthChecker (quarantineGrace h) (<[port := t]> (trackers h)) (probeTransports h) (replacing h)
                  (quarantined h) (nextFlag h).
Definition set_transports (s : gset Z) (h : HealthChecker) : HealthChecker :=
  mkHealthChecker (quarantineGrace h) (trackers h) s (replacing h) (quarantined h) (nextFlag h).
Definition set_quarantined (q : gmap Z quarantineEntry) (h : HealthChecker) : HealthChecker :=
  mkHealthChecker (quarantineGrace h) (trackers h) (probeTransports h) (replacing h) q (nextFlag h).
Definition set_replacing (r : gmap Z (nat * bool)) (n : nat) (h : HealthChecker) : HealthChecker :=
  mkHealthChecker (quarantineGrace h) (trackers h) (probeTransports h) r (quarantined h) n.

(** trackerFor: LoadOrStore. *)
Definition trackerFor (port : Z) (h : HealthChecker) : HealthChecker * failureTracker :=
  match trackers h !! port with
  | Some t => (h, t)
  | None => let t := mkTracker 0 3 in (set_tracker port t h, t)
  end.

Definition quarantinedEntry (port : Z) (h : HealthChecker) : option quarantineEntry :=
  quarantined h !! port.
Definition clearQuarantine (port : Z) (h : HealthChecker) : HealthChecker :=
  set_quarantined (delete port (quarantined h)) h.
Definition removeProbeTransport (port : Z) (h : HealthChecker) : HealthChecker :=
  set_transports (probeTransports h ∖ {[port]}) h.

(** ForgetPort clears the four per-port maps. *)
Definition ForgetPort (port : Z) (h : HealthChecker) : HealthChecker :=
  mkHealthChecker (quarantineGrace h) (delete port (trackers h)) (probeTransports h ∖ {[port]})
                  (delete port (replacing h)) (delete port (quarantined h)) (nextFlag h).

(** One probe as the checker experiences it. *)
Record probe := mkProbe {
  pr_dialer : bool;
  pr_response : bool;
  pr_latency : Z;
  pr_now : time
}.

Definition getProbeTransport (port : Z) (dialer : bool) (h : HealthChecker) : HealthChecker * bool :=
  if decide (port ∈ probeTransports h) then (h, true)
  else if dialer then (set_transports ({[port]} ∪ probeTransports h) h, true)
  else (h, false).

(** probeTorSOCKS: true is a nil error. *)
Definition probeTorSOCKS (port : Z) (p : probe) (h : HealthChecker) : HealthChecker * bool :=
  let '(h1, ok) := getProbeTransport port (pr_dialer p) h in (h1, (ok && pr_response p)%bool).

(** replaceAsync up to the start of the goroutine: the identity of the flag
    it holds when one is started. *)
Definition replaceAsync (port : Z) (h : HealthChecker) : HealthChecker * option nat :=
  let '(fid, busy) := match replacing h !! port with
                      | Some fl => fl
                      | None => (nextFlag h, false)
                      end in
  let next := match replacing h !! port with Some _ => nextFlag h | None => S (nextFlag h) end in
  if busy then (h, None)
  else (set_replacing (<[port := (fid, true)]> (replacing h)) next h, Some fid).

(** flag.Store(false) through the goroutine's pointer. *)
Definition clear_flag (port : Z) (fid : nat) (h : HealthChecker) : HealthChecker :=
  match replacing h !! port with
  | Some (fid', _) => if decide (fid = fid')
                      then set_replacing (<[port := (fid, false)]> (replacing h)) (nextFlag h) h else h
  | None => h
  end.

(** The goroutine itself. *)
Definition replace_worker (boots : Z → bool) (ctx : nat) (port : Z) (fid : nat) (h : HealthChecker) (m : Manager)
    : HealthChecker * Manager :=
  let '(m', err) := replace_goroutine boots ctx port m in
  let h1 := match err with
            | Some _ => h
            | None => match trackers h !! port with
                      | Some t => set_tracker port (reset t) h
                      | None => h
                      end
            end in
  (clear_flag port fid h1, m').

Definition set_alive (b : bool) (t : TorInstance) : TorInstance :=
  mkTorInstance (tiPort t) (tiBackend t) b (tiActiveConns t) (tiLatencyMs t) (tiErrorCount t)
                (tiTotalCount t) (tiCtx t).

(** What a check did: the instant, whether the probe failed, and whether it
    called replaceAsync. *)
Record checked := mkChecked { ck_now : time; ck_failed : bool; ck_escalated : bool }.

(** checkOne. *)
Definition checkOne (p : probe) (h : HealthChecker) (inst : TorInstance)
    : HealthChecker * TorInstance * checked :=
  let port := tiPort inst in
  let '(h1, tracker) := trackerFor port h in
  let '(h2, ok) := probeTorSOCKS port p h1 in
  let inst1 := mkTorInstance port (tiBackend inst) (tiAlive inst) (tiActiveConns inst) (tiLatencyMs inst)
                 (tiErrorCount inst) (wrap64 (tiTotalCount inst + 1)) (tiCtx inst) in
  if negb ok then
    let inst2 := mkTorInstance port (tiBackend inst) (tiAlive inst) (tiActiveConns inst) (tiLatencyMs inst)
                   (wrap64 (tiErrorCount inst + 1)) (wrap64 (tiTotalCount inst + 1)) (tiCtx inst) in
    let tracker' := recordFailure tracker in
    let h3 := set_tracker port tracker' h2 in
    if negb (isDead tracker') then (h3, inst2, mkChecked (pr_now p) true false)
    else
      let inst3 := set_alive false inst2 in
      let h4 := removeProbeTransport port h3 in
      if Z.leb (quarantineGrace h4) 0
      then ((replaceAsync port h4).1, inst3, mkChecked (pr_now p) true true)
      else match quarantinedEntry port h4 with
           | Some q =>
               if After (pr_now p) (expiresAt q)
               then ((replaceAsync port (clearQuarantine port h4)).1, inst3, mkChecked (pr_now p) true true)
               else (h4, inst3, mkChecked (pr_now p) true false)
           | None =>
               (set_quarantined (<[port := mkQuarantine (pr_now p) (time_add (pr_now p) (quarantineGrace h4))]>
                                   (quarantined h4)) h4,
                inst3, mkChecked (pr_now p) true false)
           end
  else
    let h3 := clearQuarantine port (set_tracker port (recordSuccess tracker) h2) in
    (h3, mkTorInstance port (tiBackend inst) true (tiActiveConns inst) (pr_latency p) (tiErrorCount inst)
           (wrap64 (tiTotalCount inst + 1)) (tiCtx inst),
     mkChecked (pr_now p) false false).

(** Successive ticks for one instance. *)
Definition check_run (ps : list probe) (h : HealthChecker) (inst : TorInstance)
    : HealthChecker * TorInstance * list checked :=
  foldl (λ '(h, inst, hist) p, let '(h', inst', c) := checkOne p h inst in (h', inst', hist ++ [c]))
        (h, inst, []) ps.

(** Ticks of several instances, in any interleaving: checkAll runs one
    goroutine per instance. *)
Definition check_ports (tr : list (Z * probe)) (s : HealthChecker * gmap Z TorInstance)
    : HealthChecker * gmap Z TorInstance :=
  foldl (λ '(h, insts) '(port, p),
           match insts !! port with
           | Some inst => let '(h', inst', _) := checkOne p h inst in (h', <[port := inst']> insts)
           | None => (h, insts)
           end) s tr.

(** The health checker's part of a scale-down: ForgetPort for every killed
    port (see scaleToLocked). *)
Definition forget_all (ports : list Z) (h : HealthChecker) : HealthChecker := foldl (λ h p, ForgetPort p h) h ports.

(** checkAll on the instances of the pool, each with the outcome of its
    probe, in list order. *)
Definition checkAll (outcome : Z → probe) (h : HealthChecker) (m : Manager) : HealthChecker * Manager :=
  let '(h', l) := foldl (λ '(h, acc) inst, let '(h', inst', _) := checkOne (outcome (tiPort inst)) h inst in
                                           (h', acc ++ [inst'])) (h, []) (instances m) in
  (h', set_instances l m).

(** * The state of one port *)

(** Everything the checker keeps about a port; of a replace flag only its
    value matters. *)
Record port_state := mkPortState {
  ps_tracker : option failureTracker;
  ps_transport : bool;
  ps_flag : option bool;
  ps_quarantine : option quarantineEntry
}.

Definition view (h : HealthChecker) (port : Z) : port_state :=
  mkPortState (trackers h !! port) (bool_decide (port ∈ probeTransports h))
              (snd <$> replacing h !! port) (quarantined h !! port).

Definition unknown_port : port_state := mkPortState None false None None.

(** The specification of a check, on the state of its port alone. *)
Definition check_spec (grace : duration) (p : probe) (v : port_state) (inst : TorInstance)
    : port_state * TorInstance * checked :=
  let tr := default (mkTracker 0 3) (ps_tracker v) in
  let transport := (ps_transport v || pr_dialer p)%bool in
  let total := wrap64 (tiTotalCount inst + 1) in
  let inst' alive latency errors :=
    mkTorInstance (tiPort inst) (tiBackend inst) alive (tiActiveConns inst) latency errors total (tiCtx inst) in
  if (transport && pr_response p)%bool then
    (mkPortState (Some (recordSuccess tr)) transport (ps_flag v) None,
     inst' true (pr_latency p) (tiErrorCount inst), mkChecked (pr_now p) false false)
  else
    let tr' := Some (recordFailure tr) in
    let errors := wrap64 (tiErrorCount inst + 1) in
    if negb (isDead (recordFailure tr)) then
      (mkPortState tr' transport (ps_flag v) (ps_quarantine v),
       inst' (tiAlive inst) (tiLatencyMs inst) errors, mkChecked (pr_now p) true false)
    else
      let dead := inst' false (tiLatencyMs inst) errors in
      if Z.leb grace 0 then
        (mkPortState tr' false (Some true) (ps_quarantine v), dead, mkChecked (pr_now p) true true)
      else match ps_quarantine v with
           | None => (mkPortState tr' false (ps_flag v)
                        (Some (mkQuarantine (pr_now p) (time_add (pr_now p) grace))),
                      dead, mkChecked (pr_now p) true false)
           | Some q =>
               if After (pr_now p) (expiresAt q)
               then (mkPortState tr' false (Some true) None, dead, mkChecked (pr_now p) true true)
               else (mkPortState tr' false (ps_flag v) (Some q), dead, mkChecked (pr_now p) true false)
           end.

(** ** Views of the primitive updates *)

Section Views.
Implicit Types (h : HealthChecker) (port q : Z).

Lemma view_set_tracker port t h q :
  view (set_tracker port t h) q =
  if decide (q = port)
  then mkPortState (Some t) (ps_transport (view h q)) (ps_flag (view h q)) (ps_quarantine (view h q))
  else view h q.
Proof.
  unfold view, set_tracker. cbn. case_decide; subst; by rewrite ?lookup_insert_eq, ?lookup_insert_ne by done.
Qed.

Lemma view_set_quarantined_insert port e h q :
  view (set_quarantined (<[port := e]> (quarantined h)) h) q =
  if decide (q = port)
  then mkPortState (ps_tracker (view h q)) (ps_transport (view h q)) (ps_flag (view h q)) (Some e)
  else view h q.
Proof.
  unfold view, set_quarantined. cbn. case_decide; subst; by rewrite ?lookup_insert_eq, ?lookup_insert_ne by done.
Qed.

Lemma view_clearQuarantine port h q :
  view (clearQuarantine port h) q =
  if decide (q = port)
  then mkPortState (ps_tracker (view h q)) (ps_transport (view h q)) (ps_flag (view h q)) None
  else view h q.
Proof.
  unfold view, clearQuarantine, set_quarantined. cbn.
  case_decide; subst; by rewrite ?lookup_delete_eq, ?lookup_delete_ne by done.
Qed.

Lemma view_removeProbeTransport port h q :
  view (removeProbeTransport port h) q =
  if decide (q = port)
  then mkPortState (ps_tracker (view h q)) false (ps_flag (view h q)) (ps_quarantine (view h q))
  else view h q.
Proof.
  unfold view, removeProbeTransport, set_transports. cbn. case_decide; subst; f_equal.
  - apply bool_decide_eq_false. set_solver.
  - apply bool_decide_ext. set_solver.
Qed.

Lemma view_replaceAsync port h q :
  view (replaceAsync port h).1 q =
  if decide (q = port)
  then mkPortState (ps_tracker (view h q)) (ps_transport (view h q)) (Some true) (ps_quarantine (view h q))
  else view h q.
Proof.
  unfold replaceAsync. destruct (replacing h !! port) as [[fid busy]|] eqn:E; [destruct busy|];
    unfold view, set_replacing; cbn; case_decide; subst;
    by rewrite ?lookup_insert_eq, ?lookup_insert_ne, ?E by done.
Qed.

Lemma view_getProbeTransport port d h q :
  view (getProbeTransport port d h).1 q =
  (if decide (q = port)
   then mkPortState (ps_tracker (view h q)) (ps_transport (view h q) || d) (ps_flag (view h q))
                    (ps_quarantine (view h q))
   else view h q) ∧
  (getProbeTransport port d h).2 = (ps_transport (view h port) || d)%bool.
Proof.
  unfold getProbeTransport, view, set_transports. case_decide as Hin.
  - rewrite (bool_decide_eq_true_2 (port ∈ _)) by done. cbn. split; [|done].
    case_decide; [subst|done]. by rewrite bool_decide_eq_true_2.
  - rewrite (bool_decide_eq_false_2 (port ∈ _)) by done. cbn. split; [|by destruct d].
    destruct d; cbn; case_decide; subst; f_equal.
    + rewrite orb_true_r. apply bool_decide_eq_true. set_solver.
    + apply bool_decide_ext. set_solver.
    + by rewrite orb_false_r.
Qed.

Lemma view_trackerFor port h q :
  view (trackerFor port h).1 q =
  (if decide (q = port)
   then mkPortState (Some (default (mkTracker 0 3) (ps_tracker (view h q)))) (ps_transport (view h q))
                    (ps_flag (view h q)) (ps_quarantine (view h q))
   else view h q) ∧
  (trackerFor port h).2 = default (mkTracker 0 3) (ps_tracker (view h port)).
Proof.
  unfold trackerFor. destruct (trackers h !! port) as [t|] eqn:E.
  - unfold view. rewrite E. cbn. split; [|done]. case_decide; subst; by rewrite ?E.
  - cbn. rewrite E. split; [|done]. rewrite view_set_tracker. case_decide; subst; [|done]. cbn. by rewrite E.
Qed.

Lemma grace_trackerFor port h : quarantineGrace (trackerFor port h).1 = quarantineGrace h.
Proof. unfold trackerFor. by case_match. Qed.

Lemma grace_getProbeTransport port d h : quarantineGrace (getProbeTransport port d h).1 = quarantineGrace h.
Proof. unfold getProbeTransport. case_decide; [done|by destruct d]. Qed.

Lemma grace_replaceAsync port h : quarantineGrace (replaceAsync port h).1 = quarantineGrace h.
Proof. unfold replaceAsync. by destruct (replacing h !! port) as [[? []]|]. Qed.
End Views.

Create Rewrite HintDb health.
#[export] Hint Rewrite view_set_tracker view_set_quarantined_insert view_clearQuarantine
  view_removeProbeTransport view_replaceAsync grace_trackerFor grace_getProbeTransport grace_replaceAsync : health.

(** [view_cases H2] closes a branch of checkOne: the unchanged grace, the view
    of its own port and the view of any other. *)
Ltac view_cases H2 :=
  split_and!;
    [ autorewrite with health; cbn; congruence
    | autorewrite with health; rewrite !decide_True by done; rewrite H2, decide_True by done; cbn; try done
    | let q := fresh in let Hq := fresh in
      intros q Hq; autorewrite with health; rewrite ?(decide_False (P := q = _)) by done;
      rewrite H2, decide_False by done; done ].

(** checkOne is the specification on its own port and the identity on every
    other. *)
Lemma checkOne_view p h inst :
  let '(h', inst', c) := checkOne p h inst in
  quarantineGrace h' = quarantineGrace h ∧
  (view h' (tiPort inst), inst', c) = check_spec (quarantineGrace h) p (view h (tiPort inst)) inst ∧
  ∀ q, q ≠ tiPort inst → view h' q = view h q.
Proof.
  unfold checkOne, probeTorSOCKS. cbv zeta.
  pose proof (view_trackerFor (tiPort inst) h) as Ht. pose proof (grace_trackerFor (tiPort inst) h) as Hg.
  destruct (trackerFor (tiPort inst) h) as [h1 tr]. cbn [fst snd] in Ht, Hg.
  pose proof (view_getProbeTransport (tiPort inst) (pr_dialer p) h1) as Hx.
  pose proof (grace_getProbeTransport (tiPort inst) (pr_dialer p) h1) as Hgx.
  destruct (getProbeTransport (tiPort inst) (pr_dialer p) h1) as [h2 ok]. cbn [fst snd] in Hx, Hgx.
  assert (H2 : ∀ q, view h2 q = if decide (q = tiPort inst)
     then mkPortState (Some tr) (ps_transport (view h q) || pr_dialer p) (ps_flag (view h q)) (ps_quarantine (view h q))
     else view h q).
  { intros q. destruct (Hx q) as [-> _], (Ht q) as [-> ->]. by case_decide; subst. }
  destruct (Hx (tiPort inst)) as [_ ->], (Ht (tiPort inst)) as [E Etr]. rewrite E. clear E Hx Ht.
  rewrite decide_True by done. cbn [ps_transport]. unfold check_spec. cbv zeta. rewrite <- Etr.
  destruct ((ps_transport (view h (tiPort inst)) || pr_dialer p) && pr_response p)%bool eqn:Eok; cbn [negb].
  - view_cases H2.
  - destruct (isDead (recordFailure tr)) eqn:Ed; cbn [negb]; [|view_cases H2].
    assert (Hq : quarantinedEntry (tiPort inst)
              (removeProbeTransport (tiPort inst) (set_tracker (tiPort inst) (recordFailure tr) h2))
            = ps_quarantine (view h (tiPort inst))).
    { change (ps_quarantine (view h2 (tiPort inst)) = ps_quarantine (view h (tiPort inst))).
      by rewrite H2, decide_True by done. }
    assert (Hg2 : quarantineGrace (removeProbeTransport (tiPort inst)
              (set_tracker (tiPort inst) (recordFailure tr) h2)) = quarantineGrace h) by (cbn; congruence).
    rewrite Hq, Hg2. destruct (Z.leb (quarantineGrace h) 0); [view_cases H2|].
    destruct (ps_quarantine (view h (tiPort inst))) as [q|] eqn:Eq; [|view_cases H2].
    destruct (After (pr_now p) (expiresAt q)); view_cases H2. cbn in Eq. by rewrite Eq.
Qed.

(** * Independence of the ports *)

Definition own (port : Z) (tr : list (Z * probe)) : list (Z * probe) :=
  List.filter (λ x, bool_decide (x.1 = port)) tr.

(** Two states that agree on a port: the grace, the checker's state of the
    port and the instance. *)
Definition agree (port : Z) (s1 s2 : HealthChecker * gmap Z TorInstance) : Prop :=
  quarantineGrace s1.1 = quarantineGrace s2.1 ∧ view s1.1 port = view s2.1 port ∧ s1.2 !! port = s2.2 !! port.

(** Instances are stored under their own port. *)
Definition keyed (insts : gmap Z TorInstance) : Prop := map_Forall (λ port t, tiPort t = port) insts.

Lemma checkOne_port p h inst : tiPort (checkOne p h inst).1.2 = tiPort inst.
Proof.
  pose proof (checkOne_view p h inst) as Hv. destruct (checkOne p h inst) as [[h' inst'] c].
  destruct Hv as (_ & Hs & _). unfold check_spec in Hs. cbv zeta in Hs. cbn [fst snd].
  repeat case_match; by simplify_eq/=.
Qed.

Lemma check_ports_keyed tr s : keyed s.2 → keyed (check_ports tr s).2.
Proof.
  revert s. induction tr as [|[port p] tr IH]; intros [h insts] Hk; [done|]. cbn [check_ports foldl].
  apply IH. destruct (insts !! port) as [inst|] eqn:E; [|done].
  pose proof (checkOne_port p h inst) as Hp. destruct (checkOne p h inst) as [[h' inst'] c]. cbn in *.
  apply map_Forall_insert_2; [|done]. by rewrite Hp, (Hk _ _ E).
Qed.

Lemma check_ports_step port p s1 s2 :
  keyed s1.2 → keyed s2.2 → agree port s1 s2 →
  agree port (check_ports [(port, p)] s1) (check_ports [(port, p)] s2).
Proof.
  destruct s1 as [h1 i1], s2 as [h2 i2]. unfold agree. cbn [fst snd check_ports foldl].
  intros Hk1 _ (Hg & Hv & Hi). rewrite <- Hi. destruct (i1 !! port) as [inst|] eqn:E; [|cbn; split_and!; congruence].
  pose proof (Hk1 _ _ E) as Hp. cbn in Hp. subst port.
  pose proof (checkOne_view p h1 inst) as H1. pose proof (checkOne_view p h2 inst) as H2.
  destruct (checkOne p h1 inst) as [[h1' t1] c1], (checkOne p h2 inst) as [[h2' t2] c2].
  destruct H1 as (Hg1 & Hs1 & _), H2 as (Hg2 & Hs2 & _). rewrite <- Hg, <- Hv, <- Hs1 in Hs2.
  apply pair_equal_spec in Hs2 as [[Hvv ->]%pair_equal_spec _].
  cbn [fst snd]. rewrite !lookup_insert_eq. split_and!; congruence.
Qed.

Lemma check_ports_other port port' p s : keyed s.2 → port' ≠ port → agree port (check_ports [(port', p)] s) s.
Proof.
  destruct s as [h insts]. unfold agree. cbn [fst snd check_ports foldl]. intros Hk Hne.
  destruct (insts !! port') as [inst|] eqn:E; [|done].
  pose proof (Hk _ _ E) as Hp. cbn in Hp. pose proof (checkOne_view p h inst) as H1.
  destruct (checkOne p h inst) as [[h' t] c]. destruct H1 as (Hg & _ & Ho). cbn.
  rewrite lookup_insert_ne by done. split_and!; [done|apply Ho; congruence|done].
Qed.

Lemma check_ports_cons x tr s : check_ports (x :: tr) s = check_ports tr (check_ports [x] s).
Proof. done. Qed.

(** The ports are checked independently. For any interleaving of the
    checks of all instances, what the checker knows about a port afterwards,
    and the instance's own state, is what the checks of that port alone
    produce: the parallel goroutines of a tick cannot affect each other. *)
Theorem health_ports_independent (port : Z) (tr : list (Z * probe)) (h : HealthChecker)
    (insts : gmap Z TorInstance) :
  keyed insts → agree port (check_ports tr (h, insts)) (check_ports (own port tr) (h, insts)).
Proof.
  assert (Hgen : ∀ s1 s2, keyed s1.2 → keyed s2.2 → agree port s1 s2 →
                          agree port (check_ports tr s1) (check_ports (own port tr) s2)).
  { induction tr as [|[port' p] tr IH]; intros s1 s2 Hk1 Hk2 Ha; [done|].
    rewrite check_ports_cons. unfold own. cbn [List.filter fst].
    pose proof (check_ports_keyed [(port', p)] s1 Hk1). case_bool_decide as Hp.
    - subst port'. rewrite check_ports_cons.
      apply IH; [done|exact (check_ports_keyed [(port, p)] s2 Hk2)|by apply check_ports_step].
    - apply IH; [done|done|]. destruct (check_ports_other port port' p s1 Hk1 Hp) as (?&?&?).
      destruct Ha as (?&?&?). split_and!; congruence. }
  intros Hk. by apply Hgen.
Qed.

Definition ex_probe (ok : bool) (sec : Z) : probe := mkProbe true ok 80 (sec * Second).

Lemma health_ports_independent_witness :
  let insts : gmap Z TorInstance := {[9050%Z := fresh 9050 [] 0; 9051%Z := fresh 9051 [] 0]} in
  let tr := [(9050, ex_probe false 1); (9051, ex_probe true 2); (9050, ex_probe false 3)]%Z in
  agree 9050 (check_ports tr (NewHealthChecker, insts)) (check_ports (own 9050 tr) (NewHealthChecker, insts)).
Proof.
  cbv zeta. apply (health_ports_independent 9050
    [(9050, ex_probe false 1); (9051, ex_probe true 2); (9050, ex_probe false 3)]%Z NewHealthChecker).
  apply map_Forall_insert_2; [done|]. by apply map_Forall_singleton.
Defined.

(** * Quarantine *)

(** The failures since the last success. *)
Definition fails (hist : list checked) : nat :=
  foldl (λ n c, if ck_failed c then S n else 0) 0 hist.

(** Every check with index in [lo, hi) failed. *)
Definition failing (hist : list checked) (lo hi : nat) : Prop :=
  ∀ k, lo ≤ k < hi → ∃ c, hist !! k = Some c ∧ ck_failed c = true.

(** The check that made the current run of failures reach the threshold. *)
Definition third (hist : list checked) : nat := length hist - fails hist + 2.

(** Check [i] at [c] escalated for a reason: some earlier check, itself the
    third failure in a row or later, started a quarantine; every check since
    failed; and the grace period passed. *)
Definition justified (grace : duration) (hist : list checked) (i : nat) (c : checked) : Prop :=
  ∃ j e, 2 ≤ j < i ∧ hist !! j = Some e ∧ failing hist (j - 2) (S i) ∧ (ck_now e + grace < ck_now c)%Z.

Lemma fails_snoc hist c : fails (hist ++ [c]) = if ck_failed c then S (fails hist) else 0.
Proof. unfold fails. by rewrite foldl_app. Qed.

Lemma failing_app hist c lo hi : failing hist lo hi → failing (hist ++ [c]) lo hi.
Proof. intros H k Hk. destruct (H k Hk) as (d & Hd & ?). exists d. split; [|done]. by apply lookup_app_l_Some. Qed.

Lemma failing_snoc hist c lo :
  failing hist lo (length hist) → ck_failed c = true → failing (hist ++ [c]) lo (S (length hist)).
Proof.
  intros H Hc k Hk. destruct (decide (k = length hist)) as [-> |].
  - exists c. split; [|done]. by rewrite lookup_app_r, Nat.sub_diag.
  - apply (failing_app _ _ _ _ H). lia.
Qed.

Lemma fails_trailing hist : fails hist ≤ length hist ∧ failing hist (length hist - fails hist) (length hist).
Proof.
  induction hist as [|c hist [Hle Hf]] using rev_ind; [by split; [|intros k; cbn; lia]|].
  rewrite fails_snoc, length_app. cbn [length]. destruct (ck_failed c) eqn:Ec.
  - split; [lia|]. replace (length hist + 1 - S (fails hist)) with (length hist - fails hist) by lia.
    replace (length hist + 1) with (S (length hist)) by lia. by apply failing_snoc.
  - split; [lia|]. intros k. lia.
Qed.

Lemma failing_narrow hist lo lo' hi hi' : failing hist lo hi → lo ≤ lo' → hi' ≤ hi → failing hist lo' hi'.
Proof. intros H ?? k Hk. apply H. lia. Qed.

Lemma justified_app grace hist c i d : justified grace hist i d → justified grace (hist ++ [c]) i d.
Proof.
  intros (j & e & Hj & He & Hf & Ht). exists j, e. split_and!; [lia..| | |done].
  - by apply lookup_app_l_Some.
  - by apply failing_app.
Qed.

Record quarantine_inv (grace : duration) (v : port_state) (inst : TorInstance) (hist : list checked) : Prop := {
  qi_tracker : default (mkTracker 0 3) (ps_tracker v) = mkTracker (Z.of_nat (fails hist)) 3;
  qi_alive : tiAlive inst = bool_decide (fails hist < 3);
  qi_low : fails hist < 3 → ps_quarantine v = None;
  qi_entry : ∀ q, ps_quarantine v = Some q →
    expiresAt q = (since q + grace)%Z ∧
    (∀ c, last hist = Some c → (ck_now c ≤ expiresAt q)%Z) ∧
    ∃ j e, 2 ≤ j ∧ hist !! j = Some e ∧ since q = ck_now e ∧ failing hist (j - 2) (length hist);
  qi_third : 3 ≤ fails hist →
    (∃ k c, third hist < k ∧ hist !! k = Some c ∧ ck_escalated c = true) ∨
    (∃ q e, ps_quarantine v = Some q ∧ hist !! third hist = Some e ∧ since q = ck_now e);
  qi_safe : ∀ i c, hist !! i = Some c → ck_escalated c = true → justified grace hist i c
}.

Lemma qi_safe_snoc grace v inst hist c :
  quarantine_inv grace v inst hist →
  (ck_escalated c = true → justified grace (hist ++ [c]) (length hist) c) →
  ∀ i d, (hist ++ [c]) !! i = Some d → ck_escalated d = true → justified grace (hist ++ [c]) i d.
Proof.
  intros Hi Hc i d [[_ Hd]|[-> ->]]%lookup_snoc_Some He; [|by apply Hc].
  apply justified_app. by eapply qi_safe.
Qed.

Lemma third_snoc hist c :
  ck_failed c = true → third (hist ++ [c]) = third hist.
Proof.
  intros Hc. unfold third. rewrite fails_snoc, Hc, length_app. cbn [length].
  pose proof (fails_trailing hist) as [? _]. lia.
Qed.

Lemma lookup_snoc_mid {A} (l : list A) x i y : l !! i = Some y → (l ++ [x]) !! i = Some y.
Proof. apply lookup_app_l_Some. Qed.

Lemma lookup_snoc_end {A} (l : list A) x : (l ++ [x]) !! length l = Some x.
Proof. by rewrite lookup_app_r, Nat.sub_diag. Qed.

(** A failed check that does not escalate and keeps the entry. *)
Lemma qinv_keep grace v v' inst inst' hist c :
  quarantine_inv grace v inst hist →
  ck_failed c = true → ck_escalated c = false →
  default (mkTracker 0 3) (ps_tracker v') = mkTracker (Z.of_nat (S (fails hist))) 3 →
  ps_quarantine v' = ps_quarantine v →
  tiAlive inst' = bool_decide (S (fails hist) < 3) →
  (∀ q, ps_quarantine v = Some q → (ck_now c ≤ expiresAt q)%Z) →
  (ps_quarantine v = None → S (fails hist) < 3) →
  quarantine_inv grace v' inst' (hist ++ [c]).
Proof.
  intros Hi Hf He Ht Hq Ha Hnow Hnone.
  split; rewrite ?fails_snoc, ?Hf, ?third_snoc by done; rewrite ?Hq; [done|done| | | |].
  - intros. eapply qi_low; [done|lia].
  - intros q Eq. destruct (qi_entry _ _ _ _ Hi q Eq) as (? & ? & j & e & Hj & Hje & Hs & Hfail).
    split_and!; [done| |].
    + intros d. rewrite last_snoc. intros [= <-]. by apply Hnow.
    + exists j, e. split_and!; [done|by apply lookup_snoc_mid|done|].
      rewrite length_app, Nat.add_1_r. by apply failing_snoc.
  - intros H3f. destruct (ps_quarantine v) as [q|] eqn:Eq; [|specialize (Hnone eq_refl); lia].
    assert (3 ≤ fails hist) as H3.
    { destruct (decide (fails hist < 3)) as [Hl|]; [|lia]. by rewrite (qi_low _ _ _ _ Hi Hl) in Eq. }
    destruct (qi_third _ _ _ _ Hi H3) as [(k & d & ? & ? & ?)|(q' & e & ? & ? & ?)].
    + left. exists k, d. split_and!; [done|by apply lookup_snoc_mid|done].
    + right. exists q', e. rewrite <- Eq. split_and!; [done|by apply lookup_snoc_mid|done].
  - eapply qi_safe_snoc; [done|]. by rewrite He.
Qed.

(** A successful check. *)
Lemma qinv_success grace v v' inst inst' hist c :
  quarantine_inv grace v inst hist → ck_failed c = false → ck_escalated c = false →
  default (mkTracker 0 3) (ps_tracker v') = mkTracker 0 3 → ps_quarantine v' = None → tiAlive inst' = true →
  quarantine_inv grace v' inst' (hist ++ [c]).
Proof.
  intros Hi Hf He Ht Hq Ha. split; rewrite ?fails_snoc, ?Hf, ?Hq; [done|done|done|done|lia|].
  eapply qi_safe_snoc; [done|]. by rewrite He.
Qed.

(** A failed check that starts a quarantine. *)
Lemma qinv_start grace v v' inst inst' hist c q :
  quarantine_inv grace v inst hist → (0 < grace)%Z → ck_failed c = true → ck_escalated c = false →
  default (mkTracker 0 3) (ps_tracker v') = mkTracker (Z.of_nat (S (fails hist))) 3 →
  ps_quarantine v = None → 3 ≤ S (fails hist) → tiAlive inst' = false →
  ps_quarantine v' = Some q → since q = ck_now c → expiresAt q = (since q + grace)%Z →
  quarantine_inv grace v' inst' (hist ++ [c]).
Proof.
  intros Hi Hg Hf He Ht Hnone H3 Ha Hq Hs Hx.
  split; rewrite ?fails_snoc, ?Hf, ?third_snoc by done; rewrite ?Hq; [done| |lia| | |].
  - rewrite Ha. symmetry. apply bool_decide_eq_false. lia.
  - intros q' [= <-]. split_and!; [done| |].
    + intros d. rewrite last_snoc. intros [= <-]. lia.
    + destruct (fails_trailing hist) as [Hle Htr]. exists (length hist), c.
      split_and!; [lia|apply lookup_snoc_end|done|]. rewrite length_app, Nat.add_1_r.
      apply failing_snoc; [|done]. eapply failing_narrow; [done|lia|lia].
  - intros _. destruct (decide (3 ≤ fails hist)) as [H3'|H3'].
    + destruct (qi_third _ _ _ _ Hi H3') as [(k & d & ? & ? & ?)|(q' & e & Hq' & ? & ?)]; [|congruence].
      left. exists k, d. split_and!; [done|by apply lookup_snoc_mid|done].
    + right. exists q, c. split_and!; [done| |done].
      destruct (fails_trailing hist) as [Hle _]. unfold third.
      replace (length hist - fails hist + 2) with (length hist) by lia. apply lookup_snoc_end.
  - eapply qi_safe_snoc; [done|]. by rewrite He.
Qed.

(** A failed check after the grace period. *)
Lemma qinv_escalate grace v v' inst inst' hist c q :
  quarantine_inv grace v inst hist → ck_failed c = true → ck_escalated c = true →
  default (mkTracker 0 3) (ps_tracker v') = mkTracker (Z.of_nat (S (fails hist))) 3 →
  ps_quarantine v = Some q → (expiresAt q < ck_now c)%Z → tiAlive inst' = false →
  ps_quarantine v' = None → quarantine_inv grace v' inst' (hist ++ [c]).
Proof.
  intros Hi Hf He Ht Hq Hx Ha Hq'.
  assert (3 ≤ fails hist) as H3.
  { destruct (decide (fails hist < 3)) as [Hl|]; [|lia]. by rewrite (qi_low _ _ _ _ Hi Hl) in Hq. }
  destruct (fails_trailing hist) as [Hle _].
  split; rewrite ?fails_snoc, ?Hf, ?third_snoc by done; rewrite ?Hq'; [done| |done|done| |].
  - rewrite Ha. symmetry. apply bool_decide_eq_false. lia.
  - intros _. left. exists (length hist), c. split_and!; [unfold third; lia|apply lookup_snoc_end|done].
  - eapply qi_safe_snoc; [done|]. intros _.
    destruct (qi_entry _ _ _ _ Hi q Hq) as (Hexp & _ & j & e & Hj & Hje & Hs & Hfail).
    exists j, e. split_and!; [done| | | |lia].
    + by apply lookup_lt_Some in Hje.
    + by apply lookup_snoc_mid.
    + by apply failing_snoc.
Qed.

Lemma qinv_step grace p v inst hist :
  (0 < grace)%Z → (Z.of_nat (length hist) < max_int64)%Z → quarantine_inv grace v inst hist →
  let '(v', inst', c) := check_spec grace p v inst in quarantine_inv grace v' inst' (hist ++ [c]).
Proof.
  intros Hg Hb Hi. unfold check_spec. cbv zeta. rewrite (qi_tracker _ _ _ _ Hi).
  destruct (fails_trailing hist) as [Hle _].
  assert (Hrec : recordFailure (mkTracker (Z.of_nat (fails hist)) 3) = mkTracker (Z.of_nat (S (fails hist))) 3).
  { unfold recordFailure. cbn [consecutive threshold]. rewrite wrap64_id; [f_equal; lia|].
    unfold in_int64, min_int64, max_int64 in *. lia. }
  rewrite Hrec. destruct ((_ || _) && _)%bool; [by eapply qinv_success|].
  unfold isDead. cbn [threshold consecutive].
  destruct (Z.leb_spec 3 (Z.of_nat (S (fails hist)))) as [H3|H3]; cbn [negb].
  - destruct (Z.leb_spec grace 0); [lia|]. destruct (ps_quarantine v) as [q|] eqn:Eq.
    + unfold After. destruct (Z.ltb_spec (expiresAt q) (pr_now p)) as [Hx|Hx]; [by eapply qinv_escalate|].
      eapply qinv_keep; try done.
      * cbn. symmetry. apply bool_decide_eq_false. lia.
      * intros q' Hq'. cbn. congruence.
      * congruence.
    + eapply qinv_start; try done. lia.
  - assert (Hq : ps_quarantine v = None) by (eapply qi_low; [done|lia]). eapply qinv_keep; try done.
    + cbn. rewrite (qi_alive _ _ _ _ Hi). apply bool_decide_ext. lia.
    + intros q'. by rewrite Hq.
    + intros _. lia.
Qed.

Lemma check_run_snoc ps p h inst :
  check_run (ps ++ [p]) h inst =
  let '(h1, inst1, hist) := check_run ps h inst in
  let '(h2, inst2, c) := checkOne p h1 inst1 in (h2, inst2, hist ++ [c]).
Proof. unfold check_run. rewrite foldl_app. cbn. by destruct (foldl _ _ ps) as [[??]?]. Qed.

Lemma check_run_inv ps h inst :
  (0 < quarantineGrace h)%Z → (Z.of_nat (length ps) < max_int64)%Z →
  view h (tiPort inst) = unknown_port → tiAlive inst = true →
  let '(h', inst', hist) := check_run ps h inst in
  quarantineGrace h' = quarantineGrace h ∧ tiPort inst' = tiPort inst ∧ length hist = length ps ∧
  quarantine_inv (quarantineGrace h) (view h' (tiPort inst)) inst' hist.
Proof.
  intros Hg Hb Hv Ha. revert Hb. induction ps as [|p ps IH] using rev_ind; intros Hb.
  - cbn. split_and!; [done..|]. rewrite Hv. split; try done; cbn; intros; lia || done.
  - rewrite check_run_snoc. rewrite length_app in Hb |- *. cbn [length] in Hb |- *.
    specialize (IH ltac:(lia)). destruct (check_run ps h inst) as [[h1 inst1] hist].
    destruct IH as (Hg1 & Hp1 & Hl & Hi). pose proof (checkOne_view p h1 inst1) as Hc.
    pose proof (checkOne_port p h1 inst1) as Hp. destruct (checkOne p h1 inst1) as [[h2 inst2] c].
    cbn [fst snd] in Hp. destruct Hc as (Hg2 & Hs & _). rewrite Hg1, Hp1 in Hs.
    pose proof (qinv_step (quarantineGrace h) p _ _ hist Hg ltac:(lia) Hi) as Hstep. rewrite <- Hs in Hstep.
    split_and!; [congruence|congruence|rewrite length_app; cbn; lia|done].
Qed.

(** The quarantine machine. For an instance that starts alive on a port
    the checker knows nothing about, with a positive grace period, after any
    sequence of checks: the instance is in the balancer exactly when fewer
    than three checks in a row have failed; a replacement was requested only
    when a quarantine had begun at the third failure in a row or later, every
    check since had failed and more than the grace period had passed; and once
    a run of failures outlasts its third failure by more than the grace
    period, a replacement has been requested. *)
Theorem quarantine_exact (ps : list probe) (h : HealthChecker) (inst : TorInstance) :
  (0 < quarantineGrace h)%Z → (Z.of_nat (length ps) < max_int64)%Z →
  view h (tiPort inst) = unknown_port → tiAlive inst = true →
  let '(h', inst', hist) := check_run ps h inst in
  tiAlive inst' = bool_decide (fails hist < 3) ∧
  (∀ i c, hist !! i = Some c → ck_escalated c = true → justified (quarantineGrace h) hist i c) ∧
  (∀ e c, 3 ≤ fails hist → hist !! third hist = Some e → last hist = Some c →
     (ck_now e + quarantineGrace h < ck_now c)%Z →
     ∃ k d, third hist < k ∧ hist !! k = Some d ∧ ck_escalated d = true).
Proof.
  intros Hg Hb Hv Ha. pose proof (check_run_inv ps h inst Hg Hb Hv Ha) as Hrun.
  destruct (check_run ps h inst) as [[h' inst'] hist]. destruct Hrun as (_ & _ & _ & Hi).
  split_and!; [eapply qi_alive; done|eapply qi_safe; done|].
  intros e c H3 He Hc Hlt. destruct (qi_third _ _ _ _ Hi H3) as [?|(q & e' & Hq & He' & Hs)]; [done|].
  destruct (qi_entry _ _ _ _ Hi q Hq) as (Hx & Hlast & _). specialize (Hlast c Hc).
  rewrite He in He'. simplify_eq. lia.
Qed.

(** Four failures, the last one after the grace period, escalate. *)
Lemma quarantine_exact_witness :
  let ps := [ex_probe true 0; ex_probe false 30; ex_probe false 60; ex_probe false 90; ex_probe false 400] in
  let '(_, inst', hist) := check_run ps NewHealthChecker (fresh 9050 [] 0) in
  (tiAlive inst' = bool_decide (fails hist < 3) ∧
   (∀ i c, hist !! i = Some c → ck_escalated c = true → justified (5 * Minute) hist i c) ∧
   (∀ e c, 3 ≤ fails hist → hist !! third hist = Some e → last hist = Some c →
      (ck_now e + 5 * Minute < ck_now c)%Z →
      ∃ k d, third hist < k ∧ hist !! k = Some d ∧ ck_escalated d = true)) ∧
  tiAlive inst' = false ∧ (ck_escalated <$> hist) = [false; false; false; false; true].
Proof.
  cbv zeta.
  pose proof (quarantine_exact
    [ex_probe true 0; ex_probe false 30; ex_probe false 60; ex_probe false 90; ex_probe false 400]
    NewHealthChecker (fresh 9050 [] 0) eq_refl eq_refl eq_refl eq_refl) as H.
  assert (Hv : tiAlive (check_run
      [ex_probe true 0; ex_probe false 30; ex_probe false 60; ex_probe false 90; ex_probe false 400]
      NewHealthChecker (fresh 9050 [] 0)).1.2 = false ∧
    (ck_escalated <$> (check_run
      [ex_probe true 0; ex_probe false 30; ex_probe false 60; ex_probe false 90; ex_probe false 400]
      NewHealthChecker (fresh 9050 [] 0)).2) = [false; false; false; false; true]) by (by vm_compute).
  destruct (check_run _ _ _) as [[h' inst'] hist]. split; [exact H|exact Hv].
Defined.
