(* ===== verification/Transport.v ===== *)
(** The proxy's round trip to the Tor pool (src/internal/proxy/transport.go):
    backend choice, retries, body buffering, response limits and the
    accounting in the negative cache.

    What an attempt meets (whether the client is still there, the clock, and
    what the circuit breaker and the HTTP transport return for the rewritten
    request) is an input per attempt. A request body that is not buffered is
    the one reader all attempts share. *)

From S2P Require Import Prelude Float Http Shared FeatureRegistry TorPool NegCache.

(** * Data *)

Record ProxyConfig := mkProxyConfig {
  pcRetryAttempts : Z;
  pcDomain : gostring;
  pcProxySecret : gostring;
  pcBackends : list gostring
}.

(** The cached transports by port and breakers by port and onion. *)
Record TorTransport := mkTorTransport {
  ttTransports : gset Z;
  ttBreakers : gset (Z * gostring);
  ttNegCache : option Cache
}.

Definition NewTorTransport : TorTransport := mkTorTransport ∅ ∅ None.

Definition WithNegCache (c : option Cache) (t : TorTransport) : TorTransport :=
  mkTorTransport (ttTransports t) (ttBreakers t) c.

Definition getTransport (port : Z) (backend : gostring) (t : TorTransport) : TorTransport :=
  mkTorTransport ({[port]} ∪ ttTransports t) ({[(port, backend)]} ∪ ttBreakers t) (ttNegCache t).

Definition RemoveTransport (port : Z) (t : TorTransport) : TorTransport :=
  mkTorTransport (ttTransports t ∖ {[port]}) (filter (λ k, k.1 ≠ port) (ttBreakers t)) (ttNegCache t).

Definition Close (t : TorTransport) : TorTransport := mkTorTransport ∅ ∅ (ttNegCache t).

(** A body handed to an attempt: a fresh reader of the buffered bytes, or the
    inbound reader itself. *)
Inductive out_body := FreshBody (bytes : gostring) | SharedReader | NoBody.

Record OutRequest := mkOutRequest {
  orScheme : gostring;
  orURLHost : gostring;
  orHost : gostring;
  orHeader : header;
  orBody : out_body;
  orInbound : Request
}.

Record UpResponse := mkUpResponse {
  urStatus : Z;
  urHeader : header;
  urTransferEncoding : list gostring;
  urBody : gostring
}.

Inductive upstream := UpErr (err : gostring) | UpResp (resp : UpResponse).

Record AttemptEnv := mkAttemptEnv {
  ae_ctx_ok : bool;
  ae_poll : nat → time;
  ae_up : BackendInfo → OutRequest → upstream;
  ae_fail1 : time;
  ae_fail2 : time
}.

Inductive rt_error :=
| ErrCtxDone | ErrReadBody | ErrRequestBodyTooLarge
| ErrUpstream (err : gostring) | ErrUpstreamStatus (code : Z) | ErrNoBackends.

(** The inbound body: its bytes, and whether reading them fails. *)
Record InBody := mkInBody { ibBytes : gostring; ibReadFails : bool }.

(** * Helpers *)

Definition maxResponseBytes : Z := 52428800.
Definition maxBodyBytes : Z := 4194304.

(** io.LimitReader read to its end. *)
Fixpoint limit_bytes (n : Z) (s : gostring) : gostring :=
  match s with
  | [] => []
  | c :: s' => if Z.leb n 0 then [] else c :: limit_bytes (n - 1) s'
  end.

(** strings.EqualFold against a string of lower-case ASCII letters: besides
    A-Z, the Kelvin sign folds to k and the long s to s. *)
Definition fold_rune (r : Z) : Z :=
  if (Z.leb 65 r && Z.leb r 90)%bool then (r + 32)%Z
  else if Z.eqb r 8490 then 107%Z else if Z.eqb r 383 then 115%Z else r.

Definition EqualFold (s t : gostring) : bool :=
  bool_decide ((fold_rune <$> runes s) = (fold_rune <$> runes t)).

Definition TransferEncoding : gostring := $"Transfer-Encoding".

Definition shouldStream (resp : UpResponse) : bool :=
  if HasPrefix (hdr_get (urHeader resp) ContentType) $"text/event-stream" then true
  else if existsb (λ te, EqualFold te $"chunked") (urTransferEncoding resp) then true
  else EqualFold (hdr_get (urHeader resp) TransferEncoding) $"chunked".

Definition selectBackend (pool : list BackendInfo) : option BackendInfo :=
  foldl (λ best b,
           if negb (biAlive b) then best
           else match best with
                | None => Some b
                | Some x => if f64_lt (Score b) (Score x) then Some b else best
                end) None pool.

Definition preferred (tenantBackends : list gostring) (pool : list BackendInfo) : list BackendInfo :=
  List.filter (λ b, bool_decide (biBackend b ∈ tenantBackends)) pool.

Definition selectTenantBackend (pool : list BackendInfo) (tenantBackends : list gostring)
    : option BackendInfo :=
  match tenantBackends with
  | [] => selectBackend pool
  | _ => match selectBackend (preferred tenantBackends pool) with
         | Some b => Some b
         | None => selectBackend pool
         end
  end.

Definition tenantBackendsFromContext (cfg : ProxyConfig) (tenant : option TenantSnapshot) : list gostring :=
  match tenant with
  | None => []
  | Some _ => pcBackends cfg
  end.

Definition isRetryableStatus (code : Z) : bool :=
  (Z.eqb code 502 || Z.eqb code 503 || Z.eqb code 504)%bool.

Definition methodHasRetryableBody `{GoUnicode} (method : gostring) : bool :=
  bool_decide (ToUpper method ∈ [MethodPost; MethodPut; MethodPatch; MethodDelete]).

Definition recordFailure (t1 t2 : time) (tenant onion : gostring) (nc : option Cache) : option Cache :=
  match nc with
  | None => None
  | Some c => if decide (onion = []) then Some c else Some (RecordFailure t1 t2 tenant onion c)
  end.

Definition recordSuccess (tenant onion : gostring) (nc : option Cache) : option Cache :=
  match nc with
  | None => None
  | Some c => if decide (onion = []) then Some c else Some (RecordSuccess tenant onion c)
  end.

(** * The round trip *)

(** The buffered body: None when the body is not buffered. *)
Definition buffer_body `{GoUnicode} (r : Request) (body : option InBody)
    : result rt_error (option gostring) :=
  match body with
  | None => Ok None
  | Some b =>
      if negb (methodHasRetryableBody (Method r)) then Ok None
      else if ibReadFails b then Err ErrReadBody
      else
        let buf := limit_bytes (maxBodyBytes + 1) (ibBytes b) in
        if Z.ltb maxBodyBytes (Z.of_nat (length buf)) then Err ErrRequestBodyTooLarge
        else Ok (Some buf)
  end.

Definition XProxySecret : gostring := $"X-Proxy-Secret".
Definition CFConnectingIP : gostring := $"Cf-Connecting-Ip".
Definition XForwardedFor : gostring := $"X-Forwarded-For".
Definition XForwardedProto : gostring := $"X-Forwarded-Proto".

(** The rewritten request for a backend. *)
Definition outRequest (cfg : ProxyConfig) (tenant : option TenantSnapshot) (r : Request)
    (body : option InBody) (buffered : option gostring) (b : BackendInfo) : OutRequest :=
  let h := ReqHeader r in
  let h := if decide (pcProxySecret cfg = []) then h else hdr_set XProxySecret (pcProxySecret cfg) h in
  let cf := hdr_get (ReqHeader r) CFConnectingIP in
  let h := if decide (cf = []) then h else hdr_set XForwardedFor cf h in
  let h := hdr_set XForwardedProto $"https" h in
  let host := match tenant with
              | Some t => if decide (tsHost t = []) then pcDomain cfg else tsHost t
              | None => pcDomain cfg
              end in
  mkOutRequest $"http" (biBackend b) host h
    (match buffered, body with
     | Some bytes, _ => FreshBody bytes
     | None, Some _ => SharedReader
     | None, None => NoBody
     end) r.

(** The pool without tried ports and blacklisted onions; a poll may clean an
    expired entry up. [i] counts the pool entries for the clock. *)
Fixpoint available (poll : nat → time) (i : nat) (tried : gset Z) (tenantKey : gostring)
    (pool : list BackendInfo) (nc : option Cache) : option Cache * list BackendInfo :=
  match pool with
  | [] => (nc, [])
  | b :: pool' =>
      if decide (biPort b ∈ tried) then available poll (S i) tried tenantKey pool' nc
      else
        let '(nc1, black) :=
          match nc with
          | Some c => if decide (biBackend b = []) then (nc, false)
                      else let '(c1, x) := IsBlacklisted (poll i) tenantKey (biBackend b) c in (Some c1, x)
          | None => (nc, false)
          end in
        let '(nc2, rest) := available poll (S i) tried tenantKey pool' nc1 in
        (nc2, if black then rest else b :: rest)
  end.

(** One attempt as it happened. *)
Record attempt := mkAttempt { at_backend : BackendInfo; at_out : OutRequest; at_result : upstream }.

(** The response passed on, its body cut at the limit unless it streams. *)
Definition passResponse (resp : UpResponse) : UpResponse :=
  if shouldStream resp then resp
  else mkUpResponse (urStatus resp) (urHeader resp) (urTransferEncoding resp)
                    (limit_bytes maxResponseBytes (urBody resp)).

Section roundtrip.
Context (cfg : ProxyConfig) (tenant : option TenantSnapshot) (req : Request) (body : option InBody)
        (pool : list BackendInfo) (env : nat → AttemptEnv).

Definition tenantKey : gostring := match tenant with Some t => tsHost t | None => [] end.

Definition set_cache (nc : option Cache) (t : TorTransport) : TorTransport := WithNegCache nc t.

(** The retry loop: [n] attempts are left, [k] were started. *)
Fixpoint retry (n k : nat) (buffered : option gostring) (tried : gset Z) (lastErr : option rt_error)
    (t : TorTransport) : TorTransport * list attempt * result rt_error UpResponse :=
  let giveUp := Err (default ErrNoBackends lastErr) in
  match n with
  | 0 => (t, [], giveUp)
  | S n' =>
      let e := env k in
      if negb (ae_ctx_ok e) then (t, [], Err ErrCtxDone)
      else
        let '(nc, avail) := available (ae_poll e) 0 tried tenantKey pool (ttNegCache t) in
        let t1 := set_cache nc t in
        match selectTenantBackend avail (tenantBackendsFromContext cfg tenant) with
        | None => (t1, [], giveUp)
        | Some b =>
            let t2 := getTransport (biPort b) (biBackend b) t1 in
            let out := outRequest cfg tenant req body buffered b in
            let res := ae_up e b out in
            let failed err :=
              let t3 := set_cache (recordFailure (ae_fail1 e) (ae_fail2 e) tenantKey (biBackend b)
                                     (ttNegCache t2)) t2 in
              let '(t4, log, r) := retry n' (S k) buffered ({[biPort b]} ∪ tried) (Some err) t3 in
              (t4, mkAttempt b out res :: log, r) in
            match res with
            | UpErr err => failed (ErrUpstream err)
            | UpResp resp =>
                if isRetryableStatus (urStatus resp) then failed (ErrUpstreamStatus (urStatus resp))
                else (set_cache (recordSuccess tenantKey (biBackend b) (ttNegCache t2)) t2,
                      [mkAttempt b out res], Ok (passResponse resp))
            end
        end
  end.

Definition maxAttempts : nat :=
  Z.to_nat (if Z.leb (pcRetryAttempts cfg) 0 then 3 else pcRetryAttempts cfg).

Definition RoundTrip `{GoUnicode} (t : TorTransport)
    : TorTransport * list attempt * result rt_error UpResponse :=
  match buffer_body req body with
  | Err e => (t, [], Err e)
  | Ok buffered => retry maxAttempts 0 buffered ∅ None t
  end.
End roundtrip.

(** * Selection *)

Lemma selectBackend_pickBest pool : selectBackend pool = pickBest pool.
Proof. done. Qed.

Lemma selectBackend_Some pool b :
  selectBackend pool = Some b →
  b ∈ pool ∧ biAlive b = true ∧ ∀ x, x ∈ pool → biAlive x = true → f64_lt (Score x) (Score b) = false.
Proof.
  intros E. change (selectBackend pool) with (foldl pick_step None pool) in E.
  apply foldl_pick_Some in E as ([[=]|[??]] & _ & ?). done.
Qed.

Lemma selectBackend_None pool : selectBackend pool = None → Forall (λ b, biAlive b = false) pool.
Proof.
  intros E. change (selectBackend pool) with (foldl pick_step None pool) in E.
  by apply foldl_pick_None in E as [_ ?].
Qed.

Lemma elem_of_preferred tb pool b : b ∈ preferred tb pool ↔ b ∈ pool ∧ biBackend b ∈ tb.
Proof.
  unfold preferred. rewrite !list_elem_of_In, List.filter_In, <- !list_elem_of_In.
  by rewrite bool_decide_eq_true.
Qed.

(** The choice is a best live entry, among the tenant's own when one of them
    is alive. *)
Lemma selectTenantBackend_Some pool tb b :
  selectTenantBackend pool tb = Some b →
  b ∈ pool ∧ biAlive b = true ∧
  ((∃ x, x ∈ pool ∧ biAlive x = true ∧ biBackend x ∈ tb) → biBackend b ∈ tb) ∧
  ∀ x, x ∈ pool → biAlive x = true → (biBackend b ∈ tb → biBackend x ∈ tb) →
       f64_lt (Score x) (Score b) = false.
Proof.
  unfold selectTenantBackend. destruct tb as [|a tb'].
  { intros (? & ? & ?)%selectBackend_Some. split_and!; [done|done| |naive_solver].
    intros (x & _ & _ & Hx). by apply elem_of_nil in Hx. }
  set (tb := a :: tb'). destruct (selectBackend (preferred tb pool)) as [p|] eqn:E.
  - intros [= <-]. apply selectBackend_Some in E as ([Hin Hb]%elem_of_preferred & Ha & Hmin).
    split_and!; [done|done|done|]. intros x Hx Hxa Hxb. apply Hmin; [|done].
    apply elem_of_preferred. auto.
  - intros (Hin & Ha & Hmin)%selectBackend_Some. apply selectBackend_None in E. rewrite Forall_forall in E.
    split_and!; [done|done| |naive_solver]. intros (x & Hx & Hxa & Hxb).
    assert (x ∈ preferred tb pool) as Hp by (by apply elem_of_preferred).
    by rewrite (E x Hp) in Hxa.
Qed.

Lemma selectTenantBackend_None pool tb :
  selectTenantBackend pool tb = None → Forall (λ b, biAlive b = false) pool.
Proof.
  unfold selectTenantBackend. destruct tb; [apply selectBackend_None|].
  destruct (selectBackend (preferred _ _)); [done|apply selectBackend_None].
Qed.

(** * The filtered pool *)

(** The polls an [available] makes, as events of the negative cache. *)
Fixpoint polls (poll : nat → time) (i : nat) (tried : gset Z) (tk : gostring) (pool : list BackendInfo)
    : list event :=
  match pool with
  | [] => []
  | b :: pool' =>
      (if decide (biPort b ∈ tried ∨ biBackend b = []) then [] else [EvPoll tk (biBackend b) (poll i)])
      ++ polls poll (S i) tried tk pool'
  end.

Lemma available_cache poll i tried tk pool nc :
  (available poll i tried tk pool nc).1 = (λ c, foldl step c (polls poll i tried tk pool)) <$> nc.
Proof.
  revert i nc. induction pool as [|b pool IH]; intros i nc; cbn [available polls].
  { by destruct nc. }
  destruct (decide (biPort b ∈ tried)) as [Ht|Ht].
  { rewrite decide_True by by left. by rewrite IH. }
  destruct nc as [c|].
  - destruct (decide (biBackend b = [])) as [Hb|Hb].
    + rewrite decide_True by by right. specialize (IH (S i) (Some c)).
      destruct (available poll (S i) tried tk pool (Some c)). exact IH.
    + rewrite decide_False by naive_solver. cbn [app fmap option_fmap option_map foldl step].
      destruct (IsBlacklisted (poll i) tk (biBackend b) c) as [c1 x]. specialize (IH (S i) (Some c1)).
      destruct (available poll (S i) tried tk pool (Some c1)). exact IH.
  - specialize (IH (S i) None). destruct (available poll (S i) tried tk pool None). exact IH.
Qed.

(** What passes the filter is in the pool, on an untried port. *)
Lemma available_sub poll i tried tk pool nc b :
  b ∈ (available poll i tried tk pool nc).2 → b ∈ pool ∧ biPort b ∉ tried.
Proof.
  revert i nc. induction pool as [|x pool IH]; intros i nc; cbn [available]; [by intros ?%elem_of_nil|].
  case_decide as Ht; [intros [??]%IH; split; [by right|done]|].
  destruct (match nc with Some _ => _ | None => _ end) as [nc1 black].
  specialize (IH (S i) nc1). destruct (available poll (S i) tried tk pool nc1) as [nc2 rest]. cbn [snd] in *.
  destruct black; [intros [??]%IH; split; [by right|done]|].
  intros [-> |Hin]%elem_of_cons; [split; [by left|done]|]. apply IH in Hin as [??]. split; [by right|done].
Qed.

(** Without a negative cache only tried ports are filtered out. *)
Lemma available_all poll i tried tk pool b :
  b ∈ pool → biPort b ∉ tried → b ∈ (available poll i tried tk pool None).2.
Proof.
  revert i. induction pool as [|x pool IH]; intros i Hin Ht; cbn [available]; [by apply elem_of_nil in Hin|].
  apply elem_of_cons in Hin as [-> |Hin].
  - rewrite decide_False by done. destruct (available poll (S i) tried tk pool None). left.
  - specialize (IH (S i) Hin Ht). case_decide; [done|].
    destruct (available poll (S i) tried tk pool None). by right.
Qed.

(** * Runs of the retry loop *)

Definition attempt_failed (a : attempt) : bool :=
  match at_result a with UpErr _ => true | UpResp resp => isRetryableStatus (urStatus resp) end.

Definition attempt_error (a : attempt) : rt_error :=
  match at_result a with UpErr e => ErrUpstream e | UpResp resp => ErrUpstreamStatus (urStatus resp) end.

Section runs.
Context (cfg : ProxyConfig) (tenant : option TenantSnapshot) (req : Request) (body : option InBody)
        (pool : list BackendInfo) (env : nat → AttemptEnv) (buffered : option gostring).

Abbreviation tk := (tenantKey tenant).
Abbreviation tb := (tenantBackendsFromContext cfg tenant).

(** The attempt [k] makes on [b]. *)
Definition attempt_on (k : nat) (b : BackendInfo) : attempt :=
  let out := outRequest cfg tenant req body buffered b in mkAttempt b out (ae_up (env k) b out).

(** The transport after the filter of attempt [k], and after its failure. *)
Definition polled (k : nat) (tried : gset Z) (t : TorTransport) : TorTransport :=
  set_cache (available (ae_poll (env k)) 0 tried tk pool (ttNegCache t)).1 t.

Definition candidates_at (k : nat) (tried : gset Z) (t : TorTransport) : list BackendInfo :=
  (available (ae_poll (env k)) 0 tried tk pool (ttNegCache t)).2.

Definition used (b : BackendInfo) (t : TorTransport) : TorTransport := getTransport (biPort b) (biBackend b) t.

Definition after_failure (k : nat) (b : BackendInfo) (t : TorTransport) : TorTransport :=
  set_cache (recordFailure (ae_fail1 (env k)) (ae_fail2 (env k)) tk (biBackend b) (ttNegCache t)) t.

Inductive run : nat → nat → gset Z → option rt_error → TorTransport →
                TorTransport → list attempt → result rt_error UpResponse → Prop :=
| run_out k tried le t : run 0 k tried le t t [] (Err (default ErrNoBackends le))
| run_ctx n k tried le t : ae_ctx_ok (env k) = false → run (S n) k tried le t t [] (Err ErrCtxDone)
| run_none n k tried le t :
    ae_ctx_ok (env k) = true → Forall (λ b, biAlive b = false) (candidates_at k tried t) →
    run (S n) k tried le t (polled k tried t) [] (Err (default ErrNoBackends le))
| run_fail n k tried le t b t' log r :
    ae_ctx_ok (env k) = true → selectTenantBackend (candidates_at k tried t) tb = Some b →
    attempt_failed (attempt_on k b) = true →
    run n (S k) ({[biPort b]} ∪ tried) (Some (attempt_error (attempt_on k b)))
        (after_failure k b (used b (polled k tried t))) t' log r →
    run (S n) k tried le t t' (attempt_on k b :: log) r
| run_ok n k tried le t b resp :
    ae_ctx_ok (env k) = true → selectTenantBackend (candidates_at k tried t) tb = Some b →
    at_result (attempt_on k b) = UpResp resp → isRetryableStatus (urStatus resp) = false →
    run (S n) k tried le t
        (set_cache (recordSuccess tk (biBackend b) (ttNegCache (used b (polled k tried t))))
                   (used b (polled k tried t)))
        [attempt_on k b] (Ok (passResponse resp)).

Lemma retry_run n k tried le t :
  let '(t', log, r) := retry cfg tenant req body pool env n k buffered tried le t in
  run n k tried le t t' log r.
Proof.
  revert k tried le t. induction n as [|n IH]; intros k tried le t; cbn [retry]; cbv zeta; [constructor|].
  destruct (ae_ctx_ok (env k)) eqn:Hctx; cbn [negb]; [|by constructor].
  destruct (available (ae_poll (env k)) 0 tried tk pool (ttNegCache t)) as [nc av] eqn:Eav.
  assert (Hp : polled k tried t = set_cache nc t) by (unfold polled; by rewrite Eav).
  assert (Hc : candidates_at k tried t = av) by (unfold candidates_at; by rewrite Eav).
  destruct (selectTenantBackend av tb) as [b|] eqn:Esel.
  - set (out := outRequest cfg tenant req body buffered b).
    assert (Ha : attempt_on k b = mkAttempt b out (ae_up (env k) b out)) by done.
    assert (Hfail : ∀ err, attempt_failed (attempt_on k b) = true → attempt_error (attempt_on k b) = err →
      let '(t4, log, r) := retry cfg tenant req body pool env n (S k) buffered ({[biPort b]} ∪ tried) (Some err)
            (after_failure k b (used b (set_cache nc t))) in
      run (S n) k tried le t t4 (attempt_on k b :: log) r).
    { intros err Hf <-. specialize (IH (S k) ({[biPort b]} ∪ tried) (Some (attempt_error (attempt_on k b)))
        (after_failure k b (used b (set_cache nc t)))).
      destruct (retry _ _ _ _ _ _ n _ _ _ _ _) as [[t4 log] r].
      eapply run_fail; rewrite ?Hc, ?Hp; done. }
    unfold after_failure, used in Hfail. rewrite Ha in Hfail.
    destruct (ae_up (env k) b out) as [err|resp] eqn:Eup.
    + specialize (Hfail _ eq_refl eq_refl). by destruct (retry _ _ _ _ _ _ n _ _ _ _ _) as [[t4 log] r].
    + destruct (isRetryableStatus (urStatus resp)) eqn:Est.
      * specialize (Hfail _ Est eq_refl). by destruct (retry _ _ _ _ _ _ n _ _ _ _ _) as [[t4 log] r].
      * rewrite <- Ha, <- Hp. apply run_ok; rewrite ?Hc; [done|done| |done]. by rewrite Ha.
  - rewrite <- Hp. apply run_none; [done|]. rewrite Hc. by eapply selectTenantBackend_None.
Qed.

(** ** What a run guarantees *)

Abbreviation log_ports := (λ log : list attempt, (λ a, biPort (at_backend a)) <$> log).

Lemma candidates_at_sub k tried t b : b ∈ candidates_at k tried t → b ∈ pool ∧ biPort b ∉ tried.
Proof. apply available_sub. Qed.

Lemma run_ports n k tried le t t' log r :
  run n k tried le t t' log r →
  length log ≤ n ∧ NoDup (log_ports log) ∧ (∀ p, p ∈ log_ports log → p ∉ tried) ∧
  Forall (λ a, at_backend a ∈ pool ∧ biAlive (at_backend a) = true ∧
               at_out a = outRequest cfg tenant req body buffered (at_backend a)) log.
Proof.
  induction 1 as [| | |n k tried le t b t' log r Hctx Hsel Hf Hrun (Hlen & Hnd & Hdis & Hall)
                  |n k tried le t b resp Hctx Hsel Hres Hst];
    [split_and!; [cbn; lia|apply NoDup_nil_2|by intros ? ?%elem_of_nil|apply Forall_nil_2]..| |];
    apply selectTenantBackend_Some in Hsel as ([Hin Hp]%candidates_at_sub & Ha & _).
  - split_and!.
    + cbn [length]. lia.
    + cbn [fmap list_fmap]. apply NoDup_cons. split; [|done]. intros Hc%Hdis. set_solver.
    + intros p [-> |Hpin]%elem_of_cons; [done|]. apply Hdis in Hpin. set_solver.
    + by apply Forall_cons_2.
  - split_and!; [cbn; lia|apply NoDup_singleton| |by apply Forall_singleton].
    intros p ->%list_elem_of_singleton. done.
Qed.

(** The verdict of a run: the first attempt that is neither an error nor a
    gateway status is returned; otherwise the last failure is reported. *)
Definition verdict (le : option rt_error) (log : list attempt) (r : result rt_error UpResponse) : Prop :=
  match r with
  | Ok resp' => ∃ pre a resp, log = pre ++ [a] ∧ Forall (λ x, attempt_failed x = true) pre ∧
                  at_result a = UpResp resp ∧ isRetryableStatus (urStatus resp) = false ∧
                  resp' = passResponse resp
  | Err e => Forall (λ x, attempt_failed x = true) log ∧
             (e = ErrCtxDone ∨ e = default ErrNoBackends (match last log with
                                                          | Some a => Some (attempt_error a)
                                                          | None => le
                                                          end))
  end.

Lemma run_verdict n k tried le t t' log r : run n k tried le t t' log r → verdict le log r.
Proof.
  induction 1 as [| | |n k tried le t b t' log r Hctx Hsel Hf Hrun IH|n k tried le t b resp Hctx Hsel Hres Hst].
  - split; [apply Forall_nil_2|by right].
  - split; [apply Forall_nil_2|by left].
  - split; [apply Forall_nil_2|by right].
  - destruct r as [resp'|e].
    + destruct IH as (pre & a & resp & -> & Hpre & ?). exists (attempt_on k b :: pre), a, resp.
      split; [done|]. split; [by apply Forall_cons_2|done].
    + destruct IH as [Hall He]. split; [by apply Forall_cons_2|]. destruct He as [He|He]; [by left|right].
      rewrite He, last_cons. by destruct (last log).
  - exists [], (attempt_on k b), resp. split_and!; [done|apply Forall_nil_2|done..].
Qed.

(** ** The negative cache *)

(** What an event records for a pair: a failure (true) or a success. *)
Definition recorded (ev : event) : option (gostring * gostring * bool) :=
  match ev with
  | EvFailure tn o _ _ => Some (tn, o, true)
  | EvSuccess tn o _ => Some (tn, o, false)
  | _ => None
  end.

(** What an attempt has to record; a pool entry without onion records nothing. *)
Definition owed (a : attempt) : option (gostring * gostring * bool) :=
  if decide (biBackend (at_backend a) = []) then None
  else Some (tk, biBackend (at_backend a), attempt_failed a).

(** [nc'] is [nc] after the events, if there is a cache. *)
Definition after_events (nc nc' : option Cache) (evs : list event) : Prop :=
  nc' = (λ c, foldl step c evs) <$> nc.

Lemma after_events_app nc1 nc2 nc3 e1 e2 :
  after_events nc1 nc2 e1 → after_events nc2 nc3 e2 → after_events nc1 nc3 (e1 ++ e2).
Proof. unfold after_events. intros -> ->. destruct nc1; cbn; [|done]. by rewrite foldl_app. Qed.

Lemma polls_recorded poll i tried pl : omap recorded (polls poll i tried tk pl) = [].
Proof.
  revert i. induction pl as [|b pl IH]; intros i; [done|]. cbn [polls]. rewrite omap_app, IH.
  by case_decide.
Qed.

Lemma polled_events k tried t :
  after_events (ttNegCache t) (ttNegCache (polled k tried t)) (polls (ae_poll (env k)) 0 tried tk pool).
Proof. apply available_cache. Qed.

(** The record of an attempt at position [k]. *)
Definition outcome_events (k : nat) (a : attempt) : list event :=
  if decide (biBackend (at_backend a) = []) then []
  else if attempt_failed a
  then [EvFailure tk (biBackend (at_backend a)) (ae_fail1 (env k)) (ae_fail2 (env k))]
  else [EvSuccess tk (biBackend (at_backend a)) (ae_fail1 (env k))].

(** Everything a log of attempts does to the cache: the polls of each
    attempt's filter, then its record. *)
Fixpoint round_events (k : nat) (tried : gset Z) (log : list attempt) : list event :=
  match log with
  | [] => []
  | a :: log' =>
      polls (ae_poll (env k)) 0 tried tk pool ++ outcome_events k a ++
      round_events (S k) ({[biPort (at_backend a)]} ∪ tried) log'
  end.

Lemma outcome_recorded k a : omap recorded (outcome_events k a) = option_list (owed a).
Proof. unfold outcome_events, owed. case_decide; [done|]. by destruct (attempt_failed a). Qed.

Lemma round_events_recorded k tried log : omap recorded (round_events k tried log) = omap owed log.
Proof.
  revert k tried. induction log as [|a log IH]; intros k tried; [done|]. cbn [round_events].
  rewrite !omap_app, polls_recorded, outcome_recorded, IH.
  change (omap owed (a :: log)) with (match owed a with Some x => x :: omap owed log | None => omap owed log end).
  by destruct (owed a).
Qed.

Lemma after_failure_events k b t :
  attempt_failed (attempt_on k b) = true →
  after_events (ttNegCache t) (ttNegCache (after_failure k b (used b t))) (outcome_events k (attempt_on k b)).
Proof.
  intros Hf. unfold after_events, after_failure, recordFailure, outcome_events. rewrite Hf.
  cbn [ttNegCache set_cache WithNegCache used getTransport at_backend attempt_on].
  destruct (ttNegCache t); [|done]. by case_decide.
Qed.

Lemma after_success_events k b t :
  attempt_failed (attempt_on k b) = false →
  after_events (ttNegCache t) (recordSuccess tk (biBackend b) (ttNegCache (used b t)))
               (outcome_events k (attempt_on k b)).
Proof.
  intros Hf. unfold after_events, recordSuccess, outcome_events. rewrite Hf.
  cbn [ttNegCache used getTransport at_backend attempt_on].
  destruct (ttNegCache t); [|done]. by case_decide.
Qed.

Lemma after_events_nil nc : after_events nc nc [].
Proof. unfold after_events. by destruct nc. Qed.

Lemma tried_cons (p : Z) (l : list Z) (tried : gset Z) :
  list_to_set (p :: l) ∪ tried = list_to_set l ∪ ({[p]} ∪ tried).
Proof. set_solver. Qed.

Lemma run_cache n k tried le t t' log r :
  run n k tried le t t' log r →
  ∃ extra, after_events (ttNegCache t) (ttNegCache t') (round_events k tried log ++ extra) ∧
           (extra = [] ∨ extra = polls (ae_poll (env (k + length log))) 0
                                  (list_to_set (log_ports log) ∪ tried) tk pool).
Proof.
  induction 1 as [k tried le t|n k tried le t Hc|n k tried le t Hc Hd
                  |n k tried le t b t' log r Hc Hsel Hf Hrun (extra & Hev & Hex)|n k tried le t b resp Hc Hsel Hres Hst].
  - exists []. split; [apply after_events_nil|by left].
  - exists []. split; [apply after_events_nil|by left].
  - eexists. split; [apply polled_events|]. right. cbn [fmap list_fmap list_to_set length].
    by rewrite Nat.add_0_r, (left_id_L ∅ (∪)).
  - exists extra. split.
    + cbn [round_events]. rewrite <- !app_assoc. eapply after_events_app; [apply polled_events|].
      eapply after_events_app; [by apply after_failure_events|done].
    + destruct Hex as [-> | ->]; [by left|right]. cbn [fmap list_fmap length at_backend attempt_on].
      by rewrite tried_cons, Nat.add_succ_r, <- Nat.add_succ_l.
  - exists []. split; [|by left]. cbn [round_events]. rewrite !app_nil_r.
    eapply after_events_app; [apply polled_events|]. apply after_success_events.
    unfold attempt_failed. by rewrite Hres.
Qed.

(** An entry without an onion address is not polled. *)
Lemma available_unfiltered poll i tried pl nc b :
  b ∈ pl → biPort b ∉ tried → biBackend b = [] → b ∈ (available poll i tried tk pl nc).2.
Proof.
  revert i nc. induction pl as [|x pl IH]; intros i nc Hin Ht Hb; [by apply elem_of_nil in Hin|].
  cbn [available]. apply elem_of_cons in Hin as [-> |Hin].
  - rewrite decide_False by done. destruct nc as [c|].
    + rewrite decide_True by done. destruct (available poll (S i) tried tk pl (Some c)). left.
    + destruct (available poll (S i) tried tk pl None). left.
  - case_decide; [by apply IH|]. destruct (match nc with Some _ => _ | None => _ end) as [nc1 black].
    specialize (IH (S i) nc1 Hin Ht Hb). destruct (available poll (S i) tried tk pl nc1).
    destruct black; [done|by right].
Qed.

(** An entry that was filtered out was tried or blacklisted at its poll. *)
Lemma available_excluded poll i tried pl c b :
  b ∈ pl → biPort b ∉ tried → biBackend b ≠ [] →
  b ∉ (available poll i tried tk pl (Some c)).2 →
  ∃ pre post, pl = pre ++ b :: post ∧
    (IsBlacklisted (poll (i + length pre)) tk (biBackend b) (foldl step c (polls poll i tried tk pre))).2 = true.
Proof.
  revert i c. induction pl as [|x pl IH]; intros i c Hin Ht Hb Hout; [by apply elem_of_nil in Hin|].
  cbn [available] in Hout. apply elem_of_cons in Hin.
  assert (Hext : ∀ c', (b ∈ pl → b ∉ (available poll (S i) tried tk pl (Some c')).2) →
    foldl step c (polls poll i tried tk [x]) = c' → b ∈ pl →
    ∃ pre post, x :: pl = pre ++ b :: post ∧
      (IsBlacklisted (poll (i + length pre)) tk (biBackend b) (foldl step c (polls poll i tried tk pre))).2 = true).
  { intros c' Hno <- Hpl. destruct (IH _ _ Hpl Ht Hb (Hno Hpl)) as (pre & post & -> & Hbl).
    exists (x :: pre), post. split; [done|]. cbn [length polls] in *. rewrite app_nil_r in Hbl.
    by rewrite foldl_app, Nat.add_succ_r, <- Nat.add_succ_l. }
  cbn [polls] in Hext. destruct (decide (biPort x ∈ tried)) as [Hx|Hx].
  { destruct Hin as [-> |Hin]; [done|]. rewrite decide_True in Hext by by left. by apply (Hext c). }
  destruct (decide (biBackend x = [])) as [Hxb|Hxb].
  { destruct Hin as [-> |Hin]; [done|]. rewrite decide_True in Hext by by right. apply (Hext c); [|done|done].
    intros _ Hc. apply Hout. destruct (available poll (S i) tried tk pl (Some c)). by right. }
  rewrite decide_False in Hext by naive_solver. cbn [app foldl step] in Hext.
  destruct (IsBlacklisted (poll i) tk (biBackend x) c) as [c1 black] eqn:Eb. specialize (Hext c1).
  destruct (available poll (S i) tried tk pl (Some c1)) as [nc2 rest]. cbn [fst snd] in *.
  destruct Hin as [-> |Hin].
  - destruct black; [|exfalso; apply Hout; left]. exists [], pl. cbn [length polls foldl]. rewrite Nat.add_0_r.
    by rewrite Eb.
  - apply Hext; [|done|done]. intros _ Hc. apply Hout.
    destruct black; [done|by right].
Qed.

(** A run that gives up early has no live candidate left. *)
Lemma run_exhausted n k tried le t t' log e :
  run n k tried le t t' log (Err e) → (∀ j, ae_ctx_ok (env j) = true) → length log < n →
  ∃ t0, after_events (ttNegCache t) (ttNegCache t0) (round_events k tried log) ∧
    Forall (λ b, biAlive b = false)
           (candidates_at (k + length log) (list_to_set (log_ports log) ∪ tried) t0).
Proof.
  intros Hrun Hctx. remember (Err e) as r eqn:Er. revert e Er.
  induction Hrun as [| |n k tried le t Hc Hdead|n k tried le t b t' log r Hc Hsel Hf Hrun IH|]; intros e0 Er Hlen.
  - cbn in Hlen. lia.
  - rewrite Hctx in H. done.
  - exists t. split; [apply after_events_nil|].
    cbn [fmap list_fmap list_to_set length]. by rewrite Nat.add_0_r, (left_id_L ∅ (∪)).
  - cbn [length] in *. destruct (IH e0 Er ltac:(lia)) as (t0 & Ht0 & Hd).
    exists t0. split.
    { cbn [round_events]. eapply after_events_app; [apply polled_events|].
      eapply after_events_app; [by apply after_failure_events|done]. }
    cbn [fmap list_fmap at_backend attempt_on].
    by rewrite tried_cons, Nat.add_succ_r, <- Nat.add_succ_l.
  - done.
Qed.

(** Blacklisted when the filter of attempt [k], with the ports [tried] and
    the cache [c], looked at it. *)
Definition blacklisted_at (k : nat) (tried : gset Z) (c : Cache) (b : BackendInfo) : Prop :=
  ∃ pre post, pool = pre ++ b :: post ∧
    (IsBlacklisted (ae_poll (env k) (length pre)) tk (biBackend b)
       (foldl step c (polls (ae_poll (env k)) 0 tried tk pre))).2 = true.

(** Why a pool entry is not among the candidates. *)
Lemma not_candidate k tried t0 b :
  b ∈ pool → b ∉ candidates_at k tried t0 →
  biPort b ∈ tried ∨ ∃ c, ttNegCache t0 = Some c ∧ blacklisted_at k tried c b.
Proof.
  intros Hin Hout. destruct (decide (biPort b ∈ tried)) as [?|Ht]; [by left|right].
  unfold candidates_at in Hout. destruct (ttNegCache t0) as [c|].
  - exists c. split; [done|]. destruct (decide (biBackend b = [])) as [Hb|Hb].
    + exfalso. apply Hout. by apply available_unfiltered.
    + by apply (available_excluded (ae_poll (env k)) 0).
  - exfalso. apply Hout. by apply available_all.
Qed.
End runs.

(** * Properties *)

(** C5. The attempts of a round trip. If the body can be buffered, at most the
    configured number of attempts is made, on pairwise different ports of live
    pool entries, and every attempt sends the same rewritten request, the
    target host apart. The first attempt that ends in neither an error nor a
    502, 503 or 504 is the last one and its response is returned, cut at the
    response limit unless it streams; otherwise every attempt failed and the
    result is the last failure, the client's cancellation, or, without any
    attempt, that no backend is available. If the body cannot be buffered no
    attempt is made. *)
Theorem roundtrip_attempts `{GoUnicode} cfg tenant req body pool env t :
  let '(t', log, r) := RoundTrip cfg tenant req body pool env t in
  match buffer_body req body with
  | Err e => t' = t ∧ log = [] ∧ r = Err e
  | Ok buffered =>
      length log ≤ maxAttempts cfg ∧ NoDup ((λ a, biPort (at_backend a)) <$> log) ∧
      Forall (λ a, at_backend a ∈ pool ∧ biAlive (at_backend a) = true ∧
                   at_out a = outRequest cfg tenant req body buffered (at_backend a)) log ∧
      verdict None log r
  end.
Proof.
  unfold RoundTrip. destruct (buffer_body req body) as [buffered|e]; [|done].
  pose proof (retry_run cfg tenant req body pool env buffered (maxAttempts cfg) 0 ∅ None t) as Hrun.
  destruct (retry _ _ _ _ _ _ _ _ _ _ _ _) as [[t' log] r].
  destruct (run_ports _ _ _ _ _ _ _ _ _ _ _ _ _ _ _ Hrun) as (? & ? & _ & ?).
  apply run_verdict in Hrun. done.
Qed.

(** C34. Backends are not given up while one could serve. If the client stays
    and a round trip whose body could be buffered still fails, then either all
    configured attempts were made, or every live pool entry was tried (by
    port) or was blacklisted for this tenant in the cache as the attempts had
    left it. *)
Theorem roundtrip_exhaustive `{GoUnicode} cfg tenant req body pool env t t' log e buffered :
  (∀ j, ae_ctx_ok (env j) = true) → buffer_body req body = Ok buffered →
  RoundTrip cfg tenant req body pool env t = (t', log, Err e) →
  let tried := (λ a, biPort (at_backend a)) <$> log in
  length log = maxAttempts cfg ∨
  ∀ b, b ∈ pool → biAlive b = true →
    biPort b ∈ tried ∨
    ∃ c, ttNegCache t = Some c ∧
      blacklisted_at tenant pool env (length log) (list_to_set tried)
        (foldl step c (round_events tenant pool env 0 ∅ log)) b.
Proof.
  intros Hctx Hbuf. unfold RoundTrip. rewrite Hbuf. cbv zeta.
  pose proof (retry_run cfg tenant req body pool env buffered (maxAttempts cfg) 0 ∅ None t) as Hrun.
  intros Hr. rewrite Hr in Hrun.
  destruct (run_ports _ _ _ _ _ _ _ _ _ _ _ _ _ _ _ Hrun) as (Hlen & _).
  destruct (decide (length log = maxAttempts cfg)) as [?|Hne]; [by left|right]. intros b Hb Ha.
  destruct (run_exhausted _ _ _ _ _ _ _ _ _ _ _ _ _ _ _ Hrun Hctx ltac:(lia)) as (t0 & Hev & Hdead).
  rewrite (right_id_L ∅ (∪)), Nat.add_0_l in Hdead.
  destruct (not_candidate tenant pool env (length log) (list_to_set ((λ a, biPort (at_backend a)) <$> log)) t0 b Hb)
    as [Hin|(c0 & Hc0 & Hbl)].
  - intros Hin. rewrite Forall_forall in Hdead. by rewrite (Hdead b Hin) in Ha.
  - left. by apply elem_of_list_to_set in Hin.
  - right. unfold after_events in Hev. rewrite Hc0 in Hev. destruct (ttNegCache t) as [c|]; [|done].
    exists c. split; [done|]. by injection Hev as <-.
Qed.

(** The negative cache sees every attempt exactly once. Whatever happens,
    the cache after a round trip is the cache before it after the polls and
    records of the attempts, in order, and possibly the polls of a last,
    fruitless look at the pool; polls apart, these are one failure or one
    success per attempt, for the request's tenant and the tried onion. *)
Theorem roundtrip_accounting `{GoUnicode} cfg tenant req body pool env t :
  let '(t', log, _) := RoundTrip cfg tenant req body pool env t in
  ∃ extra,
    ttNegCache t' = (λ c, foldl step c (round_events tenant pool env 0 ∅ log ++ extra)) <$> ttNegCache t ∧
    omap recorded extra = [] ∧
    omap recorded (round_events tenant pool env 0 ∅ log) = omap (owed tenant) log.
Proof.
  unfold RoundTrip. destruct (buffer_body req body) as [buffered|e].
  - pose proof (retry_run cfg tenant req body pool env buffered (maxAttempts cfg) 0 ∅ None t) as Hrun.
    destruct (retry _ _ _ _ _ _ _ _ _ _ _ _) as [[t' log] r]. apply run_cache in Hrun as (extra & Hev & Hex).
    exists extra. split_and!; [exact Hev| |apply round_events_recorded].
    destruct Hex as [-> | ->]; [done|apply polls_recorded].
  - exists []. split_and!; [|done|done]. by destruct (ttNegCache t).
Qed.

(** ** Bodies *)

Lemma limit_bytes_short n s : (Z.of_nat (length s) ≤ n)%Z → limit_bytes n s = s.
Proof.
  revert n. induction s as [|c s IH]; intros n Hn; [done|]. cbn [limit_bytes length] in *.
  destruct (Z.leb_spec n 0); [lia|]. f_equal. apply IH. lia.
Qed.

Lemma limit_bytes_long n s :
  (0 ≤ n)%Z → (n ≤ Z.of_nat (length s))%Z → Z.of_nat (length (limit_bytes n s)) = n.
Proof.
  revert n. induction s as [|c s IH]; intros n H0 Hn; cbn [limit_bytes length] in *; [lia|].
  destruct (Z.leb_spec n 0); [cbn; lia|]. cbn [length]. rewrite Nat2Z.inj_succ, IH by lia. lia.
Qed.

(** Retries ship the body intact. For POST, PUT, PATCH and DELETE with a
    readable body: up to 4 MiB every attempt, first or repeated, carries
    exactly the inbound bytes; above that nothing is sent at all and the
    round trip fails as too large. *)
Theorem roundtrip_body_intact `{GoUnicode} cfg tenant req b pool env t :
  methodHasRetryableBody (Method req) = true → ibReadFails b = false →
  let '(t', log, r) := RoundTrip cfg tenant req (Some b) pool env t in
  if Z.leb (Z.of_nat (length (ibBytes b))) maxBodyBytes
  then Forall (λ a, orBody (at_out a) = FreshBody (ibBytes b)) log
  else t' = t ∧ log = [] ∧ r = Err ErrRequestBodyTooLarge.
Proof.
  intros Hm Hr. unfold RoundTrip, buffer_body. rewrite Hm, Hr. cbn [negb]. cbv zeta.
  destruct (Z.leb_spec (Z.of_nat (length (ibBytes b))) maxBodyBytes) as [Hle|Hgt].
  - rewrite limit_bytes_short by lia. destruct (Z.ltb_spec maxBodyBytes (Z.of_nat (length (ibBytes b)))); [lia|].
    pose proof (retry_run cfg tenant req (Some b) pool env (Some (ibBytes b)) (maxAttempts cfg) 0 ∅ None t) as Hrun.
    destruct (retry _ _ _ _ _ _ _ _ _ _ _ _) as [[t' log] r].
    destruct (run_ports _ _ _ _ _ _ _ _ _ _ _ _ _ _ _ Hrun) as (_ & _ & _ & Hall).
    eapply Forall_impl; [exact Hall|]. cbn. by intros a (_ & _ & ->).
  - rewrite limit_bytes_long by (unfold maxBodyBytes in *; lia).
    by destruct (Z.ltb_spec maxBodyBytes (maxBodyBytes + 1)); [|lia].
Qed.

(** Two live backends that both refuse. *)
#[local] Instance tx_unicode : GoUnicode := {| unicode_lower s := s; unicode_upper s := s; unicode_trim s := s |}.

Definition tx_pool : list BackendInfo :=
  [mkBackendInfo 9050 true 0 90 (S754_zero false) $"a.onion"; mkBackendInfo 9051 true 5 80 (S754_zero false) $"b.onion"].

Definition tx_env (k : nat) : AttemptEnv :=
  mkAttemptEnv true (λ _, Z.of_nat k) (λ b _, UpErr (biBackend b)) (Z.of_nat k) (Z.of_nat k).

Definition tx_cfg : ProxyConfig := mkProxyConfig 5 $"example.org" $"s3cret" [].

Definition tx_post : Request := mkRequest MethodPost $"/form" [] [] $"example.org" $"10.0.0.1:1" ∅ ∅.

Lemma roundtrip_exhaustive_witness :
  let '(_, log, r) := RoundTrip tx_cfg None tx_post (Some (mkInBody $"x=1" false)) tx_pool tx_env NewTorTransport in
  r = Err (ErrUpstream $"b.onion") ∧
  (length log = 5 ∨ ∀ b, b ∈ tx_pool → biAlive b = true →
     biPort b ∈ ((λ a, biPort (at_backend a)) <$> log) ∨
     ∃ c, ttNegCache NewTorTransport = Some c ∧
       blacklisted_at None tx_pool tx_env (length log) (list_to_set ((λ a, biPort (at_backend a)) <$> log))
         (foldl step c (round_events None tx_pool tx_env 0 ∅ log)) b).
Proof.
  assert (Hr : (RoundTrip tx_cfg None tx_post (Some (mkInBody $"x=1" false)) tx_pool tx_env NewTorTransport).2
               = Err (ErrUpstream $"b.onion")) by (vm_compute; reflexivity).
  destruct (RoundTrip _ _ _ _ _ _ _) as [[t' log] r] eqn:E. cbn [snd] in Hr. subst r. split; [done|].
  apply (roundtrip_exhaustive tx_cfg None tx_post (Some (mkInBody $"x=1" false)) tx_pool tx_env NewTorTransport
           t' log (ErrUpstream $"b.onion") (Some $"x=1")); [done|by vm_compute|exact E].
Defined.

Lemma roundtrip_body_intact_witness :
  let '(t', log, r) := RoundTrip tx_cfg None tx_post (Some (mkInBody $"x=1" false)) tx_pool tx_env NewTorTransport in
  if Z.leb 3 maxBodyBytes
  then Forall (λ a, orBody (at_out a) = FreshBody $"x=1") log
  else t' = NewTorTransport ∧ log = [] ∧ r = Err ErrRequestBodyTooLarge.
Proof.
  apply (roundtrip_body_intact tx_cfg None tx_post (mkInBody $"x=1" false) tx_pool tx_env NewTorTransport);
    [by vm_compute|done].
Defined.
