(* ===== verification/GoStd.v ===== *)
(** Pieces of Go's standard library that several features use: accessors of
    decoded parameter maps, time.ParseDuration and Duration.Seconds, decimal
    and hexadecimal text, float conversions and the contract of sort.Slice. *)

From stdpp Require Import pretty.
From S2P Require Import Prelude Float Http Shared Metrics.

(** * Type assertions on values of type [any] *)

Definition as_string (v : option json) : option gostring :=
  match v with Some (JString s) => Some s | _ => None end.

Definition as_bool (v : option json) : option bool :=
  match v with Some (JBool b) => Some b | _ => None end.

(** [m[k]] of a decoded object: the value, if the key is there. *)
Fixpoint field (m : list (gostring * json)) (k : gostring) : option json :=
  match m with
  | [] => None
  | (k', v) :: m' => if decide (k' = k) then Some v else field m' k
  end.

(** * Conversions of float64 *)

(** The integer part of a finite value, towards zero. *)
Definition f64_integer (f : float64) : option Z :=
  match f with
  | S754_finite s m e =>
      let a := if Z.leb 0 e then Z.shiftl (Z.pos m) e else Z.shiftr (Z.pos m) (- e) in
      Some (if s then (- a)%Z else a)
  | S754_zero _ => Some 0%Z
  | _ => None
  end.

(** [int(f)] and [int64(f)]. A value that does not fit is implementation
    defined in Go; this is what the amd64 conversion instruction gives. *)
Definition f64_to_int (f : float64) : Z :=
  match f64_integer f with
  | Some z => if decide (in_int64 z) then z else min_int64
  | None => min_int64
  end.

(** Half to even, as [%.0f] rounds. *)
Definition f64_round_even (m : positive) (e : Z) : Z :=
  if Z.leb 0 e then Z.shiftl (Z.pos m) e
  else
    let q := Z.shiftr (Z.pos m) (- e) in
    let r := (Z.pos m - Z.shiftl q (- e))%Z in
    let half := Z.shiftl 1 (- e - 1) in
    if Z.ltb r half then q
    else if Z.ltb half r then (q + 1)%Z
    else if Z.even q then q else (q + 1)%Z.

Definition fmt_int (z : Z) : gostring := String.list_ascii_of_string (pretty z).

(** fmt.Sprintf("%.0f", f). *)
Definition fmt_f0 (f : float64) : gostring :=
  match f with
  | S754_finite s m e => (if s then $"-" else []) ++ fmt_int (f64_round_even m e)
  | S754_zero s => if s then $"-0" else $"0"
  | S754_infinity s => if s then $"-Inf" else $"+Inf"
  | S754_nan => $"NaN"
  end.

(** Duration.Seconds. *)
Definition Seconds (d : duration) : float64 :=
  f64_add (f64_of_Z (Z.quot d Second)) (f64_div (f64_of_Z (Z.rem d Second)) (f64_of_Z Second)).

(** * time.ParseDuration *)

Definition is_digit (c : ascii) : bool :=
  (N.leb 48 (N_of_ascii c) && N.leb (N_of_ascii c) 57)%bool.

Definition digit_val (c : ascii) : Z := (byte_val c - 48)%Z.

Fixpoint leadingInt (s : gostring) (x : Z) : option (Z * gostring) :=
  match s with
  | c :: s' =>
      if is_digit c then
        if Z.ltb (two63 / 10) x then None
        else
          let x' := (x * 10 + digit_val c)%Z in
          if Z.ltb two63 x' then None else leadingInt s' x'
      else Some (x, s)
  | [] => Some (x, s)
  end.

Fixpoint leadingFraction (s : gostring) (x : Z) (scale : float64) (overflow : bool)
    : Z * float64 * gostring :=
  match s with
  | c :: s' =>
      if is_digit c then
        if overflow then leadingFraction s' x scale true
        else if Z.ltb (max_int64 / 10) x then leadingFraction s' x scale true
        else
          let y := (x * 10 + digit_val c)%Z in
          if Z.ltb two63 y then leadingFraction s' x scale true
          else leadingFraction s' y (f64_mul scale (f64_of_Z 10)) false
      else (x, scale, s)
  | [] => (x, scale, s)
  end.

Definition unit_byte (c : ascii) : bool := negb (bool_decide (c = "."%char) || is_digit c).

(** The unit and the rest of the input. *)
Fixpoint span_unit (s : gostring) : gostring * gostring :=
  match s with
  | c :: s' => if unit_byte c then let '(u, r) := span_unit s' in (c :: u, r) else ([], s)
  | [] => ([], [])
  end.

Definition micro1 : gostring := [ascii_of_N 194; ascii_of_N 181; "s"%char].
Definition micro2 : gostring := [ascii_of_N 206; ascii_of_N 188; "s"%char].

Definition unitMap (u : gostring) : option Z :=
  if decide (u = $"ns") then Some 1%Z
  else if decide (u = $"us" ∨ u = micro1 ∨ u = micro2) then Some 1000%Z
  else if decide (u = $"ms") then Some Millisecond
  else if decide (u = $"s") then Some Second
  else if decide (u = $"m") then Some Minute
  else if decide (u = $"h") then Some Hour
  else None.

(** One [number unit] group: its value and the rest of the input. *)
Definition duration_group (s : gostring) : option (Z * gostring) :=
  match s with
  | [] => None
  | c0 :: _ =>
      if negb (bool_decide (c0 = "."%char) || is_digit c0) then None
      else match leadingInt s 0 with
      | None => None
      | Some (v, s1) =>
          let pre := bool_decide (length s ≠ length s1) in
          let '(f, scale, s2, post) :=
            match s1 with
            | c :: s1' =>
                if decide (c = "."%char) then
                  let '(f, scale, s2) := leadingFraction s1' 0 (f64_of_Z 1) false in
                  (f, scale, s2, bool_decide (length s1' ≠ length s2))
                else (0%Z, f64_of_Z 1, s1, false)
            | [] => (0%Z, f64_of_Z 1, s1, false)
            end in
          if negb (pre || post) then None
          else
            let '(u, s3) := span_unit s2 in
            match unitMap u with
            | None => None
            | Some unit =>
                if Z.ltb (two63 / unit) v then None
                else
                  let v := (v * unit)%Z in
                  let v := if Z.ltb 0 f
                           then (v + default 0 (f64_integer (f64_mul (f64_of_Z f)
                                                   (f64_div (f64_of_Z unit) scale))))%Z
                           else v in
                  if Z.ltb two63 v then None else Some (v, s3)
            end
      end
  end.

Fixpoint duration_groups (fuel : nat) (s : gostring) (d : Z) : option Z :=
  match s with
  | [] => Some d
  | _ =>
      match fuel with
      | 0 => None
      | S fuel' =>
          match duration_group s with
          | None => None
          | Some (v, s') =>
              let d' := (d + v)%Z in
              if Z.ltb two63 d' then None else duration_groups fuel' s' d'
          end
      end
  end.

(** Every group consumes its unit, so the length of the input is fuel enough. *)
Definition ParseDuration (s : gostring) : option duration :=
  let '(neg, s) :=
    match s with
    | c :: s' => if decide (c = "-"%char) then (true, s')
                 else if decide (c = "+"%char) then (false, s') else (false, s)
    | [] => (false, s)
    end in
  if decide (s = $"0") then Some 0%Z
  else if decide (s = []) then None
  else match duration_groups (length s) s 0 with
  | None => None
  | Some d =>
      if neg then Some (wrap64 (- d))
      else if Z.ltb max_int64 d then None else Some d
  end.

Example ParseDuration_ex :
  ParseDuration $"1h30m" = Some (90 * Minute)%Z ∧ ParseDuration $"1.5s" = Some (1500 * Millisecond)%Z
  ∧ ParseDuration $"-10ms" = Some (-10 * Millisecond)%Z ∧ ParseDuration $"10" = None
  ∧ ParseDuration $"2562048h" = None.
Proof. vm_compute. auto. Qed.

Example fmt_f0_ex : fmt_f0 (Seconds (24 * Hour)) = $"86400" ∧ fmt_f0 (Seconds 2500000000) = $"2".
Proof. vm_compute. auto. Qed.

Lemma leadingInt_shorter s x v r : leadingInt s x = Some (v, r) → length r ≤ length s.
Proof.
  revert x; induction s as [|c s IH]; intros x; cbn [leadingInt].
  - by intros [= _ <-].
  - destruct (is_digit c); [|by intros [= _ <-]].
    destruct (Z.ltb _ x); [done|]. destruct (Z.ltb _ _); [done|].
    intros Hs%IH. cbn [length]. lia.
Qed.

Lemma leadingFraction_shorter s x sc o : length (leadingFraction s x sc o).2 ≤ length s.
Proof.
  revert x sc o; induction s as [|c s IH]; intros x sc o; cbn [leadingFraction]; [done|].
  destruct (is_digit c); [|done].
  destruct o; [|destruct (Z.ltb _ x); [|destruct (Z.ltb _ _)]]; etrans; try apply IH; cbn [length]; lia.
Qed.

Lemma span_unit_length s : length (span_unit s).1 + length (span_unit s).2 = length s.
Proof.
  induction s as [|c s IH]; [done|]. cbn [span_unit]. destruct (unit_byte c); [|done].
  destruct (span_unit s). cbn [fst snd length] in *. lia.
Qed.

Lemma duration_group_shorter s v r : duration_group s = Some (v, r) → length r < length s.
Proof.
  unfold duration_group. destruct s as [|c0 s0]; [done|]. set (s := c0 :: s0).
  destruct (negb _); [done|]. destruct (leadingInt s 0) as [[v0 s1]|] eqn:E1; [|done].
  apply leadingInt_shorter in E1.
  destruct (match s1 with [] => _ | _ => _ end) as [[[f sc] s2] post] eqn:E2.
  assert (length s2 ≤ length s1).
  { destruct s1 as [|c s1']; [by simplify_eq|]. destruct (decide _); [|by simplify_eq].
    pose proof (leadingFraction_shorter s1' 0 (f64_of_Z 1) false) as Hl.
    destruct (leadingFraction s1' 0 _ false) as [[f' sc'] s2']. simplify_eq. cbn [snd length] in *. lia. }
  destruct (negb _); [done|].
  pose proof (span_unit_length s2) as Hs. destruct (span_unit s2) as [u s3] eqn:E3.
  cbn [fst snd] in Hs.
  destruct (unitMap u) as [unit|] eqn:Eu; [|done].
  assert (u ≠ []) by (intros ->; by vm_compute in Eu).
  destruct u; [done|]. cbn [length] in Hs.
  destruct (Z.ltb _ v0); [done|]. destruct (Z.ltb two63 _); [done|].
  intros Hr. injection Hr as _ <-. lia.
Qed.

(** More fuel than the length of the input never changes the answer. *)
Lemma duration_groups_fuel s fuel d :
  length s ≤ fuel → duration_groups fuel s d = duration_groups (length s) s d.
Proof.
  revert s d; induction fuel as [fuel IH] using lt_wf_ind; intros s d Hle.
  destruct s as [|c s0]; [by destruct fuel|]. destruct fuel as [|fuel]; [by inversion Hle|].
  cbn [length duration_groups].
  destruct (duration_group (c :: s0)) as [[v r]|] eqn:Hg; [|done].
  apply duration_group_shorter in Hg. cbn [length] in *.
  destruct (Z.ltb _ _); [done|].
  rewrite (IH fuel) by lia. destruct (decide (length s0 = fuel)) as [->|Hn].
  - rewrite (IH fuel) by lia. done.
  - symmetry. apply IH; lia.
Qed.

(** * encoding/hex *)

Definition fromHexChar (c : ascii) : option N :=
  let n := N_of_ascii c in
  if (N.leb 48 n && N.leb n 57)%bool then Some (n - 48)%N
  else if (N.leb 97 n && N.leb n 102)%bool then Some (n - 87)%N
  else if (N.leb 65 n && N.leb n 70)%bool then Some (n - 55)%N
  else None.

Fixpoint hex_decode (s : gostring) : option gostring :=
  match s with
  | [] => Some []
  | [_] => None
  | a :: b :: s' =>
      match fromHexChar a, fromHexChar b with
      | Some x, Some y => cons (ascii_of_N (N.lor (N.shiftl x 4) y)) <$> hex_decode s'
      | _, _ => None
      end
  end.

Lemma hex_byte_round (c : ascii) :
  fromHexChar (hex_digit (N.shiftr (N_of_ascii c) 4)) = Some (N.shiftr (N_of_ascii c) 4) ∧
  fromHexChar (hex_digit (N_of_ascii c)) = Some (N.land (N_of_ascii c) 15) ∧
  ascii_of_N (N.lor (N.shiftl (N.shiftr (N_of_ascii c) 4) 4) (N.land (N_of_ascii c) 15)) = c.
Proof. destruct c as [[] [] [] [] [] [] [] []]; vm_compute; auto. Qed.

Lemma hex_decode_encode s : hex_decode (hex_encode s) = Some s.
Proof.
  induction s as [|c s IH]; [done|]. cbn [hex_encode hex_decode].
  destruct (hex_byte_round c) as (-> & -> & ->). by rewrite IH.
Qed.

(** * sort.Slice *)

(** The contract of [less]. *)
Class StrictWeak {A} (lt : A → A → bool) : Prop := {
  sw_irrefl x : lt x x = false;
  sw_trans x y z : lt x y = true → lt y z = true → lt x z = true;
  sw_neg_trans x y z : lt x y = false → lt y z = false → lt x z = false
}.

(** sort.Slice is not stable: which of the ordered permutations it produces is
    left to the library. *)
Class SortSlice := sort_slice : ∀ {A : Type}, (A → A → bool) → list A → list A.

Class SortSliceLaws `{SortSlice} : Prop := {
  sort_slice_perm {A : Type} (lt : A → A → bool) l : sort_slice lt l ≡ₚ l;
  sort_slice_sorted {A : Type} (lt : A → A → bool) l :
    StrictWeak lt → StronglySorted (λ x y, lt y x = false) (sort_slice lt l)
}.

Fixpoint insert_slice {A} (lt : A → A → bool) (x : A) (l : list A) : list A :=
  match l with
  | [] => [x]
  | y :: l' => if lt x y then x :: y :: l' else y :: insert_slice lt x l'
  end.

(** Insertion sort is one sorter that meets the contract. *)
Definition insertion_sort {A} (lt : A → A → bool) (l : list A) : list A :=
  foldr (insert_slice lt) [] l.

Lemma insert_slice_perm {A} (lt : A → A → bool) x l : insert_slice lt x l ≡ₚ x :: l.
Proof.
  induction l as [|y l IH]; [done|]. simpl. destruct (lt x y); [done|].
  rewrite IH. apply Permutation_swap.
Qed.

Lemma insertion_sort_perm {A} (lt : A → A → bool) l : insertion_sort lt l ≡ₚ l.
Proof. induction l as [|x l IH]; [done|]. simpl. by rewrite insert_slice_perm, IH. Qed.

Lemma insert_slice_sorted {A} (lt : A → A → bool) `{StrictWeak A lt} x l :
  StronglySorted (λ x y, lt y x = false) l →
  StronglySorted (λ x y, lt y x = false) (insert_slice lt x l).
Proof.
  assert (Hasym : ∀ a b, lt a b = true → lt b a = false).
  { intros a b Hab. destruct (lt b a) eqn:Hba; [|done].
    pose proof (sw_trans _ _ _ Hab Hba). by rewrite sw_irrefl in *. }
  induction 1 as [|y l Hl IH Hf]; simpl; [by repeat constructor|].
  destruct (lt x y) eqn:Hxy.
  - repeat constructor; [done..| |].
    + by apply Hasym.
    + eapply Forall_impl; [done|]. intros z Hz. eapply sw_neg_trans; [exact Hz|]. by apply Hasym.
  - constructor; [done|]. rewrite insert_slice_perm. by constructor.
Qed.

#[local] Instance insertion_sort_slice : SortSlice := @insertion_sort.

#[local] Instance insertion_sort_laws : SortSliceLaws.
Proof.
  split; [apply @insertion_sort_perm|]. intros A lt l Hw.
  induction l as [|x l IH]; [constructor|]. by apply insert_slice_sorted.
Qed.

(** Ordering by an integer key is a strict weak order. *)
#[global] Instance key_lt_weak {A} (f : A → Z) : StrictWeak (λ a b, Z.ltb (f a) (f b)).
Proof.
  split; intros *; rewrite ?Z.ltb_lt, ?Z.ltb_ge; lia.
Qed.

(** * Filtering respects permutations *)

#[global] Instance list_filter_perm {A} (P : A → bool) :
  Proper (Permutation ==> Permutation) (List.filter P).
Proof.
  induction 1 as [|x l l' Hl IH|x y l|l1 l2 l3 H1 IH1 H2 IH2]; simpl; try done.
  - destruct (P x); by rewrite IH.
  - destruct (P x), (P y); try done. apply Permutation_swap.
  - by rewrite IH1.
Qed.

(** * strings and strconv *)

(** strings.Split on a one-byte separator. *)
Fixpoint Split (s : gostring) (sep : ascii) : list gostring :=
  match s with
  | [] => [[]]
  | c :: s' =>
      if decide (c = sep) then [] :: Split s' sep
      else match Split s' sep with
           | x :: xs => (c :: x) :: xs
           | [] => [[c]]
           end
  end.

(** strings.Join with a one-byte separator. *)
Fixpoint Join (l : list gostring) (sep : ascii) : gostring :=
  match l with
  | [] => []
  | [x] => x
  | x :: l' => x ++ sep :: Join l' sep
  end.

Fixpoint Contains_str (s sub : gostring) : bool :=
  HasPrefix s sub || match s with [] => false | _ :: s' => Contains_str s' sub end.

(** sort.Strings: equal strings are indistinguishable, so the order is unique. *)
Definition Strings (l : list gostring) : list gostring := sort_by id l.

(** strconv.ParseInt(s, 10, 64) and, with a 64-bit int, strconv.Atoi. *)
Fixpoint parse_digits (s : gostring) (x : Z) : option Z :=
  match s with
  | [] => Some x
  | c :: s' => if is_digit c then parse_digits s' (x * 10 + digit_val c)%Z else None
  end.

Definition ParseInt (s : gostring) : option Z :=
  let '(neg, ds) :=
    match s with
    | c :: s' => if decide (c = "-"%char) then (true, s')
                 else if decide (c = "+"%char) then (false, s') else (false, s)
    | [] => (false, s)
    end in
  if decide (ds = []) then None
  else match parse_digits ds 0 with
       | None => None
       | Some x => let z := if neg then (- x)%Z else x in
                   if decide (in_int64 z) then Some z else None
       end.

(** strconv.ParseFloat is the one conversion left to the library. *)
Class GoFloat := ParseFloat : gostring → option float64.

(** * net/textproto.CanonicalMIMEHeaderKey *)

(** Token bytes of RFC 7230. *)
Definition token_byte (c : ascii) : bool :=
  let n := N_of_ascii c in
  (is_digit c || (N.leb 65 n && N.leb n 90) || (N.leb 97 n && N.leb n 122)
   || bool_decide (c ∈ $"!#$%&'*+-.^_`|~"))%bool.

Fixpoint canonical_bytes (up : bool) (s : gostring) : gostring :=
  match s with
  | [] => []
  | c :: s' => (if up then upper_byte c else lower_byte c)
               :: canonical_bytes (bool_decide (c = "-"%char)) s'
  end.

Definition CanonicalHeaderKey (s : gostring) : gostring :=
  if forallb token_byte s then canonical_bytes true s else s.

(** * Header maps with all their values *)

Abbreviation mheader := (gmap gostring (list gostring)).

Definition mh_values (h : mheader) (k : gostring) : list gostring :=
  default [] (h !! CanonicalHeaderKey k).
Definition mh_get (h : mheader) (k : gostring) : gostring := default [] (head (mh_values h k)).
Definition mh_add (k v : gostring) (h : mheader) : mheader :=
  <[CanonicalHeaderKey k := mh_values h k ++ [v]]> h.
Definition mh_set (k v : gostring) (h : mheader) : mheader := <[CanonicalHeaderKey k := [v]]> h.
Definition mh_del (k : gostring) (h : mheader) : mheader := delete (CanonicalHeaderKey k) h.

(** [for k, vals := range src { for _, v := range vals { dst.Add(k, v) } }]
    for maps with canonical names: the values are appended. *)
Definition mh_add_all (src dst : mheader) : mheader :=
  map_fold (λ k vals h, foldl (λ h v, mh_add k v h) h vals) dst src.

Example canonical_ex : CanonicalHeaderKey $"x-frame-OPTIONS" = $"X-Frame-Options"
  ∧ CanonicalHeaderKey $"a b" = $"a b".
Proof. vm_compute. auto. Qed.

Example ParseInt_ex : ParseInt $"-12" = Some (-12)%Z ∧ ParseInt $"9223372036854775808" = None
  ∧ ParseInt $"1 " = None ∧ ParseInt [] = None.
Proof. vm_compute. auto. Qed.

Example Split_ex : Split $"a,,b" ","%char = [$"a"; []; $"b"] ∧ Join [$"a"; []; $"b"] ","%char = $"a,,b".
Proof. vm_compute. auto. Qed.

(** * Lemmas on headers *)

Lemma canonical_byte_idem (up : bool) c :
  let d := if up then upper_byte c else lower_byte c in
  (if up then upper_byte d else lower_byte d) = d ∧
  (token_byte c = true → token_byte d = true) ∧
  bool_decide (d = "-"%char) = bool_decide (c = "-"%char).
Proof. destruct up, c as [[] [] [] [] [] [] [] []]; vm_compute; auto. Qed.

Lemma canonical_bytes_idem up s : canonical_bytes up (canonical_bytes up s) = canonical_bytes up s.
Proof.
  revert up; induction s as [|c s IH]; intros up; [done|]. cbn [canonical_bytes].
  destruct (canonical_byte_idem up c) as (-> & _ & ->). by rewrite IH.
Qed.

Lemma canonical_bytes_token up s :
  forallb token_byte s = true → forallb token_byte (canonical_bytes up s) = true.
Proof.
  revert up; induction s as [|c s IH]; intros up; [done|]. cbn [canonical_bytes forallb].
  intros [Hc Hs]%andb_true_iff. apply andb_true_iff. split; [|by apply IH].
  by apply (canonical_byte_idem up c).
Qed.

Lemma CanonicalHeaderKey_idem s : CanonicalHeaderKey (CanonicalHeaderKey s) = CanonicalHeaderKey s.
Proof.
  unfold CanonicalHeaderKey. destruct (forallb token_byte s) eqn:Hs; [|by rewrite Hs].
  rewrite canonical_bytes_token by done. apply canonical_bytes_idem.
Qed.

(** Maps that only header operations touched have canonical names. *)
Definition mh_canonical (h : mheader) : Prop := map_Forall (λ k _, CanonicalHeaderKey k = k) h.

Lemma mh_canonical_insert k v h : mh_canonical h → mh_canonical (<[CanonicalHeaderKey k := v]> h).
Proof. intros Hh. apply map_Forall_insert_2; [apply CanonicalHeaderKey_idem|done]. Qed.

Lemma mh_canonical_del k h : mh_canonical h → mh_canonical (mh_del k h).
Proof. apply map_Forall_delete. Qed.

Lemma mh_values_del k k' h :
  mh_values (mh_del k h) k'
  = if decide (CanonicalHeaderKey k = CanonicalHeaderKey k') then [] else mh_values h k'.
Proof.
  unfold mh_values, mh_del. destruct (decide _) as [->|Hne].
  - by rewrite lookup_delete_eq.
  - by rewrite lookup_delete_ne.
Qed.

Lemma mh_values_del_all ks h k :
  mh_values (foldl (λ h n, mh_del n h) h ks) k
  = if decide (CanonicalHeaderKey k ∈ CanonicalHeaderKey <$> ks) then [] else mh_values h k.
Proof.
  revert h; induction ks as [|k0 ks IH]; intros h; cbn [foldl fmap list_fmap].
  - by destruct (decide _) as [?%not_elem_of_nil|].
  - rewrite IH, mh_values_del.
    destruct (decide (CanonicalHeaderKey k ∈ CanonicalHeaderKey <$> ks)) as [Hi|Hi],
      (decide (CanonicalHeaderKey k ∈ _ :: _)) as [Hj|Hj], (decide (CanonicalHeaderKey k0 = _)) as [Hk|Hk];
      try done; try (exfalso; apply Hj; rewrite elem_of_cons; by auto).
    apply elem_of_cons in Hj as [Hj|Hj]; by exfalso.
Qed.

Lemma foldl_mh_add k (vals : list gostring) h :
  CanonicalHeaderKey k = k →
  foldl (λ h v, mh_add k v h) h vals
  = match vals with [] => h | _ => <[k := default [] (h !! k) ++ vals]> h end.
Proof.
  intros Hk. revert h; induction vals as [|v vals IH]; intros h; [done|]. cbn [foldl]. rewrite IH.
  unfold mh_add, mh_values. rewrite Hk. destruct vals as [|v' vals]; [done|].
  rewrite lookup_insert_eq, insert_insert_eq. simpl. by rewrite <- app_assoc.
Qed.

Lemma mh_add_all_lookup src dst k :
  mh_canonical src →
  mh_add_all src dst !! k
  = match src !! k with
    | Some (v :: vs) => Some (default [] (dst !! k) ++ v :: vs)
    | _ => dst !! k
    end.
Proof.
  unfold mh_add_all.
  apply (map_fold_weak_ind (λ h m, mh_canonical m → h !! k = match m !! k with
    | Some (v :: vs) => Some (default [] (dst !! k) ++ v :: vs) | _ => dst !! k end)).
  - intros _. by rewrite lookup_empty.
  - intros i vals m h Hi IH Hc. apply map_Forall_insert in Hc as [Hci Hc]; [|done].
    specialize (IH Hc). rewrite foldl_mh_add by done.
    destruct (decide (i = k)) as [->|Hne].
    + rewrite lookup_insert_eq. rewrite Hi in IH. destruct vals; [done|].
      by rewrite lookup_insert_eq, IH.
    + rewrite lookup_insert_ne by done. destruct vals; [done|]. by rewrite lookup_insert_ne.
Qed.

Lemma mh_values_add_all src dst k :
  mh_canonical src → mh_values (mh_add_all src dst) k = mh_values dst k ++ mh_values src k.
Proof.
  intros Hc. unfold mh_values. rewrite mh_add_all_lookup by done.
  destruct (src !! _) as [[|v vs]|]; cbn; by rewrite ?app_nil_r.
Qed.

(** * Handlers *)

(** What a handler does with its response writer. *)
Inductive wop :=
| WSet (k v : gostring)
| WAdd (k v : gostring)
| WDel (k : gostring)
| WWriteHeader (code : Z)
| WWrite (b : gostring).

(** A finished response with all the values of its headers. *)
Record MResponse := mkMResponse {
  mStatus : Z;
  mHeader : mheader;
  mBody : gostring
}.

(** The writer of net/http: the header map the handler sees, the responses
    sent so far (informational ones and the final one) and the body. *)
Record NetWriter := mkNetWriter {
  nwHeader : mheader;
  nwSent : list (Z * mheader);
  nwWrote : bool;
  nwBody : gostring
}.

Definition informational (code : Z) : bool :=
  (Z.leb 100 code && Z.leb code 199 && negb (Z.eqb code 101))%bool.

Definition nw_WriteHeader (code : Z) (w : NetWriter) : NetWriter :=
  if nwWrote w then w
  else mkNetWriter (nwHeader w) (nwSent w ++ [(code, nwHeader w)]) (negb (informational code)) (nwBody w).

Definition nw_Write (b : gostring) (w : NetWriter) : NetWriter :=
  let w := nw_WriteHeader StatusOK w in
  mkNetWriter (nwHeader w) (nwSent w) (nwWrote w) (nwBody w ++ b).

Definition nw_header (f : mheader → mheader) (w : NetWriter) : NetWriter :=
  mkNetWriter (f (nwHeader w)) (nwSent w) (nwWrote w) (nwBody w).

(** When the handler returns, the server sends what was not sent. *)
Definition nw_finish (w : NetWriter) : NetWriter := nw_WriteHeader StatusOK w.

Definition nw_op (w : NetWriter) (o : wop) : NetWriter :=
  match o with
  | WSet k v => nw_header (mh_set k v) w
  | WAdd k v => nw_header (mh_add k v) w
  | WDel k => nw_header (mh_del k) w
  | WWriteHeader code => nw_WriteHeader code w
  | WWrite b => nw_Write b w
  end.

Lemma finish_wrote w : nwWrote w = true → nw_finish w = w.
Proof. intros Hw. unfold nw_finish, nw_WriteHeader. by rewrite Hw. Qed.

Definition header_op (o : wop) : Prop := match o with WSet _ _ | WAdd _ _ | WDel _ => True | _ => False end.

Definition hop (h : mheader) (o : wop) : mheader :=
  match o with
  | WSet k v => mh_set k v h
  | WAdd k v => mh_add k v h
  | WDel k => mh_del k h
  | _ => h
  end.

(** The status a call puts on the wire when it is the first write. *)
Definition write_code (o : wop) : option Z :=
  match o with WWriteHeader c => Some c | WWrite _ => Some StatusOK | _ => None end.

(** The bytes written. *)
Definition writes (ops : list wop) : gostring := ops ≫= λ o, match o with WWrite b => b | _ => [] end.

Lemma nw_header_ops ops w :
  Forall header_op ops →
  foldl nw_op w ops = mkNetWriter (foldl hop (nwHeader w) ops) (nwSent w) (nwWrote w) (nwBody w).
Proof.
  intros Hf. revert w. induction Hf as [|o ops Ho _ IH]; intros w; cbn [foldl]; [by destruct w|].
  rewrite IH. by destruct o.
Qed.

(** After the final response only the body grows. *)
Lemma nw_after_final ops w :
  nwWrote w = true →
  nwSent (foldl nw_op w ops) = nwSent w ∧ nwWrote (foldl nw_op w ops) = true ∧
  nwBody (foldl nw_op w ops) = nwBody w ++ writes ops.
Proof.
  revert w. induction ops as [|o ops IH]; intros w Hw; cbn [foldl]; [by rewrite app_nil_r|].
  assert (Hw' : nwWrote (nw_op w o) = true ∧ nwSent (nw_op w o) = nwSent w ∧
                nwBody (nw_op w o) = nwBody w ++ match o with WWrite b => b | _ => [] end).
  { destruct o; cbn; unfold nw_Write, nw_WriteHeader; rewrite ?Hw; cbn; by rewrite ?app_nil_r. }
  destruct Hw' as (Hw1 & Hs1 & Hb1). destruct (IH _ Hw1) as (-> & -> & ->).
  rewrite Hs1, Hb1, <- (assoc (++)). done.
Qed.

(** The first write of a final response sends the headers set before it. *)
Lemma nw_first_final pre o post code h0 :
  Forall header_op pre → write_code o = Some code → informational code = false →
  let w := foldl nw_op (mkNetWriter h0 [] false []) (pre ++ o :: post) in
  nwSent w = [(code, foldl hop h0 pre)] ∧ nwWrote w = true ∧ nwBody w = writes (o :: post).
Proof.
  intros Hpre Hc Hi. cbv zeta. rewrite foldl_app, (nw_header_ops pre) by done. cbn [foldl nwHeader nwSent nwWrote nwBody].
  set (w1 := nw_op _ o).
  assert (H1 : nwSent w1 = [(code, foldl hop h0 pre)] ∧ nwWrote w1 = true ∧
               nwBody w1 = match o with WWrite b => b | _ => [] end).
  { subst w1. destruct o; simplify_eq/=; unfold nw_Write, nw_WriteHeader; cbn; by rewrite ?Hi. }
  destruct H1 as (Hs & Hw & Hb). destruct (nw_after_final post w1 Hw) as (-> & -> & ->). by rewrite Hs, Hb.
Qed.

(** * Printed numbers are read back *)

Lemma pretty_digit x : (x < 10)%N → is_digit (pretty_N_char x) = true ∧ digit_val (pretty_N_char x) = Z.of_N x.
Proof. intros Hx. destruct x as [|p]; [by vm_compute|]. do 10 (destruct p as [p|p|]; try (by vm_compute); try lia). Qed.

Lemma parse_pretty x s :
  parse_digits (String.list_ascii_of_string (pretty_N_go x s)) 0 = parse_digits (String.list_ascii_of_string s) (Z.of_N x).
Proof.
  revert s. induction (N.lt_wf_0 x) as [x _ IH]; intros s.
  destruct (decide (x = 0)%N) as [->|Hne]; [by rewrite pretty_N_go_0|].
  rewrite pretty_N_go_step by lia. rewrite IH by (apply N.div_lt; lia). cbn [String.list_ascii_of_string parse_digits].
  destruct (pretty_digit (x `mod` 10)) as [-> ->]; [apply N.mod_lt; lia|]. f_equal.
  rewrite N2Z.inj_div, N2Z.inj_mod. rewrite (Z.mul_comm _ 10). symmetry. apply Z.div_mod. lia.
Qed.

Lemma parse_digits_fmt n : (0 ≤ n)%Z → parse_digits (fmt_int n) 0 = Some n.
Proof.
  intros Hn. destruct n as [|p|p]; [done| |lia]. unfold fmt_int. cbn [pretty pretty_Z].
  change (pretty p) with (pretty (Npos p)). unfold pretty, pretty_N. rewrite decide_False by done.
  by rewrite parse_pretty.
Qed.

Lemma parse_digits_digits s x v : parse_digits s x = Some v → Forall (λ c, is_digit c = true) s.
Proof.
  revert x; induction s as [|c s IH]; intros x; cbn; [by constructor|]. destruct (is_digit c) eqn:Hd; [|done]. eauto.
Qed.

(** A number is written in digits only. *)
Lemma fmt_int_no c n : (0 ≤ n)%Z → is_digit c = false → c ∉ fmt_int n.
Proof.
  intros Hn%parse_digits_fmt%parse_digits_digits Hc Hin. rewrite Forall_forall in Hn. apply Hn in Hin. by rewrite Hin in Hc.
Qed.
