(* ===== verification/TtlBlock.v ===== *)
(** The timed block list (src/internal/feature/ttlblock/store.go, ttlblock.go):
    the persistent store of blocked addresses and the middleware that consults
    it.

    The embedded store is the [Bucket] interface, SHA-256, filepath.Dir, the JSON
    codec of entries and sort.Slice are parameters; the clock, the random source, the
    outcomes of file operations and of commits are inputs of the operations. *)

From S2P Require Import Prelude Float Http Metrics Shared Bolt AuditLog FeatureRegistry GoStd.

(** * The store *)

Definition saltLen : nat := 32.
Definition saltKey : gostring := $"salt".

(** The largest key bbolt accepts in a bucket. *)
Definition MaxKeySize : Z := 32768.

Record Entry := mkEntry {
  eTenant : gostring;
  IPOrHash : gostring;
  BlockedUntil : time;
  Reason : gostring
}.

(** encoding/json on entries. *)
Class EntryCodec := {
  entry_marshal : Entry → option gostring;
  entry_unmarshal : gostring → option Entry
}.

(** Deadlines survive the codec (strings need not: invalid UTF-8 is replaced). *)
Class EntryCodecLaws `{EntryCodec} : Prop := {
  entry_deadline e s : entry_marshal e = Some s →
    ∃ e', entry_unmarshal s = Some e' ∧ BlockedUntil e' = BlockedUntil e
}.

Inductive store_error :=
| ErrPath | ErrMkdir | ErrBoltOpen | ErrBuckets
| ErrReadSalt | ErrGenSalt | ErrMkdirSalt | ErrWriteSalt | ErrPutSalt
| ErrTenantRequired | ErrIPRequired | ErrTTL | ErrMarshalEntry | ErrKeyTooLarge | ErrCommitTx.

(** The files and the system calls [OpenStore] meets: the salt file's
    contents ([None] when it does not exist), whether reading it fails for
    another reason, 32 random bytes ([None] when the source fails) and the
    outcome of each write. *)
Record OpenIO := mkOpenIO {
  oi_mkdir : bool;
  oi_bolt : bool;
  oi_buckets : bool;
  oi_salt_file : option gostring;
  oi_salt_err : bool;
  oi_rand : option gostring;
  oi_salt_mkdir : bool;
  oi_salt_write : bool;
  oi_salt_put : bool
}.

Definition bytesEqual (a b : gostring) : bool :=
  if decide (length a ≠ length b) then false
  else forallb (λ i, bool_decide (a !! i = b !! i)) (seq 0 (length a)).

Definition hasPrefix (b prefix : gostring) : bool :=
  if decide (length b < length prefix) then false
  else forallb (λ i, bool_decide (b !! i = prefix !! i)) (seq 0 (length prefix)).

Definition is_newline (c : ascii) : bool :=
  bool_decide (c = ascii_of_N 10 ∨ c = ascii_of_N 13).

(** [None] is the nil slice. *)
Definition decodeSaltMaybeHex (raw : gostring) : option gostring :=
  if decide (length raw = saltLen) then Some raw
  else
    let raw := TrimRight raw is_newline in
    if decide (length raw = 2 * saltLen) then hex_decode raw else None.

Section store.
Context {B : Type} `{Bucket B} `{EntryCodec} `{SortSlice} (sha256 : gostring → gostring).

Record Store := mkStore {
  entries : B;
  meta : B;
  stSalt : gostring
}.

(** The salt, the file and the meta bucket afterwards. *)
Definition loadOrCreateSalt (io : OpenIO) (m : B)
    : result store_error (gostring * option gostring * B) :=
  if oi_salt_err io then Err ErrReadSalt
  else
    let diskSalt := default [] (decodeSaltMaybeHex (default [] (oi_salt_file io))) in
    let dbSalt := default [] (bk_get m saltKey) in
    let* salt :=
      (if decide (length diskSalt = saltLen) then Ok diskSalt
       else if decide (length dbSalt = saltLen) then Ok dbSalt
       else match oi_rand io with Some r => Ok (pad_to saltLen r) | None => Err ErrGenSalt end) in
    let* file :=
      (if negb (bytesEqual diskSalt salt) then
         if negb (oi_salt_mkdir io) then Err ErrMkdirSalt
         else if negb (oi_salt_write io) then Err ErrWriteSalt
         else Ok (Some (hex_encode salt))
       else Ok (oi_salt_file io)) in
    let* m' :=
      (if negb (bytesEqual dbSalt salt) then
         if negb (oi_salt_put io) then Err ErrPutSalt else Ok (bk_put saltKey salt m)
       else Ok m) in
    Ok (salt, file, m').

(** [e] and [m] are the buckets of the opened database file, empty when it is
    new. The result has the store and the salt file. *)
Definition OpenStore (filepath_Dir : gostring → gostring) (io : OpenIO)
    (path saltFile : gostring) (e m : B)
    : result store_error (Store * option gostring) :=
  if decide (path = []) then Err ErrPath
  else if (bool_decide (filepath_Dir path ≠ [] ∧ filepath_Dir path ≠ $".") && negb (oi_mkdir io))%bool
  then Err ErrMkdir
  else if negb (oi_bolt io) then Err ErrBoltOpen
  else if negb (oi_buckets io) then Err ErrBuckets
  else if decide (saltFile = []) then Ok (mkStore e m [], oi_salt_file io)
  else
    let* r := loadOrCreateSalt io m in
    let '(salt, file, m') := r in
    Ok (mkStore e m' salt, file).

Definition SaltedHashes (s : Store) : bool := bool_decide (length (stSalt s) = saltLen).

Definition ipPart (s : Store) (ip : gostring) : gostring :=
  if decide (length (stSalt s) = saltLen) then hex_encode (sha256 (ip ++ stSalt s)) else ip.

Definition tenant_prefix (tenant : gostring) : gostring := tenant ++ [NUL].

Definition keyFor (s : Store) (tenant ip : gostring) : gostring :=
  tenant_prefix tenant ++ ipPart s ip.

Definition extractIPPart (key tenant : gostring) : gostring :=
  let prefix := tenant_prefix tenant in
  if decide (length key < length prefix) then key else drop (length prefix) key.

(** The rows a cursor visits from [Seek(prefix)] while the key has the prefix. *)
Fixpoint while_prefix (prefix : gostring) (l : list (gostring * gostring))
    : list (gostring * gostring) :=
  match l with
  | [] => []
  | (k, v) :: l' => if hasPrefix k prefix then (k, v) :: while_prefix prefix l' else []
  end.

Definition scan (prefix : gostring) (b : B) : list (gostring * gostring) :=
  while_prefix prefix (bk_seek prefix b).

(** The key and the deadline of a row that decodes. *)
Definition row_rec (kv : gostring * gostring) : option (gostring * time) :=
  (λ e, (kv.1, BlockedUntil e)) <$> entry_unmarshal kv.2.

Definition delete_keys (ks : list gostring) (b : B) : B := foldl (λ b k, bk_delete k b) b ks.

Definition trimTenantLRU (tenant : gostring) (max : Z) (b : B) : B :=
  let all := omap row_rec (scan (tenant_prefix tenant) b) in
  if Z.leb (Z.of_nat (length all)) max then b
  else
    let sorted := sort_slice (λ x y, Before x.2 y.2) all in
    let surplus := Z.to_nat (Z.of_nat (length all) - max) in
    delete_keys (take surplus sorted).*1 b.

Definition with_entries (b : B) (s : Store) : Store := mkStore b (meta s) (stSalt s).

Definition Add (now : time) (commit : bool) (tenant ip : gostring) (ttl : duration)
    (reason : gostring) (max : Z) (s : Store) : Store * option store_error :=
  if decide (tenant = []) then (s, Some ErrTenantRequired)
  else if decide (ip = []) then (s, Some ErrIPRequired)
  else if Z.leb ttl 0 then (s, Some ErrTTL)
  else
    let key := keyFor s tenant ip in
    match entry_marshal (mkEntry tenant (extractIPPart key tenant) (time_add now ttl) reason) with
    | None => (s, Some ErrMarshalEntry)
    | Some encoded =>
        if Z.ltb MaxKeySize (Z.of_nat (length key)) then (s, Some ErrKeyTooLarge)
        else
          let b := bk_put key encoded (entries s) in
          let b := if Z.ltb 0 max then trimTenantLRU tenant max b else b in
          if commit then (with_entries b s, None) else (s, Some ErrCommitTx)
    end.

Definition row_live (now : time) (v : option gostring) : bool :=
  match v with
  | None => false
  | Some v => match entry_unmarshal v with None => false | Some e => After (BlockedUntil e) now end
  end.

Definition Contains (now : time) (tenant ip : gostring) (s : Store) : bool :=
  if decide (tenant = [] ∨ ip = []) then false
  else row_live now (bk_get (entries s) (keyFor s tenant ip)).

Definition Remove (commit : bool) (tenant ip : gostring) (s : Store) : Store * option store_error :=
  if decide (tenant = [] ∨ ip = []) then (s, None)
  else if commit then (with_entries (bk_delete (keyFor s tenant ip) (entries s)) s, None)
  else (s, Some ErrCommitTx).

(** [List] of the source. *)
Definition ListEntries (tenant : gostring) (s : Store) : list Entry :=
  if decide (tenant = []) then []
  else sort_slice (λ x y, Before (BlockedUntil x) (BlockedUntil y))
         (omap (λ kv, entry_unmarshal kv.2) (scan (tenant_prefix tenant) (entries s))).

Definition swept (now : time) (kv : gostring * gostring) : bool :=
  match entry_unmarshal kv.2 with
  | None => true
  | Some e => negb (After (BlockedUntil e) now)
  end.

Definition Sweep (now : time) (commit : bool) (s : Store) : Store * option store_error :=
  let toDelete := (List.filter (swept now) (bk_seek [] (entries s))).*1 in
  if decide (length toDelete = 0) then (s, None)
  else if commit then (with_entries (delete_keys toDelete (entries s)) s, None)
  else (s, Some ErrCommitTx).

(** * Lemmas on keys and scans *)

Lemma forallb_seq_lookup (a b : gostring) n :
  forallb (λ i, bool_decide (a !! i = b !! i)) (seq 0 n) = true ↔ take n a = take n b.
Proof.
  rewrite forallb_forall. split.
  - intros Hf. apply list_eq. intros i. destruct (decide (i < n)) as [Hi|Hi].
    + rewrite !lookup_take by done. destruct (decide (i < n)); [|done].
      assert (In i (seq 0 n)) as Hs by (apply in_seq; lia).
      by apply Hf, bool_decide_eq_true in Hs.
    + rewrite !lookup_take. by destruct (decide _).
  - intros He i Hi%in_seq. apply bool_decide_eq_true.
    rewrite <- (lookup_take_lt a n i) by lia. rewrite He. by rewrite lookup_take_lt by lia.
Qed.

Lemma bytesEqual_spec a b : bytesEqual a b = true ↔ a = b.
Proof.
  unfold bytesEqual. destruct (decide _) as [Hl|Hl].
  - split; [done|]. intros ->. lia.
  - rewrite forallb_seq_lookup. rewrite !take_ge by lia. done.
Qed.

Lemma hasPrefix_spec b p : hasPrefix b p = true ↔ p `prefix_of` b.
Proof.
  unfold hasPrefix. destruct (decide _) as [Hl|Hl].
  - split; [done|]. intros Hp%prefix_length. lia.
  - rewrite forallb_seq_lookup, (take_ge p) by lia. split.
    + intros <-. apply prefix_take.
    + intros [k ->]. by rewrite take_app_length.
Qed.

Lemma prefix_str_le p k : p `prefix_of` k → str_le p k.
Proof.
  intros [t ->]. induction p as [|c p IH]; [done|]. unfold str_le in *. simpl.
  by rewrite N.compare_refl.
Qed.

(** The strings with a given prefix are an interval of the byte order. *)
Lemma prefix_between p x y : str_le p x → str_le x y → p `prefix_of` y → p `prefix_of` x.
Proof.
  revert x y; induction p as [|c p IH]; intros x y Hpx Hxy Hp; [apply prefix_nil|].
  destruct Hp as [t ->]. destruct x as [|d x]; [done|].
  unfold str_le in *. simpl in Hpx, Hxy.
  destruct (N.compare_spec (N_of_ascii c) (N_of_ascii d)) as [E|E|E]; [| |done].
  - rewrite E, N.compare_refl in Hxy.
    assert (c = d) as -> by (rewrite <- (ascii_N_embedding c), E; apply ascii_N_embedding).
    apply prefix_cons. eapply IH; [done..|]. by exists t.
  - destruct (N.compare_spec (N_of_ascii d) (N_of_ascii c)); [lia..|done].
Qed.

Lemma while_prefix_filter p l :
  StronglySorted str_lt l.*1 → (∀ kv, kv ∈ l → str_le p kv.1) →
  while_prefix p l = List.filter (λ kv, hasPrefix kv.1 p) l.
Proof.
  induction l as [|[k v] l IH]; intros Hs Hp; [done|]. simpl in Hs |- *.
  inversion Hs as [|?? Hs' Hf]; subst. destruct (hasPrefix k p) eqn:Hk.
  - f_equal. apply IH; [done|]. intros kv Hkv. apply Hp. by right.
  - destruct (List.filter _ l) as [|[k' v'] l'] eqn:Hfl; [done|].
    assert (In (k', v') (List.filter (λ kv, hasPrefix kv.1 p) l)) as Hin by (rewrite Hfl; by left).
    apply List.filter_In in Hin as [Hin Hk'].
    apply list_elem_of_In in Hin. apply hasPrefix_spec in Hk'. simpl in Hk'.
    assert (hasPrefix k p = true); [|congruence]. apply hasPrefix_spec.
    rewrite Forall_forall in Hf. apply (prefix_between p k k'); [| |done].
    + apply (Hp (k, v)). left.
    + apply Hf. by apply (list_elem_of_fmap_2' fst _ (k', v')).
Qed.

Context `{!BucketLaws B}.

Lemma scan_filter p b : scan p b = List.filter (λ kv, hasPrefix kv.1 p) (bk_seek p b).
Proof.
  apply while_prefix_filter; [apply bk_seek_sorted|]. by intros [k v] [_ ?]%bk_seek_elem.
Qed.

Lemma elem_of_scan p b k v : (k, v) ∈ scan p b ↔ bk_get b k = Some v ∧ p `prefix_of` k.
Proof.
  rewrite scan_filter, list_elem_of_In, List.filter_In, <- list_elem_of_In, bk_seek_elem.
  rewrite hasPrefix_spec. simpl. pose proof (prefix_str_le p k). naive_solver.
Qed.

Lemma scan_sorted p b : StronglySorted str_lt (scan p b).*1.
Proof. rewrite scan_filter. apply sorted_pairs_filter, bk_seek_sorted. Qed.

Lemma sorted_keys_NoDup (l : list gostring) : StronglySorted str_lt l → NoDup l.
Proof.
  induction 1 as [|x l Hl IH Hf]; constructor; [|done]. intros Hx.
  rewrite Forall_forall in Hf. by apply (str_lt_irrefl x), Hf.
Qed.

Lemma scan_ext p b b' :
  (∀ k, p `prefix_of` k → bk_get b k = bk_get b' k) → scan p b = scan p b'.
Proof.
  intros Hk. apply sorted_pairs_ext; [apply scan_sorted..|].
  intros [k v]. rewrite !elem_of_scan.
  split; intros [Hg Hp]; (split; [|done]); [by rewrite <- Hk|by rewrite Hk].
Qed.

Lemma get_delete_keys ks b k :
  bk_get (delete_keys ks b) k = if decide (k ∈ ks) then None else bk_get b k.
Proof.
  unfold delete_keys. revert b; induction ks as [|k0 ks IH]; intros b; cbn [foldl].
  - by destruct (decide (k ∈ [])) as [?%not_elem_of_nil|].
  - rewrite IH. destruct (decide (k ∈ ks)) as [Hi|Hi], (decide (k ∈ k0 :: ks)) as [Hj|Hj];
      try done; try set_solver.
    + assert (k = k0) as -> by set_solver. by rewrite bk_get_delete_eq.
    + rewrite bk_get_delete_ne by set_solver. done.
Qed.

(** * The rows of a tenant *)

(** The keys and deadlines of a tenant's rows that decode. *)
Definition rows (tenant : gostring) (b : B) : list (gostring * time) :=
  omap row_rec (scan (tenant_prefix tenant) b).

Lemma omap_row_rec_filter (P : gostring → bool) l :
  omap row_rec (List.filter (λ kv, P kv.1) l) = List.filter (λ r, P r.1) (omap row_rec l).
Proof.
  induction l as [|[k v] l IH]; [done|]. cbn [List.filter omap list_omap fst].
  unfold row_rec at 2. cbn [fst snd].
  destruct (P k) eqn:Hp; cbn [omap list_omap]; unfold row_rec at 1; cbn [fst snd];
    destruct (entry_unmarshal v) as [e|]; cbn [fmap option_fmap option_map List.filter fst];
    rewrite ?Hp, ?IH; done.
Qed.

Lemma elem_of_rows tenant b k d :
  (k, d) ∈ rows tenant b ↔
  ∃ v e, bk_get b k = Some v ∧ tenant_prefix tenant `prefix_of` k ∧
         entry_unmarshal v = Some e ∧ BlockedUntil e = d.
Proof.
  unfold rows. rewrite list_elem_of_omap. split.
  - intros ([k' v] & Hin & Hr). unfold row_rec in Hr. cbn [fst snd] in Hr.
    destruct (entry_unmarshal v) as [e|] eqn:He; [|done]. simplify_eq/=.
    apply elem_of_scan in Hin as [Hg Hp]. eauto 6.
  - intros (v & e & Hg & Hp & He & <-). exists (k, v). split; [by apply elem_of_scan|].
    unfold row_rec. cbn [fst snd]. by rewrite He.
Qed.

Lemma omap_row_rec_keys l : (omap row_rec l).*1 `sublist_of` l.*1.
Proof.
  induction l as [|[k v] l IH]; [done|]. cbn [omap list_omap]. unfold row_rec at 1. cbn [fst snd].
  destruct (entry_unmarshal v); cbn; by constructor.
Qed.

Lemma rows_NoDup tenant b : NoDup (rows tenant b).*1.
Proof.
  eapply sublist_NoDup; [|apply omap_row_rec_keys]. apply sorted_keys_NoDup, scan_sorted.
Qed.

Definition absent (ks : list gostring) (k : gostring) : bool := bool_decide (k ∉ ks).

Lemma absent_true ks k : absent ks k = true ↔ k ∉ ks.
Proof. apply bool_decide_eq_true. Qed.

Lemma scan_delete ks p b :
  scan p (delete_keys ks b) = List.filter (λ kv, absent ks kv.1) (scan p b).
Proof.
  apply sorted_pairs_ext; [apply scan_sorted|apply sorted_pairs_filter, scan_sorted|].
  intros [k v].
  rewrite (list_elem_of_In (List.filter _ _)), List.filter_In, <- list_elem_of_In, !elem_of_scan.
  cbn [fst]. rewrite absent_true, get_delete_keys.
  destruct (decide (k ∈ ks)); naive_solver.
Qed.

Lemma rows_delete ks tenant b :
  rows tenant (delete_keys ks b) = List.filter (λ r, absent ks r.1) (rows tenant b).
Proof.
  unfold rows. rewrite scan_delete. apply (omap_row_rec_filter (absent ks)).
Qed.

Lemma filter_app_keys {V} (l1 l2 : list (gostring * V)) :
  NoDup (l1 ++ l2).*1 → List.filter (λ r, absent l1.*1 r.1) (l1 ++ l2) = l2.
Proof.
  intros Hnd. rewrite List.filter_app.
  rewrite fmap_app in Hnd. apply NoDup_app in Hnd as (_ & Hd & _).
  assert (List.filter (λ r, absent l1.*1 r.1) l1 = []) as ->.
  { destruct (List.filter _ l1) as [|x l] eqn:Hf; [done|].
    assert (In x (List.filter (λ r, absent l1.*1 r.1) l1)) as Hin by (rewrite Hf; by left).
    apply List.filter_In in Hin as [Hin Hx%absent_true]. exfalso.
    apply Hx, list_elem_of_fmap_2, list_elem_of_In, Hin. }
  simpl. clear - Hd. assert (Hd' : ∀ r, r ∈ l2 → r.1 ∉ l1.*1).
  { intros r Hr Hl. apply (Hd r.1 Hl). by apply list_elem_of_fmap_2. }
  clear Hd. induction l2 as [|r l2 IH]; [done|]. cbn [List.filter].
  rewrite (proj2 (absent_true _ _)) by (apply Hd'; left). f_equal. apply IH. intros; apply Hd'. by right.
Qed.

Context `{!SortSliceLaws} `{!EntryCodecLaws}.

(** What trimming evicts and keeps. *)
Lemma trim_split tenant max b :
  (0 ≤ max)%Z →
  ∃ evicted kept,
    rows tenant b ≡ₚ evicted ++ kept ∧
    rows tenant (trimTenantLRU tenant max b) ≡ₚ kept ∧
    Z.of_nat (length kept) = Z.min max (Z.of_nat (length (rows tenant b))) ∧
    (∀ e k, e ∈ evicted → k ∈ kept → (e.2 ≤ k.2)%Z) ∧
    (∀ k, bk_get (trimTenantLRU tenant max b) k
          = if decide (k ∈ evicted.*1) then None else bk_get b k).
Proof.
  intros Hmax. unfold trimTenantLRU. fold (rows tenant b).
  destruct (Z.leb_spec (Z.of_nat (length (rows tenant b))) max) as [Hle|Hgt].
  - exists [], (rows tenant b). split_and!; [done..|lia|by intros ?? ?%not_elem_of_nil|].
    intros k. by destruct (decide (k ∈ _)) as [?%not_elem_of_nil|].
  - set (lt := λ x y : gostring * time, Before x.2 y.2).
    pose proof (sort_slice_perm lt (rows tenant b)) as Hperm.
    pose proof (sort_slice_sorted lt (rows tenant b) _) as Hsort.
    set (n := Z.to_nat (Z.of_nat (length (rows tenant b)) - max)).
    set (l := sort_slice lt (rows tenant b)) in *.
    assert (Hl : l = take n l ++ drop n l) by (by rewrite take_drop).
    assert (Hnd : NoDup l.*1) by (rewrite Hperm; apply rows_NoDup).
    exists (take n l), (drop n l). rewrite <- Hl. split_and!.
    + by rewrite Hperm.
    + rewrite rows_delete, <- Hperm. pose proof (filter_app_keys (take n l) (drop n l)) as HF.
      rewrite <- Hl in HF. by rewrite HF.
    + apply Permutation_length in Hperm. rewrite length_drop, Hperm. unfold n. lia.
    + rewrite Hl in Hsort. apply StronglySorted_app in Hsort as (Hs & _ & _).
      intros e k He Hk. specialize (Hs e k He Hk). unfold lt, Before in Hs. by apply Z.ltb_ge in Hs.
    + intros k. apply get_delete_keys.
Qed.

Lemma rows_put tenant key v e b :
  tenant_prefix tenant `prefix_of` key → entry_unmarshal v = Some e →
  rows tenant (bk_put key v b)
  ≡ₚ (key, BlockedUntil e) :: List.filter (λ r, absent [key] r.1) (rows tenant b).
Proof.
  intros Hp He. rewrite <- rows_delete. apply NoDup_Permutation.
  - eapply NoDup_fmap_1, rows_NoDup.
  - apply NoDup_cons. split; [|eapply NoDup_fmap_1, rows_NoDup].
    intros (v' & e' & Hg & _)%elem_of_rows. rewrite get_delete_keys in Hg.
    by rewrite decide_True in Hg by set_solver.
  - intros [k d]. rewrite elem_of_cons, !elem_of_rows. setoid_rewrite get_delete_keys.
    destruct (decide (k = key)) as [->|Hne].
    + split.
      * intros (v' & e' & Hg & _ & He' & <-). rewrite bk_get_put_eq in Hg. simplify_eq. by left.
      * intros [?|(v' & e' & Hg & _)]; [simplify_eq; rewrite bk_get_put_eq; eauto 6|].
        by destruct (decide (key ∈ [key])); [|set_solver].
    + rewrite bk_get_put_ne by done. destruct (decide (k ∈ [key])); [set_solver|].
      naive_solver.
Qed.

Lemma keyFor_prefix s tenant ip : tenant_prefix tenant `prefix_of` keyFor s tenant ip.
Proof. by exists (ipPart s ip). Qed.

(** The row an accepted [Add] writes. *)
Lemma Add_ok now commit tenant ip ttl reason max s s' :
  Add now commit tenant ip ttl reason max s = (s', None) →
  ∃ v e, entry_unmarshal v = Some e ∧ BlockedUntil e = time_add now ttl ∧ commit = true ∧
    tenant ≠ [] ∧ ip ≠ [] ∧ (0 < ttl)%Z ∧ meta s' = meta s ∧ stSalt s' = stSalt s ∧
    entries s' = (if Z.ltb 0 max then trimTenantLRU tenant max else λ b, b)
                   (bk_put (keyFor s tenant ip) v (entries s)).
Proof.
  unfold Add. destruct (decide (tenant = [])); [done|]. destruct (decide (ip = [])); [done|].
  destruct (Z.leb_spec ttl 0); [done|].
  destruct (entry_marshal _) as [v|] eqn:Hm; [|done]. destruct (Z.ltb MaxKeySize _); [done|].
  destruct commit; [|done]. intros [= <-]. apply entry_deadline in Hm as (e & He & Hd).
  exists v, e. simpl in Hd. split_and!; try done. simpl. by destruct (Z.ltb 0 max).
Qed.

Lemma Add_err now commit tenant ip ttl reason max s s' err :
  Add now commit tenant ip ttl reason max s = (s', Some err) → s' = s.
Proof. unfold Add. intros Ha. split_cond; done. Qed.

Lemma prefix_tenant_inj t t' k :
  nul_free t → nul_free t' → tenant_prefix t `prefix_of` k → tenant_prefix t' `prefix_of` k → t = t'.
Proof.
  unfold tenant_prefix. intros Hn Hn' [a Ha] [b Hb]. rewrite <- app_assoc in Ha, Hb.
  pose proof (cut_byte_app NUL t a Hn) as E1. pose proof (cut_byte_app NUL t' b Hn') as E2.
  simpl in Ha, Hb. rewrite <- Ha in E1. rewrite <- Hb in E2. congruence.
Qed.

(** * Histories *)

(** What a completed call means for the block list. *)
Inductive event :=
| EvAdd (now : time) (tenant ip : gostring) (ttl : duration) (max : Z)
| EvRemove (tenant ip : gostring)
| EvSweep (now : time)
| EvFailed.

Inductive step (s : Store) : event → Store → Prop :=
| step_add now commit tenant ip ttl reason max s' :
    Add now commit tenant ip ttl reason max s = (s', None) →
    step s (EvAdd now tenant ip ttl max) s'
| step_add_err now commit tenant ip ttl reason max s' err :
    Add now commit tenant ip ttl reason max s = (s', Some err) → step s EvFailed s'
| step_remove commit tenant ip s' :
    Remove commit tenant ip s = (s', None) → step s (EvRemove tenant ip) s'
| step_remove_err commit tenant ip s' err :
    Remove commit tenant ip s = (s', Some err) → step s EvFailed s'
| step_sweep now commit s' err :
    Sweep now commit s = (s', err) → step s (EvSweep now) s'.

Inductive steps (s : Store) : list event → Store → Prop :=
| steps_nil : steps s [] s
| steps_snoc evs ev s1 s2 : steps s evs s1 → step s1 ev s2 → steps s (evs ++ [ev]) s2.

(** The abstract block list: a deadline per key, written by [Add], erased by
    [Remove]; sweeping does not touch it. *)
Definition abs_event (s : Store) (ev : event) (m : gmap gostring time) : gmap gostring time :=
  match ev with
  | EvAdd now tenant ip ttl _ => <[keyFor s tenant ip := time_add now ttl]> m
  | EvRemove tenant ip =>
      if decide (tenant = [] ∨ ip = []) then m else delete (keyFor s tenant ip) m
  | EvSweep _ | EvFailed => m
  end.

Definition abs_list (s : Store) (evs : list event) : gmap gostring time :=
  foldl (λ m ev, abs_event s ev m) ∅ evs.

Definition abs_blocked (now : time) (m : gmap gostring time) (k : gostring) : bool :=
  match m !! k with Some d => After d now | None => false end.

Definition swept_by (now : time) (ev : event) : Prop :=
  match ev with EvSweep t => (t ≤ now)%Z | _ => True end.

(** How many addresses of a tenant the abstract list has. *)
Definition tenant_load (tenant : gostring) (m : gmap gostring time) : Z :=
  Z.of_nat (size (filter (λ kd : gostring * time, tenant_prefix tenant `prefix_of` kd.1) m)).

(** No call overflows its limit: an [Add] with a limit finds, with its own
    address, at most that many addresses of its tenant added and not removed. *)
Definition within (s : Store) (m : gmap gostring time) (ev : event) : Prop :=
  match ev with
  | EvAdd _ tenant _ _ max => (max ≤ 0 ∨ tenant_load tenant (abs_event s ev m) ≤ max)%Z
  | _ => True
  end.

Fixpoint fits (s : Store) (m : gmap gostring time) (evs : list event) : Prop :=
  match evs with
  | [] => True
  | ev :: evs => within s m ev ∧ fits s (abs_event s ev m) evs
  end.

Lemma fits_snoc s m evs ev :
  fits s m (evs ++ [ev]) ↔ fits s m evs ∧ within s (foldl (λ m ev, abs_event s ev m) m evs) ev.
Proof. revert m. induction evs as [|e evs IH]; intros m; cbn [app fits foldl]; [tauto|]. rewrite IH. tauto. Qed.

Lemma keyFor_salt s s' tenant ip : stSalt s = stSalt s' → keyFor s tenant ip = keyFor s' tenant ip.
Proof. unfold keyFor, ipPart. by intros ->. Qed.

(** Every row carries the abstract deadline of its key. *)
Definition sound (m : gmap gostring time) (b : B) : Prop :=
  ∀ k v, bk_get b k = Some v → ∃ e, entry_unmarshal v = Some e ∧ m !! k = Some (BlockedUntil e).

(** Every deadline later than [now] has its row. *)
Definition complete (now : time) (m : gmap gostring time) (b : B) : Prop :=
  ∀ k d, m !! k = Some d → (now < d)%Z →
    ∃ v e, bk_get b k = Some v ∧ entry_unmarshal v = Some e ∧ BlockedUntil e = d.

Lemma sound_put m b key v e :
  entry_unmarshal v = Some e → sound m b → sound (<[key := BlockedUntil e]> m) (bk_put key v b).
Proof.
  intros He Hs k v'. destruct (decide (key = k)) as [->|Hne].
  - rewrite bk_get_put_eq, lookup_insert_eq. naive_solver.
  - rewrite bk_get_put_ne, lookup_insert_ne by done. apply Hs.
Qed.

Lemma complete_put now m b key v e :
  entry_unmarshal v = Some e → complete now m b →
  complete now (<[key := BlockedUntil e]> m) (bk_put key v b).
Proof.
  intros He Hs k d. destruct (decide (key = k)) as [->|Hne].
  - rewrite bk_get_put_eq, lookup_insert_eq. naive_solver.
  - rewrite bk_get_put_ne, lookup_insert_ne by done. apply Hs.
Qed.

Lemma sound_sub m b b' :
  (∀ k, bk_get b' k = bk_get b k ∨ bk_get b' k = None) → sound m b → sound m b'.
Proof. intros Hsub Hs k v Hg. destruct (Hsub k) as [E|E]; rewrite E in Hg; [by apply Hs|done]. Qed.

Lemma trim_sub tenant max b k :
  (0 < max)%Z →
  bk_get (trimTenantLRU tenant max b) k = bk_get b k ∨ bk_get (trimTenantLRU tenant max b) k = None.
Proof.
  intros Hmax. destruct (trim_split tenant max b) as (ev & kept & _ & _ & _ & _ & Hg); [lia|].
  rewrite Hg. destruct (decide _); auto.
Qed.

(** A sound list counts every row of a tenant. *)
Lemma rows_load tenant m b : sound m b → (Z.of_nat (length (rows tenant b)) ≤ tenant_load tenant m)%Z.
Proof.
  intros Hs. unfold tenant_load. apply Nat2Z.inj_le. rewrite <- (length_fmap fst), <- size_dom.
  rewrite <- (size_list_to_set (C := gset gostring)) by apply rows_NoDup. apply subseteq_size. intros k Hk.
  apply elem_of_list_to_set, list_elem_of_fmap in Hk as ([k' d] & -> & (v & e & Hg & Hp & He & <-)%elem_of_rows).
  apply Hs in Hg as (e' & He' & Hm). apply elem_of_dom. exists (BlockedUntil e'). by apply map_lookup_filter_Some.
Qed.

(** Within the limit nothing is evicted. *)
Lemma trim_id tenant max m b : sound m b → (tenant_load tenant m ≤ max)%Z → trimTenantLRU tenant max b = b.
Proof.
  intros Hs Hl. pose proof (rows_load tenant m b Hs) as Hr. unfold rows in Hr. unfold trimTenantLRU.
  destruct (Z.leb_spec (Z.of_nat (length (omap row_rec (scan (tenant_prefix tenant) b)))) max); [done|lia].
Qed.

(** Sweeping removes exactly the rows that are expired or do not decode. *)
Lemma Sweep_get now commit s s' err k :
  Sweep now commit s = (s', err) →
  stSalt s' = stSalt s ∧
  (bk_get (entries s') k = bk_get (entries s) k ∨
   bk_get (entries s') k = None ∧ row_live now (bk_get (entries s) k) = false).
Proof.
  unfold Sweep. destruct (decide _); [intros [= <- _]; auto|].
  destruct commit; [|intros [= <- _]; auto]. intros [= <- _]. split; [done|]. simpl.
  rewrite get_delete_keys. destruct (decide _) as [Hin|]; [right|by left]. split; [done|].
  apply list_elem_of_fmap in Hin as ([k' v] & -> & Hin).
  apply list_elem_of_In, List.filter_In in Hin as [Hin%list_elem_of_In Hsw].
  apply bk_seek_elem in Hin as [Hg _]. simpl. rewrite Hg. unfold swept, row_live in *.
  simpl in Hsw. destruct (entry_unmarshal v); [by apply negb_true_iff|done].
Qed.

Lemma step_salt s ev s' : step s ev s' → stSalt s' = stSalt s.
Proof.
  destruct 1 as [??????? s' Ha|???????? err Ha|??? s' Ha|????? Ha|???? Ha].
  - by apply Add_ok in Ha as (?&?&?&?&?&?&?&?&?&?&?).
  - by apply Add_err in Ha as ->.
  - unfold Remove in Ha. by split_cond.
  - unfold Remove in Ha. by split_cond.
  - unfold Sweep in Ha. by split_cond.
Qed.

Lemma step_sound s0 s ev s' m :
  stSalt s = stSalt s0 → step s ev s' → sound m (entries s) → sound (abs_event s0 ev m) (entries s').
Proof.
  intros Hsalt Hstep Hs.
  destruct Hstep as [now commit t ip ttl r max s' Ha|???????? err Ha|? t ip s' Ha|? t ip ? err Ha|now ? ? err Ha].
  - apply Add_ok in Ha as (v & e & He & Hd & _ & _ & _ & _ & _ & _ & ->).
    simpl. rewrite <- Hd, <- (keyFor_salt s s0) by done.
    destruct (Z.ltb_spec 0 max).
    + eapply sound_sub, sound_put; [intros k; by apply trim_sub|done..].
    + by apply sound_put.
  - apply Add_err in Ha as ->. done.
  - unfold Remove in Ha. simpl. destruct (decide _); [by simplify_eq|].
    destruct commit; [|done]. simplify_eq. simpl. rewrite <- (keyFor_salt s s0) by done.
    intros k v Hg. destruct (decide (keyFor s t ip = k)) as [<-|Hne].
    + by rewrite bk_get_delete_eq in Hg.
    + rewrite bk_get_delete_ne in Hg by done. rewrite lookup_delete_ne by done. by apply Hs.
  - unfold Remove in Ha. by split_cond.
  - eapply sound_sub, Hs. intros k. destruct (Sweep_get _ _ _ _ _ k Ha) as [_ [?|[? _]]]; auto.
Qed.

Lemma step_complete s0 s ev s' m now :
  stSalt s = stSalt s0 → step s ev s' → swept_by now ev → within s0 m ev →
  sound m (entries s) → complete now m (entries s) → complete now (abs_event s0 ev m) (entries s').
Proof.
  intros Hsalt Hstep Hsw Hul Hs Hc.
  destruct Hstep as [now' commit t ip ttl r max s' Ha|???????? err Ha|? t ip s' Ha|? t ip ? err Ha|now' ? ? err Ha].
  - apply Add_ok in Ha as (v & e & He & Hd & _ & _ & _ & _ & _ & _ & ->).
    cbn [within abs_event] in *. rewrite <- Hd, <- (keyFor_salt s s0) in * by done.
    pose proof (complete_put now m (entries s) (keyFor s t ip) v e He Hc) as Hput.
    destruct (Z.ltb_spec 0 max) as [Hmax|]; [|done]. destruct Hul as [|Hul]; [lia|].
    rewrite (trim_id t max (<[keyFor s t ip := BlockedUntil e]> m)); [done|by apply sound_put|done].
  - apply Add_err in Ha as ->. done.
  - unfold Remove in Ha. simpl. destruct (decide _); [by simplify_eq|].
    destruct commit; [|done]. simplify_eq. simpl. rewrite <- (keyFor_salt s s0) by done.
    intros k d [Hne Hk]%lookup_delete_Some Hlt. rewrite bk_get_delete_ne by done. by apply Hc.
  - unfold Remove in Ha. by split_cond.
  - intros k d Hk Hlt. simpl in *. destruct (Hc k d Hk Hlt) as (v & e & Hg & He & <-).
    exists v, e. destruct (Sweep_get _ _ _ _ _ k Ha) as [_ [->|[_ Hl]]]; [done|].
    rewrite Hg in Hl. unfold row_live in Hl. rewrite He in Hl. apply Z.ltb_ge in Hl. lia.
Qed.

Lemma abs_list_snoc s evs ev : abs_list s (evs ++ [ev]) = abs_event s ev (abs_list s evs).
Proof. unfold abs_list. by rewrite foldl_app. Qed.

Lemma steps_inv s evs s' :
  entries s = bk_empty → steps s evs s' →
  stSalt s' = stSalt s ∧ sound (abs_list s evs) (entries s') ∧
  (∀ now, Forall (swept_by now) evs → fits s ∅ evs → complete now (abs_list s evs) (entries s')).
Proof.
  intros He. induction 1 as [|evs ev s1 s2 Hst (Hsalt & Hs & Hc) Hstep].
  - split_and!; [done| |].
    + intros k v Hg. by rewrite He, bk_get_empty in Hg.
    + intros now _ _ k d Hk. unfold abs_list in Hk. simpl in Hk. by rewrite lookup_empty in Hk.
  - rewrite abs_list_snoc. split_and!.
    + by rewrite (step_salt _ _ _ Hstep).
    + by eapply step_sound.
    + intros now [Hf Hsw]%Forall_app [Hu Hul]%fits_snoc.
      apply Forall_cons in Hsw as [Hsw _]. eapply (step_complete s s1); eauto.
Qed.

Lemma contains_sound m s s' now tenant ip :
  stSalt s' = stSalt s → sound m (entries s') →
  Contains now tenant ip s' = true → abs_blocked now m (keyFor s tenant ip) = true.
Proof.
  intros Hsalt Hs. unfold Contains. destruct (decide _); [done|]. unfold row_live, abs_blocked.
  rewrite (keyFor_salt s' s) by done.
  destruct (bk_get _ _) as [v|] eqn:Hg; [|done]. apply Hs in Hg as (e & -> & ->). done.
Qed.

Lemma contains_abs m s s' now tenant ip :
  stSalt s' = stSalt s → sound m (entries s') → complete now m (entries s') →
  tenant ≠ [] → ip ≠ [] → Contains now tenant ip s' = abs_blocked now m (keyFor s tenant ip).
Proof.
  intros Hsalt Hs Hc Ht Hi. apply eq_bool_prop_intro. split; intros Hb%Is_true_true.
  - by eapply Is_true_true, contains_sound.
  - unfold abs_blocked in Hb. destruct (_ !! _) as [d|] eqn:Hk; [|done].
    apply Z.ltb_lt in Hb. destruct (Hc _ _ Hk Hb) as (v & e & Hg & Hu & <-).
    unfold Contains. rewrite decide_False by naive_solver.
    rewrite (keyFor_salt s' s), Hg by done. simpl. rewrite Hu. apply Is_true_true. by apply Z.ltb_lt.
Qed.

(** The persistent block list refines a plain map of deadlines. After any
    history of [Add], [Remove], [Sweep] and failed calls from an empty store,
    an address [Contains] reports as blocked has been added, not removed
    since, and its time is not over; and when no call overflowed its size
    limit, every such address is reported, however often expired rows were swept
    before the query. *)
Theorem ttl_contains_history s evs s' now tenant ip :
  entries s = bk_empty → steps s evs s' → Forall (swept_by now) evs →
  (Contains now tenant ip s' = true → abs_blocked now (abs_list s evs) (keyFor s tenant ip) = true) ∧
  (fits s ∅ evs → tenant ≠ [] → ip ≠ [] →
   Contains now tenant ip s' = abs_blocked now (abs_list s evs) (keyFor s tenant ip)).
Proof.
  intros He Hst Hsw. destruct (steps_inv s evs s' He Hst) as (Hsalt & Hs & Hc).
  split; [by apply contains_sound|]. intros Hul Ht Hi. by apply contains_abs; auto.
Qed.

(** What one accepted [Add] does to the rows of its tenant: the new row
    replaces the one with its key, and when a limit is given the rows split
    into the evicted and the kept ones, at most [max] are kept, and no evicted
    row has a later deadline than a kept one. Keys outside the tenant's prefix
    are not touched. The new row itself can be among the evicted. *)
Theorem ttl_add_keeps_latest now commit tenant ip ttl reason max s s' :
  Add now commit tenant ip ttl reason max s = (s', None) →
  let key := keyFor s tenant ip in
  ∃ evicted kept,
    evicted ++ kept ≡ₚ (key, time_add now ttl)
                        :: List.filter (λ r, absent [key] r.1) (rows tenant (entries s)) ∧
    rows tenant (entries s') ≡ₚ kept ∧
    (if Z.ltb 0 max
     then Z.of_nat (length kept) = Z.min max (Z.of_nat (length (evicted ++ kept)))
     else evicted = []) ∧
    (∀ e k, e ∈ evicted → k ∈ kept → (e.2 ≤ k.2)%Z) ∧
    (∀ k, ¬ tenant_prefix tenant `prefix_of` k →
          bk_get (entries s') k = bk_get (entries s) k).
Proof.
  intros (v & e & He & Hd & _ & _ & _ & _ & _ & _ & ->)%Add_ok key.
  pose proof (rows_put tenant key v e (entries s) (keyFor_prefix _ _ _) He) as Hput.
  rewrite Hd in Hput. set (b := bk_put key v (entries s)) in *.
  assert (Hout : ∀ k, ¬ tenant_prefix tenant `prefix_of` k → bk_get b k = bk_get (entries s) k).
  { intros k Hk. apply bk_get_put_ne. intros <-. apply Hk, keyFor_prefix. }
  fold key. fold b. destruct (Z.ltb_spec 0 max).
  - destruct (trim_split tenant max b) as (ev & kept & Hr & Hr' & Hlen & Hle & Hg); [lia|].
    exists ev, kept. split_and!; [by rewrite <- Hr|done| |done|].
    + by rewrite Hlen, Hr.
    + intros k Hk. rewrite <- Hout, Hg by done. destruct (decide _) as [Hin|]; [|done]. exfalso.
      apply list_elem_of_fmap in Hin as ([k' d] & -> & Hin).
      assert ((k', d) ∈ rows tenant b) as (v' & e' & _ & Hp & _)%elem_of_rows
        by (rewrite Hr; set_solver). by apply Hk.
  - exists [], (rows tenant b). split_and!; [done..| |done].
    intros ?? ?%not_elem_of_nil. done.
Qed.

(** Equal rows under a tenant's prefix mean equal answers for the tenant. *)
Lemma tenant_view tenant s s' :
  stSalt s' = stSalt s →
  (∀ k, tenant_prefix tenant `prefix_of` k → bk_get (entries s') k = bk_get (entries s) k) →
  (∀ now ip, Contains now tenant ip s' = Contains now tenant ip s) ∧
  ListEntries tenant s' = ListEntries tenant s.
Proof.
  intros Hsalt Hk. split.
  - intros now ip. unfold Contains. rewrite (keyFor_salt s' s) by done.
    by rewrite Hk by apply keyFor_prefix.
  - unfold ListEntries. by rewrite (scan_ext _ (entries s') (entries s)).
Qed.

(** One tenant's calls never show in another's block list: whatever
    [Add] (evictions included) or [Remove] does for one host name, the answers
    of [Contains] and [List] for another are unchanged. *)
Theorem ttl_tenant_isolated t t' s s' :
  nul_free t → nul_free t' → t ≠ t' →
  (∃ now commit ip ttl reason max err, Add now commit t' ip ttl reason max s = (s', err)) ∨
  (∃ commit ip err, Remove commit t' ip s = (s', err)) →
  (∀ now ip, Contains now t ip s' = Contains now t ip s) ∧ ListEntries t s' = ListEntries t s.
Proof.
  intros Hn Hn' Hne Hop.
  assert (Hpre : ∀ k, tenant_prefix t `prefix_of` k → ¬ tenant_prefix t' `prefix_of` k)
    by (intros k Hk Hk'; by eapply Hne, prefix_tenant_inj).
  destruct Hop as [(now & c & ip & ttl & r & max & [err|] & Ha)|(c & ip & err & Ha)].
  - apply Add_err in Ha as ->. done.
  - apply tenant_view.
    + by apply Add_ok in Ha as (?&?&?&?&?&?&?&?&?&?&?).
    + destruct (Add_ok _ _ _ _ _ _ _ _ _ Ha) as (v & e & He & _ & _ & _ & _ & _ & _ & _ & Hs').
      intros k Hk. rewrite Hs'. specialize (Hpre k Hk).
      assert (Hput : bk_get (bk_put (keyFor s t' ip) v (entries s)) k = bk_get (entries s) k).
      { apply bk_get_put_ne. intros <-. apply Hpre, keyFor_prefix. }
      destruct (Z.ltb_spec 0 max); [|done].
      destruct (trim_split t' max (bk_put (keyFor s t' ip) v (entries s)))
        as (ev & kept & Hr & _ & _ & _ & Hg); [lia|].
      rewrite Hg. destruct (decide _) as [Hin|]; [|done]. exfalso.
      apply list_elem_of_fmap in Hin as ([k' d] & -> & Hin).
      assert ((k', d) ∈ rows t' (bk_put (keyFor s t' ip) v (entries s)))
        as (v' & e' & _ & Hp & _)%elem_of_rows by (rewrite Hr; set_solver).
      by apply Hpre.
  - unfold Remove in Ha. destruct (decide _); [by simplify_eq|]. destruct c; [|by simplify_eq].
    simplify_eq. apply tenant_view; [done|]. intros k Hk. apply bk_get_delete_ne.
    intros <-. apply (Hpre _ Hk), keyFor_prefix.
Qed.

(** * The salt *)

Lemma drop_while_none {A} (P : A → bool) l : (∀ x, x ∈ l → P x = false) → drop_while P l = l.
Proof. destruct l as [|x l]; [done|]. simpl. intros Hf. by rewrite Hf by left. Qed.

Lemma decode_encoded salt : length salt = saltLen → decodeSaltMaybeHex (hex_encode salt) = Some salt.
Proof.
  intros Hl. unfold decodeSaltMaybeHex.
  assert (Hlen : length (hex_encode salt) = 2 * saltLen) by (rewrite length_hex_encode; lia).
  rewrite decide_False by (rewrite Hlen; unfold saltLen; lia).
  assert (TrimRight (hex_encode salt) is_newline = hex_encode salt) as ->.
  { unfold TrimRight. rewrite drop_while_none; [apply reverse_involutive|].
    intros c Hc. rewrite elem_of_reverse in Hc. pose proof (hex_encode_digits salt) as Hd.
    rewrite Forall_forall in Hd. apply Hd in Hc. revert c Hc. apply Forall_forall.
    vm_compute. repeat constructor. }
  rewrite decide_True by done. apply hex_decode_encode.
Qed.

Lemma decode_length raw salt : decodeSaltMaybeHex raw = Some salt → length salt = saltLen.
Proof.
  unfold decodeSaltMaybeHex. destruct (decide _); [by intros [= <-]|].
  destruct (decide (length (TrimRight raw is_newline) = 2 * saltLen)) as [Hl|]; [|done].
  intros Hd. assert (Hh : ∀ n s t, length s = 2 * n → hex_decode s = Some t → length t = n).
  { clear. intros n. induction n as [|n IH]; intros [|a [|b s]] t Hs; simpl in Hs; try lia.
    - by intros [= <-].
    - cbn [hex_decode]. destruct (fromHexChar a), (fromHexChar b); try done.
      intros (t' & Ht & ->)%fmap_Some. simpl. f_equal. apply (IH s); [lia|done]. }
  by eapply Hh.
Qed.

(** After a successful load both copies decode to the salt. *)
Lemma load_copies io m salt file m' :
  loadOrCreateSalt io m = Ok (salt, file, m') →
  length salt = saltLen ∧ default [] (decodeSaltMaybeHex (default [] file)) = salt ∧
  bk_get m' saltKey = Some salt.
Proof.
  unfold loadOrCreateSalt. destruct (oi_salt_err io); [done|].
  set (disk := default [] (decodeSaltMaybeHex _)). set (db := default [] (bk_get m saltKey)).
  destruct (if decide (length disk = saltLen) then _ else _) as [x|err] eqn:Hx; [|done].
  assert (Hlen : length x = saltLen).
  { destruct (decide (length disk = saltLen)); [by simplify_eq|].
    destruct (decide (length db = saltLen)); [by simplify_eq|].
    destruct (oi_rand io); [|done]. simplify_eq. apply length_pad_to. }
  clear Hx. cbn [res_bind].
  destruct (if negb (bytesEqual disk x) then _ else _) as [f|err] eqn:Hf; [|done]. cbn [res_bind].
  destruct (if negb (bytesEqual db x) then _ else _) as [m2|err] eqn:Hm; [|done]. cbn [res_bind].
  intros [= <- <- <-]. split; [done|]. split.
  - destruct (bytesEqual disk x) eqn:Hb; cbn [negb] in Hf.
    + apply bytesEqual_spec in Hb. simplify_eq. done.
    + destruct (oi_salt_mkdir io), (oi_salt_write io); try done. cbn [negb] in Hf. injection Hf as <-.
      cbn [from_option id]. by rewrite decode_encoded.
  - destruct (bytesEqual db x) eqn:Hb; cbn [negb] in Hm.
    + apply bytesEqual_spec in Hb. injection Hm as <-. unfold db in Hb.
      destruct (bk_get m saltKey); simpl in Hb; [by subst|]. by rewrite <- Hb in Hlen.
    + destruct (oi_salt_put io); [|done]. cbn [negb] in Hm. injection Hm as <-. apply bk_get_put_eq.
Qed.

Lemma bytesEqual_refl a : bytesEqual a a = true.
Proof. by apply bytesEqual_spec. Qed.

Lemma bytesEqual_nil a : length a = saltLen → bytesEqual [] a = false.
Proof. intros Hl. destruct (bytesEqual [] a) eqn:E; [|done]. apply bytesEqual_spec in E. by subst. Qed.

(** The salt that keys the block list is stable: after a successful
    [loadOrCreateSalt] both the file and the database hold it, a second load
    returns it again without writing anything, and so does a load after either
    copy was lost, which restores the other. *)
Theorem ttl_salt_stable io m salt file m' :
  loadOrCreateSalt io m = Ok (salt, file, m') →
  length salt = saltLen ∧
  ∀ io2, oi_salt_err io2 = false →
    (oi_salt_file io2 = file → loadOrCreateSalt io2 m' = Ok (salt, file, m')) ∧
    (oi_salt_file io2 = None → oi_salt_mkdir io2 = true → oi_salt_write io2 = true →
     loadOrCreateSalt io2 m' = Ok (salt, Some (hex_encode salt), m')) ∧
    (∀ m2, bk_get m2 saltKey = None → oi_salt_file io2 = file → oi_salt_put io2 = true →
     loadOrCreateSalt io2 m2 = Ok (salt, file, bk_put saltKey salt m2)).
Proof.
  intros (Hlen & Hfile & Hdb)%load_copies. split; [done|]. intros io2 Herr.
  unfold loadOrCreateSalt. rewrite Herr. split_and!.
  - intros ->. rewrite Hfile, Hdb. cbn [from_option id]. rewrite decide_True by done. cbn [res_bind].
    by rewrite bytesEqual_refl.
  - intros -> -> ->. rewrite Hdb. cbn [from_option id].
    rewrite decide_False, decide_True by done. cbn [res_bind].
    change (default [] (decodeSaltMaybeHex [])) with (@nil ascii).
    by rewrite bytesEqual_nil, bytesEqual_refl.
  - intros m2 -> -> ->. rewrite Hfile. cbn [from_option id]. rewrite decide_True by done. cbn [res_bind].
    by rewrite bytesEqual_refl, bytesEqual_nil.
Qed.

End store.

(** * The feature *)

Definition FeatureName : gostring := $"ttl_blocklist".
Definition defaultSweepInterval : duration := (10 * Minute)%Z.

Record Params := mkParams {
  DBPath : gostring;
  DefaultTTL : duration;
  ParAction : gostring;
  ParSalted : bool;
  SaltFile : gostring;
  MaxEntries : Z;
  TrustXFF : bool
}.

Definition Params_zero : Params := mkParams [] 0 [] false [] 0 false.

(** A non-empty string parameter. *)
Definition str_param (p : gmap gostring json) (k : gostring) : option gostring :=
  match as_string (p !! k) with
  | Some v => if decide (v = []) then None else Some v
  | None => None
  end.

Definition parseParams (p : gmap gostring json) : Params := {|
  DBPath := default $"/var/lib/gateway/ttlblock.db" (str_param p $"db_path");
  DefaultTTL :=
    match str_param p $"default_ttl" with
    | Some v => match ParseDuration v with
                | Some d => if Z.ltb 0 d then d else (24 * Hour)%Z
                | None => (24 * Hour)%Z
                end
    | None => (24 * Hour)%Z
    end;
  ParAction :=
    match str_param p $"action" with
    | Some v => if BlockAction_IsValid v then v else BlockActionDrop
    | None => BlockActionDrop
    end;
  ParSalted := default true (as_bool (p !! $"salted_hashes"));
  SaltFile := default $"/etc/gateway/ttlblock-salt" (as_string (p !! $"salt_file"));
  MaxEntries :=
    match p !! $"max_entries" with
    | Some (JInt n) => n
    | Some (JFloat f) => f64_to_int f
    | _ => 100000
    end;
  TrustXFF := default false (as_bool (p !! $"trust_xff"))
|}.

Inductive validate_error := ErrDefaultTTL | ErrAction | ErrMaxEntries.

Definition Validate (cfg : FeatureSnapshot) : option validate_error :=
  let p := fsParams cfg in
  if negb (fsEnabled cfg) then None
  else if match str_param p $"default_ttl" with
          | Some v => negb (bool_decide (is_Some (ParseDuration v)))
          | None => false
          end then Some ErrDefaultTTL
  else if match str_param p $"action" with
          | Some v => negb (BlockAction_IsValid v)
          | None => false
          end then Some ErrAction
  else match p !! $"max_entries" with
  | Some (JInt n) => if Z.ltb n 0 then Some ErrMaxEntries else None
  | Some (JFloat f) => if f64_lt f (f64_of_Z 0) then Some ErrMaxEntries else None
  | _ => None
  end.

(** What becomes of a request: an answer or a torn connection, after a wait. *)
Inductive outcome :=
| Answered (wait : duration) (resp : Response)
| Torn (wait : duration).

(** [hijack]: whether the connection can be taken over. *)
Definition hijackAndClose (hijack : bool) (wait : duration) : outcome :=
  if hijack then Torn wait else Answered wait (mkResponse StatusBadRequest ∅ []).

(** [cancelled]: the time after which the request's context ends, if it does. *)
Definition applyAction (hijack : bool) (cancelled : option duration)
    (action : gostring) (ttl : duration) : outcome :=
  if decide (action = BlockActionNotFound) then
    Answered 0 (mkResponse StatusNotFound ∅ [])
  else if decide (action = BlockActionTooMany) then
    Answered 0 (mkResponse StatusTooManyRequests (hdr_set RetryAfter (fmt_f0 (Seconds ttl)) ∅) [])
  else if decide (action = BlockActionTimeout) then
    hijackAndClose hijack (match cancelled with Some c => Z.min ttl c | None => ttl end)
  else hijackAndClose hijack 0.

Definition XForwardedFor : gostring := $"X-Forwarded-For".

Section client_ip.
Context `{GoUnicode}.

(** The text before the first comma, unless the comma comes first. *)
Definition first_hop (xff : gostring) : gostring :=
  match IndexByte xff ","%char with
  | Some (S i) => take (S i) xff
  | _ => xff
  end.

Definition resolveClientIP (r : Request) (trustXFF : bool) : gostring :=
  let xff := hdr_get (ReqHeader r) XForwardedFor in
  let ip := if (trustXFF && bool_decide (xff ≠ []))%bool then TrimSpace (first_hop xff) else [] in
  if decide (ip ≠ []) then ip
  else if decide (RemoteAddr r = []) then []
  else match SplitHostPort (RemoteAddr r) with
       | None => TrimSpace (RemoteAddr r)
       | Some (host, _) => host
       end.

End client_ip.

Section feature.
Context {B : Type} `{Bucket B} `{EntryCodec} `{SortSlice} `{GoUnicode} (sha256 : gostring → gostring).

Record TtlFeature := mkTtlFeature {
  fEnabled : bool;
  fStore : option (@Store B);
  globalCfg : Params;
  tenantCfg : gmap gostring Params;
  sweeper : option duration;
  sweepInterval : duration
}.

Definition NewFeature : TtlFeature :=
  mkTtlFeature false None Params_zero ∅ None defaultSweepInterval.

(** [openStore] is the field of the same name, [OpenStore] in production. The
    second component is the store the call closes. *)
Definition Observe (openStore : gostring → gostring → option (@Store B)) (snap : FeatureSnapshot)
    (f : TtlFeature) : TtlFeature * option (@Store B) :=
  let newCfg := parseParams (fsParams snap) in
  let upd st := mkTtlFeature (fsEnabled snap) st newCfg (tenantCfg f) (sweeper f) (sweepInterval f) in
  let oldPath := DBPath (globalCfg f) in
  if negb (fsEnabled snap) then (upd None, fStore f)
  else if bool_decide (fStore f = None ∨ oldPath ≠ DBPath newCfg) then
    match openStore (DBPath newCfg) (if ParSalted newCfg then SaltFile newCfg else []) with
    | None => (upd (fStore f), None)
    | Some st => (upd (Some st), fStore f)
    end
  else (upd (fStore f), None).

Definition RegisterTenants (ts : gmap gostring TenantSnapshot) (f : TtlFeature) : TtlFeature :=
  let next := omap (λ t, match tsFeatures t !! FeatureName with
                         | Some snap => if fsEnabled snap then Some (parseParams (fsParams snap)) else None
                         | None => None
                         end) ts in
  mkTtlFeature (fEnabled f) (fStore f) (globalCfg f) next (sweeper f) (sweepInterval f).

Definition effectiveParams (f : TtlFeature) (host : gostring) : option Params :=
  match tenantCfg f !! host with
  | Some p => Some p
  | None => if fEnabled f then Some (globalCfg f) else None
  end.

Definition with_sweeper (sw : option duration) (f : TtlFeature) : TtlFeature :=
  mkTtlFeature (fEnabled f) (fStore f) (globalCfg f) (tenantCfg f) sw (sweepInterval f).

(** The second component is the store that was replaced, which is closed
    unless it is the same one. *)
Definition SetStore (st : option (@Store B)) (f : TtlFeature) : TtlFeature * option (@Store B) :=
  (mkTtlFeature (fEnabled f) st (globalCfg f) (tenantCfg f) (sweeper f) (sweepInterval f), fStore f).

(** The period of the running sweeper. *)
Definition Start (f : TtlFeature) : TtlFeature :=
  match sweeper f with
  | Some _ => f
  | None => with_sweeper (Some (if Z.leb (sweepInterval f) 0 then defaultSweepInterval
                                else sweepInterval f)) f
  end.

Definition Stop (f : TtlFeature) : TtlFeature := with_sweeper None f.

Definition SetSweepInterval (d : duration) (f : TtlFeature) : TtlFeature :=
  mkTtlFeature (fEnabled f) (fStore f) (globalCfg f) (tenantCfg f) (sweeper f) d.

(** The sweeper's body at one tick. *)
Definition sweep_tick (now : time) (commit : bool) (f : TtlFeature) : TtlFeature :=
  mkTtlFeature (fEnabled f) ((λ s, (Sweep now commit s).1) <$> fStore f)
               (globalCfg f) (tenantCfg f) (sweeper f) (sweepInterval f).

Definition Middleware (f : TtlFeature) (now : time) (hijack : bool) (cancelled : option duration)
    (has_resolver : bool) (r : Request) (next : Handler outcome) : Handler outcome :=
  λ snap ctx,
    if negb (fEnabled f) then next snap ctx
    else
      let tenant := TenantFromContext ctx in
      let host := match tenant with Some t => tsHost t | None => [] end in
      match effectiveParams f host with
      | None => next snap ctx
      | Some params =>
          let off := match tenant with
                     | Some t => match tsFeatures t !! FeatureName with
                                 | Some s => negb (fsEnabled s)
                                 | None => false
                                 end
                     | None => (has_resolver && negb (fsEnabled (Resolve snap ctx FeatureName)))%bool
                     end in
          if off then next snap ctx
          else match fStore f with
          | None => next snap ctx
          | Some s =>
              let ip := resolveClientIP r (TrustXFF params) in
              if decide (ip = []) then next snap ctx
              else if negb (Contains sha256 now host ip s) then next snap ctx
              else applyAction hijack cancelled (ParAction params) (DefaultTTL params)
          end
      end.

(** * Properties of the feature *)

(** Parameters the middleware can act on. *)
Definition params_wf (p : Params) : Prop :=
  DBPath p ≠ [] ∧ (0 < DefaultTTL p ≤ max_int64)%Z ∧ BlockAction_IsValid (ParAction p) = true.

Lemma ParseDuration_range v d : ParseDuration v = Some d → in_int64 d ∨ (d < 0)%Z.
Proof.
  unfold ParseDuration. destruct (match v with [] => _ | _ => _ end) as [neg s].
  destruct (decide _); [intros [= <-]; left; done|]. destruct (decide _); [done|].
  destruct (duration_groups _ s 0) as [x|]; [|done]. destruct neg.
  - intros [= <-]. left. apply wrap64_range.
  - destruct (Z.ltb_spec max_int64 x); [done|]. intros [= <-].
    destruct (decide (x < 0)%Z); [by right|left]. unfold in_int64, min_int64 in *. lia.
Qed.

Lemma parseParams_wf p : params_wf (parseParams p).
Proof.
  unfold params_wf, parseParams. cbn [DBPath DefaultTTL ParAction]. split_and!.
  - unfold str_param. destruct (as_string _) as [v|]; [|done]. by destruct (decide (v = [])).
  - destruct (str_param _ _) as [v|]; [|done]. destruct (ParseDuration v) as [d|] eqn:Hd; [|done].
    destruct (Z.ltb_spec 0 d); done.
  - destruct (str_param _ _) as [v|]; [|done]. destruct (ParseDuration v) as [d|] eqn:Hd; [|done].
    destruct (Z.ltb_spec 0 d); [|done]. apply ParseDuration_range in Hd as [[_ ?]|?]; [done|]. lia.
  - destruct (str_param _ _) as [v|]; [|done]. by destruct (BlockAction_IsValid v) eqn:E.
Qed.

Inductive feature_op :=
| FObserve (openStore : gostring → gostring → option (@Store B)) (snap : FeatureSnapshot)
| FRegister (ts : gmap gostring TenantSnapshot)
| FStart | FStop
| FInterval (d : duration)
| FTick (now : time) (commit : bool).

Definition apply_feature_op (f : TtlFeature) (o : feature_op) : TtlFeature :=
  match o with
  | FObserve open snap => (Observe open snap f).1
  | FRegister ts => RegisterTenants ts f
  | FStart => Start f
  | FStop => Stop f
  | FInterval d => SetSweepInterval d f
  | FTick now commit => sweep_tick now commit f
  end.

Definition feature_wf (f : TtlFeature) : Prop :=
  (fEnabled f = true → params_wf (globalCfg f)) ∧
  map_Forall (λ _ p, params_wf p) (tenantCfg f) ∧
  match sweeper f with Some d => (0 < d)%Z | None => True end ∧
  (fEnabled f = false → fStore f = None).

Lemma feature_op_wf f o : feature_wf f → feature_wf (apply_feature_op f o).
Proof.
  intros (Hg & Ht & Hs & Hd). destruct o as [open snap|ts| | |d|now commit]; simpl.
  - unfold Observe. destruct (fsEnabled snap) eqn:He; cbn [negb].
    + assert (Hall : ∀ st, feature_wf (mkTtlFeature true st (parseParams (fsParams snap))
                                         (tenantCfg f) (sweeper f) (sweepInterval f))).
      { intros st. split_and!; cbn; [intros _; apply parseParams_wf|done..]. }
      destruct (bool_decide _); [destruct (open _ _)|]; apply Hall.
    + split_and!; cbn; try done.
  - split_and!; cbn; try done. intros h p Hp. apply lookup_omap_Some in Hp as (t & Hp & _). cbv beta in Hp.
    do 2 (case_match; [|done]). simplify_eq. apply parseParams_wf.
  - unfold Start. destruct (sweeper f) eqn:Hsw; [split_and!; try done; by rewrite Hsw|].
    split_and!; cbn; try done. destruct (Z.leb_spec (sweepInterval f) 0); [done|lia].
  - split_and!; cbn; done.
  - split_and!; cbn; done.
  - split_and!; cbn; try done. intros E. by rewrite Hd.
Qed.

(** C36. Whatever snapshots arrive (missing, malformed or wrongly typed
    parameters included), the parameters the middleware acts on are always
    well formed: a non-empty database path, a positive default lifetime that
    fits a time.Duration and one of the four block actions; a running sweeper
    has a positive period, and a disabled feature holds no store. *)
Theorem ttl_params_wf ops host :
  let f := foldl apply_feature_op NewFeature ops in
  match effectiveParams f host with Some p => params_wf p | None => True end ∧
  match sweeper f with Some d => (0 < d)%Z | None => True end ∧
  (fEnabled f = false → fStore f = None).
Proof.
  intros f. assert (Hwf : feature_wf f).
  { unfold f. assert (Hnew : feature_wf NewFeature).
    { by split_and!. }
    revert Hnew. generalize NewFeature. induction ops as [|o ops IH]; [done|].
    intros f0 Hf0. cbn [foldl]. by apply IH, feature_op_wf. }
  destruct Hwf as (Hg & Ht & Hs & Hd). split_and!; [|done..].
  unfold effectiveParams. destruct (tenantCfg f !! host) eqn:E; [by eapply Ht|].
  destruct (fEnabled f); auto.
Qed.

(** A store that could not be reopened is never tried again: when a
    snapshot moves the database to a new path and opening it fails, the path
    is recorded all the same, so every later reload with the same snapshot
    keeps the store of the old path although the new one could be opened. *)
Theorem ttl_reopen_never_retried open1 open2 snap f s0 :
  fStore f = Some s0 → fsEnabled snap = true →
  DBPath (globalCfg f) ≠ DBPath (parseParams (fsParams snap)) →
  open1 (DBPath (parseParams (fsParams snap)))
        (if ParSalted (parseParams (fsParams snap)) then SaltFile (parseParams (fsParams snap)) else [])
  = None →
  let f1 := (Observe open1 snap f).1 in
  fStore f1 = Some s0 ∧ DBPath (globalCfg f1) = DBPath (parseParams (fsParams snap)) ∧
  Observe open2 snap f1 = (f1, None).
Proof.
  intros Hst He Hp Hopen. unfold Observe at 1. rewrite He. cbn [negb].
  rewrite bool_decide_eq_true_2 by (by right). rewrite Hopen. cbn. split_and!; [done..|].
  unfold Observe. rewrite He. cbn [negb fStore globalCfg tenantCfg sweeper sweepInterval].
  rewrite bool_decide_eq_false_2 by (rewrite Hst; intros [?|?]; done). done.
Qed.

Context `{!BucketLaws B} `{!SortSliceLaws} `{!EntryCodecLaws}.

(** The feature is on for the request's tenant, and these are the parameters
    and the address it looks up. *)
Definition applies (f : TtlFeature) (ctx : Context) (r : Request)
    (t : TenantSnapshot) (p : Params) (ip : gostring) : Prop :=
  ctx = Some t ∧ fEnabled f = true ∧ effectiveParams f (tsHost t) = Some p ∧
  (∀ sn, tsFeatures t !! FeatureName = Some sn → fsEnabled sn = true) ∧
  tsHost t ≠ [] ∧ ip = resolveClientIP r (TrustXFF p) ∧ ip ≠ [].

(** C7. The middleware enforces the history of the block list: with a store
    reached from an empty one by calls of which none overflowed its size limit
    (so that nothing was evicted) and sweeps not later than now, a request
    gets the block action of the parameters in effect for its tenant exactly
    when the feature is on for the tenant and the address was added for it,
    not removed since, and the time is not over. Every other request, those
    without a tenant included, is passed on. *)
Theorem ttl_middleware_enforces f now hijack cancelled hr r next snap ctx s0 evs s :
  fStore f = Some s → entries s0 = bk_empty → steps sha256 s0 evs s →
  Forall (swept_by now) evs → fits sha256 s0 ∅ evs →
  (∀ t p ip, applies f ctx r t p ip →
     abs_blocked now (abs_list sha256 s0 evs) (keyFor sha256 s0 (tsHost t) ip) = true →
     Middleware f now hijack cancelled hr r next snap ctx
     = applyAction hijack cancelled (ParAction p) (DefaultTTL p)) ∧
  ((∀ t p ip, applies f ctx r t p ip →
     abs_blocked now (abs_list sha256 s0 evs) (keyFor sha256 s0 (tsHost t) ip) = false) →
   Middleware f now hijack cancelled hr r next snap ctx = next snap ctx).
Proof.
  intros Hst Hempty Hsteps Hsw Hul.
  assert (Hcont : ∀ t ip, t ≠ [] → ip ≠ [] → Contains sha256 now t ip s =
             abs_blocked now (abs_list sha256 s0 evs) (keyFor sha256 s0 t ip)).
  { intros t ip Ht Hi. destruct (steps_inv sha256 s0 evs s Hempty Hsteps) as (Hsalt & Hs & Hc).
    apply contains_abs; auto. }
  split.
  - intros t p ip (-> & Hen & Hp & Hsn & Ht & -> & Hip) Hb.
    unfold Middleware. rewrite Hen. cbn [negb TenantFromContext]. rewrite Hp, Hst.
    assert (match tsFeatures t !! FeatureName with Some sn => negb (fsEnabled sn) | None => false end = false)
      as -> by (destruct (tsFeatures t !! FeatureName) as [sn|]; [by rewrite (Hsn sn)|done]).
    rewrite decide_False, Hcont, Hb by done. done.
  - intros Hno. unfold Middleware. destruct (fEnabled f) eqn:Hen; [|done]. cbn [negb].
    unfold TenantFromContext. destruct ctx as [t|].
    + destruct (effectiveParams f (tsHost t)) as [p|] eqn:Hp; [|done].
      destruct (match tsFeatures t !! FeatureName with Some _ => _ | None => _ end) eqn:Hoff; [done|].
      rewrite Hst. destruct (decide _) as [|Hip]; [done|].
      destruct (decide (tsHost t = [])) as [Ht|Ht].
      { unfold Contains. by rewrite decide_True by auto. }
      rewrite Hcont, (Hno t p (resolveClientIP r (TrustXFF p))); [done| |done..].
      split_and!; try done. intros sn Hsn. rewrite Hsn in Hoff. by apply negb_false_iff.
    + destruct (effectiveParams f []) as [p|]; [|done]. destruct (_ && _)%bool; [done|].
      rewrite Hst. destruct (decide _); [done|]. unfold Contains. by rewrite decide_True by auto.
Qed.

End feature.

(** * Concrete instances *)

(** A codec that keeps the deadline, as eight bytes. *)
#[local] Instance ex_codec : EntryCodec := {
  entry_marshal e :=
    if decide (0 ≤ BlockedUntil e < 256 ^ 8)%Z then Some (be_encode 8 (BlockedUntil e)) else None;
  entry_unmarshal s := Some (mkEntry [] [] (be_decode s) [])
}.

#[local] Instance ex_codec_laws : EntryCodecLaws.
Proof.
  split. intros e s. unfold entry_marshal, entry_unmarshal, ex_codec.
  destruct (decide _) as [Hr|]; [|done]. intros [= <-]. eexists; split; [done|].
  cbn [BlockedUntil]. rewrite be_decode_encode. apply Z.mod_small, Hr.
Qed.

#[local] Existing Instance insertion_sort_slice.
#[local] Existing Instance insertion_sort_laws.

Definition ex_sha (s : gostring) : gostring := take 32 (s ++ replicate 32 NUL).
Definition ex_empty : @Store (gmap gostring gostring) := mkStore ∅ ∅ [].
Definition ex_tenant : gostring := $"a".
Definition ex_added : @Store (gmap gostring gostring) :=
  (Add ex_sha 100 true ex_tenant $"::1" 50 [] 1 ex_empty).1.
Definition ex_events : list event := [EvAdd 100 ex_tenant $"::1" 50 1].

Lemma ex_steps : steps ex_sha ex_empty ex_events ex_added.
Proof.
  apply (steps_snoc _ _ [] _ ex_empty); [constructor|].
  eapply (step_add _ _ 100 true ex_tenant $"::1" 50 [] 1). vm_compute. reflexivity.
Defined.

Lemma ex_fits : fits ex_sha ex_empty ∅ ex_events.
Proof. split; [right; apply (bool_decide_unpack _); vm_compute; exact I|exact I]. Defined.

Lemma ttl_contains_history_witness :
  Contains ex_sha 120 ex_tenant $"::1" ex_added = true ∧
  Contains ex_sha 150 ex_tenant $"::1" ex_added = false.
Proof.
  split.
  - assert (Hh := ttl_contains_history ex_sha ex_empty ex_events ex_added 120 ex_tenant $"::1").
    rewrite (proj2 (Hh ltac:(reflexivity) ex_steps ltac:(by repeat constructor))
      ex_fits ltac:(done) ltac:(done)). vm_compute. reflexivity.
  - vm_compute. reflexivity.
Defined.

(** A full tenant: the new row has the earliest deadline and is evicted. *)
Definition ex_full : @Store (gmap gostring gostring) :=
  (Add ex_sha 110 true ex_tenant $"::2" 20 [] 1 ex_added).1.

Lemma ttl_add_keeps_latest_witness :
  Contains ex_sha 120 ex_tenant $"::2" ex_full = false ∧
  ∃ evicted kept : list (gostring * time),
    rows ex_tenant (entries ex_full) ≡ₚ kept ∧
    Z.of_nat (length kept) = Z.min 1 (Z.of_nat (length (evicted ++ kept))).
Proof.
  split; [vm_compute; reflexivity|].
  assert (Ha : Add ex_sha 110 true ex_tenant $"::2" 20 [] 1 ex_added = (ex_full, None))
    by (vm_compute; reflexivity).
  destruct (ttl_add_keeps_latest ex_sha _ _ _ _ _ _ _ _ _ Ha) as (ev & kept & _ & Hr & Hl & _).
  exists ev, kept. split; [exact Hr|exact Hl].
Defined.

Lemma ttl_tenant_isolated_witness :
  Contains ex_sha 120 ex_tenant $"::1"
    (Add ex_sha 110 true $"b" $"::1" 20 [] 1 ex_added).1 = true.
Proof.
  rewrite (proj1 (ttl_tenant_isolated ex_sha ex_tenant $"b" ex_added _
             ltac:(decide_now) ltac:(decide_now) ltac:(decide_now)
             (or_introl (ex_intro _ 110%Z (ex_intro _ true (ex_intro _ $"::1" (ex_intro _ 20%Z
               (ex_intro _ [] (ex_intro _ 1%Z (ex_intro _ _ (surjective_pairing _)))))))))) 120%Z $"::1").
  vm_compute. reflexivity.
Defined.

Definition ex_salt : gostring := replicate 32 "s"%char.
Definition ex_meta : gmap gostring gostring := {[ saltKey := ex_salt ]}.
Definition ex_open_io (file : option gostring) : OpenIO :=
  mkOpenIO true true true file false (Some ex_salt) true true true.

(** A fresh salt is restored after the file was lost. *)
Lemma ttl_salt_stable_witness :
  loadOrCreateSalt (ex_open_io None) ex_meta = Ok (ex_salt, Some (hex_encode ex_salt), ex_meta).
Proof.
  assert (Hl : loadOrCreateSalt (ex_open_io None) (∅ : gmap gostring gostring)
               = Ok (ex_salt, Some (hex_encode ex_salt), ex_meta)) by (vm_compute; reflexivity).
  destruct (ttl_salt_stable _ _ _ _ _ Hl) as [_ Hs].
  destruct (Hs (ex_open_io None) eq_refl) as (_ & Hlost & _). apply Hlost; reflexivity.
Defined.

#[local] Instance ex_unicode : GoUnicode := {
  unicode_lower := id; unicode_upper := id; unicode_trim := id }.

Definition ex_snap (path : gostring) : FeatureSnapshot :=
  mkFeatureSnapshot true {[ $"db_path" := JString path; $"action" := JString $"404" ]} 1.

Definition ex_feature : @TtlFeature (gmap gostring gostring) :=
  (Observe (λ _ _, Some ex_added) (ex_snap $"/a.db") NewFeature).1.

Lemma ttl_reopen_never_retried_witness :
  let f1 := (Observe (λ _ _, None) (ex_snap $"/b.db") ex_feature).1 in
  Observe (λ _ _, Some ex_empty) (ex_snap $"/b.db") f1 = (f1, None).
Proof.
  apply (ttl_reopen_never_retried (λ _ _, None) (λ _ _, Some ex_empty) (ex_snap $"/b.db") ex_feature ex_added).
  - vm_compute. reflexivity.
  - reflexivity.
  - decide_now.
  - reflexivity.
Defined.

Definition ex_ctx : TenantSnapshot := mkTenantSnapshot ex_tenant true ∅.
Definition ex_request : Request :=
  mkRequest MethodGet $"/" [] [] ex_tenant $"[::1]:80" ∅ ∅.

Lemma ttl_middleware_enforces_witness :
  Middleware ex_sha ex_feature 120 true None true ex_request
    (λ _ _, Torn 7) (mkSnapshotState ∅ ∅) (Some ex_ctx)
  = Answered 0 (mkResponse StatusNotFound ∅ []).
Proof.
  refine (proj1 (ttl_middleware_enforces ex_sha ex_feature 120 true None true ex_request
    (λ _ _, Torn 7) (mkSnapshotState ∅ ∅) (Some ex_ctx) ex_empty ex_events ex_added _ _ _ _ _)
    ex_ctx (globalCfg ex_feature) $"::1" _ _).
  - vm_compute. reflexivity.
  - reflexivity.
  - exact ex_steps.
  - repeat constructor; done.
  - exact ex_fits.
  - split_and!; try (vm_compute; reflexivity); try done.
  - vm_compute. reflexivity.
Defined.
