(* ===== verification/StaticCache.v ===== *)
(** The static asset cache (src/internal/feature/staticcache/staticcache.go):
    parameters, cacheability of requests and responses, the cache key, the
    capture of upstream responses, and the middleware with its sharing of
    concurrent misses.

    The cache store (dgraph-io/ristretto) is an interface with its documented
    contract; SHA-256, strconv.ParseFloat and the Unicode tables are
    parameters. A handler is the list of calls it makes on its response
    writer. *)

From S2P Require Import Prelude Float Http Metrics Shared FeatureRegistry GoStd.

Definition FeatureName : gostring := $"static_cache".
Definition globalTenantKey : gostring := $"_global_".
Definition maxCacheBodySize : Z := 5 * 1024 * 1024.

Definition defaultExtensions : list gostring :=
  [$".js"; $".css"; $".png"; $".jpg"; $".woff2"; $".svg"; $".webp"].

Definition contentTypeByExt (ext : gostring) : option (list gostring) :=
  if decide (ext = $"js") then
    Some [$"application/javascript"; $"text/javascript"; $"application/x-javascript"]
  else if decide (ext = $"css") then Some [$"text/css"]
  else if decide (ext = $"png") then Some [$"image/png"]
  else if decide (ext = $"jpg") then Some [$"image/jpeg"]
  else if decide (ext = $"jpeg") then Some [$"image/jpeg"]
  else if decide (ext = $"svg") then Some [$"image/svg+xml"; $"text/xml"; $"application/xml"]
  else if decide (ext = $"webp") then Some [$"image/webp"]
  else if decide (ext = $"woff") then Some [$"font/woff"; $"application/font-woff"]
  else if decide (ext = $"woff2") then Some [$"font/woff2"; $"application/font-woff2"]
  else if decide (ext = $"gif") then Some [$"image/gif"]
  else if decide (ext = $"ico") then Some [$"image/x-icon"; $"image/vnd.microsoft.icon"]
  else None.

(** * Data *)

Record params := mkparams {
  maxSizeMB : Z;
  defaultTTL : duration;
  extensions : gset gostring;
  extensionsList : list gostring;
  perTenantSizeFraction : float64
}.

Record cacheEntry := mkcacheEntry {
  ceStatus : Z;
  ceHeader : mheader;
  ceBody : gostring
}.

Record sfResult := mksfResult {
  sfCacheable : bool;
  sfTooBig : bool;
  sfStatus : Z;
  sfHeader : mheader;
  sfBody : gostring
}.

Record captureRecorder := mkcaptureRecorder {
  recHeader : mheader;
  recBody : gostring;
  recStatus : Z;
  headerSent : bool;
  recPath : gostring;
  reqHadAuth : bool
}.

(** * Parameters *)

(** [1.0 / fraction], at least 1, rounded by [int64(mult + 0.5)]. *)
Definition f64_half : float64 := f64_div (f64_of_Z 1) (f64_of_Z 2).

Definition extCostMultiplier (p : option params) : Z :=
  match p with
  | None => 1
  | Some p =>
      if f64_ge (f64_of_Z 0) (perTenantSizeFraction p) then 1
      else
        let mult := f64_div (f64_of_Z 1) (perTenantSizeFraction p) in
        let mult := if f64_lt mult (f64_of_Z 1) then f64_of_Z 1 else mult in
        f64_to_int (f64_add mult f64_half)
  end%Z.

Inductive param_error :=
| ErrExpectedInt | ErrExpectedNumber | ErrExpectedDuration | ErrExpectedList | ErrListItem (i : nat)
| ErrMaxSize | ErrTTLNegative | ErrFraction.

(** The comparison of neighbours in [sortStrings]: [s[j-1] > s[j]]. *)
Definition str_gt (x y : gostring) : bool := negb (str_leb x y).

(** [s[j-1], s[j] = s[j], s[j-1]]. *)
Definition swap_at (j : nat) (s : list gostring) : list gostring :=
  match s !! (j - 1), s !! j with
  | Some a, Some b => <[j - 1 := b]> (<[j := a]> s)
  | _, _ => s
  end.

(** The inner loop, from [j] down. *)
Fixpoint sift (j : nat) (s : list gostring) : list gostring :=
  match j with
  | 0 => s
  | S j' =>
      match s !! j', s !! j with
      | Some a, Some b => if str_gt a b then sift j' (swap_at j s) else s
      | _, _ => s
      end
  end.

(** The outer loop runs for [i] from 1 to the length. *)
Definition sortStrings (s : list gostring) : list gostring :=
  foldl (λ s i, sift i s) s (seq 1 (length s - 1)).

Definition stringSetEqual (a b : list gostring) : bool :=
  if decide (length a ≠ length b) then false
  else forallb (λ i, bool_decide (a !! i = b !! i)) (seq 0 (length a)).

Section coercions.
Context `{GoUnicode} `{GoFloat}.

Definition asInt (v : json) : result param_error Z :=
  match v with
  | JInt n => Ok n
  | JFloat f => Ok (f64_to_int f)
  | JString s => match ParseInt (TrimSpace s) with Some n => Ok n | None => Err ErrExpectedInt end
  | _ => Err ErrExpectedInt
  end.

Definition asFloat (v : json) : result param_error float64 :=
  match v with
  | JFloat f => Ok f
  | JInt n => Ok (f64_of_Z n)
  | JString s => match ParseFloat (TrimSpace s) with Some f => Ok f | None => Err ErrExpectedNumber end
  | _ => Err ErrExpectedNumber
  end.

Definition asDuration (v : json) : result param_error duration :=
  match v with
  | JString s => match ParseDuration (TrimSpace s) with
                 | Some d => Ok d
                 | None => Err ErrExpectedDuration
                 end
  | JInt n => Ok (dur_mul n Second)
  | JFloat f => Ok (f64_to_int (f64_mul f (f64_of_Z Second)))
  | _ => Err ErrExpectedDuration
  end.

Fixpoint string_items (i : nat) (l : list json) : result param_error (list gostring) :=
  match l with
  | [] => Ok []
  | JString s :: l' => let* r := string_items (S i) l' in Ok (s :: r)
  | _ :: _ => Err (ErrListItem i)
  end.

Definition asStringSlice (v : json) : result param_error (list gostring) :=
  match v with JArray l => string_items 0 l | _ => Err ErrExpectedList end.

(** An optional key: its coercion and its check, or the default. *)
Definition opt_param {A : Type} (p : gmap gostring json) (k : gostring) (d : A)
    (f : json → result param_error A) : result param_error A :=
  match p !! k with Some v => f v | None => Ok d end.

Definition norm_ext (e : gostring) : gostring := ToLower (TrimPrefix (TrimSpace e) $".").

(** The loop over the extensions: the set and the list in order of arrival. *)
Definition add_ext (acc : gset gostring * list gostring) (e : gostring)
    : gset gostring * list gostring :=
  let e := norm_ext e in
  if decide (e = [] ∨ e ∈ acc.1) then acc else ({[ e ]} ∪ acc.1, acc.2 ++ [e]).

Definition parseParams (cfg : FeatureSnapshot) : result param_error params :=
  let ps := fsParams cfg in
  let* mb := opt_param ps $"max_size_mb" 256%Z (λ v,
      let* n := asInt v in if Z.leb n 0 then Err ErrMaxSize else Ok n) in
  let* ttl := opt_param ps $"default_ttl" Hour (λ v,
      let* d := asDuration v in if Z.ltb d 0 then Err ErrTTLNegative else Ok d) in
  let* frac := opt_param ps $"per_tenant_size_fraction" (f64_of_Z 0) (λ v,
      let* f := asFloat v in
      if (f64_lt f (f64_of_Z 0) || f64_gt f (f64_of_Z 1))%bool then Err ErrFraction else Ok f) in
  let* exts := opt_param ps $"static_extensions" defaultExtensions asStringSlice in
  let '(set, list) := foldl add_ext (∅, []) exts in
  Ok (mkparams mb ttl set (sortStrings list) frac).

End coercions.

(** * Requests *)

(** path/filepath.Ext: from the last dot of the last element. *)
Fixpoint ext_rev (acc rs : gostring) : gostring :=
  match rs with
  | [] => []
  | c :: rs' => if decide (c = slash) then []
                else if decide (c = "."%char) then c :: acc
                else ext_rev (c :: acc) rs'
  end.

Definition Ext (path : gostring) : gostring := ext_rev [] (reverse path).

(** path.Clean of a rooted path: empty elements and dots go, a double dot
    takes the element before it. *)
Definition clean_elem (acc : list gostring) (e : gostring) : list gostring :=
  if decide (e = [] ∨ e = $".") then acc
  else if decide (e = $"..") then drop 1 acc
  else e :: acc.

Definition clean_rooted (p : gostring) : gostring :=
  slash :: Join (reverse (foldl clean_elem [] (Split p slash))) slash.

Definition canonicaliseQuery (raw : gostring) : gostring :=
  if decide (raw = []) then [] else Join (Strings (Split raw "&"%char)) "&"%char.

Definition isAllZero (s : gostring) : bool :=
  if decide (s = []) then false else forallb (λ c, bool_decide (c = "0"%char)) s.

Section request.
Context `{GoUnicode}.

Definition path_ext (path : gostring) : gostring := ToLower (TrimPrefix (Ext path) $".").

Definition hasAllowedExtension (path : gostring) (exts : gset gostring) : bool :=
  if decide (exts = ∅) then false
  else if decide (path_ext path = []) then false
  else bool_decide (path_ext path ∈ exts).

Definition cacheableRequest (r : Request) (exts : gset gostring) : bool :=
  if decide (Method r ≠ MethodGet ∧ Method r ≠ MethodHead) then false
  else if decide (hdr_get (ReqHeader r) $"Authorization" ≠ [] ∨ hdr_get (ReqHeader r) $"Cookie" ≠ [])
  then false
  else hasAllowedExtension (Path r) exts.

(** One coding of an Accept-Encoding header, [None] when it is dropped. *)
Definition q_zero (param : gostring) : bool :=
  let param := TrimSpace param in
  bool_decide (param = $"q=0") || (HasPrefix param $"q=0." && isAllZero (drop 4 param)).

Definition accepted_coding (p : gostring) : option gostring :=
  let p := TrimSpace p in
  if decide (p = []) then None
  else
    let '(coding, qZero) :=
      match cut_byte ";"%char p with
      | Some (a, b) => (TrimSpace a, existsb q_zero (Split b ";"%char))
      | None => (p, false)
      end in
    if decide (coding = [] ∨ qZero = true) then None else Some coding.

Definition canonicalAcceptEncoding (h : gostring) : gostring :=
  if decide (h = []) then []
  else
    let out := omap accepted_coding (Split (ToLower h) ","%char) in
    if decide (out = []) then [] else Join (Strings out) ","%char.

Definition LF : ascii := ascii_of_N 10.

Definition key_tenant (ctx : Context) : gostring :=
  match TenantFromContext ctx with
  | Some t => if decide (tsHost t = []) then globalTenantKey else ToLower (tsHost t)
  | None => globalTenantKey
  end.

(** The bytes written to the hash. *)
Definition key_input (ctx : Context) (r : Request) : gostring :=
  key_tenant ctx ++ [NUL] ++ Method r ++ [LF] ++ ToLower (ReqHost r) ++ [LF]
  ++ clean_rooted (slash :: drop_while (λ c, bool_decide (c = slash)) (Path r)) ++ [LF]
  ++ canonicaliseQuery (RawQuery r) ++ [LF]
  ++ canonicalAcceptEncoding (hdr_get (ReqHeader r) $"Accept-Encoding").

Definition tenantKey (sha256 : gostring → gostring) (ctx : Context) (r : Request) : gostring :=
  hex_encode (sha256 (key_input ctx r)).

(** * Responses *)

Definition blockers : list gostring :=
  [$"private"; $"no-store"; $"no-cache"; $"must-revalidate"; $"s-maxage=0"; $"max-age=0"].

Definition cacheControlAllowsStorage (cc : gostring) : bool :=
  if decide (cc = []) then true
  else forallb (λ b, negb (Contains_str (ToLower cc) b)) blockers.

Definition varyBlocksCache (values : list gostring) : bool :=
  existsb (λ v, existsb (λ part, bool_decide (TrimSpace part = $"*")) (Split v ","%char)) values.

Definition cacheableResponse (rec : captureRecorder) : bool :=
  let n := Z.of_nat (length (recBody rec)) in
  let ct := mh_get (recHeader rec) ContentType in
  let cl := mh_get (recHeader rec) ContentLength in
  if reqHadAuth rec then false
  else if (Z.ltb (recStatus rec) 200 || Z.leb 300 (recStatus rec))%bool then false
  else if (Z.eqb n 0 || Z.ltb maxCacheBodySize n)%bool then false
  else if decide (mh_values (recHeader rec) $"Set-Cookie" ≠ []) then false
  else if negb (cacheControlAllowsStorage (mh_get (recHeader rec) $"Cache-Control")) then false
  else if varyBlocksCache (mh_values (recHeader rec) $"Vary") then false
  else if decide (cl = []) then false
  else if negb (bool_decide (ParseInt cl = Some n)) then false
  else if (bool_decide (ct ≠ []) && HasPrefix (ToLower ct) $"text/html")%bool then false
  else match contentTypeByExt (path_ext (recPath rec)) with
       | Some allowed => if decide (ct = []) then true else existsb (HasPrefix (ToLower ct)) allowed
       | None => true
       end.

Definition hopByHopHeaders : list gostring :=
  [$"Connection"; $"Keep-Alive"; $"Proxy-Authenticate"; $"Proxy-Authorization";
   $"Te"; $"Trailer"; $"Transfer-Encoding"; $"Upgrade"].

(** The names listed in Connection headers. *)
Definition connection_names (h : mheader) : list gostring :=
  mh_values h $"Connection" ≫= λ line,
    List.filter (λ n, negb (bool_decide (n = []))) (TrimSpace <$> Split line ","%char).

Definition stripHopByHop (h : mheader) : mheader :=
  foldl (λ h n, mh_del n h) (foldl (λ h n, mh_del n h) h (connection_names h)) hopByHopHeaders.

End request.

(** * The recorder *)

Definition newCaptureRecorder : captureRecorder :=
  mkcaptureRecorder ∅ [] StatusOK false [] false.

Definition rec_WriteHeader (code : Z) (rr : captureRecorder) : captureRecorder :=
  if headerSent rr then rr
  else mkcaptureRecorder (recHeader rr) (recBody rr) code true (recPath rr) (reqHadAuth rr).

Definition rec_Write (b : gostring) (rr : captureRecorder) : captureRecorder :=
  let rr := if headerSent rr then rr else rec_WriteHeader StatusOK rr in
  mkcaptureRecorder (recHeader rr) (recBody rr ++ b) (recStatus rr) (headerSent rr)
                    (recPath rr) (reqHadAuth rr).

Definition rec_header (f : mheader → mheader) (rr : captureRecorder) : captureRecorder :=
  mkcaptureRecorder (f (recHeader rr)) (recBody rr) (recStatus rr) (headerSent rr)
                    (recPath rr) (reqHadAuth rr).

Definition rec_op (rr : captureRecorder) (o : wop) : captureRecorder :=
  match o with
  | WSet k v => rec_header (mh_set k v) rr
  | WAdd k v => rec_header (mh_add k v) rr
  | WDel k => rec_header (mh_del k) rr
  | WWriteHeader code => rec_WriteHeader code rr
  | WWrite b => rec_Write b rr
  end.

(** [next.ServeHTTP(rec, r)] with the recorder prepared for the request. *)
Definition record (r : Request) (ops : list wop) : captureRecorder :=
  foldl rec_op
    (mkcaptureRecorder ∅ [] StatusOK false (Path r)
       (bool_decide (hdr_get (ReqHeader r) $"Authorization" ≠ []))) ops.

Definition XCache : gostring := $"X-Cache".

(** [w] is the header map of the real writer before the call. *)
Definition writeCached (w : mheader) (e : cacheEntry) : MResponse :=
  mkMResponse (ceStatus e) (mh_set XCache $"HIT" (mh_add_all (ceHeader e) w)) (ceBody e).

Definition writeSharedResponse (w : mheader) (res : sfResult) : MResponse :=
  let h := mh_add_all (sfHeader res) w in
  mkMResponse (sfStatus res)
    (if decide (h !! XCache = None) then mh_set XCache $"MISS" h else h) (sfBody res).

(** * The cache store *)

(** A store of entries with a lifetime, which may refuse an entry. *)
Class Ristretto (C : Type) := {
  rc_new : Z → option C;
  rc_get : C → gostring → option cacheEntry;
  rc_set : gostring → cacheEntry → Z → duration → C → C
}.

(** A lookup returns only what was set last under that very key. *)
Class RistrettoLaws (C : Type) `{Ristretto C} : Prop := {
  rc_get_new n c k : rc_new n = Some c → rc_get c k = None;
  rc_get_set_eq k e cost ttl c e' :
    rc_get (rc_set k e cost ttl c) k = Some e' → e' = e;
  rc_get_set_ne k k' e cost ttl c e' :
    k ≠ k' → rc_get (rc_set k e cost ttl c) k' = Some e' → rc_get c k' = Some e'
}.

(** * The feature *)

Section feature.
Context {C : Type} `{Ristretto C} `{GoUnicode} `{GoFloat} (sha256 : gostring → gostring).

Record CacheFeature := mkCacheFeature {
  cfEnabled : bool;
  cfCache : option C;
  cfParams : option params
}.

Definition New : CacheFeature := mkCacheFeature false None None.

Definition Close (f : CacheFeature) : CacheFeature :=
  mkCacheFeature (cfEnabled f) None (cfParams f).

Definition Validate (cfg : FeatureSnapshot) : option param_error :=
  if (negb (fsEnabled cfg) && bool_decide (fsParams cfg = ∅))%bool then None
  else match parseParams cfg with Ok _ => None | Err e => Some e end.

(** newRistretto: the budget in bytes. *)
Definition newRistretto (mb : Z) : option C :=
  rc_new (wrap64 (wrap64 ((if Z.leb mb 0 then 256 else mb) * 1024) * 1024)).

Definition anyEnabled (g : GlobalsSnapshot) (ts : gmap gostring TenantSnapshot) : bool :=
  fsEnabled (default FeatureSnapshot_zero (g !! FeatureName))
  || existsb (λ ht : gostring * TenantSnapshot,
                match tsFeatures ht.2 !! FeatureName with Some cfg => fsEnabled cfg | None => false end)
             (map_to_list ts).

Definition needsRebuild (f : CacheFeature) (new : params) : bool :=
  match cfCache f, cfParams f with
  | Some _, Some old =>
      negb (Z.eqb (maxSizeMB old) (maxSizeMB new))
      || negb (stringSetEqual (extensionsList old) (extensionsList new))
  | _, _ => true
  end.

Definition Observe (g : GlobalsSnapshot) (ts : gmap gostring TenantSnapshot) (f : CacheFeature)
    : CacheFeature :=
  let globalCfg := default FeatureSnapshot_zero (g !! FeatureName) in
  match parseParams globalCfg with
  | Err _ => mkCacheFeature false (cfCache f) (cfParams f)
  | Ok new =>
      let c := if needsRebuild f new
               then (if anyEnabled g ts then newRistretto (maxSizeMB new) else None)
               else cfCache f in
      mkCacheFeature (anyEnabled g ts && bool_decide (is_Some c)) c (Some new)
  end.

Definition entry_of (rec : captureRecorder) : cacheEntry :=
  mkcacheEntry (recStatus rec) (stripHopByHop (recHeader rec)) (recBody rec).

Definition entry_cost (p : params) (e : cacheEntry) : Z :=
  let cost := Z.of_nat (length (ceBody e)) in
  wrap64 ((if Z.leb cost 0 then 1 else cost) * extCostMultiplier (Some p)).

Definition entry_ttl (p : params) : duration := if Z.leb (defaultTTL p) 0 then Hour else defaultTTL p.

(** The body of the shared flight: the result, whether the handler ran on the
    recorder, and the cache afterwards. *)
Definition fetch (p : params) (key : gostring) (r : Request) (up : list wop) (c : C)
    : sfResult * bool * C :=
  match rc_get c key with
  | Some cached =>
      (mksfResult true false (ceStatus cached) (ceHeader cached) (ceBody cached), false, c)
  | None =>
      let rec := record r up in
      if Z.ltb maxCacheBodySize (Z.of_nat (length (recBody rec))) then
        (mksfResult false true 0 ∅ [], true, c)
      else
        let e := entry_of rec in
        if cacheableResponse rec then
          (mksfResult true false (ceStatus e) (ceHeader e) (ceBody e), true,
           rc_set key e (entry_cost p e) (entry_ttl p) c)
        else (mksfResult false false (ceStatus e) (ceHeader e) (ceBody e), true, c)
  end.

(** What one request gets: the handler runs on the real writer, or a response
    is written. *)
Inductive reply :=
| Passed
| Replied (resp : MResponse).

(** The requests of one flight arrived with the same key and all missed: the
    first runs the body, the others wait for its result. [up] is the response
    of the handler to the first. *)
Definition reply_shared (res : sfResult) (w : mheader) : reply :=
  if sfTooBig res then Passed else Replied (writeSharedResponse w res).

Definition flight (p : params) (key : gostring) (owner : Request * mheader)
    (waiters : list mheader) (up : list wop) (c : C) : list reply * C :=
  let '(res, _, c') := fetch p key (fst owner) up c in
  (reply_shared res <$> snd owner :: waiters, c').

(** The guards of the middleware: the parameters, the cache and the key of a
    request that takes part. *)
Definition admitted (f : CacheFeature) (snap : snapshotState) (ctx : Context) (r : Request)
    : option (params * C * gostring) :=
  if negb (cfEnabled f) then None
  else if negb (fsEnabled (Resolve snap ctx FeatureName)) then None
  else match cfParams f with
  | None => None
  | Some p =>
      if negb (cacheableRequest r (extensions p)) then None
      else match cfCache f with
           | None => None
           | Some c => Some (p, c, tenantKey sha256 ctx r)
           end
  end.

(** A request that meets no other in flight: its reply, the number of times
    its handler ran, and the feature afterwards. *)
Definition Middleware (f : CacheFeature) (snap : snapshotState) (ctx : Context) (r : Request)
    (w : mheader) (up : list wop) : reply * nat * CacheFeature :=
  match admitted f snap ctx r with
  | None => (Passed, 1, f)
  | Some (p, c, key) =>
      match rc_get c key with
      | Some cached => (Replied (writeCached w cached), 0, f)
      | None =>
          let '(res, ran, c') := fetch p key r up c in
          (reply_shared res w, (if ran then 1 else 0) + (if sfTooBig res then 1 else 0),
           mkCacheFeature (cfEnabled f) (Some c') (cfParams f))
      end
  end.

End feature.

(** * The insertion sort *)

Lemma swap_at_mid (l1 l2 : list gostring) a b :
  swap_at (S (length l1)) (l1 ++ a :: b :: l2) = l1 ++ b :: a :: l2.
Proof.
  unfold swap_at. replace (S (length l1) - 1) with (length l1) by lia.
  rewrite list_lookup_middle by done.
  rewrite (cons_middle a l1), app_assoc.
  rewrite (list_lookup_middle (l1 ++ [a])) by (rewrite length_app; simpl; lia).
  rewrite (insert_app_r_alt (l1 ++ [a])) by (rewrite length_app; simpl; lia).
  rewrite length_app. cbn [length]. replace (S (length l1) - (length l1 + 1)) with 0 by lia.
  cbn [insert list_insert]. rewrite <- app_assoc.
  rewrite insert_app_r_alt by lia. replace (length l1 - length l1) with 0 by lia. done.
Qed.

Lemma lookup_second (l1 l2 : list gostring) a b : (l1 ++ a :: b :: l2) !! S (length l1) = Some b.
Proof.
  rewrite (cons_middle a l1), app_assoc. apply list_lookup_middle. rewrite length_app. simpl. lia.
Qed.

(** Where the inner loop leaves the element it starts from. *)
Lemma sift_spec (l1 l2 : list gostring) x :
  ∃ a b, l1 = a ++ b ∧ sift (length l1) (l1 ++ x :: l2) = a ++ x :: b ++ l2 ∧
    Forall (λ y, str_le x y) b ∧ (∀ y, last a = Some y → str_le y x).
Proof.
  revert l2. induction l1 as [|y l1 IH] using rev_ind; intros l2; [by exists [], []|].
  rewrite length_app. cbn [length]. replace (length l1 + 1) with (S (length l1)) by lia. cbn [sift].
  rewrite <- app_assoc. cbn [app]. rewrite list_lookup_middle by done.
  rewrite lookup_second. unfold str_gt. destruct (str_leb y x) eqn:Hyx; cbn [negb].
  - exists (l1 ++ [y]), []. rewrite app_nil_r, <- app_assoc. split_and!; [done..|].
    rewrite last_snoc. by intros ? [= <-].
  - rewrite swap_at_mid. destruct (IH (y :: l2)) as (a & b & -> & -> & Hb & Ha).
    exists a, (b ++ [y]). rewrite <- !app_assoc. split_and!; [done..| |done].
    apply Forall_app. split; [done|]. apply Forall_singleton.
    destruct (str_le_total x y) as [?|Hyx']; [done|]. unfold str_le in Hyx'. congruence.
Qed.

Lemma sorted_insert (a b : list gostring) x :
  StronglySorted str_le (a ++ b) → Forall (str_le x) b → (∀ y, last a = Some y → str_le y x) →
  StronglySorted str_le (a ++ x :: b).
Proof.
  intros (Hab & Hsa & Hsb)%StronglySorted_app Hb Ha.
  assert (Hax : ∀ y, y ∈ a → str_le y x).
  { destruct (last a) as [z|] eqn:Hl.
    - pose proof (Ha z eq_refl) as Hz. apply last_Some in Hl as [a' ->]. intros y [Hy|Hy]%elem_of_app.
      + trans z; [|done].
        apply StronglySorted_app in Hsa as (Hs & _). apply Hs; [done|left].
      + by apply list_elem_of_singleton in Hy as ->.
    - apply last_None in Hl as ->. by intros y ?%not_elem_of_nil. }
  apply StronglySorted_app. split_and!; [|done|by constructor].
  intros y z Hy [->|Hz]%elem_of_cons; [by apply Hax|by apply Hab].
Qed.

Lemma sort_loop (done_ rest : list gostring) n :
  length rest = n → StronglySorted str_le done_ →
  let r := foldl (λ s i, sift i s) (done_ ++ rest) (seq (length done_) n) in
  StronglySorted str_le r ∧ r ≡ₚ done_ ++ rest.
Proof.
  revert done_ rest. induction n as [|n IH]; intros l rest Hn Hs; cbn [seq foldl].
  - destruct rest; [|done]. by rewrite app_nil_r.
  - destruct rest as [|x rest]; [done|].
    destruct (sift_spec l rest x) as (a & b & Hl & Heq & Hb & Ha). rewrite Heq.
    assert (Hs' : StronglySorted str_le (a ++ x :: b)) by (apply sorted_insert; [by rewrite <- Hl|done..]).
    assert (Hlen : S (length l) = length (a ++ x :: b)).
    { rewrite Hl, !length_app. simpl. lia. }
    specialize (IH (a ++ x :: b) rest). rewrite <- app_assoc in IH. cbn [app] in IH.
    rewrite Hlen. cbn [length] in Hn. destruct IH as [H1 H2]; [lia|done|]. split; [done|].
    rewrite H2, Hl, <- app_assoc. cbn [app]. by rewrite !Permutation_middle.
Qed.

Lemma sortStrings_spec s : StronglySorted str_le (sortStrings s) ∧ sortStrings s ≡ₚ s.
Proof.
  unfold sortStrings. destruct s as [|x s]; [by split; [constructor|]|].
  cbn [length]. replace (S (length s) - 1) with (length s) by lia.
  apply (sort_loop [x] s (length s)); [done|]. by repeat constructor.
Qed.

(** * Parameters *)

Section params_facts.
Context `{GoUnicode} `{GoFloat}.

Definition ext_ok (acc : gset gostring * list gostring) : Prop :=
  NoDup acc.2 ∧ acc.1 = list_to_set acc.2 ∧ [] ∉ acc.2.

Lemma add_ext_ok acc e : ext_ok acc → ext_ok (add_ext acc e).
Proof.
  intros (Hnd & Hset & Hne). unfold add_ext. destruct (decide _) as [|Hn]; [done|].
  assert (norm_ext e ≠ [] ∧ norm_ext e ∉ acc.1) as [Hn1 Hn2] by naive_solver. rewrite Hset in Hn2. split_and!; simpl.
  - apply NoDup_app. split_and!; [done| |apply NoDup_singleton].
    intros x Hx ->%list_elem_of_singleton. apply Hn2. by apply elem_of_list_to_set.
  - rewrite Hset. set_solver.
  - set_solver.
Qed.

Lemma add_exts_ok l acc : ext_ok acc → ext_ok (foldl add_ext acc l).
Proof. revert acc; induction l as [|e l IH]; intros acc Ha; [done|]. by apply IH, add_ext_ok. Qed.

(** What a parsed parameter block satisfies. *)
Definition params_ok (p : params) : Prop :=
  (0 < maxSizeMB p)%Z ∧ (0 ≤ defaultTTL p)%Z ∧
  f64_lt (perTenantSizeFraction p) (f64_of_Z 0) = false ∧
  f64_gt (perTenantSizeFraction p) (f64_of_Z 1) = false ∧
  StronglySorted str_le (extensionsList p) ∧ NoDup (extensionsList p) ∧
  extensions p = list_to_set (extensionsList p) ∧ [] ∉ extensions p.

Lemma opt_param_ok {A : Type} ps k (d : A) f r (P : A → Prop) :
  P d → (∀ v a, f v = Ok a → P a) → opt_param ps k d f = Ok r → P r.
Proof. unfold opt_param. intros Hd Hf. destruct (ps !! k); [by apply Hf|by intros [= <-]]. Qed.

Lemma parseParams_ok cfg p : parseParams cfg = Ok p → params_ok p.
Proof.
  unfold parseParams.
  destruct (opt_param _ $"max_size_mb" _ _) as [mb|] eqn:Hmb; [|done]. cbn [res_bind].
  destruct (opt_param _ $"default_ttl" _ _) as [ttl|] eqn:Httl; [|done]. cbn [res_bind].
  destruct (opt_param _ $"per_tenant_size_fraction" _ _) as [fr|] eqn:Hfr; [|done]. cbn [res_bind].
  destruct (opt_param _ $"static_extensions" _ _) as [exts|]; [|done]. cbn [res_bind].
  assert (He : ext_ok (foldl add_ext (∅, []) exts)).
  { apply add_exts_ok. split_and!; simpl; [constructor|done|set_solver]. }
  destruct (foldl add_ext (∅, []) exts) as [set l]. intros [= <-].
  destruct He as (Hnd & Hset & Hne). simpl in *. destruct (sortStrings_spec l) as [Hs Hp].
  apply (opt_param_ok _ _ _ _ _ (λ n, (0 < n)%Z)) in Hmb; [|done|].
  2: { intros v a. destruct (asInt v) as [n|]; [|done]. cbn [res_bind].
       destruct (Z.leb_spec n 0); [done|]. by intros [= <-]. }
  apply (opt_param_ok _ _ _ _ _ (λ n, (0 ≤ n)%Z)) in Httl; [|done|].
  2: { intros v a. destruct (asDuration v) as [n|]; [|done]. cbn [res_bind].
       destruct (Z.ltb_spec n 0); [done|]. by intros [= <-]. }
  apply (opt_param_ok _ _ _ _ _ (λ f, f64_lt f (f64_of_Z 0) = false ∧ f64_gt f (f64_of_Z 1) = false)) in Hfr;
    [|done|].
  2: { intros v a. destruct (asFloat v) as [f|]; [|done]. cbn [res_bind].
       destruct (f64_lt f _) eqn:E1; [done|]. destruct (f64_gt f _) eqn:E2; [done|]. by intros [= <-]. }
  destruct Hfr. split_and!; try done; cbn.
  - by rewrite Hp.
  - rewrite Hset. apply set_eq. intros x. rewrite !elem_of_list_to_set. by rewrite Hp.
  - rewrite Hset. by rewrite elem_of_list_to_set.
Qed.

Lemma stringSetEqual_spec a b : stringSetEqual a b = true ↔ a = b.
Proof.
  unfold stringSetEqual. destruct (decide _) as [Hl|Hl].
  - split; [done|]. intros ->. lia.
  - rewrite forallb_forall. split.
    + intros Hf. apply list_eq. intros i. destruct (decide (i < length a)) as [Hi|Hi].
      * assert (In i (seq 0 (length a))) as Hs by (apply in_seq; lia).
        by apply Hf, bool_decide_eq_true in Hs.
      * rewrite !lookup_ge_None_2 by lia. done.
    + intros -> i _. by apply bool_decide_eq_true.
Qed.

Context {C : Type} `{Ristretto C}.

(** The cache is thrown away on a reload exactly when its budget or its
    set of extensions changed: the order, case, dots, spaces and repetitions
    of the configured list do not matter, because the in-place insertion sort
    puts the parsed extensions in one canonical order. *)
Theorem cache_rebuild_iff cfg cfg' old new b (c : C) :
  parseParams cfg = Ok old → parseParams cfg' = Ok new →
  needsRebuild (mkCacheFeature b (Some c) (Some old)) new = true ↔
  maxSizeMB old ≠ maxSizeMB new ∨ extensions old ≠ extensions new.
Proof.
  intros (_ & _ & _ & _ & Hs & Hnd & He & _)%parseParams_ok
         (_ & _ & _ & _ & Hs' & Hnd' & He' & _)%parseParams_ok.
  unfold needsRebuild. cbn [cfCache cfParams].
  assert (Hiff : stringSetEqual (extensionsList old) (extensionsList new) = true
                 ↔ extensions old = extensions new).
  { rewrite stringSetEqual_spec, He, He'. split; [by intros ->|]. intros Heq.
    apply (StronglySorted_unique str_le); [done..|]. apply NoDup_Permutation; [done..|].
    intros x. by rewrite <- !(elem_of_list_to_set (C := gset gostring)), Heq. }
  rewrite orb_true_iff, !negb_true_iff, Z.eqb_neq.
  destruct (stringSetEqual _ _); naive_solver.
Qed.

End params_facts.

(** * The cache key *)

(** The Unicode tables map no rune to a NUL or a line feed, and trimming adds
    no bytes. *)
Class GoUnicodeCtl `{GoUnicode} : Prop := {
  unicode_lower_ctl s c : c = NUL ∨ c = LF → c ∉ s → c ∉ unicode_lower s;
  unicode_trim_sub s c : c ∉ s → c ∉ unicode_trim s
}.

Section key.
Context `{GoUnicode} `{!GoUnicodeCtl}.

Lemma lower_byte_ctl c d : c = NUL ∨ c = LF → lower_byte d = c → d = c.
Proof. intros [-> | ->]; destruct d as [[] [] [] [] [] [] [] []]; vm_compute; congruence. Qed.

Lemma ToLower_ctl s c : c = NUL ∨ c = LF → c ∉ s → c ∉ ToLower s.
Proof.
  intros Hc Hs. unfold ToLower. destruct (forallb _ s); [|by apply unicode_lower_ctl].
  intros (d & Hd & Hin)%list_elem_of_fmap. symmetry in Hd. apply lower_byte_ctl in Hd as ->; done.
Qed.

Lemma drop_while_sub {A} (P : A → bool) l x : x ∉ l → x ∉ drop_while P l.
Proof.
  induction l as [|y l IH]; [done|]. simpl. destruct (P y); [|done].
  intros Hn. apply IH. set_solver.
Qed.

Lemma TrimSpace_sub s c : c ∉ s → c ∉ TrimSpace s.
Proof.
  intros Hs. unfold TrimSpace, TrimRight. destruct (forallb _ s); [|by apply unicode_trim_sub].
  rewrite elem_of_reverse. apply drop_while_sub. rewrite elem_of_reverse. by apply drop_while_sub.
Qed.

Lemma Split_sub s sep c : c ∉ s → Forall (λ x, c ∉ x) (Split s sep).
Proof.
  induction s as [|d s IH]; intros Hn; cbn [Split]; [repeat constructor; set_solver|].
  destruct (decide (d = sep)); [constructor; set_solver|].
  assert (Forall (λ x, c ∉ x) (Split s sep)) as Hf by (apply IH; set_solver).
  destruct (Split s sep); inversion Hf; repeat constructor; set_solver.
Qed.

Lemma Join_sub l sep c : c ≠ sep → Forall (λ x, c ∉ x) l → c ∉ Join l sep.
Proof.
  intros Hc. induction 1 as [|x l Hx Hl IH]; [apply not_elem_of_nil|]. cbn [Join].
  destruct l; [done|]. set_solver.
Qed.

Lemma canonicaliseQuery_sub raw c : c ≠ "&"%char → c ∉ raw → c ∉ canonicaliseQuery raw.
Proof.
  intros Hc Hn. unfold canonicaliseQuery. destruct (decide _); [apply not_elem_of_nil|].
  apply Join_sub; [done|]. unfold Strings. rewrite sort_by_Permutation. by apply Split_sub.
Qed.

Lemma accepted_coding_sub p c x : c ∉ p → accepted_coding p = Some x → c ∉ x.
Proof.
  intros Hn%TrimSpace_sub. unfold accepted_coding. destruct (decide _); [done|].
  destruct (cut_byte ";"%char (TrimSpace p)) as [[a b]|] eqn:Hcut.
  - apply cut_byte_Some in Hcut as [Heq _]. rewrite Heq in Hn.
    destruct (decide _); [done|]. intros [= <-]. apply TrimSpace_sub. set_solver.
  - destruct (decide _); [done|]. by intros [= <-].
Qed.

Lemma canonicalAcceptEncoding_lf h : LF ∉ h → LF ∉ canonicalAcceptEncoding h.
Proof.
  intros Hn. unfold canonicalAcceptEncoding. destruct (decide _); [apply not_elem_of_nil|].
  destruct (decide _); [apply not_elem_of_nil|]. apply Join_sub; [done|].
  unfold Strings. rewrite sort_by_Permutation. apply Forall_forall.
  intros x (p & Hp & Hx)%list_elem_of_omap. apply (accepted_coding_sub p); [|done].
  apply (ToLower_ctl h LF) in Hn; [|by right]. pose proof (Split_sub _ ","%char _ Hn) as Hf.
  rewrite Forall_forall in Hf. by apply Hf.
Qed.

(** What net/http accepts on the wire: no line feeds in the method, the host,
    the raw query and header values. The decoded path may hold any byte. *)
Definition wire_ok (r : Request) : Prop :=
  LF ∉ Method r ∧ LF ∉ ReqHost r ∧ LF ∉ RawQuery r ∧
  LF ∉ hdr_get (ReqHeader r) $"Accept-Encoding".

Definition tenant_ok (ctx : Context) : Prop :=
  match ctx with Some t => nul_free (tsHost t) | None => True end.

(** Two requests are the same resource for the cache. *)
Definition same_resource (ctx : Context) (r : Request) (ctx' : Context) (r' : Request) : Prop :=
  key_tenant ctx = key_tenant ctx' ∧ Method r = Method r' ∧
  ToLower (ReqHost r) = ToLower (ReqHost r') ∧
  clean_rooted (slash :: drop_while (λ c, bool_decide (c = slash)) (Path r))
  = clean_rooted (slash :: drop_while (λ c, bool_decide (c = slash)) (Path r')) ∧
  canonicaliseQuery (RawQuery r) = canonicaliseQuery (RawQuery r') ∧
  canonicalAcceptEncoding (hdr_get (ReqHeader r) $"Accept-Encoding")
  = canonicalAcceptEncoding (hdr_get (ReqHeader r') $"Accept-Encoding").

Lemma split_first c (a a' b b' : gostring) :
  c ∉ a → c ∉ a' → a ++ c :: b = a' ++ c :: b' → a = a' ∧ b = b'.
Proof.
  intros Ha Ha' He. pose proof (cut_byte_app c a b Ha) as E1. rewrite He, cut_byte_app in E1 by done.
  by simplify_eq.
Qed.

Lemma split_last c (a a' b b' : gostring) :
  c ∉ b → c ∉ b' → a ++ c :: b = a' ++ c :: b' → a = a' ∧ b = b'.
Proof.
  intros Hb Hb' He. apply (f_equal reverse) in He. rewrite !reverse_app, !reverse_cons, <- !app_assoc in He.
  apply split_first in He as [H1 H2]; [|by rewrite elem_of_reverse..].
  split; by apply (inj reverse).
Qed.

Lemma key_tenant_nul ctx : tenant_ok ctx → NUL ∉ key_tenant ctx.
Proof.
  unfold key_tenant, TenantFromContext. destruct ctx as [t|]; simpl; intros Ht; [|decide_now].
  destruct (decide _); [decide_now|]. apply ToLower_ctl; [by left|done].
Qed.

Lemma key_input_inj ctx r ctx' r' :
  tenant_ok ctx → tenant_ok ctx' → wire_ok r → wire_ok r' →
  key_input ctx r = key_input ctx' r' → same_resource ctx r ctx' r'.
Proof.
  intros Ht Ht' (Hm & Hh & Hq & He) (Hm' & Hh' & Hq' & He'). unfold key_input. cbn [app].
  intros Heq. apply split_first in Heq as [H1 Heq]; [|by apply key_tenant_nul..].
  apply split_first in Heq as [H2 Heq]; [|done..].
  apply split_first in Heq as [H3 Heq]; [|apply ToLower_ctl; auto..].
  assert (Hre : ∀ p q e : gostring, p ++ LF :: q ++ LF :: e = (p ++ LF :: q) ++ LF :: e).
  { intros p q e. by rewrite <- app_assoc. }
  rewrite (Hre _ (canonicaliseQuery (RawQuery r))), (Hre _ (canonicaliseQuery (RawQuery r'))) in Heq.
  apply split_last in Heq as [Heq H6]; [|by apply canonicalAcceptEncoding_lf..].
  apply split_last in Heq as [H4 H5]; [|by apply canonicaliseQuery_sub..].
  done.
Qed.

End key.

(** * Histories *)

Section history.
Context {C : Type} `{RistrettoLaws C} `{GoUnicode} `{GoFloat} (sha256 : gostring → gostring).

(** A request that was served: its tenant, itself and what its handler wrote. *)
Abbreviation served := (Context * Request * list wop)%type.

(** The states of the feature after requests, reloads, [Close] and entries
    the store dropped, with the requests served so far. *)
Inductive creach : list served → @CacheFeature C → Prop :=
| cr_new : creach [] New
| cr_request tr f snap ctx r w up :
    creach tr f → creach (tr ++ [(ctx, r, up)]) (Middleware sha256 f snap ctx r w up).2
| cr_observe tr f g ts : creach tr f → creach tr (Observe g ts f)
| cr_close tr f : creach tr f → creach tr (Close f)
| cr_drop tr f c c' :
    creach tr f → cfCache f = Some c → (∀ k e, rc_get c' k = Some e → rc_get c k = Some e) →
    creach tr (mkCacheFeature (cfEnabled f) (Some c') (cfParams f)).

(** Where an entry comes from. *)
Definition origin (tr : list served) (k : gostring) (e : cacheEntry) : Prop :=
  ∃ ctx r up exts, (ctx, r, up) ∈ tr ∧ k = tenantKey sha256 ctx r ∧
    cacheableRequest r exts = true ∧ cacheableResponse (record r up) = true ∧
    e = entry_of (record r up).

Definition cache_inv (tr : list served) (f : CacheFeature) : Prop :=
  ∀ c k e, cfCache f = Some c → rc_get c k = Some e → origin tr k e.

Lemma origin_mono tr x k e : origin tr k e → origin (tr ++ [x]) k e.
Proof. intros (ctx & r & up & exts & Hin & ?). exists ctx, r, up, exts. split; [set_solver|done]. Qed.

Lemma admitted_Some (f : @CacheFeature C) snap ctx r p c key :
  admitted sha256 f snap ctx r = Some (p, c, key) →
  cfCache f = Some c ∧ cfParams f = Some p ∧ key = tenantKey sha256 ctx r ∧
  cacheableRequest r (extensions p) = true.
Proof.
  unfold admitted. destruct (cfEnabled f); [|done]. destruct (fsEnabled _); [|done]. cbn [negb].
  destruct (cfParams f) as [p'|]; [|done]. destruct (cacheableRequest r (extensions p')) eqn:Hc; [|done].
  cbn [negb]. destruct (cfCache f); [|done]. intros [= <- <- <-]. done.
Qed.

(** What the body of a flight does to the cache. *)
Lemma fetch_get p key r up (c c' : C) res ran k e :
  fetch p key r up c = (res, ran, c') → rc_get c' k = Some e →
  rc_get c k = Some e ∨
  (k = key ∧ cacheableResponse (record r up) = true ∧ e = entry_of (record r up)).
Proof.
  unfold fetch. destruct (rc_get c key); [intros [= _ _ <-]; auto|].
  destruct (Z.ltb _ _); [intros [= _ _ <-]; auto|].
  destruct (cacheableResponse (record r up)); intros [= _ _ <-]; [|auto].
  intros Hg. destruct (decide (key = k)) as [->|Hne].
  - right. by apply rc_get_set_eq in Hg.
  - left. by eapply rc_get_set_ne.
Qed.

Lemma creach_inv tr f : creach tr f → cache_inv tr f.
Proof.
  induction 1 as [|tr f snap ctx r w up _ IH|tr f g ts _ IH|tr f _ IH|tr f c c' _ IH Hc Hd].
  - by intros c k e.
  - intros c k e Hc Hg. unfold Middleware in Hc.
    destruct (admitted sha256 f snap ctx r) as [[[p c0] key]|] eqn:Ha;
      [|by eapply origin_mono, IH].
    apply admitted_Some in Ha as (Hc0 & _ & -> & Hreq).
    destruct (rc_get c0 _) eqn:Hg0; [by eapply origin_mono, IH|].
    destruct (fetch p _ r up c0) as [[res ran] c1] eqn:Hf. simpl in Hc. injection Hc as <-.
    destruct (fetch_get _ _ _ _ _ _ _ _ _ _ Hf Hg) as [Hold|(-> & Hresp & ->)].
    + by eapply origin_mono, IH.
    + exists ctx, r, up, (extensions p). split; [set_solver|done].
  - intros c k e Hc Hg. unfold Observe in Hc.
    destruct (parseParams _) as [new|]; [|by eapply IH].
    simpl in Hc. destruct (needsRebuild f new); [|by eapply IH].
    destruct (anyEnabled g ts); [|done]. unfold newRistretto in Hc.
    by rewrite (rc_get_new _ _ k Hc) in Hg.
  - by intros c k e.
  - intros c1 k e Hc1 Hg. simplify_eq/=. by eapply IH, Hd.
Qed.

Lemma cacheableRequest_true r exts :
  cacheableRequest r exts = true →
  (Method r = MethodGet ∨ Method r = MethodHead) ∧
  hdr_get (ReqHeader r) $"Authorization" = [] ∧ hdr_get (ReqHeader r) $"Cookie" = [].
Proof.
  unfold cacheableRequest. destruct (decide _) as [|Hm]; [done|].
  destruct (decide _) as [|Hh]; [done|]. intros _. split_and!.
  - destruct (decide (Method r = MethodGet)), (decide (Method r = MethodHead)); naive_solver.
  - destruct (decide (hdr_get (ReqHeader r) $"Authorization" = [])); naive_solver.
  - destruct (decide (hdr_get (ReqHeader r) $"Cookie" = [])); naive_solver.
Qed.

Lemma cacheableResponse_true rec :
  cacheableResponse rec = true →
  reqHadAuth rec = false ∧ (200 ≤ recStatus rec < 300)%Z ∧
  (0 < Z.of_nat (length (recBody rec)) ≤ maxCacheBodySize)%Z ∧
  mh_values (recHeader rec) $"Set-Cookie" = [] ∧
  ParseInt (mh_get (recHeader rec) ContentLength) = Some (Z.of_nat (length (recBody rec))).
Proof.
  unfold cacheableResponse. destruct (reqHadAuth rec); [done|].
  destruct (Z.ltb_spec (recStatus rec) 200); [done|]. destruct (Z.leb_spec 300 (recStatus rec)); [done|].
  cbn [orb]. destruct (Z.eqb_spec (Z.of_nat (length (recBody rec))) 0); [done|].
  destruct (Z.ltb_spec maxCacheBodySize (Z.of_nat (length (recBody rec)))); [done|]. cbn [orb].
  destruct (decide (mh_values (recHeader rec) $"Set-Cookie" ≠ [])) as [|Hsc]; [done|].
  destruct (negb _); [done|]. destruct (varyBlocksCache _); [done|]. destruct (decide _); [done|].
  destruct (bool_decide (ParseInt _ = _)) eqn:Hp; [|done]. apply bool_decide_eq_true in Hp.
  intros _. split_and!; try done; try lia. by apply dec_stable.
Qed.

Lemma strip_values h k :
  mh_values (stripHopByHop h) k = [] ∨ mh_values (stripHopByHop h) k = mh_values h k.
Proof.
  unfold stripHopByHop. rewrite !mh_values_del_all.
  destruct (decide _); [by left|]. destruct (decide _); [by left|by right].
Qed.

Lemma strip_hop h k : k ∈ hopByHopHeaders → mh_values (stripHopByHop h) k = [].
Proof.
  intros Hk. unfold stripHopByHop. rewrite mh_values_del_all. rewrite decide_True; [done|].
  by apply list_elem_of_fmap_2.
Qed.

(** Only public responses are ever stored. In every reachable state, an
    entry of the cache is the response to an earlier GET or HEAD request
    without credentials, stored under that request's key; it has a 2xx status,
    a non-empty body of at most 5 MB that its Content-Length announced, no
    Set-Cookie and no hop-by-hop header. *)
Theorem cache_entries_public tr f c k e :
  creach tr f → cfCache f = Some c → rc_get c k = Some e →
  ∃ ctx r up, (ctx, r, up) ∈ tr ∧ k = tenantKey sha256 ctx r ∧
    (Method r = MethodGet ∨ Method r = MethodHead) ∧
    hdr_get (ReqHeader r) $"Authorization" = [] ∧ hdr_get (ReqHeader r) $"Cookie" = [] ∧
    e = entry_of (record r up) ∧
    (200 ≤ ceStatus e < 300)%Z ∧ (0 < Z.of_nat (length (ceBody e)) ≤ maxCacheBodySize)%Z ∧
    ParseInt (mh_get (recHeader (record r up)) ContentLength) = Some (Z.of_nat (length (ceBody e))) ∧
    mh_values (ceHeader e) $"Set-Cookie" = [] ∧
    (∀ h, h ∈ hopByHopHeaders → mh_values (ceHeader e) h = []).
Proof.
  intros Hr Hc Hg. destruct (creach_inv tr f Hr c k e Hc Hg) as (ctx & r & up & exts & Hin & -> & Hreq & Hresp & ->).
  apply cacheableRequest_true in Hreq as (Hm & Ha & Hck).
  apply cacheableResponse_true in Hresp as (_ & Hst & Hlen & Hsc & Hcl).
  exists ctx, r, up. unfold entry_of. cbn [ceStatus ceBody ceHeader]. split_and!; try done; try lia.
  - destruct (strip_values (recHeader (record r up)) $"Set-Cookie") as [->| ->]; done.
  - intros h Hh. by apply strip_hop.
Qed.

(** C4. A cache hit never crosses tenants, hosts, paths, queries or accepted
    encodings: when a request is answered without its handler being run, the
    answer is the status and body an earlier request of the same tenant for
    the same method, host, cleaned path, query up to the order of its
    parameters and set of accepted encodings received, unless SHA-256 collides
    on the two key strings. *)
Theorem cache_hit_same_resource `{!GoUnicodeCtl} tr f snap ctx r w up resp f' :
  creach tr f →
  Middleware sha256 f snap ctx r w up = (Replied resp, 0, f') →
  (∀ ctx0 r0 up0, (ctx0, r0, up0) ∈ tr →
     tenant_ok ctx0 ∧ wire_ok r0 ∧
     (sha256 (key_input ctx0 r0) = sha256 (key_input ctx r) → key_input ctx0 r0 = key_input ctx r)) →
  tenant_ok ctx → wire_ok r →
  ∃ ctx0 r0 up0, (ctx0, r0, up0) ∈ tr ∧ same_resource ctx0 r0 ctx r ∧
    mStatus resp = recStatus (record r0 up0) ∧ mBody resp = recBody (record r0 up0) ∧ f' = f.
Proof.
  intros Hr Hm Htr Ht Hw. unfold Middleware in Hm.
  destruct (admitted sha256 f snap ctx r) as [[[p c] key]|] eqn:Ha; [|done].
  apply admitted_Some in Ha as (Hc & _ & -> & _).
  destruct (rc_get c _) as [e|] eqn:Hg.
  - injection Hm as <- <-. destruct (creach_inv tr f Hr c _ e Hc Hg)
      as (ctx0 & r0 & up0 & exts & Hin & Hk & _ & _ & ->).
    destruct (Htr ctx0 r0 up0 Hin) as (Ht0 & Hw0 & Hcol).
    exists ctx0, r0, up0. split_and!; try done.
    apply key_input_inj; try done. apply Hcol. unfold tenantKey in Hk.
    apply (f_equal hex_decode) in Hk. rewrite !hex_decode_encode in Hk. by injection Hk.
  - unfold fetch in Hm. rewrite Hg in Hm. split_cond.
Qed.

(** Header operations keep names canonical. *)
Lemma rec_op_canonical rr o : mh_canonical (recHeader rr) → mh_canonical (recHeader (rec_op rr o)).
Proof.
  intros Hc. destruct o; cbn [rec_op recHeader rec_header]; try by apply mh_canonical_insert.
  - by apply mh_canonical_del.
  - unfold rec_WriteHeader. by destruct (headerSent rr).
  - unfold rec_Write. destruct (headerSent rr) eqn:Hs; [done|]. cbn. unfold rec_WriteHeader. by rewrite Hs.
Qed.

Lemma record_canonical r up : mh_canonical (recHeader (record r up)).
Proof.
  assert (Hall : ∀ ops rr, mh_canonical (recHeader rr) → mh_canonical (recHeader (foldl rec_op rr ops))).
  { intros ops. induction ops as [|o ops IH]; intros rr0 Hc; [done|]. by apply IH, rec_op_canonical. }
  apply Hall, map_Forall_empty.
Qed.

Lemma strip_canonical h : mh_canonical h → mh_canonical (stripHopByHop h).
Proof.
  assert (Hd : ∀ ks h, mh_canonical h → mh_canonical (foldl (λ h n, mh_del n h) h ks)).
  { intros ks. induction ks as [|k ks IH]; intros h0 Hh; [done|]. by apply IH, mh_canonical_del. }
  intros Hh. by apply Hd, Hd.
Qed.

Lemma strip_keeps h k :
  CanonicalHeaderKey k ∉ CanonicalHeaderKey <$> hopByHopHeaders →
  CanonicalHeaderKey k ∉ CanonicalHeaderKey <$> connection_names h →
  mh_values (stripHopByHop h) k = mh_values h k.
Proof.
  intros Hh1 Hh2. unfold stripHopByHop. rewrite !mh_values_del_all.
  by rewrite decide_False, decide_False.
Qed.

(** Concurrent visitors share each other's cookies. The result of a miss
    is handed to every request that waits for the same key, storable or not:
    when the handler's answer to the first request sets a cookie, each waiting
    request receives that very Set-Cookie header, although such a response is
    never stored because it would plant the cookie on other users. *)
Theorem flight_shares_set_cookie p key r w waiters up (c : C) v :
  rc_get c key = None →
  (Z.of_nat (length (recBody (record r up))) ≤ maxCacheBodySize)%Z →
  v ∈ mh_values (recHeader (record r up)) $"Set-Cookie" →
  $"Set-Cookie" ∉ CanonicalHeaderKey <$> connection_names (recHeader (record r up)) →
  let '(replies, c') := flight p key (r, w) waiters up c in
  c' = c ∧ length replies = S (length waiters) ∧
  ∀ reply, reply ∈ replies →
    ∃ resp, reply = Replied resp ∧ v ∈ mh_values (mHeader resp) $"Set-Cookie" ∧
            mBody resp = recBody (record r up).
Proof.
  intros Hg Hlen Hv Hconn. unfold flight. cbn [fst snd]. unfold fetch. rewrite Hg.
  destruct (Z.ltb_spec maxCacheBodySize (Z.of_nat (length (recBody (record r up))))); [lia|].
  destruct (cacheableResponse (record r up)) eqn:Hcr.
  { apply cacheableResponse_true in Hcr as (_ & _ & _ & Hsc & _). rewrite Hsc in Hv.
    by apply not_elem_of_nil in Hv. }
  split; [done|]. split; [by rewrite length_fmap|].
  intros reply (w' & -> & _)%list_elem_of_fmap. unfold reply_shared. cbn [sfTooBig].
  eexists. split; [done|]. split; [|done]. unfold writeSharedResponse. cbn [mHeader sfHeader entry_of ceHeader].
  set (h := mh_add_all _ w').
  assert (Hh : v ∈ mh_values h $"Set-Cookie").
  { unfold h. rewrite mh_values_add_all by apply strip_canonical, record_canonical.
    apply elem_of_app. right. rewrite strip_keeps; [done|decide_now|done]. }
  destruct (decide _); [|done]. unfold mh_values, mh_set in Hh |- *. by rewrite lookup_insert_ne.
Qed.

(** A body over the 5 MB cap is fetched twice: the first answer is read
    into memory in full and thrown away, nothing is stored, and the handler is
    run a second time on the client's connection. *)
Theorem oversized_runs_twice f snap ctx r w up p (c : C) key :
  admitted sha256 f snap ctx r = Some (p, c, key) → rc_get c key = None →
  (maxCacheBodySize < Z.of_nat (length (recBody (record r up))))%Z →
  Middleware sha256 f snap ctx r w up
  = (Passed, 2, mkCacheFeature (cfEnabled f) (Some c) (cfParams f)).
Proof.
  intros Ha Hg Hlen. unfold Middleware. rewrite Ha, Hg. unfold fetch. rewrite Hg.
  by destruct (Z.ltb_spec maxCacheBodySize (Z.of_nat (length (recBody (record r up))))); [|lia].
Qed.

Definition with_header (k v : gostring) (r : Request) : Request :=
  {| Method := Method r; Path := Path r; RawPath := RawPath r; RawQuery := RawQuery r;
     ReqHost := ReqHost r; RemoteAddr := RemoteAddr r;
     ReqHeader := hdr_set k v (ReqHeader r); Cookies := Cookies r |}.

(** A partial response replaces the resource. Neither the key nor the
    storage rules know about ranges: after a request for a byte range whose
    206 answer passes the storage rules and is kept by the store, the plain
    request for the same resource is answered from the cache with status 206
    and the fragment as its body. *)
Theorem range_poisons_cache f snap ctx r range w w' up up' f1 c1 p c key e :
  admitted sha256 f snap ctx (with_header $"Range" range r) = Some (p, c, key) →
  rc_get c key = None →
  recStatus (record (with_header $"Range" range r) up) = 206%Z →
  cacheableResponse (record (with_header $"Range" range r) up) = true →
  (Middleware sha256 f snap ctx (with_header $"Range" range r) w up).2 = f1 →
  cfCache f1 = Some c1 → rc_get c1 key = Some e →
  ∃ resp, Middleware sha256 f1 snap ctx r w' up' = (Replied resp, 0, f1) ∧
    mStatus resp = 206%Z ∧ mBody resp = recBody (record (with_header $"Range" range r) up).
Proof.
  intros Ha Hg Hst Hcr Hf1 Hc1 He.
  assert (Hget : ∀ k, k ≠ $"Range" →
            hdr_get (ReqHeader (with_header $"Range" range r)) k = hdr_get (ReqHeader r) k).
  { intros k Hk. unfold hdr_get, with_header, hdr_set. cbn [ReqHeader]. by rewrite lookup_insert_ne. }
  assert (Hkey : tenantKey sha256 ctx r = key).
  { apply admitted_Some in Ha as (_ & _ & -> & _). unfold tenantKey, key_input. by rewrite Hget. }
  assert (Hadm : admitted sha256 f1 snap ctx r = Some (p, c1, key)).
  { rewrite <- Hf1 in Hc1 |- *. unfold Middleware in *. rewrite Ha, Hg in *.
    destruct (fetch p key _ up c) as [[res ran] c2]. cbn [snd cfCache] in Hc1. injection Hc1 as ->.
    revert Ha. unfold admitted. cbn [cfEnabled cfParams cfCache snd].
    destruct (negb (cfEnabled f)); [done|]. destruct (negb (fsEnabled _)); [done|].
    destruct (cfParams f) as [p'|]; [|done].
    assert (cacheableRequest (with_header $"Range" range r) (extensions p')
            = cacheableRequest r (extensions p')) as ->
      by (unfold cacheableRequest; by rewrite !Hget).
    destruct (negb _); [done|]. destruct (cfCache f); [|done]. intros [= <- <- <-]. by rewrite Hkey. }
  unfold Middleware at 1. rewrite Hadm, He. eexists. split; [done|]. cbn [mStatus mBody writeCached].
  assert (e = entry_of (record (with_header $"Range" range r) up)) as ->; [|done].
  unfold Middleware in Hf1. rewrite Ha, Hg in Hf1.
  destruct (fetch p key _ up c) as [[res ran] c2] eqn:Hf. cbn [snd] in Hf1. subst f1.
  cbn [cfCache] in Hc1. injection Hc1 as ->.
  destruct (fetch_get _ _ _ _ _ _ _ _ _ _ Hf He) as [Hold|(_ & _ & ->)]; [congruence|done].
Qed.

End history.

(** * Concrete instances *)

#[local] Instance sc_store : Ristretto (gmap gostring cacheEntry) := {
  rc_new _ := Some ∅;
  rc_get c k := c !! k;
  rc_set k e _ _ c := <[k := e]> c
}.

#[local] Instance sc_store_laws : RistrettoLaws (gmap gostring cacheEntry).
Proof.
  split; unfold rc_new, rc_get, rc_set, sc_store.
  - intros n c k [= <-]. apply lookup_empty.
  - intros k e cost ttl c e'. rewrite lookup_insert_eq. by intros [= ->].
  - intros k k' e cost ttl c e' Hne. by rewrite lookup_insert_ne.
Qed.

#[local] Instance sc_unicode : GoUnicode := {|
  unicode_lower s := s; unicode_upper s := s; unicode_trim s := s |}.

#[local] Instance sc_unicode_ctl : GoUnicodeCtl.
Proof. split; done. Qed.

#[local] Instance sc_float : GoFloat := λ _, None.

(** A digest of one byte. *)
Definition sc_sha (s : gostring) : gostring := [ascii_of_nat (length s)].

Definition sc_globals : GlobalsSnapshot := {[ FeatureName := mkFeatureSnapshot true ∅ 1 ]}.
Definition sc_snap : snapshotState := mkSnapshotState sc_globals ∅.
Definition sc_feature : @CacheFeature (gmap gostring cacheEntry) := Observe sc_globals ∅ New.
Definition sc_req : Request := mkRequest MethodGet $"/app.js" [] [] $"a.example" [] ∅ ∅.

(** An asset of three bytes, and a fragment of it. *)
Definition sc_asset (status : Z) (body : gostring) : list wop :=
  [WSet $"Content-Type" $"text/javascript"; WSet $"Content-Length" (fmt_int (Z.of_nat (length body)));
   WWriteHeader status; WWrite body].

Definition sc_warm : @CacheFeature (gmap gostring cacheEntry) :=
  (Middleware sc_sha sc_feature sc_snap None sc_req ∅ (sc_asset 200 $"abc")).2.

Definition sc_key : gostring := tenantKey sc_sha None sc_req.

Lemma sc_reach : creach sc_sha [(None, sc_req, sc_asset 200 $"abc")] sc_warm.
Proof. apply (cr_request sc_sha [] sc_feature). apply cr_observe, cr_new. Defined.

Definition sc_stored (f : @CacheFeature (gmap gostring cacheEntry)) : gmap gostring cacheEntry :=
  default ∅ (cfCache f).
Definition sc_entry : cacheEntry := entry_of (record sc_req (sc_asset 200 $"abc")).

Lemma cache_entries_public_witness :
  mh_values (ceHeader sc_entry) $"Set-Cookie" = [] ∧ mh_values (ceHeader sc_entry) $"Upgrade" = [].
Proof.
  assert (Hc : cfCache sc_warm = Some (sc_stored sc_warm)) by (vm_compute; reflexivity).
  assert (He : rc_get (sc_stored sc_warm) sc_key = Some sc_entry) by (vm_compute; reflexivity).
  destruct (cache_entries_public sc_sha _ sc_warm _ sc_key sc_entry sc_reach Hc He)
    as (ctx & r & up & _ & _ & _ & _ & _ & _ & _ & _ & _ & Hsc & Hhop).
  split; [exact Hsc|]. apply Hhop. decide_now.
Defined.

Lemma cache_hit_same_resource_witness :
  ∃ ctx0 r0 up0, (ctx0, r0, up0) ∈ [(None : Context, sc_req, sc_asset 200 $"abc")] ∧
    same_resource ctx0 r0 None sc_req ∧ $"abc" = recBody (record r0 up0).
Proof.
  assert (Hm : Middleware sc_sha sc_warm sc_snap None sc_req ∅ []
               = (Replied (writeCached ∅ sc_entry), 0, sc_warm)) by (vm_compute; reflexivity).
  destruct (cache_hit_same_resource sc_sha _ sc_warm sc_snap None sc_req ∅ [] _ _ sc_reach Hm)
    as (ctx0 & r0 & up0 & Hin & Hs & _ & Hbody & _).
  - intros ctx0 r0 up0 Hin. apply list_elem_of_singleton in Hin. injection Hin as -> -> ->.
    split; [exact I|]. split; [unfold wire_ok; split_and!; decide_now|done].
  - exact I.
  - unfold wire_ok; split_and!; decide_now.
  - exists ctx0, r0, up0. split; [exact Hin|]. split; [exact Hs|exact Hbody].
Defined.

Definition sc_params : params := mkparams 256 Hour {[ $"js" ]} [$"js"] (f64_of_Z 0).

(** Two visitors wait for the first one's response, which starts a session. *)
Lemma flight_shares_set_cookie_witness :
  Forall (λ reply, ∃ resp, reply = Replied resp ∧ $"sid=1" ∈ mh_values (mHeader resp) $"Set-Cookie")
    (flight sc_params sc_key (sc_req, ∅) [∅; ∅] [WAdd $"Set-Cookie" $"sid=1"; WWrite $"abc"]
       (∅ : gmap gostring cacheEntry)).1.
Proof.
  assert (Hf := flight_shares_set_cookie sc_params sc_key sc_req ∅ [∅; ∅]
    [WAdd $"Set-Cookie" $"sid=1"; WWrite $"abc"] (∅ : gmap gostring cacheEntry) $"sid=1").
  specialize (Hf ltac:(reflexivity) ltac:(vm_compute; discriminate) ltac:(decide_now) ltac:(decide_now)).
  destruct (flight _ _ _ _ _ _) as [replies c']. destruct Hf as (_ & _ & Hall).
  apply Forall_forall. intros reply (resp & -> & Hv & _)%Hall. exists resp. split; [reflexivity|exact Hv].
Defined.

Definition sc_ranged : @CacheFeature (gmap gostring cacheEntry) :=
  (Middleware sc_sha sc_feature sc_snap None (with_header $"Range" $"bytes=0-0" sc_req) ∅
     (sc_asset 206 $"a")).2.

Lemma range_poisons_cache_witness :
  ∃ resp, Middleware sc_sha sc_ranged sc_snap None sc_req ∅ (sc_asset 200 $"abc")
          = (Replied resp, 0, sc_ranged) ∧
    mStatus resp = 206%Z ∧
    mBody resp = recBody (record (with_header $"Range" $"bytes=0-0" sc_req) (sc_asset 206 $"a")).
Proof.
  apply (range_poisons_cache sc_sha sc_feature sc_snap None sc_req $"bytes=0-0" ∅ ∅ (sc_asset 206 $"a")
    (sc_asset 200 $"abc") sc_ranged (sc_stored sc_ranged) (default sc_params (cfParams sc_feature)) ∅ sc_key
    (entry_of (record (with_header $"Range" $"bytes=0-0" sc_req) (sc_asset 206 $"a"))));
    vm_compute; reflexivity.
Defined.

Definition sc_cfg (exts : list json) : FeatureSnapshot :=
  mkFeatureSnapshot true {[ $"static_extensions" := JArray exts ]} 1.

Lemma cache_rebuild_iff_witness :
  ∃ old new, parseParams (sc_cfg [JString $".JS"; JString $"css"; JString $"css"]) = Ok old ∧
    parseParams (sc_cfg [JString $" css"; JString $"js"]) = Ok new ∧
    needsRebuild (mkCacheFeature true (Some (∅ : gmap gostring cacheEntry)) (Some old)) new = false.
Proof.
  destruct (parseParams (sc_cfg [JString $".JS"; JString $"css"; JString $"css"])) as [old|] eqn:Ho;
    [|vm_compute in Ho; discriminate].
  destruct (parseParams (sc_cfg [JString $" css"; JString $"js"])) as [new|] eqn:Hn;
    [|vm_compute in Hn; discriminate].
  exists old, new. split; [reflexivity|]. split; [reflexivity|]. apply not_true_iff_false.
  rewrite (cache_rebuild_iff _ _ old new true (∅ : gmap gostring cacheEntry) Ho Hn).
  vm_compute in Ho, Hn. injection Ho as <-. injection Hn as <-. intros [Hx|Hx]; by apply Hx.
Defined.

(** The fraction passes validation and makes the cost of an entry negative. *)
Example tiny_fraction_negative :
  let p := mkparams 256 Hour ∅ [] (S754_finite false 4503599627370496 (-170)) in
  f64_lt (perTenantSizeFraction p) (f64_of_Z 0) = false ∧
  f64_gt (perTenantSizeFraction p) (f64_of_Z 1) = false ∧
  extCostMultiplier (Some p) = min_int64.
Proof. vm_compute. auto. Qed.
