(* ===== verification/RateLimit.v ===== *)
(** The per-tenant rate limiter (src/internal/feature/ratelimit/ratelimit.go):
    parameters, the per-address limiters and connection counters of a tenant,
    the enforcement on a request, sweeping, and, step by step, the lock-free
    connection cap under concurrent requests.

    golang.org/x/time/rate is an interface with its documented bound. The
    clock is an input. *)

From S2P Require Import Prelude Float Http Shared AuditLog FeatureRegistry GoStd.

Definition FeatureName : gostring := $"rate_limit".
Definition defaultCleanupSeconds : Z := 300.
Definition defaultTimeoutSeconds : Z := 30.

(** * Parameters *)

Definition ActionTooMany : gostring := $"429".
Definition ActionDrop : gostring := $"drop".
Definition ActionTimeout : gostring := $"timeout".

Definition normalized (a : gostring) : gostring :=
  if decide (a = ActionTooMany ∨ a = ActionDrop ∨ a = ActionTimeout) then a else ActionTooMany.

Record params := mkparams {
  PerIPRPS : float64;
  PerIPBurst : Z;
  PerIPConns : Z;
  APIRPS : float64;
  APIBurst : Z;
  APIPathPrefixes : list gostring;
  GlobalRPS : float64;
  CleanupInterval : duration;
  IdleTTL : duration;
  TrustXFF : bool;
  ActionOnExceed : gostring;
  TimeoutOnExceed : duration
}.

Definition defaultParams : params := {|
  PerIPRPS := f64_of_Z 10; PerIPBurst := 20; PerIPConns := 50;
  APIRPS := f64_of_Z 5; APIBurst := 10; APIPathPrefixes := [$"/api/"];
  GlobalRPS := f64_of_Z 1000;
  CleanupInterval := (defaultCleanupSeconds * Second)%Z; IdleTTL := (600 * Second)%Z;
  TrustXFF := false; ActionOnExceed := ActionTooMany;
  TimeoutOnExceed := (defaultTimeoutSeconds * Second)%Z
|}.

Definition asFloat (v : option json) : option float64 :=
  match v with
  | Some (JFloat f) => Some f
  | Some (JInt n) => Some (f64_of_Z n)
  | _ => None
  end.

Definition asInt (v : option json) : option Z :=
  match v with
  | Some (JInt n) => Some n
  | Some (JFloat f) => Some (f64_to_int f)
  | _ => None
  end.

Definition asBool (v : option json) : option bool := as_bool v.

Definition asStringSlice (v : option json) : option (list gostring) :=
  match v with
  | Some (JArray l) => Some (omap (λ x, as_string (Some x)) l)
  | _ => None
  end.

(** [if v, ok := asInt(p[k]); ok && v > 0]. *)
Definition positive_int (v : option json) : option Z :=
  match asInt v with Some n => if Z.ltb 0 n then Some n else None | None => None end.

Definition parseParams (p : gmap gostring json) : params :=
  let d := defaultParams in
  let cleanup := positive_int (p !! $"cleanup_interval_seconds") in
  let ci := match cleanup with Some v => dur_mul v Second | None => CleanupInterval d end in
  {| PerIPRPS := default (PerIPRPS d) (asFloat (p !! $"per_ip_rps"));
     PerIPBurst := default (PerIPBurst d) (asInt (p !! $"per_ip_burst"));
     PerIPConns := default (PerIPConns d) (asInt (p !! $"per_ip_conns"));
     APIRPS := default (APIRPS d) (asFloat (p !! $"api_rps"));
     APIBurst := default (APIBurst d) (asInt (p !! $"api_burst"));
     APIPathPrefixes := default (APIPathPrefixes d) (asStringSlice (p !! $"api_path_prefixes"));
     GlobalRPS := default (GlobalRPS d) (asFloat (p !! $"global_rps"));
     CleanupInterval := ci;
     IdleTTL := match positive_int (p !! $"idle_ttl_seconds"), cleanup with
                | Some v, _ => dur_mul v Second
                | None, Some _ => dur_mul 2 ci
                | None, None => IdleTTL d
                end;
     TrustXFF := default (TrustXFF d) (asBool (p !! $"trust_xff"));
     ActionOnExceed := match as_string (p !! $"action_on_exceed") with
                       | Some v => normalized v
                       | None => ActionOnExceed d
                       end;
     TimeoutOnExceed := match positive_int (p !! $"timeout_on_exceed_seconds") with
                        | Some v => dur_mul v Second
                        | None => TimeoutOnExceed d
                        end |}.

Inductive validate_error :=
| ErrPerIPRPS | ErrPerIPBurst | ErrPerIPConns | ErrAPIRPS | ErrAPIBurst | ErrGlobalRPS
| ErrCleanup | ErrActionOnExceed.

Definition neg_float (v : option json) : bool :=
  match asFloat v with Some f => f64_lt f (f64_of_Z 0) | None => false end.
Definition neg_int (v : option json) : bool :=
  match asInt v with Some n => Z.ltb n 0 | None => false end.

Definition Validate (cfg : FeatureSnapshot) : option validate_error :=
  let p := fsParams cfg in
  if neg_float (p !! $"per_ip_rps") then Some ErrPerIPRPS
  else if neg_int (p !! $"per_ip_burst") then Some ErrPerIPBurst
  else if neg_int (p !! $"per_ip_conns") then Some ErrPerIPConns
  else if neg_float (p !! $"api_rps") then Some ErrAPIRPS
  else if neg_int (p !! $"api_burst") then Some ErrAPIBurst
  else if neg_float (p !! $"global_rps") then Some ErrGlobalRPS
  else if neg_int (p !! $"cleanup_interval_seconds") then Some ErrCleanup
  else match as_string (p !! $"action_on_exceed") with
       | Some v => if decide (v = [] ∨ v = ActionTooMany ∨ v = ActionDrop ∨ v = ActionTimeout)
                   then None else Some ErrActionOnExceed
       | None => None
       end.

(** * Requests *)

Section request.
Context `{GoUnicode}.

Definition matchesAnyPrefix (path : gostring) (prefixes : list gostring) : bool :=
  existsb (λ p, if decide (p = []) then false else HasPrefix (ToLower path) (ToLower p)) prefixes.

Definition clientIP (r : Request) (trustXFF : bool) : gostring :=
  let cf := hdr_get (ReqHeader r) $"Cf-Connecting-Ip" in
  let xff := hdr_get (ReqHeader r) $"X-Forwarded-For" in
  if (trustXFF && bool_decide (cf ≠ []))%bool then cf
  else if (trustXFF && bool_decide (xff ≠ []))%bool then
    match IndexByte xff ","%char with
    | Some i => TrimSpace (take i xff)
    | None => TrimSpace xff
    end
  else match SplitHostPort (RemoteAddr r) with
       | Some (host, _) => host
       | None => RemoteAddr r
       end.

End request.

(** What the client sees when a limit is exceeded: a torn connection, or an
    answer after a wait. *)
Inductive exceeded :=
| XDropped
| XAnswered (wait : duration) (resp : Response).

(** http.Error. *)
Definition http_error (h : header) (msg : gostring) (code : Z) : Response :=
  mkResponse code
    (hdr_set $"X-Content-Type-Options" $"nosniff"
       (hdr_set ContentType $"text/plain; charset=utf-8" (delete ContentLength h)))
    (msg ++ [ascii_of_N 10]).

Definition applyAction (hijack : bool) (cancelled : option duration) (cfg : params) : exceeded :=
  if decide (ActionOnExceed cfg = ActionDrop) then
    if hijack then XDropped else XAnswered 0 (http_error ∅ [] StatusBadRequest)
  else if decide (ActionOnExceed cfg = ActionTimeout) then
    let d := if Z.leb (TimeoutOnExceed cfg) 0 then (defaultTimeoutSeconds * Second)%Z
             else TimeoutOnExceed cfg in
    XAnswered (match cancelled with Some c => Z.min d c | None => d end)
              (http_error (hdr_set RetryAfter $"3" ∅) [] StatusRequestTimeout)
  else XAnswered 0 (http_error (hdr_set RetryAfter $"3" ∅) $"Too Many Requests" StatusTooManyRequests).

(** * Limiters *)

(** A token bucket. [rl_budget] bounds what it lets through in a stretch of time. *)
Class RateLimiter (L : Type) := {
  rl_new : float64 → Z → L;
  rl_allow : time → L → bool * L;
  rl_budget : float64 → Z → duration → Z
}.

Section allowed.
Context {L : Type} `{RateLimiter L}.

(** How many of the attempts at the given times a limiter lets through. *)
Fixpoint allowed (l : L) (ts : list time) : nat :=
  match ts with
  | [] => 0
  | t :: ts' => let '(ok, l') := rl_allow t l in (if ok then 1 else 0) + allowed l' ts'
  end.

(** The limiter after attempts at the given times. *)
Definition after (l : L) (ts : list time) : L := foldl (λ l t, (rl_allow t l).2) l ts.

End allowed.

(** The documented bound of a token bucket: whatever was attempted before,
    attempts in order of time within a stretch of length [d] are let through
    at most [rl_budget] times. *)
Class RateLimiterLaws (L : Type) `{RateLimiter L} : Prop := {
  rl_bound r b past t0 d ts :
    StronglySorted Z.le (past ++ ts) → Forall (λ t, t0 ≤ t ≤ t0 + d)%Z ts →
    (Z.of_nat (allowed (after (rl_new r b) past) ts) ≤ rl_budget r b d)%Z
}.

(** * The state of a tenant *)

Section tenant.
Context {L : Type} `{RateLimiter L} `{GoUnicode}.

Record visitor := mkvisitor { limiter : L; vLastSeen : Z }.
Record connTracker := mkconnTracker { ctCount : Z; ctLastSeen : Z }.

Record tenantState := mktenantState {
  cfg : params;
  ipBuckets : gmap gostring visitor;
  apiBuckets : gmap gostring visitor;
  connCounts : gmap gostring connTracker;
  globalLimiter : L
}.

Definition newGlobalLimiter (p : params) : L :=
  let burst := f64_to_int (GlobalRPS p) in
  let burst := if Z.ltb burst (PerIPBurst p) then PerIPBurst p else burst in
  let burst := if Z.ltb burst 1 then 1%Z else burst in
  rl_new (GlobalRPS p) burst.

Definition newTenantState (p : params) : tenantState :=
  mktenantState p ∅ ∅ ∅ (newGlobalLimiter p).

(** [getOrCreate(ip, now)] followed by [lim.Allow()]. *)
Definition bucket_allow (fresh : L) (now : time) (ip : gostring) (m : gmap gostring visitor)
    : bool * gmap gostring visitor :=
  let l := match m !! ip with Some v => limiter v | None => fresh end in
  let '(ok, l') := rl_allow now l in
  (ok, <[ip := mkvisitor l' (UnixNano now)]> m).

Definition sweep (cutoff : time) (m : gmap gostring visitor) : gmap gostring visitor :=
  filter (λ kv, UnixNano cutoff ≤ vLastSeen kv.2)%Z m.

Definition sweepConnCounts (cutoff : time) (m : gmap gostring connTracker)
    : gmap gostring connTracker :=
  filter (λ kv, ¬ (ctCount kv.2 = 0 ∧ ctLastSeen kv.2 < UnixNano cutoff))%Z m.

Definition getConnTracker (now : time) (ip : gostring) (st : tenantState) : connTracker :=
  default (mkconnTracker 0 (UnixNano now)) (connCounts st !! ip).

Definition with_conn (ip : gostring) (ct : connTracker) (st : tenantState) : tenantState :=
  mktenantState (cfg st) (ipBuckets st) (apiBuckets st) (<[ip := ct]> (connCounts st)) (globalLimiter st).

(** The deferred release of a connection. *)
Definition release (now : time) (ip : gostring) (st : tenantState) : tenantState :=
  let ct := getConnTracker now ip st in
  with_conn ip (mkconnTracker (ctCount ct - 1) (UnixNano now)) st.

(** Taking a connection: [None] when the address is at its cap. *)
Definition acquire (now : time) (ip : gostring) (st : tenantState) : tenantState * bool :=
  if Z.leb (PerIPConns (cfg st)) 0 then (st, true)
  else
    let ct := getConnTracker now ip st in
    if Z.leb (PerIPConns (cfg st)) (ctCount ct)
    then (with_conn ip (mkconnTracker (ctCount ct) (UnixNano now)) st, false)
    else (with_conn ip (mkconnTracker (ctCount ct + 1) (UnixNano now)) st, true).

Definition use_api (r : Request) (c : params) : bool :=
  matchesAnyPrefix (Path r) (APIPathPrefixes c) && f64_gt (APIRPS c) (f64_of_Z 0).

(** The limiter of the address: the API buckets for API paths. *)
Definition check_rate (now : time) (r : Request) (ip : gostring) (st : tenantState)
    : tenantState * bool :=
  if use_api r (cfg st) then
    let '(ok, m) := bucket_allow (rl_new (APIRPS (cfg st)) (APIBurst (cfg st))) now ip (apiBuckets st) in
    (mktenantState (cfg st) (ipBuckets st) m (connCounts st) (globalLimiter st), ok)
  else
    let '(ok, m) := bucket_allow (rl_new (PerIPRPS (cfg st)) (PerIPBurst (cfg st))) now ip (ipBuckets st) in
    (mktenantState (cfg st) m (apiBuckets st) (connCounts st) (globalLimiter st), ok).

(** [serve] up to the call of the handler: whether it is called. A rejection
    after the connection was taken releases it at once. *)
Definition serve_enter (now : time) (r : Request) (st : tenantState) : tenantState * bool :=
  let '(okg, g) := rl_allow now (globalLimiter st) in
  let st := mktenantState (cfg st) (ipBuckets st) (apiBuckets st) (connCounts st) g in
  if negb okg then (st, false)
  else
    let ip := clientIP r (TrustXFF (cfg st)) in
    let '(st, okc) := acquire now ip st in
    if negb okc then (st, false)
    else
      let '(st, okr) := check_rate now r ip st in
      if okr then (st, true)
      else (if Z.leb (PerIPConns (cfg st)) 0 then st else release now ip st, false).

(** [serve] after the handler returned. *)
Definition serve_leave (now : time) (r : Request) (st : tenantState) : tenantState :=
  if Z.leb (PerIPConns (cfg st)) 0 then st
  else release now (clientIP r (TrustXFF (cfg st))) st.

Definition idle_ttl (c : params) : duration :=
  let ttl := if Z.leb (IdleTTL c) 0 then dur_mul 2 (CleanupInterval c) else IdleTTL c in
  if Z.leb ttl 0 then (2 * (defaultCleanupSeconds * Second))%Z else ttl.

Definition sweep_state (now : time) (st : tenantState) : tenantState :=
  let cutoff := time_add now (dur_neg (idle_ttl (cfg st))) in
  mktenantState (cfg st) (sweep cutoff (ipBuckets st)) (sweep cutoff (apiBuckets st))
                (sweepConnCounts cutoff (connCounts st)) (globalLimiter st).

(** * The feature *)

Record RateFeature := mkRateFeature {
  rfEnabled : bool;
  tenantBuckets : gmap gostring tenantState;
  globalDefault : params;
  sweepInterval : Z
}.

Definition NewFeature : RateFeature :=
  mkRateFeature false ∅ defaultParams (defaultCleanupSeconds * Second)%Z.

Definition sweepIntervalFromGlobals (f : RateFeature) : RateFeature :=
  let iv := CleanupInterval (globalDefault f) in
  mkRateFeature (rfEnabled f) (tenantBuckets f) (globalDefault f)
    (if Z.leb iv 0 then (defaultCleanupSeconds * Second)%Z else iv).

Definition Observe (snap : FeatureSnapshot) (f : RateFeature) : RateFeature :=
  sweepIntervalFromGlobals
    (mkRateFeature (fsEnabled snap) (tenantBuckets f) (parseParams (fsParams snap)) (sweepInterval f)).

Definition ApplyTenants (tenantParams : gmap gostring params) (f : RateFeature) : RateFeature :=
  mkRateFeature (rfEnabled f) (newTenantState <$> tenantParams) (globalDefault f) (sweepInterval f).

Definition ApplyFromSnapshots (ts : gmap gostring TenantSnapshot) (f : RateFeature) : RateFeature :=
  ApplyTenants
    (omap (λ t, if tsEnabled t then
                  match tsFeatures t !! FeatureName with
                  | Some o => if fsEnabled o then Some (parseParams (fsParams o)) else None
                  | None => Some (globalDefault f)
                  end
                else None) ts) f.

Definition sweepAllTenants (now : time) (f : RateFeature) : RateFeature :=
  mkRateFeature (rfEnabled f) (sweep_state now <$> tenantBuckets f) (globalDefault f) (sweepInterval f).

Definition stateFor (f : RateFeature) (host : gostring) : option tenantState := tenantBuckets f !! host.

(** The state a request is checked against. *)
Definition limited (f : RateFeature) (ctx : Context) : option (gostring * tenantState) :=
  if negb (rfEnabled f) then None
  else match TenantFromContext ctx with
       | None => None
       | Some t => pair (tsHost t) <$> stateFor f (tsHost t)
       end.

Definition with_state (host : gostring) (st : tenantState) (f : RateFeature) : RateFeature :=
  mkRateFeature (rfEnabled f) (<[host := st]> (tenantBuckets f)) (globalDefault f) (sweepInterval f).

(** [Middleware] up to the handler: what the client gets instead of it, if
    anything. *)
Definition Middleware (f : RateFeature) (now : time) (hijack : bool) (cancelled : option duration)
    (ctx : Context) (r : Request) : RateFeature * option exceeded :=
  match limited f ctx with
  | None => (f, None)
  | Some (host, st) =>
      let '(st', ok) := serve_enter now r st in
      (with_state host st' f, if ok then None else Some (applyAction hijack cancelled (cfg st)))
  end.

End tenant.

(** * Budgets *)

Section budget.
Context {L : Type} `{RateLimiter L} `{GoUnicode}.

(** What happens to one tenant: arrivals and completions with their times,
    passes of the sweeper, and reloads that give the tenant the parameters it
    has. A request releases its connection in the state it entered with: after
    a reload ([stale]) that state is no longer the tenant's. *)
Inductive traffic :=
| Arrive (now : time) (r : Request)
| Depart (now : time) (r : Request) (stale : bool)
| Swept (now : time)
| Reloaded.

Definition traffic_step (st : @tenantState L) (x : traffic) : tenantState :=
  match x with
  | Arrive now r => (serve_enter now r st).1
  | Depart now r stale => if stale then st else serve_leave now r st
  | Swept now => sweep_state now st
  | Reloaded => newTenantState (cfg st)
  end.

(** The requests that reached the handler. *)
Fixpoint forwarded (st : @tenantState L) (h : list traffic) : list Request :=
  match h with
  | [] => []
  | x :: h' =>
      match x with
      | Arrive now r => if (serve_enter now r st).2 then [r] else []
      | _ => []
      end ++ forwarded (traffic_step st x) h'
  end.

Definition arrival_times (h : list traffic) : list time :=
  omap (λ x, match x with Arrive now _ => Some now | _ => None end) h.

(** The limiters of a tenant and the requests each one meters. *)
Inductive meter := MGlobal | MIP (ip : gostring) | MAPI (ip : gostring).

Definition metered (c : params) (m : meter) (r : Request) : bool :=
  match m with
  | MGlobal => true
  | MIP ip => negb (use_api r c) && bool_decide (clientIP r (TrustXFF c) = ip)
  | MAPI ip => use_api r c && bool_decide (clientIP r (TrustXFF c) = ip)
  end.

Definition meter_limiter (m : meter) (st : @tenantState L) : L :=
  match m with
  | MGlobal => globalLimiter st
  | MIP ip => match ipBuckets st !! ip with
              | Some v => limiter v
              | None => rl_new (PerIPRPS (cfg st)) (PerIPBurst (cfg st))
              end
  | MAPI ip => match apiBuckets st !! ip with
               | Some v => limiter v
               | None => rl_new (APIRPS (cfg st)) (APIBurst (cfg st))
               end
  end.

(** The rate and burst a meter was configured with. *)
Definition meter_rate (c : params) (m : meter) : float64 :=
  match m with MGlobal => GlobalRPS c | MIP _ => PerIPRPS c | MAPI _ => APIRPS c end.

Definition meter_burst (c : params) (m : meter) : Z :=
  match m with
  | MGlobal => Z.max 1 (Z.max (f64_to_int (GlobalRPS c)) (PerIPBurst c))
  | MIP _ => PerIPBurst c
  | MAPI _ => APIBurst c
  end.

Lemma release_meter m now ip st : meter_limiter m (release now ip st) = meter_limiter m st.
Proof. by destruct m. Qed.

Lemma acquire_meter m now ip st : meter_limiter m (acquire now ip st).1 = meter_limiter m st
  ∧ cfg (acquire now ip st).1 = cfg st.
Proof. unfold acquire. repeat case_match; by destruct m. Qed.

Lemma check_rate_cfg now r ip st : cfg (check_rate now r ip st).1 = cfg st.
Proof. unfold check_rate. repeat case_match; done. Qed.

(** The per-address check moves the limiter of its own meter only, and lets
    the request pass exactly when that limiter does. *)
Lemma check_rate_meter m now r ip st st' ok :
  check_rate now r ip st = (st', ok) → m ≠ MGlobal → ip = clientIP r (TrustXFF (cfg st)) →
  if metered (cfg st) m r then rl_allow now (meter_limiter m st) = (ok, meter_limiter m st')
  else meter_limiter m st' = meter_limiter m st.
Proof.
  unfold check_rate, bucket_allow. intros Hc Hm ->. destruct (use_api r (cfg st)) eqn:Hu.
  - destruct (rl_allow now _) as [ok' l'] eqn:Ha. simplify_eq/=. destruct m as [|ip|ip]; [done| |].
    + simpl. rewrite Hu. done.
    + simpl. rewrite Hu. cbn [andb]. destruct (bool_decide_reflect (clientIP r (TrustXFF (cfg st)) = ip)) as [<-|Hne].
      * by rewrite lookup_insert_eq, Ha.
      * by rewrite lookup_insert_ne.
  - destruct (rl_allow now _) as [ok' l'] eqn:Ha. simplify_eq/=. destruct m as [|ip|ip]; [done| |].
    + simpl. rewrite Hu. cbn [negb andb]. destruct (bool_decide_reflect (clientIP r (TrustXFF (cfg st)) = ip)) as [<-|Hne].
      * by rewrite lookup_insert_eq, Ha.
      * by rewrite lookup_insert_ne.
    + simpl. rewrite Hu. done.
Qed.

Lemma check_rate_global now r ip st :
  globalLimiter (check_rate now r ip st).1 = globalLimiter st.
Proof. unfold check_rate. repeat case_match; done. Qed.

(** One arrival, seen by one meter: its limiter stays, and no metered request
    passes, or it is asked once and a metered request passes only with its
    consent. *)
Lemma serve_enter_meter m now r st st' ok :
  serve_enter now r st = (st', ok) →
  cfg st' = cfg st ∧
  ((meter_limiter m st' = meter_limiter m st ∧ (metered (cfg st) m r && ok)%bool = false) ∨
   ∃ ok', rl_allow now (meter_limiter m st) = (ok', meter_limiter m st') ∧
          ((metered (cfg st) m r && ok)%bool = true → ok' = true)).
Proof.
  unfold serve_enter. destruct (rl_allow now (globalLimiter st)) as [okg g] eqn:Hg.
  set (st0 := mktenantState _ _ _ _ g).
  assert (Hm0 : ∀ m, m ≠ MGlobal → meter_limiter m st0 = meter_limiter m st) by (by intros []).
  destruct okg; cbn [negb].
  2: { intros [= <- <-]. split; [done|]. rewrite andb_false_r. destruct m; [right|left; done..].
       exists false. done. }
  pose proof (acquire_meter m now (clientIP r (TrustXFF (cfg st0))) st0) as [Hacq Hcfg].
  destruct (acquire now _ st0) as [st1 okc]. cbn [fst] in Hacq, Hcfg.
  destruct okc; cbn [negb].
  2: { intros [= <- <-]. split; [done|]. rewrite andb_false_r. destruct m; [right|left; by rewrite Hacq, Hm0..].
       exists true. simpl in *. by rewrite Hacq. }
  destruct (check_rate now r _ st1) as [st2 okr] eqn:Hc.
  pose proof (check_rate_global now r (clientIP r (TrustXFF (cfg st0))) st1) as Hcg.
  pose proof (check_rate_cfg now r (clientIP r (TrustXFF (cfg st0))) st1) as Hcc.
  rewrite Hc in Hcg, Hcc. cbn [fst] in Hcg, Hcc.
  assert (Hfin : ∃ st3, (if okr then (st2, true)
      else (if Z.leb (PerIPConns (cfg st2)) 0 then st2
            else release now (clientIP r (TrustXFF (cfg st0))) st2, false)) = (st3, okr) ∧
      meter_limiter m st3 = meter_limiter m st2 ∧ cfg st3 = cfg st2).
  { destruct okr; [by eexists|]. destruct (Z.leb _ 0); by eexists. }
  destruct Hfin as (st3 & -> & Hm3 & Hc3). intros [= <- <-]. split; [by rewrite Hc3, Hcc, Hcfg|].
  assert (m = MGlobal ∨ m ≠ MGlobal) as [->|Hne] by (destruct m; auto).
  - right. exists true. split; [|done]. rewrite Hm3. cbn [meter_limiter] in *. by rewrite Hcg, Hacq.
  - pose proof (check_rate_meter m now r _ st1 st2 okr Hc Hne) as Hmt.
    rewrite Hcfg in Hmt. specialize (Hmt eq_refl). rewrite Hm3. change (cfg st0) with (cfg st) in Hmt.
    destruct (metered (cfg st) m r).
    + right. exists okr. rewrite <- Hmt, Hacq, Hm0 by done. done.
    + left. rewrite Hmt, Hacq, Hm0 by done. done.
Qed.

Definition passed (c : params) (m : meter) (rs : list Request) : nat :=
  length (List.filter (metered c m) rs).

Lemma traffic_cfg st x : cfg (traffic_step st x) = cfg st.
Proof.
  destruct x as [now r|now r stale|now|]; simpl; [| |done|done].
  - destruct (serve_enter now r st) as [st' ok] eqn:He. by apply (serve_enter_meter MGlobal) in He as [? _].
  - destruct stale; [done|]. unfold serve_leave. by destruct (Z.leb _ _).
Qed.

(** The passes that may give a meter a new bucket. *)
Definition refills (m : meter) (x : traffic) : bool :=
  match x, m with
  | Reloaded, _ | Swept _, MIP _ | Swept _, MAPI _ => true
  | _, _ => false
  end.

Definition refill_count (m : meter) (h : list traffic) : Z := Z.of_nat (length (List.filter (refills m) h)).

Definition fresh_meter (p : params) (m : meter) : L := rl_new (meter_rate p m) (meter_burst p m).

Lemma new_meter p m : meter_limiter m (newTenantState p) = fresh_meter p m.
Proof.
  destruct m as [|ip|ip]; cbn [meter_limiter newTenantState globalLimiter ipBuckets apiBuckets cfg];
    [|by rewrite lookup_empty..].
  unfold newGlobalLimiter, fresh_meter. cbn [meter_rate meter_burst]. f_equal.
  destruct (Z.ltb_spec (f64_to_int (GlobalRPS p)) (PerIPBurst p));
    match goal with |- context [Z.ltb ?x 1] => destruct (Z.ltb_spec x 1) end; lia.
Qed.

Lemma sweep_bucket (cutoff : time) (b : gmap gostring (@visitor L)) (ip : gostring) :
  sweep cutoff b !! ip = b !! ip ∨ sweep cutoff b !! ip = None.
Proof.
  unfold sweep. destruct (filter _ b !! ip) as [v|] eqn:Hf; [left|by right].
  by apply map_lookup_filter_Some in Hf as [-> _].
Qed.

(** A step without an arrival leaves a meter's limiter or renews it, and
    renews it only where it may. *)
Lemma quiet_meter m st x :
  (∀ now r, x ≠ Arrive now r) →
  meter_limiter m (traffic_step st x) = meter_limiter m st ∨
  refills m x = true ∧ meter_limiter m (traffic_step st x) = fresh_meter (cfg st) m.
Proof.
  intros Hx. destruct x as [now r|now r stale|now|]; cbn [traffic_step]; [by destruct (Hx now r)|left|..].
  - destruct stale; [done|]. unfold serve_leave. destruct (Z.leb _ _); [done|]. apply release_meter.
  - set (cutoff := time_add now (dur_neg (idle_ttl (cfg st)))). unfold sweep_state. fold cutoff.
    destruct m as [|ip|ip]; cbn [meter_limiter ipBuckets apiBuckets globalLimiter cfg refills]; [by left|..].
    + destruct (sweep_bucket cutoff (ipBuckets st) ip) as [-> | ->]; [by left|by right].
    + destruct (sweep_bucket cutoff (apiBuckets st) ip) as [-> | ->]; [by left|by right].
  - right. split; [by destruct m|apply new_meter].
Qed.

(** At any time a meter's limiter has seen some of the arrivals. *)
Lemma meter_reached m p h :
  cfg (foldl traffic_step (newTenantState p) h) = p ∧
  ∃ past, past `sublist_of` arrival_times h ∧
    meter_limiter m (foldl traffic_step (newTenantState p) h) = after (fresh_meter p m) past.
Proof.
  induction h as [|x h IH] using rev_ind; [split; [done|]; exists []; split; [done|apply new_meter]|].
  destruct IH as (Hcfg & past & Hsub & Hm). rewrite foldl_app. cbn [foldl].
  set (st := foldl traffic_step (newTenantState p) h) in *. rewrite traffic_cfg. split; [done|].
  unfold arrival_times in *. rewrite omap_app.
  assert (Hskip : ∀ l, past `sublist_of` omap (λ x, match x with Arrive now _ => Some now | _ => None end) h ++ l)
    by (intros l; by apply sublist_inserts_r).
  destruct x as [now r|now r stale|now|].
  - cbn [traffic_step]. destruct (serve_enter now r st) as [st' ok] eqn:He. cbn [fst].
    apply (serve_enter_meter m) in He as [_ [[Hl _]|(ok' & Ha & _)]].
    + exists past. split; [apply Hskip|]. by rewrite Hl.
    + exists (past ++ [now]). split; [by apply sublist_app|]. unfold after. rewrite foldl_app. cbn [foldl].
      fold (after (fresh_meter p m) past). by rewrite <- Hm, Ha.
  - destruct (quiet_meter m st (Depart now r stale)) as [Hl|[_ Hl]]; [done|exists past|exists []]; rewrite Hl;
      (split; [first [apply Hskip|apply sublist_nil_l]|]); [done|by rewrite Hcfg].
  - destruct (quiet_meter m st (Swept now)) as [Hl|[_ Hl]]; [done|exists past|exists []]; rewrite Hl;
      (split; [first [apply Hskip|apply sublist_nil_l]|]); [done|by rewrite Hcfg].
  - destruct (quiet_meter m st Reloaded) as [Hl|[_ Hl]]; [done|exists past|exists []]; rewrite Hl;
      (split; [first [apply Hskip|apply sublist_nil_l]|]); [done|by rewrite Hcfg].
Qed.

Lemma sublist_sorted (ts ts' : list time) :
  ts `sublist_of` ts' → StronglySorted Z.le ts' → StronglySorted Z.le ts.
Proof.
  induction 1 as [|x l1 l2 Hl IH|x l1 l2 Hl IH]; intros Hs; [done| |]; inversion Hs as [|?? Hs' Hf]; subst.
  - constructor; [by apply IH|]. rewrite Forall_forall in Hf |- *. intros y Hy. apply Hf.
    by eapply elem_of_sublist.
  - by apply IH.
Qed.

Lemma sublist_Forall {A} (P : A → Prop) (l k : list A) : l `sublist_of` k → Forall P k → Forall P l.
Proof. rewrite !Forall_forall. intros Hsub Hk x Hx. apply Hk. by eapply elem_of_sublist. Qed.

Context `{!RateLimiterLaws L}.

Lemma fresh_bound p m t0 d ts :
  StronglySorted Z.le ts → Forall (λ t, t0 ≤ t ≤ t0 + d)%Z ts →
  (0 ≤ Z.of_nat (allowed (fresh_meter p m) ts) ≤ rl_budget (meter_rate p m) (meter_burst p m) d)%Z.
Proof. intros Hs Hf. split; [lia|]. by apply (rl_bound _ _ [] t0). Qed.

(** What a meter's requests got through is what its limiter alone would have
    let through of some of the arrivals, and a budget for every new bucket. *)
Lemma forwarded_allowed m t0 d h st :
  StronglySorted Z.le (arrival_times h) → Forall (λ t, t0 ≤ t ≤ t0 + d)%Z (arrival_times h) →
  ∃ ts, ts `sublist_of` arrival_times h ∧
    (Z.of_nat (passed (cfg st) m (forwarded st h))
     ≤ Z.of_nat (allowed (meter_limiter m st) ts) +
       refill_count m h * rl_budget (meter_rate (cfg st) m) (meter_burst (cfg st) m) d)%Z.
Proof.
  revert st. induction h as [|x h IH]; intros st Hs Hf; [by exists []|].
  set (B := rl_budget (meter_rate (cfg st) m) (meter_burst (cfg st) m) d) in *.
  assert (HB : (0 ≤ B)%Z) by (pose proof (fresh_bound (cfg st) m t0 d [] ltac:(constructor) ltac:(constructor)); lia).
  assert (Hsub0 : arrival_times h `sublist_of` arrival_times (x :: h)).
  { unfold arrival_times. destruct x; cbn [omap list_omap]; [by apply sublist_cons|done..]. }
  destruct (IH (traffic_step st x) (sublist_sorted _ _ Hsub0 Hs) (sublist_Forall _ _ _ Hsub0 Hf)) as (ts & Hsub & Hle).
  rewrite traffic_cfg in Hle. fold B in Hle.
  assert (Hcount : (refill_count m (x :: h) = (if refills m x then 1 else 0) + refill_count m h)%Z).
  { unfold refill_count. cbn [List.filter]. destruct (refills m x); cbn [length]; lia. }
  rewrite Hcount. unfold passed in *. cbn [forwarded]. rewrite List.filter_app, length_app.
  assert (Hquiet : (∀ now r, x ≠ Arrive now r) → ∃ ts0, ts0 `sublist_of` arrival_times (x :: h) ∧
    (Z.of_nat (length (List.filter (metered (cfg st) m) (forwarded (traffic_step st x) h)))
     ≤ Z.of_nat (allowed (meter_limiter m st) ts0) + ((if refills m x then 1 else 0) + refill_count m h) * B)%Z).
  { intros Hx. destruct (quiet_meter m st x Hx) as [Hl|[Hr Hl]]; rewrite Hl in Hle.
    - exists ts. split; [by etrans|]. destruct (refills m x); lia.
    - exists []. split; [apply sublist_nil_l|]. rewrite Hr. cbn [allowed].
      pose proof (fresh_bound (cfg st) m t0 d ts (sublist_sorted _ _ (transitivity Hsub Hsub0) Hs)
        (sublist_Forall _ _ _ (transitivity Hsub Hsub0) Hf)) as Hfb. fold B in Hfb. lia. }
  destruct x as [now r| | |]; [|by apply Hquiet..]. clear Hquiet. cbn [refills traffic_step] in *.
  destruct (serve_enter now r st) as [st' ok] eqn:He. cbn [fst snd] in *.
  apply (serve_enter_meter m) in He as [_ [[Hl Hp]|(ok' & Ha & Hp)]].
  - exists ts. split; [by etrans|]. rewrite Hl in Hle.
    destruct ok; simpl in *; [rewrite andb_true_r in Hp; rewrite Hp|]; simpl; lia.
  - exists (now :: ts). split; [by constructor|]. cbn [allowed]. rewrite Ha.
    destruct ok; simpl in *; [|destruct ok'; lia].
    destruct (metered (cfg st) m r); simpl in *; [rewrite Hp by done|destruct ok']; lia.
Qed.

Lemma meter_budget m p h0 h t0 d :
  StronglySorted Z.le (arrival_times (h0 ++ h)) → Forall (λ t, t0 ≤ t ≤ t0 + d)%Z (arrival_times h) →
  (Z.of_nat (passed p m (forwarded (foldl traffic_step (newTenantState p) h0) h))
   ≤ (1 + refill_count m h) * rl_budget (meter_rate p m) (meter_burst p m) d)%Z.
Proof.
  unfold arrival_times. rewrite omap_app. fold (arrival_times h0) (arrival_times h). intros Hs Hf.
  destruct (meter_reached m p h0) as (Hcfg & past & Hpast & Hm).
  set (st := foldl traffic_step (newTenantState p) h0) in *.
  destruct (forwarded_allowed m t0 d h st) as (ts & Hsub & Hle); [|done|].
  { eapply sublist_sorted, Hs. by apply sublist_inserts_l. }
  rewrite Hcfg, Hm in Hle. pose proof (rl_bound (meter_rate p m) (meter_burst p m) past t0 d ts) as Hb.
  unfold fresh_meter in Hle. rewrite Z.mul_add_distr_r. etrans; [exact Hle|]. apply Z.add_le_mono_r.
  rewrite Z.mul_1_l. apply Hb; [eapply sublist_sorted, Hs; by apply sublist_app|by eapply sublist_Forall].
Qed.


End budget.

(** * The connection cap under concurrency *)

(** Requests from one address run [serve] at the same time. The model follows
    each of them through [getConnTracker] and the compare-and-swap loop, one
    shared access per step, and the sweeper through its check and its delete. *)
Module ConnCap.

Inductive conn_pc :=
| Start
| Missed
| Got (id : nat)
| Loop (id : nat)
| Loaded (id : nat) (cur : Z)
| Serving (id : nat)
| Leaving (id : nat)
| Rejected
| Done.

#[global] Instance conn_pc_eq_dec : EqDecision conn_pc.
Proof. solve_decision. Defined.

(** The address's entry in [connCounts], the trackers ever allocated, the
    requests, and whether the sweeper is about to delete the entry. *)
Record config := mkconfig {
  entry : option nat;
  trackers : gmap nat connTracker;
  threads : list conn_pc;
  sweeping : bool
}.

(** What a step means for progress: a count was changed by a request, or a
    compare-and-swap failed. *)
Inductive label := LTau | LWrite (t : nat) | LFail (t : nat) | LSweep.

Definition set_pc (t : nat) (p : conn_pc) (s : config) : config :=
  mkconfig (entry s) (trackers s) (<[t := p]> (threads s)) (sweeping s).

Definition set_tracker (id : nat) (ct : connTracker) (s : config) : config :=
  mkconfig (entry s) (<[id := ct]> (trackers s)) (threads s) (sweeping s).

Inductive conn_step (cap : Z) (s : config) : label → config → Prop :=
| s_load_hit t id :
    threads s !! t = Some Start → entry s = Some id → conn_step cap s LTau (set_pc t (Got id) s)
| s_load_miss t :
    threads s !! t = Some Start → entry s = None → conn_step cap s LTau (set_pc t Missed s)
| s_store_loaded t id :
    threads s !! t = Some Missed → entry s = Some id → conn_step cap s LTau (set_pc t (Got id) s)
| s_store_new t id now :
    threads s !! t = Some Missed → entry s = None → trackers s !! id = None →
    conn_step cap s LTau
      (mkconfig (Some id) (<[id := mkconnTracker 0 (UnixNano now)]> (trackers s))
                (<[t := Got id]> (threads s)) (sweeping s))
| s_touch t id ct now :
    threads s !! t = Some (Got id) → trackers s !! id = Some ct →
    conn_step cap s LTau (set_pc t (Loop id) (set_tracker id (mkconnTracker (ctCount ct) (UnixNano now)) s))
| s_read t id ct :
    threads s !! t = Some (Loop id) → trackers s !! id = Some ct →
    conn_step cap s LTau (set_pc t (Loaded id (ctCount ct)) s)
| s_reject t id cur :
    threads s !! t = Some (Loaded id cur) → (cap ≤ cur)%Z → conn_step cap s LTau (set_pc t Rejected s)
| s_cas_ok t id cur ct :
    threads s !! t = Some (Loaded id cur) → (cur < cap)%Z →
    trackers s !! id = Some ct → ctCount ct = cur →
    conn_step cap s (LWrite t)
      (set_pc t (Serving id) (set_tracker id (mkconnTracker (cur + 1) (ctLastSeen ct)) s))
| s_cas_fail t id cur ct :
    threads s !! t = Some (Loaded id cur) → (cur < cap)%Z →
    trackers s !! id = Some ct → ctCount ct ≠ cur →
    conn_step cap s (LFail t) (set_pc t (Loop id) s)
| s_leave t id ct :
    threads s !! t = Some (Serving id) → trackers s !! id = Some ct →
    conn_step cap s (LWrite t)
      (set_pc t (Leaving id) (set_tracker id (mkconnTracker (ctCount ct - 1) (ctLastSeen ct)) s))
| s_leave_touch t id ct now :
    threads s !! t = Some (Leaving id) → trackers s !! id = Some ct →
    conn_step cap s LTau (set_pc t Done (set_tracker id (mkconnTracker (ctCount ct) (UnixNano now)) s))
| s_sweep_check id ct cutoff :
    entry s = Some id → trackers s !! id = Some ct → ctCount ct = 0%Z →
    (ctLastSeen ct < UnixNano cutoff)%Z →
    conn_step cap s LSweep (mkconfig (entry s) (trackers s) (threads s) true)
| s_sweep_delete :
    sweeping s = true → conn_step cap s LSweep (mkconfig None (trackers s) (threads s) false).

Inductive exec (cap : Z) (s : config) : list label → config → Prop :=
| exec_nil : exec cap s [] s
| exec_snoc ls l s1 s2 : exec cap s ls s1 → conn_step cap s1 l s2 → exec cap s (ls ++ [l]) s2.

(** A tenant's first [n] requests from an address, or [n] requests to an idle
    tracker. *)
Definition init (n : nat) : config := mkconfig None ∅ (replicate n Start) false.
Definition init_idle (n : nat) (lastSeen : Z) : config :=
  mkconfig (Some 0) {[ 0 := mkconnTracker 0 lastSeen ]} (replicate n Start) false.

(** * Counting requests *)

Definition is_serving (p : conn_pc) : bool := match p with Serving _ => true | _ => false end.

Definition sum_pc (f : conn_pc → Z) (l : list conn_pc) : Z := foldr (λ p acc, f p + acc)%Z 0%Z l.

Lemma sum_pc_insert f l t p q :
  l !! t = Some q → (sum_pc f (<[t := p]> l) = sum_pc f l - f q + f p)%Z.
Proof.
  revert t; induction l as [|x l IH]; intros [|t] Hl; simpl in *; simplify_eq; [lia|].
  rewrite (IH t) by done. lia.
Qed.

Definition serving (s : config) : Z := sum_pc (λ p, if is_serving p then 1%Z else 0%Z) (threads s).

(** The tracker a request refers to. *)
Definition refers (p : conn_pc) : option nat :=
  match p with
  | Got id | Loop id | Loaded id _ | Serving id | Leaving id => Some id
  | _ => None
  end.

(** Without sweeping there is one tracker, and its count is the number of
    requests in service. *)
Definition cap_inv (cap : Z) (s : config) : Prop :=
  sweeping s = false ∧
  (∀ t p id, threads s !! t = Some p → refers p = Some id → entry s = Some id) ∧
  match entry s with
  | Some id => ∃ ct, trackers s !! id = Some ct ∧ ctCount ct = serving s
  | None => serving s = 0%Z
  end ∧ (serving s ≤ cap)%Z.

Lemma serving_set t p q s :
  threads s !! t = Some q →
  (serving (set_pc t p s)
   = serving s - (if is_serving q then 1 else 0) + (if is_serving p then 1 else 0))%Z.
Proof. intros Ht. unfold serving. simpl. by rewrite (sum_pc_insert _ _ _ _ _ Ht). Qed.

(** A move that keeps the service count and refers to nothing new. *)
Lemma cap_inv_move cap s t p q :
  cap_inv cap s → threads s !! t = Some q → is_serving p = is_serving q →
  (∀ id, refers p = Some id → entry s = Some id) → cap_inv cap (set_pc t p s).
Proof.
  intros (Hsw & Href & Hent & Hle) Ht Hp Hr. pose proof (serving_set t p q s Ht) as Hs.
  rewrite Hp in Hs. assert (Hs' : serving (set_pc t p s) = serving s) by lia.
  split_and!; [done| |by rewrite Hs'|by rewrite Hs'].
  intros t' p' id. simpl. destruct (decide (t = t')) as [<-|Hne].
  - rewrite list_lookup_insert_eq by (by apply lookup_lt_Some in Ht). intros [= <-]. apply Hr.
  - rewrite list_lookup_insert_ne by done. apply Href.
Qed.

Lemma cap_inv_touch cap s id ct now :
  cap_inv cap s → trackers s !! id = Some ct →
  cap_inv cap (set_tracker id (mkconnTracker (ctCount ct) now) s).
Proof.
  intros (Hsw & Href & Hent & Hle) Hct. split_and!; [done..| |done].
  change (serving (set_tracker _ _ s)) with (serving s). simpl.
  destruct (entry s) as [id'|]; [|done]. destruct Hent as (ct' & Hct' & Hc).
  destruct (decide (id = id')) as [<-|Hne].
  - rewrite lookup_insert_eq. simplify_eq. eauto.
  - rewrite lookup_insert_ne by done. eauto.
Qed.

(** A request changes the count of its tracker by what it changes the number
    of requests in service. *)
Lemma cap_inv_write cap s t id p q ct n :
  cap_inv cap s → threads s !! t = Some q → refers q = Some id → refers p = Some id →
  trackers s !! id = Some ct →
  (n = ctCount ct - (if is_serving q then 1 else 0) + (if is_serving p then 1 else 0))%Z → (n ≤ cap)%Z →
  cap_inv cap (set_pc t p (set_tracker id (mkconnTracker n (ctLastSeen ct)) s)).
Proof.
  intros (Hsw & Href & Hent & Hle) Ht Hq Hp Hct Hn Hcap.
  assert (entry s = Some id) as He by (by eapply Href). rewrite He in Hent.
  destruct Hent as (ct' & Hct' & Hcnt). simplify_eq.
  set (s1 := set_tracker _ _ s). pose proof (serving_set t p _ s1 Ht) as Hs.
  change (serving s1) with (serving s) in Hs.
  split_and!; [done| | |lia].
  - intros t' p' id'. simpl. destruct (decide (t = t')) as [<-|Hne].
    + rewrite list_lookup_insert_eq by (by apply lookup_lt_Some in Ht). intros [= <-]. congruence.
    + rewrite list_lookup_insert_ne by done. apply Href.
  - cbn [entry set_pc s1 set_tracker trackers]. rewrite He. eexists. rewrite lookup_insert_eq.
    split; [done|]. cbn [ctCount]. change (serving _) with (serving (set_pc t p s1)). lia.
Qed.

(** The first request allocates the tracker. *)
Lemma cap_inv_alloc cap s t id now :
  cap_inv cap s → threads s !! t = Some Missed → entry s = None →
  cap_inv cap (mkconfig (Some id) (<[id := mkconnTracker 0 now]> (trackers s))
                        (<[t := Got id]> (threads s)) (sweeping s)).
Proof.
  intros (Hsw & Href & Hent & Hle) Ht He. rewrite He in Hent, Href.
  pose proof (serving_set t (Got id) _ s Ht) as Hs. simpl in Hs.
  assert (Hs' : ∀ e tr sw, serving (mkconfig e tr (<[t := Got id]> (threads s)) sw) = 0%Z).
  { intros e tr sw. change (serving _) with (serving (set_pc t (Got id) s)). lia. }
  split_and!; [done| | |by rewrite Hs'; lia].
  - intros t' p' id' Ht' Hr. simpl in *. destruct (decide (t = t')) as [<-|Hne].
    + rewrite list_lookup_insert_eq in Ht' by (by apply lookup_lt_Some in Ht). by simplify_eq/=.
    + rewrite list_lookup_insert_ne in Ht' by done. by eapply Href in Hr.
  - cbn [entry trackers]. eexists. rewrite lookup_insert_eq. split; [done|]. by rewrite Hs'.
Qed.

Lemma step_cap_inv cap s l s' :
  conn_step cap s l s' → l ≠ LSweep → cap_inv cap s → cap_inv cap s'.
Proof.
  intros Hstep Hl Hinv. pose proof Hinv as (_ & Href & _ & Hle).
  destruct Hstep as [t id Ht He|t Ht He|t id Ht He|t id now Ht He Hf|t id ct now Ht Hct|t id ct Ht Hct
    |t id cur Ht Hc|t id cur ct Ht Hc Hct Heq|t id cur ct Ht Hc Hct Hne|t id ct Ht Hct|t id ct now Ht Hct
    |id ct cutoff He Hct Hz Hlt|Hs]; try done;
    try (by eapply cap_inv_move);
    try (eapply cap_inv_move; [done..|]; intros ? [= <-]; first [done|by eapply Href]).
  - by apply cap_inv_alloc.
  - eapply cap_inv_move; [by apply cap_inv_touch|done..|]. intros ? [= <-]. by eapply Href.
  - eapply cap_inv_write; [done..| |]; simpl; lia.
  - destruct Hinv as (Hsw & Href' & Hent & Hle'). assert (entry s = Some id) as He by (by eapply Href).
    pose proof Hent as Hent'. rewrite He in Hent'. destruct Hent' as (ct' & Hct' & Hcnt). simplify_eq.
    eapply cap_inv_write; [|done..| |]; [|simpl; lia..].
    split_and!; [done..| |done]. by rewrite He; eexists.
  - eapply cap_inv_move; [by apply cap_inv_touch|done..].
Qed.

Definition no_sweep (l : label) : Prop := l ≠ LSweep.

Lemma serving_replicate n : sum_pc (λ p, if is_serving p then 1%Z else 0%Z) (replicate n Start) = 0%Z.
Proof. induction n; simpl; lia. Qed.

Lemma init_inv cap n : (0 ≤ cap)%Z → cap_inv cap (init n).
Proof.
  intros Hc. pose proof (serving_replicate n) as Hs. split_and!; try done.
  - intros t p id Ht. apply lookup_replicate in Ht as [-> _]. done.
  - unfold serving, init. cbn [threads]. lia.
Qed.

(** The compare-and-swap loop enforces the cap on concurrent connections:
    however the requests of one address interleave, as long as the sweeper
    does not run, at most [cap] of them are in service at any moment, and the
    count in the tracker is their number. *)
Theorem conn_cap_safe cap n ls s :
  (0 ≤ cap)%Z → exec cap (init n) ls s → Forall no_sweep ls →
  (serving s ≤ cap)%Z ∧
  ∀ id ct, entry s = Some id → trackers s !! id = Some ct → ctCount ct = serving s.
Proof.
  intros Hcap Hex Hls. assert (Hinv : cap_inv cap s).
  { induction Hex as [|ls l s1 s2 Hex IH Hst]; [by apply init_inv|].
    apply Forall_app in Hls as [Hls Hl]. apply Forall_cons in Hl as [Hl _].
    eapply step_cap_inv; eauto. }
  destruct Hinv as (_ & _ & Hent & Hle). split; [done|]. intros id ct He Hct. rewrite He in Hent.
  destruct Hent as (ct' & Hct' & <-). by simplify_eq.
Qed.

Lemma exec_cons cap s l s1 ls s2 : conn_step cap s l s1 → exec cap s1 ls s2 → exec cap s (l :: ls) s2.
Proof.
  intros Hst Hex. induction Hex as [|ls l' s2 s3 Hex IH Hst'].
  - apply (exec_snoc _ _ [] _ s); [constructor|done].
  - change (l :: ls ++ [l']) with ((l :: ls) ++ [l']). by eapply exec_snoc.
Qed.

(** The sweeper can break the cap. It deletes an idle tracker that a
    request has already looked up but not yet touched; that request counts on
    the forgotten tracker while the next one allocates a fresh one. With a cap
    of one, two requests of one address end up in service together. *)
Theorem conn_cap_sweep_race (lastSeen : Z) (cutoff now : time) :
  (lastSeen < UnixNano cutoff)%Z →
  ∃ ls s, exec 1 (init_idle 2 lastSeen) ls s ∧ serving s = 2%Z.
Proof.
  intros Hlt. eexists _, _. split.
  - eapply exec_cons; [eapply (s_load_hit _ _ 0); reflexivity|].
    eapply exec_cons; [eapply (s_sweep_check _ _ 0 _ cutoff); [reflexivity..|exact Hlt]|].
    eapply exec_cons; [by apply s_sweep_delete|].
    eapply exec_cons; [eapply (s_touch _ _ 0 0 _ now); reflexivity|].
    eapply exec_cons; [eapply (s_read _ _ 0); reflexivity|].
    eapply exec_cons; [eapply (s_cas_ok _ _ 0); [reflexivity|done|reflexivity..]|].
    eapply exec_cons; [eapply (s_load_miss _ _ 1); reflexivity|].
    eapply exec_cons; [eapply (s_store_new _ _ 1 1 now); reflexivity|].
    eapply exec_cons; [eapply (s_touch _ _ 1 1 _ now); reflexivity|].
    eapply exec_cons; [eapply (s_read _ _ 1); reflexivity|].
    eapply exec_cons; [eapply (s_cas_ok _ _ 1); [reflexivity|done|reflexivity..]|]. apply exec_nil.
  - reflexivity.
Qed.

(** * The loop terminates *)

(** The count changes a request has made at each point. *)
Definition writes_at (p : conn_pc) : Z :=
  match p with Serving _ => 1 | Leaving _ | Done => 2 | _ => 0 end%Z.

Definition is_write (l : label) : bool := match l with LWrite _ => true | _ => false end.
Definition is_fail (t : nat) (l : label) : bool :=
  match l with LFail t' => bool_decide (t = t') | _ => false end.
Definition is_write_of (t : nat) (l : label) : bool :=
  match l with LWrite t' => bool_decide (t = t') | _ => false end.

Definition count (f : label → bool) (ls : list label) : Z := Z.of_nat (length (List.filter f ls)).

Lemma count_snoc f ls l : (count f (ls ++ [l]) = count f ls + if f l then 1 else 0)%Z.
Proof. unfold count. rewrite List.filter_app, length_app. simpl. destruct (f l); simpl; lia. Qed.

(** Failed swaps of a request, and the count changes of the others. *)
Definition fails (t : nat) (ls : list label) : Z := count (is_fail t) ls.
Definition others (t : nat) (ls : list label) : Z := (count is_write ls - count (is_write_of t) ls)%Z.

Definition progress_inv (t : nat) (ls : list label) (s : config) : Prop :=
  count is_write ls = sum_pc writes_at (threads s) ∧
  (∀ p, threads s !! t = Some p → count (is_write_of t) ls = writes_at p) ∧
  (fails t ls ≤ others t ls)%Z ∧
  (∀ id cur, threads s !! t = Some (Loaded id cur) → fails t ls = others t ls →
     ∃ ct, trackers s !! id = Some ct ∧ ctCount ct = cur).

(** Counts of existing trackers are kept. *)
Definition same_counts (tr tr' : gmap nat connTracker) : Prop :=
  ∀ id ct, tr !! id = Some ct → ∃ ct', tr' !! id = Some ct' ∧ ctCount ct' = ctCount ct.

Definition loaded_ok (p : conn_pc) (tr : gmap nat connTracker) : Prop :=
  match p with Loaded id cur => ∃ ct, tr !! id = Some ct ∧ ctCount ct = cur | _ => True end.

(** Steps by their effect: a request moves without touching a count, changes a
    count, or fails a swap because its value is out of date; or the sweeper moves. *)
Inductive effect (s s' : config) : label → Prop :=
| e_move t q p :
    threads s !! t = Some q → threads s' = <[t := p]> (threads s) → writes_at p = writes_at q →
    same_counts (trackers s) (trackers s') → loaded_ok p (trackers s') → effect s s' LTau
| e_write t q p :
    threads s !! t = Some q → threads s' = <[t := p]> (threads s) →
    writes_at p = (writes_at q + 1)%Z → (∀ id cur, p ≠ Loaded id cur) → effect s s' (LWrite t)
| e_fail t id cur ct :
    threads s !! t = Some (Loaded id cur) → threads s' = <[t := Loop id]> (threads s) →
    trackers s' = trackers s → trackers s !! id = Some ct → ctCount ct ≠ cur → effect s s' (LFail t)
| e_sweep : threads s' = threads s → trackers s' = trackers s → effect s s' LSweep.

Lemma same_counts_refl tr : same_counts tr tr.
Proof. intros id ct Hct. eauto. Qed.

Lemma same_counts_touch tr id ct now :
  tr !! id = Some ct → same_counts tr (<[id := mkconnTracker (ctCount ct) now]> tr).
Proof.
  intros Hct id' ct' Hct'. destruct (decide (id = id')) as [<-|Hne].
  - rewrite lookup_insert_eq. simplify_eq. eauto.
  - rewrite lookup_insert_ne by done. eauto.
Qed.

Lemma same_counts_alloc tr id ct : tr !! id = None → same_counts tr (<[id := ct]> tr).
Proof.
  intros Hn id' ct' Hct'. exists ct'. split; [|done]. rewrite lookup_insert_ne; [done|]. congruence.
Qed.

Lemma step_effect cap s l s' : conn_step cap s l s' → effect s s' l.
Proof.
  destruct 1 as [t id Ht He|t Ht He|t id Ht He|t id now Ht He Hf|t id ct now Ht Hct|t id ct Ht Hct
    |t id cur Ht Hc|t id cur ct Ht Hc Hct Heq|t id cur ct Ht Hc Hct Hne|t id ct Ht Hct|t id ct now Ht Hct
    |id ct cutoff He Hct Hz Hlt|Hs];
    try (eapply e_move; [done..|apply same_counts_refl|simpl; eauto]);
    try (eapply e_move; [done..|by apply same_counts_touch|done]);
    try (by eapply e_write); try (by eapply e_fail); try by apply e_sweep.
  eapply e_move; [done..|by apply same_counts_alloc|done].
Qed.

Lemma others_snoc t ls l :
  others t (ls ++ [l]) = (others t ls + match l with LWrite u => if decide (t = u) then 0 else 1 | _ => 0 end)%Z.
Proof.
  unfold others. rewrite !count_snoc. destruct l as [|u|u|]; simpl; [lia| |lia..].
  destruct (decide (t = u)); [rewrite bool_decide_eq_true_2|rewrite bool_decide_eq_false_2]; try done; lia.
Qed.

Lemma cas_fails_snoc t ls l :
  fails t (ls ++ [l]) = (fails t ls + match l with LFail u => if decide (t = u) then 1 else 0 | _ => 0 end)%Z.
Proof.
  unfold fails. rewrite count_snoc. destruct l as [|u|u|]; simpl; try lia.
  destruct (decide (t = u)); [rewrite bool_decide_eq_true_2|rewrite bool_decide_eq_false_2]; try done; lia.
Qed.

Lemma lookup_updated (l : list conn_pc) u t p q r :
  l !! u = Some q → <[u := p]> l !! t = Some r → (t = u ∧ r = p) ∨ (t ≠ u ∧ l !! t = Some r).
Proof.
  intros Hu. destruct (decide (u = t)) as [<-|Hne].
  - rewrite list_lookup_insert_eq by (by apply lookup_lt_Some in Hu). intros [= <-]. auto.
  - rewrite list_lookup_insert_ne by done. auto.
Qed.

Lemma progress_step t cap ls s l s' :
  conn_step cap s l s' → progress_inv t ls s → progress_inv t (ls ++ [l]) s'.
Proof.
  intros Hst%step_effect (Hsum & Hown & Hle & Hld).
  assert (Hwr : count is_write (ls ++ [l]) = sum_pc writes_at (threads s')).
  { rewrite count_snoc. destruct Hst as [u q p Hu -> Hw _ _|u q p Hu -> Hw _|u id cur ct Hu -> _ _ _| -> _];
      simpl; try rewrite (sum_pc_insert _ _ _ _ _ Hu); simpl in *; lia. }
  unfold progress_inv. rewrite cas_fails_snoc, others_snoc, (count_snoc (is_write_of t)). split; [done|].
  destruct Hst as [u q p Hu Hth Hw Hsc Hlo|u q p Hu Hth Hw Hnl|u id cur ct Hu Hth Htr Hct Hne|Hth Htr];
    rewrite Hth.
  - split_and!; [|lia|].
    + intros r [[-> ->]|[_ Ht]]%(lookup_updated _ _ _ _ _ _ Hu); simpl; rewrite Z.add_0_r;
        [rewrite Hw|]; by apply Hown.
    + intros id cur [[-> <-]|[_ Ht]]%(lookup_updated _ _ _ _ _ _ Hu) Heq; [exact Hlo|].
      destruct (Hld id cur Ht) as (ct & Hct & <-); [lia|]. by apply Hsc.
  - split_and!; [|destruct (decide (t = u)); lia|].
    + intros r [[-> ->]|[Hn Ht]]%(lookup_updated _ _ _ _ _ _ Hu); simpl.
      * rewrite bool_decide_eq_true_2 by done. rewrite Hw. f_equal. by apply Hown.
      * rewrite bool_decide_eq_false_2 by done. rewrite Z.add_0_r. by apply Hown.
    + intros id cur [[-> <-]|[Hn Ht]]%(lookup_updated _ _ _ _ _ _ Hu); [by destruct (Hnl id cur)|].
      rewrite decide_False by done. lia.
  - assert (Hlt : t = u → (fails t ls < others t ls)%Z).
    { intros ->. destruct (decide (fails u ls = others u ls)) as [Heq|]; [|lia].
      destruct (Hld id cur Hu Heq) as (ct' & Hct' & <-). by simplify_eq. }
    split_and!; [|destruct (decide (t = u)) as [Ht|]; [specialize (Hlt Ht)|]; lia|].
    + intros r [[-> ->]|[_ Ht]]%(lookup_updated _ _ _ _ _ _ Hu); simpl; rewrite Z.add_0_r;
        [by rewrite (Hown _ Hu)|by apply Hown].
    + intros id' cur' [[-> ?]|[Hn Ht]]%(lookup_updated _ _ _ _ _ _ Hu) Heq; [done|].
      rewrite decide_False in Heq by done. rewrite Htr. apply (Hld _ _ Ht). lia.
  - split_and!; [|lia|].
    + intros p Hp. simpl. rewrite Z.add_0_r. by apply Hown.
    + intros id cur Ht Heq. rewrite Htr. apply (Hld _ _ Ht). lia.
Qed.

Lemma writes_bound l : (sum_pc writes_at l ≤ 2 * Z.of_nat (length l))%Z ∧ (0 ≤ sum_pc writes_at l)%Z.
Proof. induction l as [|p l IH]; simpl; [lia|]. destruct p; simpl; lia. Qed.

Lemma writes_bound_but t l p :
  l !! t = Some p → (sum_pc writes_at l - writes_at p ≤ 2 * (Z.of_nat (length l) - 1))%Z.
Proof.
  intros Ht. pose proof (sum_pc_insert writes_at l t Start p Ht) as Hs.
  revert t Ht Hs. induction l as [|q l IH]; intros [|t] Ht Hs; simpl in *; simplify_eq.
  - pose proof (writes_bound l). lia.
  - specialize (IH t Ht (sum_pc_insert _ _ _ _ _ Ht)). destruct q; simpl; lia.
Qed.

Lemma step_length cap s l s' : conn_step cap s l s' → length (threads s') = length (threads s).
Proof.
  intros [u q p _ Hth _ _ _|u q p _ Hth _ _|u id cur ct _ Hth _ _ _|Hth _]%step_effect;
    rewrite Hth, ?length_insert; done.
Qed.

(** Every tracker that is referred to exists. *)
Definition refs_ok (s : config) : Prop :=
  (∀ id, entry s = Some id → is_Some (trackers s !! id)) ∧
  (∀ t p id, threads s !! t = Some p → refers p = Some id → is_Some (trackers s !! id)).

Lemma refs_ok_update s s' t p q :
  refs_ok s → threads s !! t = Some q → threads s' = <[t := p]> (threads s) →
  (∀ id, is_Some (trackers s !! id) → is_Some (trackers s' !! id)) →
  (∀ id, entry s' = Some id → is_Some (trackers s' !! id)) →
  (∀ id, refers p = Some id → is_Some (trackers s' !! id)) → refs_ok s'.
Proof.
  intros [He Hr] Ht Hth Hmono Hent Hp. split; [done|]. intros t' p' id. rewrite Hth.
  intros [[-> ->]|[_ Ht']]%(lookup_updated _ _ _ _ _ _ Ht) Hrf; [by apply Hp|].
  apply Hmono. by eapply Hr.
Qed.

Lemma insert_is_Some (tr : gmap nat connTracker) id ct id' :
  is_Some (tr !! id') → is_Some (<[id := ct]> tr !! id').
Proof. intros Hs. destruct (decide (id = id')) as [<-|]; [rewrite lookup_insert_eq|rewrite lookup_insert_ne]; done. Qed.

Lemma step_refs cap s l s' : conn_step cap s l s' → refs_ok s → refs_ok s'.
Proof.
  intros Hst Hok. pose proof Hok as [He Hr].
  destruct Hst as [t id Ht Hen|t Ht Hen|t id Ht Hen|t id now Ht Hen Hf|t id ct now Ht Hct|t id ct Ht Hct
    |t id cur Ht Hc|t id cur ct Ht Hc Hct Heq|t id cur ct Ht Hc Hct Hne|t id ct Ht Hct|t id ct now Ht Hct
    |id ct cutoff Hen Hct Hz Hlt|Hs];
    try (eapply (refs_ok_update s); [done|done|reflexivity|simpl; auto using insert_is_Some..|]);
    try (by intros ? [= <-]; simpl; eauto using insert_is_Some);
    try (split; [done|]; by eauto).
  - intros ? [= <-]. simpl. by rewrite lookup_insert_eq.
  - intros ? [= <-]. simpl. by rewrite lookup_insert_eq.
Qed.

(** A request that is not finished can always take its next step. *)
Lemma thread_enabled cap s t p :
  refs_ok s → threads s !! t = Some p → p ≠ Rejected → p ≠ Done →
  ∃ l s' p', conn_step cap s l s' ∧ threads s' = <[t := p']> (threads s).
Proof.
  intros [He Hr] Ht Hn1 Hn2. pose proof (Hr t p) as Href.
  destruct p as [| |id|id|id cur|id|id| |]; try done.
  - destruct (entry s) as [id|] eqn:Hen; eexists _, _, _.
    + split; [by eapply s_load_hit|done].
    + split; [by eapply s_load_miss|done].
  - destruct (entry s) as [id|] eqn:Hen.
    + eexists _, _, _. split; [by eapply s_store_loaded|done].
    + assert (Hf : trackers s !! fresh (dom (trackers s)) = None)
        by (apply not_elem_of_dom, is_fresh).
      eexists _, _, _. split; [by eapply (s_store_new _ _ _ _ 0%Z)|done].
  - destruct (Href id Ht eq_refl) as [ct Hct]. eexists _, _, _. split; [by eapply (s_touch _ _ _ _ _ 0%Z)|done].
  - destruct (Href id Ht eq_refl) as [ct Hct]. eexists _, _, _. split; [by eapply s_read|done].
  - destruct (Href id Ht eq_refl) as [ct Hct]. destruct (decide (cap ≤ cur)%Z) as [|Hlt].
    + eexists _, _, _. split; [by eapply s_reject|done].
    + destruct (decide (ctCount ct = cur)); eexists _, _, _.
      * split; [eapply s_cas_ok; (done || lia)|done].
      * split; [eapply s_cas_fail; (done || lia)|done].
  - destruct (Href id Ht eq_refl) as [ct Hct]. eexists _, _, _. split; [by eapply s_leave|done].
  - destruct (Href id Ht eq_refl) as [ct Hct]. eexists _, _, _. split; [by eapply (s_leave_touch _ _ _ _ _ 0%Z)|done].
Qed.

Lemma init_progress t n : progress_inv t [] (init n).
Proof.
  split_and!.
  - simpl. induction n; simpl in *; [done|]. unfold count in *. simpl in *. lia.
  - intros p Hp%lookup_replicate. destruct Hp as [-> _]. done.
  - done.
  - intros id cur Ht%lookup_replicate. by destruct Ht.
Qed.

(** The compare-and-swap loop terminates: among [n] concurrent requests of
    one address, sweeper or not, a request's swap fails at most [2 (n - 1)]
    times, because each failure is paid for by a count change of another
    request, and every request makes at most two; and no request ever blocks:
    until it is rejected or done it can take its next step. *)
Theorem cas_loop_terminates cap n ls s t p :
  exec cap (init n) ls s → threads s !! t = Some p →
  (fails t ls ≤ 2 * (Z.of_nat n - 1))%Z ∧
  (p = Rejected ∨ p = Done ∨
   ∃ l s' p', conn_step cap s l s' ∧ threads s' = <[t := p']> (threads s)).
Proof.
  intros Hex Ht.
  assert (Hall : progress_inv t ls s ∧ refs_ok s ∧ length (threads s) = n).
  { clear p Ht. induction Hex as [|ls l s1 s2 Hex (IH1 & IH2 & IH3) Hst].
    - split_and!; [apply init_progress|split; [done|]|apply length_replicate].
      intros t' p id Hp%lookup_replicate. by destruct Hp as [-> _].
    - split_and!; [by eapply progress_step|by eapply step_refs|by erewrite step_length]. }
  destruct Hall as ((Hsum & Hown & Hle & _) & Hrefs & Hlen). split.
  - etrans; [exact Hle|]. unfold others. rewrite Hsum, (Hown p Ht), <- Hlen. by apply (writes_bound_but t).
  - destruct (decide (p = Rejected ∨ p = Done)) as [[?|?]|Hn]; [by auto..|]. right; right.
    apply (thread_enabled cap s t p); naive_solver.
Qed.

Lemma conn_cap_safe_witness :
  ∃ s, exec 1 (init 1) [LTau] s ∧ (serving s ≤ 1)%Z.
Proof.
  eexists. split.
  - apply (exec_cons _ _ _ (set_pc 0 Missed (init 1)));
      [by apply s_load_miss|apply exec_nil].
  - eapply (conn_cap_safe 1 1 [LTau]).
    + done.
    + apply (exec_cons _ _ _ (set_pc 0 Missed (init 1)));
        [by apply s_load_miss|apply exec_nil].
    + by repeat constructor.
Defined.

Lemma conn_cap_sweep_race_witness :
  ∃ ls s, exec 1 (init_idle 2 0) ls s ∧ serving s = 2%Z.
Proof. apply (conn_cap_sweep_race 0 100 101). vm_compute. reflexivity. Defined.

Lemma cas_loop_terminates_witness : (fails 0 [] ≤ 2 * (Z.of_nat 3 - 1))%Z.
Proof.
  apply (cas_loop_terminates 1 3 [] (init 3) 0 Start);
    [apply exec_nil|reflexivity].
Defined.

End ConnCap.

(** * Concrete instances *)

(** A bucket that is never refilled. *)
#[local] Instance rx_limiter : RateLimiter Z := {
  rl_new _ b := b;
  rl_allow _ l := if Z.ltb 0 l then (true, (l - 1)%Z) else (false, l);
  rl_budget _ b _ := Z.max 0 b
}.

#[local] Instance rx_limiter_laws : RateLimiterLaws Z.
Proof.
  assert (Hnow : ∀ ts b, (Z.of_nat (allowed (b : Z) ts) ≤ Z.max 0 b)%Z).
  { induction ts as [|t ts IH]; intros b; [simpl; lia|]. cbn [allowed rl_allow rx_limiter].
    destruct (Z.ltb_spec 0 b); [specialize (IH (b - 1)%Z)|specialize (IH b)]; lia. }
  assert (Hpast : ∀ past b, (after (b : Z) past ≤ Z.max 0 b)%Z).
  { induction past as [|t past IH]; intros b; [unfold after; cbn [foldl]; lia|].
    change (after b (t :: past)) with (after (rl_allow t b).2 past). cbn [rl_allow rx_limiter].
    destruct (Z.ltb_spec 0 b); cbn [snd]; [specialize (IH (b - 1)%Z)|specialize (IH b)]; lia. }
  split. intros r b past t0 d ts _ _. cbn [rl_new rl_budget rx_limiter].
  specialize (Hnow ts (after b past)). specialize (Hpast past b). lia.
Qed.

#[local] Instance rx_unicode : GoUnicode := {|
  unicode_lower s := s; unicode_upper s := s; unicode_trim s := s |}.

Definition rx_params : params :=
  parseParams {[ $"per_ip_burst" := JInt 2; $"per_ip_conns" := JInt 10 ]}.
Definition rx_req : Request := mkRequest MethodGet $"/" [] [] $"a.example" $"10.0.0.1:1" ∅ ∅.
Definition rx_traffic : list traffic :=
  [Arrive 1 rx_req; Depart 1 rx_req false; Swept 1; Arrive 2 rx_req; Arrive 2 rx_req; Arrive 2 rx_req].

