(* ===== verification/Config.v ===== *)
(** The static configuration (src/internal/config/config.go): its sections,
    the defaults and the validation [Load] applies to a decoded file, and what
    a loaded configuration guarantees to the lockout, the sessions and the Tor
    pool. Reading the file and decoding YAML are inputs. *)

From S2P Require Import Prelude Float HubRegistry Selector.
From S2P Require Lockout Session TorPool.

Definition ModeLocal : gostring := $"local".
Definition ModeRemote : gostring := $"remote".
Definition NodeTypeProxy : gostring := $"proxy".
Definition NodeTypeHub : gostring := $"hub".
Definition NodeTypeDoor : gostring := $"door".
Definition NodeTypeLocal : gostring := $"local".
Definition TransportWireguard : gostring := $"wireguard".
Definition TransportHTTPSTunnel : gostring := $"https_tunnel".
Definition TransportSOCKS5TLS : gostring := $"socks5_tls".

(** * Sections *)

Record CloudflareConf := mkCloudflareConf { cfEnabled : bool; cfMode : gostring }.

Record TorConf := mkTorConf {
  torBinary : gostring;
  torSocksBasePort : Z;
  torMinInstances : Z;
  torMaxInstances : Z;
  torDataDir : gostring;
  torBootstrapTimeout : duration;
  torMinSuccessfulOnStart : Z
}.

Record PoolConf := mkPoolConf {
  poMaxIdleConnsPerHost : Z;
  poIdleTimeout : duration;
  poResponseTimeout : duration;
  poConnectTimeout : duration;
  poRetryAttempts : Z;
  poHealthCheckInterval : duration;
  poRebalanceInterval : duration;
  poScaleCooldown : duration;
  poScaleUpThreshold : float64;
  poScaleDownThreshold : float64;
  poQuarantineGrace : duration
}.

Record CacheConf := mkCacheConf {
  caEnabled : bool;
  caMaxSizeMB : Z;
  caDefaultTTL : duration;
  caStaticExtensions : list gostring
}.

Record RateLimitConf := mkRateLimitConf {
  rlPerIPRPS : float64;
  rlPerIPBurst : Z;
  rlPerIPConns : Z;
  rlAPIRPS : float64;
  rlAPIBurst : Z;
  rlGlobalRPS : float64;
  rlCleanupInterval : duration
}.

Record SecurityConf := mkSecurityConf {
  seProxySecretHeader : gostring;
  seAnonymizeLogs : bool;
  seBlockedPaths : list gostring;
  seBlockedMethods : list gostring
}.

Record LoggingConf := mkLoggingConf {
  loLevel : gostring;
  loFormat : gostring;
  loOutput : gostring;
  loMaxSizeMB : Z;
  loMaxBackups : Z
}.

Record MetricsOPSECConf := mkMetricsOPSECConf {
  HashTenantLabels : bool;
  TenantLabelSaltFile : gostring
}.

Record MetricsConf := mkMetricsConf {
  meEnabled : bool;
  meListen : gostring;
  meOPSEC : MetricsOPSECConf
}.

Record LockoutConf := mkLockoutConf {
  lcSoftThreshold : Z;
  lcSoftWindow : duration;
  lcSoftBackoff : duration;
  lcHardThreshold : Z;
  lcHardWindow : duration;
  lcHardBan : duration
}.

Record AdminConf := mkAdminConf {
  adSocket : gostring;
  adEnabled : bool;
  adSlug : gostring;
  adToken1 : gostring;
  adToken2 : gostring;
  adSessionIdleTTL : duration;
  adSessionAbsoluteTTL : duration;
  adAuditDataDir : gostring;
  adLockout : LockoutConf
}.

Record WireguardConf := mkWireguardConf {
  wgInterface : gostring;
  wgPrivateKeyFile : gostring;
  wgPeerPubkey : gostring;
  wgPeerEndpoint : gostring;
  wgPeerAllowedIPs : gostring;
  wgSelfIP : gostring
}.

Record HTTPSTunnelConf := mkHTTPSTunnelConf { htHubURL : gostring; htCACertFile : gostring }.

Record SOCKS5TLSConf := mkSOCKS5TLSConf {
  skHubAddr : gostring;
  skAdminAddr : gostring;
  skCACertFile : gostring
}.

Record TransportConf := mkTransportConf {
  trKind : gostring;
  trWireguard : WireguardConf;
  trHTTPSTunnel : HTTPSTunnelConf;
  trSOCKS5TLS : SOCKS5TLSConf
}.

Record MTLSConf := mkMTLSConf { mtClientCertFile : gostring; mtClientKeyFile : gostring }.

Record HubConf := mkHubConf {
  huListenAdmin : gostring;
  huListenWG : gostring;
  huCACertFile : gostring;
  huCAKeyFile : gostring;
  huDataDir : gostring
}.

Record Config := mkConfig {
  cMode : gostring;
  cNodeType : gostring;
  cTransport : TransportConf;
  cMTLS : MTLSConf;
  cHubURL : gostring;
  cNodeID : gostring;
  cNodeSecretFile : gostring;
  cHub : HubConf;
  cDomain : gostring;
  cEmail : gostring;
  cProxySecret : gostring;
  cCloudflare : CloudflareConf;
  cBackends : list BackendConf;
  cTor : TorConf;
  cPool : PoolConf;
  cCache : CacheConf;
  cRateLimit : RateLimitConf;
  cSecurity : SecurityConf;
  cLogging : LoggingConf;
  cMetrics : MetricsConf;
  cAdmin : AdminConf;
  cDoor : DoorConf
}.

(** * Defaults *)

(** [if x == 0 { x = d }] for the types of the fields. *)
Definition orZ (x d : Z) : Z := if Z.eqb x 0 then d else x.
Definition orS (s d : gostring) : gostring := if decide (s = []) then d else s.
Definition orF (f d : float64) : float64 := if f64_is_zero f then d else f.

Definition tenths (n : Z) : float64 := f64_div (f64_of_Z n) (f64_of_Z 10).

Definition fill_tor (t : TorConf) : TorConf := {|
  torBinary := orS (torBinary t) $"tor";
  torSocksBasePort := orZ (torSocksBasePort t) 9050;
  torMinInstances := torMinInstances t;
  torMaxInstances := if (Z.ltb 0 (torMinInstances t) && Z.eqb (torMaxInstances t) 0)%bool then 20%Z
                     else torMaxInstances t;
  torDataDir := orS (torDataDir t) $"/var/lib/gateway/tor";
  torBootstrapTimeout := orZ (torBootstrapTimeout t) (90 * Second);
  torMinSuccessfulOnStart := torMinSuccessfulOnStart t
|}.

Definition fill_pool (p : PoolConf) : PoolConf := {|
  poMaxIdleConnsPerHost := orZ (poMaxIdleConnsPerHost p) 10;
  poIdleTimeout := orZ (poIdleTimeout p) (90 * Second);
  poResponseTimeout := orZ (poResponseTimeout p) (30 * Second);
  poConnectTimeout := orZ (poConnectTimeout p) (10 * Second);
  poRetryAttempts := orZ (poRetryAttempts p) 3;
  poHealthCheckInterval := orZ (poHealthCheckInterval p) (60 * Second);
  poRebalanceInterval := orZ (poRebalanceInterval p) (15 * Second);
  poScaleCooldown := orZ (poScaleCooldown p) (120 * Second);
  poScaleUpThreshold := orF (poScaleUpThreshold p) (tenths 8);
  poScaleDownThreshold := orF (poScaleDownThreshold p) (tenths 2);
  poQuarantineGrace := orZ (poQuarantineGrace p) (5 * Minute)
|}.

Definition fill_cache (c : CacheConf) : CacheConf := {|
  caEnabled := caEnabled c;
  caMaxSizeMB := orZ (caMaxSizeMB c) 256;
  caDefaultTTL := orZ (caDefaultTTL c) Hour;
  caStaticExtensions := caStaticExtensions c
|}.

Definition fill_rate (r : RateLimitConf) : RateLimitConf := {|
  rlPerIPRPS := orF (rlPerIPRPS r) (f64_of_Z 30);
  rlPerIPBurst := orZ (rlPerIPBurst r) 60;
  rlPerIPConns := orZ (rlPerIPConns r) 50;
  rlAPIRPS := orF (rlAPIRPS r) (f64_of_Z 5);
  rlAPIBurst := orZ (rlAPIBurst r) 10;
  rlGlobalRPS := orF (rlGlobalRPS r) (f64_of_Z 5000);
  rlCleanupInterval := orZ (rlCleanupInterval r) (5 * Minute)
|}.

Definition fill_security (s : SecurityConf) : SecurityConf :=
  mkSecurityConf (orS (seProxySecretHeader s) $"X-Proxy-Secret") (seAnonymizeLogs s)
                 (seBlockedPaths s) (seBlockedMethods s).

Definition fill_logging (l : LoggingConf) : LoggingConf := {|
  loLevel := orS (loLevel l) $"info";
  loFormat := orS (loFormat l) $"json";
  loOutput := orS (loOutput l) $"stdout";
  loMaxSizeMB := orZ (loMaxSizeMB l) 100;
  loMaxBackups := orZ (loMaxBackups l) 5
|}.

Definition fill_lockout (l : LockoutConf) : LockoutConf := {|
  lcSoftThreshold := orZ (lcSoftThreshold l) 3;
  lcSoftWindow := orZ (lcSoftWindow l) (60 * Second);
  lcSoftBackoff := orZ (lcSoftBackoff l) (30 * Second);
  lcHardThreshold := orZ (lcHardThreshold l) 10;
  lcHardWindow := orZ (lcHardWindow l) (10 * Minute);
  lcHardBan := orZ (lcHardBan l) Hour
|}.

Definition default_audit_dir (nodeType : gostring) : gostring :=
  if decide (nodeType = NodeTypeHub) then $"/var/lib/gateway/hub/audit"
  else if decide (nodeType = NodeTypeDoor) then $"/var/lib/gateway/door/audit"
  else $"/var/lib/gateway/proxy/audit".

Definition fill_admin (nodeType : gostring) (a : AdminConf) : AdminConf := {|
  adSocket := orS (adSocket a) $"/run/gateway/torpool.sock";
  adEnabled := adEnabled a;
  adSlug := adSlug a;
  adToken1 := adToken1 a;
  adToken2 := adToken2 a;
  adSessionIdleTTL := orZ (adSessionIdleTTL a) (15 * Minute);
  adSessionAbsoluteTTL := orZ (adSessionAbsoluteTTL a) (8 * Hour);
  adAuditDataDir := orS (adAuditDataDir a) (default_audit_dir nodeType);
  adLockout := fill_lockout (adLockout a)
|}.

Definition fill_backend (b : BackendConf) : BackendConf := mkBackendConf (Addr b) (orZ (bcWeight b) 1).

Definition fillDefaults (c : Config) : Config :=
  let mode := orS (cMode c) ModeLocal in
  let nodeType := orS (cNodeType c) NodeTypeLocal in
  {| cMode := mode;
     cNodeType := nodeType;
     cTransport := mkTransportConf
       (if decide (mode = ModeRemote) then orS (trKind (cTransport c)) TransportWireguard
        else trKind (cTransport c))
       (trWireguard (cTransport c)) (trHTTPSTunnel (cTransport c)) (trSOCKS5TLS (cTransport c));
     cMTLS := cMTLS c; cHubURL := cHubURL c; cNodeID := cNodeID c;
     cNodeSecretFile := cNodeSecretFile c; cHub := cHub c;
     cDomain := cDomain c; cEmail := cEmail c; cProxySecret := cProxySecret c;
     cCloudflare := mkCloudflareConf (cfEnabled (cCloudflare c)) (orS (cfMode (cCloudflare c)) $"full_strict");
     cBackends := fill_backend <$> cBackends c;
     cTor := fill_tor (cTor c);
     cPool := fill_pool (cPool c);
     cCache := fill_cache (cCache c);
     cRateLimit := fill_rate (cRateLimit c);
     cSecurity := fill_security (cSecurity c);
     cLogging := fill_logging (cLogging c);
     cMetrics := mkMetricsConf (meEnabled (cMetrics c)) (orS (meListen (cMetrics c)) $":9090")
                               (meOPSEC (cMetrics c));
     cAdmin := fill_admin nodeType (cAdmin c);
     cDoor := cDoor c |}.

(** * Validation *)

Inductive config_error :=
| ErrRead | ErrYAML
| ErrMode | ErrNodeType | ErrHubURL | ErrTransport
| ErrDomain | ErrProxySecret | ErrBackends | ErrMinInstances
| ErrMinMax | ErrPortRange | ErrThresholds
| ErrNegative (name : gostring)
| ErrSlug | ErrToken1 | ErrToken2 | ErrSessionTTL
| ErrSoftThreshold | ErrSoftWindow | ErrSoftBackoff | ErrHardThreshold | ErrHardWindow | ErrHardBan.

Definition isValidMode (m : gostring) : bool := bool_decide (m = ModeLocal ∨ m = ModeRemote).
Definition isValidNodeType (n : gostring) : bool :=
  bool_decide (n = NodeTypeProxy ∨ n = NodeTypeHub ∨ n = NodeTypeDoor ∨ n = NodeTypeLocal).
Definition isValidTransport (k : gostring) : bool :=
  bool_decide (k = TransportWireguard ∨ k = TransportHTTPSTunnel ∨ k = TransportSOCKS5TLS).

(** The checks are a list of conditions that must not hold, each with its
    error; the first that holds is reported. *)
Abbreviation check := (bool * config_error)%type.

Fixpoint first_error (l : list check) : option config_error :=
  match l with
  | [] => None
  | (bad, e) :: l' => if bad then Some e else first_error l'
  end.

Definition mode_checks (c : Config) : list check :=
  [(negb (isValidMode (cMode c)), ErrMode); (negb (isValidNodeType (cNodeType c)), ErrNodeType)].

Definition remote_checks (c : Config) : list check :=
  if decide (cMode c = ModeRemote) then
    [(bool_decide (cHubURL c = []), ErrHubURL);
     (negb (isValidTransport (trKind (cTransport c))), ErrTransport)]
  else [].

Definition local_checks (c : Config) : list check :=
  if decide (cMode c = ModeLocal) then
    [(bool_decide (cDomain c = []), ErrDomain);
     (bool_decide (length (cProxySecret c) < 32), ErrProxySecret);
     (bool_decide (cBackends c = []), ErrBackends);
     (Z.leb (torMinInstances (cTor c)) 0, ErrMinInstances)]
  else [].

(** The sum is computed on 64-bit ints. *)
Definition pool_checks (c : Config) : list check :=
  let t := cTor c in
  [((Z.ltb 0 (torMaxInstances t) && Z.ltb (torMaxInstances t) (torMinInstances t))%bool, ErrMinMax);
   ((Z.ltb 0 (torSocksBasePort t)
     && Z.leb 65535 (wrap64 (torSocksBasePort t + torMaxInstances t)))%bool, ErrPortRange);
   (f64_ge (poScaleDownThreshold (cPool c)) (poScaleUpThreshold (cPool c)), ErrThresholds)].

Definition durations (c : Config) : list (gostring * duration) :=
  [($"tor.bootstrap_timeout", torBootstrapTimeout (cTor c));
   ($"pool.idle_timeout", poIdleTimeout (cPool c));
   ($"pool.response_timeout", poResponseTimeout (cPool c));
   ($"pool.connect_timeout", poConnectTimeout (cPool c));
   ($"pool.health_check_interval", poHealthCheckInterval (cPool c));
   ($"pool.rebalance_interval", poRebalanceInterval (cPool c));
   ($"pool.scale_cooldown", poScaleCooldown (cPool c));
   ($"pool.quarantine_grace", poQuarantineGrace (cPool c));
   ($"cache.default_ttl", caDefaultTTL (cCache c));
   ($"rate_limit.cleanup_interval", rlCleanupInterval (cRateLimit c));
   ($"admin.session_idle_ttl", adSessionIdleTTL (cAdmin c));
   ($"admin.session_absolute_ttl", adSessionAbsoluteTTL (cAdmin c))].

Definition duration_checks (c : Config) : list check :=
  (λ nd : gostring * duration, (Z.ltb nd.2 0, ErrNegative nd.1)) <$> durations c.

Definition admin_checks (c : Config) : list check :=
  let a := cAdmin c in
  let l := adLockout a in
  if adEnabled a then
    [(bool_decide (length (adSlug a) < 32), ErrSlug);
     (bool_decide (length (adToken1 a) < 32), ErrToken1);
     (bool_decide (length (adToken2 a) < 32), ErrToken2);
     (Z.leb (adSessionAbsoluteTTL a) (adSessionIdleTTL a), ErrSessionTTL);
     (Z.leb (lcSoftThreshold l) 0, ErrSoftThreshold);
     (Z.leb (lcSoftWindow l) 0, ErrSoftWindow);
     (Z.leb (lcSoftBackoff l) 0, ErrSoftBackoff);
     (Z.leb (lcHardThreshold l) 0, ErrHardThreshold);
     (Z.leb (lcHardWindow l) 0, ErrHardWindow);
     (Z.leb (lcHardBan l) 0, ErrHardBan)]
  else [].

Definition validate (c : Config) : option config_error :=
  first_error (mode_checks c ++ remote_checks c ++ local_checks c ++ pool_checks c
               ++ duration_checks c ++ admin_checks c).

(** [Load] after the file was read ([None] when that failed) and decoded
    ([None] when it is not valid). *)
Definition with_mode (m : gostring) (c : Config) : Config :=
  mkConfig m (cNodeType c) (cTransport c) (cMTLS c) (cHubURL c) (cNodeID c) (cNodeSecretFile c)
    (cHub c) (cDomain c) (cEmail c) (cProxySecret c) (cCloudflare c) (cBackends c) (cTor c)
    (cPool c) (cCache c) (cRateLimit c) (cSecurity c) (cLogging c) (cMetrics c) (cAdmin c) (cDoor c).

Definition legacy_mode (c : Config) : Config :=
  if decide (cMode c = [] ∧ cBackends c ≠ []) then with_mode ModeLocal c else c.

Definition Load (data : option (option Config)) : result config_error Config :=
  match data with
  | None => Err ErrRead
  | Some None => Err ErrYAML
  | Some (Some raw) =>
      let c := fillDefaults (legacy_mode raw) in
      match validate c with
      | Some e => Err e
      | None => Ok c
      end
  end.

(** * What a loaded configuration guarantees *)

Record lockout_sane (l : LockoutConf) : Prop := {
  sane_soft_threshold : (0 < lcSoftThreshold l)%Z;
  sane_soft_window : (0 < lcSoftWindow l)%Z;
  sane_soft_backoff : (0 < lcSoftBackoff l)%Z;
  sane_hard_threshold : (0 < lcHardThreshold l)%Z;
  sane_hard_window : (0 < lcHardWindow l)%Z;
  sane_hard_ban : (0 < lcHardBan l)%Z
}.

Record admin_sane (a : AdminConf) : Prop := {
  sane_secrets : 32 ≤ length (adSlug a) ∧ 32 ≤ length (adToken1 a) ∧ 32 ≤ length (adToken2 a);
  sane_ttls : (adSessionIdleTTL a < adSessionAbsoluteTTL a)%Z;
  sane_lockout : lockout_sane (adLockout a)
}.

Record config_sane (c : Config) : Prop := {
  sane_mode : cMode c = ModeLocal ∨ cMode c = ModeRemote;
  sane_node_type : cNodeType c ∈ [NodeTypeProxy; NodeTypeHub; NodeTypeDoor; NodeTypeLocal];
  sane_remote : cMode c = ModeRemote →
    cHubURL c ≠ [] ∧ trKind (cTransport c) ∈ [TransportWireguard; TransportHTTPSTunnel; TransportSOCKS5TLS];
  sane_local : cMode c = ModeLocal →
    cDomain c ≠ [] ∧ 32 ≤ length (cProxySecret c) ∧ cBackends c ≠ [] ∧ (0 < torMinInstances (cTor c))%Z;
  sane_max : (0 < torMaxInstances (cTor c) → torMinInstances (cTor c) ≤ torMaxInstances (cTor c))%Z;
  sane_ports : (0 < torSocksBasePort (cTor c) →
    wrap64 (torSocksBasePort (cTor c) + torMaxInstances (cTor c)) < 65535)%Z;
  sane_thresholds : f64_ge (poScaleDownThreshold (cPool c)) (poScaleUpThreshold (cPool c)) = false;
  sane_durations : Forall (λ nd, (0 < nd.2)%Z) (durations c);
  sane_admin : adEnabled (cAdmin c) = true → admin_sane (cAdmin c)
}.

(** ** Defaults *)

Lemma orZ_nonzero x d : d ≠ 0%Z → orZ x d ≠ 0%Z.
Proof. intros Hd. unfold orZ. by destruct (Z.eqb_spec x 0). Qed.

Lemma orZ_idem x d : orZ (orZ x d) d = orZ x d.
Proof. unfold orZ. destruct (Z.eqb x 0) eqn:E; rewrite ?E; [by case_match|done]. Qed.

Lemma orS_idem s d : orS (orS s d) d = orS s d.
Proof. unfold orS. repeat case_decide; done. Qed.

Lemma orS_set s d : d ≠ [] → orS s d ≠ [].
Proof. unfold orS. by case_decide. Qed.

Lemma orF_idem f d : orF (orF f d) d = orF f d.
Proof. unfold orF. destruct (f64_is_zero f) eqn:E; rewrite ?E; [by case_match|done]. Qed.

Create Rewrite HintDb defaults.
#[export] Hint Rewrite orZ_idem orS_idem orF_idem : defaults.

Lemma fill_tor_idem t : fill_tor (fill_tor t) = fill_tor t.
Proof.
  destruct t. unfold fill_tor.
  cbn [torBinary torSocksBasePort torMinInstances torMaxInstances torDataDir torBootstrapTimeout
       torMinSuccessfulOnStart]. autorewrite with defaults. f_equal.
  destruct (Z.ltb 0 _) eqn:?, (Z.eqb torMaxInstances0 0) eqn:E; cbn [andb]; by rewrite ?E.
Qed.

Lemma fill_backend_idem b : fill_backend (fill_backend b) = fill_backend b.
Proof. unfold fill_backend. cbn [Addr bcWeight]. by rewrite orZ_idem. Qed.

Lemma fill_admin_idem n a : fill_admin n (fill_admin n a) = fill_admin n a.
Proof.
  destruct a as [? ? ? ? ? ? ? ? []]. unfold fill_admin, fill_lockout.
  cbn [adSocket adEnabled adSlug adToken1 adToken2 adSessionIdleTTL adSessionAbsoluteTTL adAuditDataDir
       adLockout lcSoftThreshold lcSoftWindow lcSoftBackoff lcHardThreshold lcHardWindow lcHardBan].
  by autorewrite with defaults.
Qed.

Lemma fillDefaults_idem c : fillDefaults (fillDefaults c) = fillDefaults c.
Proof.
  destruct c as [mo nt [] ? ? ? ? ? ? ? ? [] bs tor [] [] [] [] [] [] ad ?].
  unfold fillDefaults, fill_pool, fill_cache, fill_rate, fill_security, fill_logging.
  cbv beta iota zeta delta -[orZ orS orF fill_tor fill_admin fill_backend tenths f64_of_Z fmap
    ModeLocal ModeRemote NodeTypeLocal TransportWireguard Second Minute Hour Z.mul
    String.list_ascii_of_string decide].
  autorewrite with defaults. rewrite fill_tor_idem, fill_admin_idem, <- list_fmap_compose.
  rewrite (list_fmap_ext (fill_backend ∘ fill_backend) fill_backend bs) by (intros; apply fill_backend_idem).
  f_equal. f_equal. case_decide; [apply orS_idem|done].
Qed.

(** The detection of legacy files changes nothing: an empty mode becomes
    local in any case. *)
Lemma fillDefaults_legacy c : fillDefaults (legacy_mode c) = fillDefaults c.
Proof.
  unfold legacy_mode. case_decide as H; [|done]. destruct H as [Hm _]. destruct c; cbn [cMode] in Hm.
  subst. done.
Qed.

Lemma fillDefaults_durations c : Forall (λ nd, nd.2 ≠ 0%Z) (durations (fillDefaults c)).
Proof. unfold durations. repeat constructor; cbn; by apply orZ_nonzero. Qed.

(** ** Validation *)

Lemma first_error_None l : first_error l = None ↔ Forall (λ p, p.1 = false) l.
Proof.
  induction l as [|[[] e] l IH]; cbn [first_error]; [by split| |].
  - split; [done|]. by intros [? _]%Forall_cons.
  - rewrite Forall_cons, IH. cbn [fst]. naive_solver.
Qed.

Lemma Forall_sign (l : list (gostring * duration)) :
  Forall (λ nd, nd.2 ≠ 0%Z) l →
  Forall (λ p : check, p.1 = false) ((λ nd, (Z.ltb nd.2 0, ErrNegative nd.1)) <$> l) ↔
  Forall (λ nd, (0 < nd.2)%Z) l.
Proof.
  intros Hnz. rewrite Forall_fmap. induction Hnz as [|nd l Hn _ IH]; [by rewrite !Forall_nil|].
  rewrite !Forall_cons, IH. cbn [compose fst]. rewrite Z.ltb_ge. intuition lia.
Qed.

#[local] Ltac checks :=
  rewrite ?Forall_cons, ?Forall_nil; cbn [fst];
  rewrite ?bool_decide_eq_false, ?negb_false_iff, ?bool_decide_eq_true, ?andb_false_iff,
    ?Z.ltb_ge, ?Z.leb_gt, ?Nat.nlt_ge.

Lemma mode_checks_ok c :
  Forall (λ p, p.1 = false) (mode_checks c) ↔
  (cMode c = ModeLocal ∨ cMode c = ModeRemote) ∧
  cNodeType c ∈ [NodeTypeProxy; NodeTypeHub; NodeTypeDoor; NodeTypeLocal].
Proof.
  unfold mode_checks, isValidMode, isValidNodeType. checks.
  rewrite !elem_of_cons, elem_of_nil. naive_solver.
Qed.

Lemma remote_checks_ok c :
  Forall (λ p, p.1 = false) (remote_checks c) ↔
  (cMode c = ModeRemote → cHubURL c ≠ [] ∧
   trKind (cTransport c) ∈ [TransportWireguard; TransportHTTPSTunnel; TransportSOCKS5TLS]).
Proof.
  unfold remote_checks, isValidTransport. case_decide; checks; rewrite ?elem_of_cons, ?elem_of_nil; naive_solver.
Qed.

Lemma local_checks_ok c :
  Forall (λ p, p.1 = false) (local_checks c) ↔
  (cMode c = ModeLocal → cDomain c ≠ [] ∧ 32 ≤ length (cProxySecret c) ∧ cBackends c ≠ [] ∧
   (0 < torMinInstances (cTor c))%Z).
Proof. unfold local_checks. case_decide; checks; naive_solver. Qed.

Lemma admin_checks_ok c :
  Forall (λ p, p.1 = false) (admin_checks c) ↔ (adEnabled (cAdmin c) = true → admin_sane (cAdmin c)).
Proof.
  unfold admin_checks. cbv zeta. destruct (adEnabled (cAdmin c)); checks; [|naive_solver].
  split.
  - intros (? & ? & ? & ? & ? & ? & ? & ? & ? & ? & _) _. by repeat split.
  - intros H. destruct (H eq_refl) as [(? & ? & ?) ? []]. done.
Qed.

Lemma pool_checks_ok c :
  Forall (λ p, p.1 = false) (pool_checks c) ↔
  (0 < torMaxInstances (cTor c) → torMinInstances (cTor c) ≤ torMaxInstances (cTor c))%Z ∧
  (0 < torSocksBasePort (cTor c) → wrap64 (torSocksBasePort (cTor c) + torMaxInstances (cTor c)) < 65535)%Z ∧
  f64_ge (poScaleDownThreshold (cPool c)) (poScaleUpThreshold (cPool c)) = false.
Proof. unfold pool_checks. cbv zeta. checks. intuition lia. Qed.

Lemma validate_ok c :
  Forall (λ nd, nd.2 ≠ 0%Z) (durations c) → validate c = None ↔ config_sane c.
Proof.
  intros Hd. unfold validate. rewrite first_error_None, !Forall_app.
  rewrite mode_checks_ok, remote_checks_ok, local_checks_ok, pool_checks_ok, admin_checks_ok.
  unfold duration_checks. rewrite (Forall_sign _ Hd). split.
  - intros ([? ?] & ? & ? & (? & ? & ?) & ? & ?). by split.
  - intros []. done.
Qed.

(** The values are given: a maximum where there is a minimum of instances,
    and with the admin surface on every lockout value. *)
Definition given (raw : Config) : Prop :=
  (0 < torMinInstances (cTor raw) → torMaxInstances (cTor raw) ≠ 0)%Z ∧
  (adEnabled (cAdmin raw) = true →
   let l := adLockout (cAdmin raw) in
   lcSoftThreshold l ≠ 0%Z ∧ lcSoftWindow l ≠ 0%Z ∧ lcSoftBackoff l ≠ 0%Z ∧
   lcHardThreshold l ≠ 0%Z ∧ lcHardWindow l ≠ 0%Z ∧ lcHardBan l ≠ 0%Z).

(** C26. Load accepts exactly the sane configurations. A decoded file that
    gives a maximum of instances where it gives a minimum, and every lockout
    value where it switches the admin surface on, loads exactly when the
    configuration with its defaults filled in is sane: a known
    mode and node type; the hub address and transport of a remote node; domain,
    a secret of at least 32 bytes, backends and instances of a local one; a
    maximum not below the minimum and ports in range (on wrapping sums); scale
    thresholds in order; every interval and time-out strictly positive; with
    the admin surface on, long enough secrets, an idle lifetime below the
    absolute one and positive lockout parameters. What is returned is that
    filled configuration, and filling it again changes nothing. *)
Theorem config_load_iff (raw c : Config) :
  given raw →
  Load (Some (Some raw)) = Ok c ↔ c = fillDefaults raw ∧ config_sane c ∧ fillDefaults c = c.
Proof.
  intros _. unfold Load. rewrite fillDefaults_legacy. cbv zeta.
  pose proof (validate_ok (fillDefaults raw) (fillDefaults_durations raw)) as Hv. split.
  - destruct (validate (fillDefaults raw)) as [e|]; [done|]. intros [= <-].
    split_and!; [done|by apply Hv|apply fillDefaults_idem].
  - intros (-> & Hs & _). apply Hv in Hs. by rewrite Hs.
Qed.

Lemma Load_Ok d c : Load d = Ok c → config_sane c.
Proof.
  destruct d as [[raw|]|]; [|done..]. unfold Load. rewrite fillDefaults_legacy. cbv zeta.
  pose proof (validate_ok (fillDefaults raw) (fillDefaults_durations raw)) as Hv.
  destruct (validate (fillDefaults raw)) as [e|]; [done|]. intros [= <-]. by apply Hv.
Qed.

(** * The parts that are built from it *)

(** The lockout parameters and the pool settings, as the binaries pass them. *)
Definition lockout_of (c : Config) : Lockout.LockoutConfig :=
  let l := adLockout (cAdmin c) in
  Lockout.mkLockoutConfig (lcSoftThreshold l) (lcSoftWindow l) (lcSoftBackoff l)
    (lcHardThreshold l) (lcHardWindow l) (lcHardBan l).

Definition torpool_of (c : Config) : TorPool.TorConfig :=
  TorPool.mkTorConfig (torMinInstances (cTor c)) (torMaxInstances (cTor c)) (torSocksBasePort (cTor c))
    (Addr <$> cBackends c) (torMinSuccessfulOnStart (cTor c)).

Lemma lockout_of_ok d c :
  Load d = Ok c → adEnabled (cAdmin c) = true →
  (lcSoftWindow (adLockout (cAdmin c)) ≤ lcHardWindow (adLockout (cAdmin c)) ≤ max_int64)%Z →
  Lockout.cfg_ok (lockout_of c).
Proof.
  intros Hc%Load_Ok Ha Hw. destruct (sane_admin _ Hc Ha) as [_ _ []]. unfold Lockout.cfg_ok. cbn. lia.
Qed.

(** ** Ports *)

Lemma wrap64_upto z : (min_int64 ≤ z ≤ max_int64)%Z → wrap64 z = z.
Proof. intros. by apply wrap64_id. Qed.

(** A loaded configuration keeps the Tor pool on real ports. For a loaded
    configuration with a positive base port and maximum whose sum does not
    overflow, every pool reached from Start by any operations runs at most the
    configured maximum of instances, on distinct ports between the base port
    and 65534. *)
Theorem config_pool_ports (d : option (option Config)) (c : Config) (boots : Z → bool)
    (env_ok ctx_ok : bool) (ctx : nat) (m : TorPool.Manager) :
  Load d = Ok c →
  (0 < torSocksBasePort (cTor c))%Z → (0 < torMaxInstances (cTor c))%Z →
  (torSocksBasePort (cTor c) + torMaxInstances (cTor c) ≤ max_int64)%Z →
  rtc (TorPool.pool_step (torpool_of c))
      (TorPool.Start (torpool_of c) boots env_ok ctx_ok ctx TorPool.NewManager).1 m →
  NoDup (TorPool.ports m) ∧
  Forall (λ p, (torSocksBasePort (cTor c) ≤ p < 65535)%Z) (TorPool.ports m) ∧
  (Z.of_nat (length (TorPool.instances m)) ≤ torMaxInstances (cTor c))%Z.
Proof.
  intros Hc%Load_Ok Hbase Hmax Hsum Hr.
  assert (Hi : TorPool.pool_inv (torpool_of c) m).
  { revert m Hr. apply rtc_ind_r; [apply TorPool.Start_inv|]. eauto using TorPool.pool_step_inv. }
  destruct Hi as [Hnd Hlo Hcap Htop _]. cbn in Hlo, Hcap, Htop.
  specialize (Hcap Hmax). specialize (Htop Hmax).
  pose proof (sane_max _ Hc Hmax) as Hmm. pose proof (sane_ports _ Hc Hbase) as Hp.
  rewrite wrap64_upto in Hp by (unfold min_int64; lia).
  split_and!; [done| |lia]. rewrite Forall_forall in Hlo, Htop |- *. intros p Hin.
  specialize (Hlo p Hin). specialize (Htop p Hin). cbn in *. lia.
Qed.

(** ** The lockout windows *)

(** Failures more than [w] apart, the first at any time. *)
Fixpoint spaced (w : duration) (ts : list time) : Prop :=
  match ts with
  | t :: ((t' :: _) as ts') => (t + w < t')%Z ∧ spaced w ts'
  | _ => True
  end.

Section slow.
Context (cfg : Lockout.LockoutConfig) (Hw : (0 ≤ Lockout.HardWindow cfg ≤ max_int64)%Z).
Context (Hsoft : (1 < Lockout.SoftThreshold cfg)%Z) (Hhard : (1 < Lockout.HardThreshold cfg)%Z).

Lemma recent_old w now fs : Forall (λ t, (t + w < now)%Z) fs → Lockout.recent w now fs = [].
Proof.
  unfold Lockout.recent. induction 1 as [|t fs Ht _ IH]; [done|]. cbn [List.filter].
  destruct (Z.leb_spec (now - w) t); [lia|done].
Qed.

(** An entry whose failures left the long window records the new one alone. *)
Lemma slow_failure now ip l fs :
  Forall (λ t, (t + Lockout.HardWindow cfg < now)%Z) fs →
  default Lockout.entry_zero (l !! ip) = Lockout.mkEntry fs time_zero time_zero →
  (Lockout.RecordFailure cfg now ip l).1 !! ip = Some (Lockout.mkEntry [now] time_zero time_zero).
Proof.
  intros Hold Hl. unfold Lockout.RecordFailure. rewrite Hl. cbv zeta.
  cbn [Lockout.failures Lockout.softUntil Lockout.hardUntil fst].
  rewrite lookup_insert_eq, Lockout.compact_recent, Lockout.recent_app, recent_old by done.
  assert (Hr : Lockout.recent (Lockout.HardWindow cfg) now [now] = [now]).
  { unfold Lockout.recent. cbn. destruct (Z.leb_spec (now - Lockout.HardWindow cfg) now); [done|lia]. }
  rewrite Hr. cbn [app]. do 2 f_equal.
  - set (n := length (Lockout.compact _ [now])).
    assert (Hn : n ≤ 1) by (subst n; unfold Lockout.compact; cbn; case_match; cbn; lia).
    destruct (Z.leb_spec (Lockout.SoftThreshold cfg) (Z.of_nat n)); [lia|]. by rewrite andb_false_r.
  - change (Z.of_nat (length [now])) with 1%Z.
    destruct (Z.leb_spec (Lockout.HardThreshold cfg) 1); [lia|]. by rewrite andb_false_r.
Qed.

Lemma slow_run ip ts l fs :
  default Lockout.entry_zero (l !! ip) = Lockout.mkEntry fs time_zero time_zero →
  (∀ t, head ts = Some t → Forall (λ x, (x + Lockout.HardWindow cfg < t)%Z) fs) →
  spaced (Lockout.HardWindow cfg) ts →
  ∃ fs', default Lockout.entry_zero
           (foldl (Lockout.step cfg) l (Lockout.EvFailure ip <$> ts) !! ip)
         = Lockout.mkEntry fs' time_zero time_zero.
Proof.
  revert l fs. induction ts as [|t ts IH]; intros l fs Hl Hhd Hsp; cbn [fmap list_fmap foldl]; [eauto|].
  apply (IH _ [t]).
  - cbn [Lockout.step]. by rewrite (slow_failure _ _ _ fs) by auto.
  - intros t' Ht'. destruct ts as [|t2 ts]; [done|]. simplify_eq/=. apply Forall_singleton. apply Hsp.
  - destruct ts; [done|apply Hsp].
Qed.
End slow.

(** The soft window is silently capped by the hard window, and a
    configuration that sets it longer loads. Whatever the soft window says, an
    address whose failed attempts are more than the hard window apart is
    allowed after every one of them: recording a failure compacts to the hard
    window before the soft one is counted. *)
Theorem config_soft_window_ignored (d : option (option Config)) (c : Config) (ip : gostring)
    (ts : list time) (now : time) :
  Load d = Ok c → adEnabled (cAdmin c) = true →
  (lcHardWindow (adLockout (cAdmin c)) ≤ max_int64)%Z →
  (1 < lcSoftThreshold (adLockout (cAdmin c)))%Z → (1 < lcHardThreshold (adLockout (cAdmin c)))%Z →
  spaced (lcHardWindow (adLockout (cAdmin c))) ts → (time_zero ≤ now)%Z →
  Lockout.Check now ip (Lockout.run (lockout_of c) (Lockout.EvFailure ip <$> ts)) = Lockout.StateAllowed.
Proof.
  intros Hc%Load_Ok Ha Hmax Hs Hh Hsp Hnow. destruct (sane_admin _ Hc Ha) as [_ _ []].
  destruct (slow_run (lockout_of c) ltac:(cbn; lia) ltac:(cbn; lia) ltac:(cbn; lia) ip ts
              Lockout.NewLockout []) as [fs' Hl]; [done|by constructor|done|].
  unfold Lockout.Check. change (foldl (Lockout.step (lockout_of c)) Lockout.NewLockout)
    with (Lockout.run (lockout_of c)) in Hl.
  destruct (Lockout.run _ _ !! ip) as [e|]; [|done]. cbn [default from_option id] in Hl. subst e.
  unfold Lockout.stateLocked, After. cbn [Lockout.hardUntil Lockout.softUntil].
  destruct (Z.ltb_spec now time_zero); [lia|done].
Qed.

(** * Examples *)

Definition f64_zero : float64 := f64_of_Z 0.

(** A local node with the admin surface on; everything else is left out. *)
Definition ex_raw (min max : Z) (lockout : LockoutConf) : Config := {|
  cMode := []; cNodeType := [];
  cTransport := mkTransportConf [] (mkWireguardConf [] [] [] [] [] []) (mkHTTPSTunnelConf [] [])
                  (mkSOCKS5TLSConf [] [] []);
  cMTLS := mkMTLSConf [] []; cHubURL := []; cNodeID := []; cNodeSecretFile := [];
  cHub := mkHubConf [] [] [] [] [];
  cDomain := $"example.org"; cEmail := []; cProxySecret := replicate 32 "s"%char;
  cCloudflare := mkCloudflareConf false [];
  cBackends := [mkBackendConf $"a.onion:80" 0];
  cTor := mkTorConf [] 0 min max [] 0 0;
  cPool := mkPoolConf 0 0 0 0 0 0 0 0 f64_zero f64_zero 0;
  cCache := mkCacheConf false 0 0 [];
  cRateLimit := mkRateLimitConf f64_zero 0 0 f64_zero 0 f64_zero 0;
  cSecurity := mkSecurityConf [] false [] [];
  cLogging := mkLoggingConf [] [] [] 0 0;
  cMetrics := mkMetricsConf false [] (mkMetricsOPSECConf false []);
  cAdmin := mkAdminConf [] true (replicate 32 "a"%char) (replicate 32 "b"%char) (replicate 32 "c"%char)
              0 0 [] lockout;
  cDoor := mkDoorConf (mkCoverConf false [] [] [] ∅) []
|}.

Definition ex_lockout (soft : duration) : LockoutConf := mkLockoutConf 0 soft 0 0 0 0.

Lemma ex_loads : Load (Some (Some (ex_raw 10 0 (ex_lockout Hour)))) = Ok (fillDefaults (ex_raw 10 0 (ex_lockout Hour))).
Proof. by vm_compute. Qed.

Definition ex_given : Config := ex_raw 10 20 (mkLockoutConf 3 Minute Second 10 Hour Hour).

Lemma config_load_iff_witness :
  Load (Some (Some ex_given)) = Ok (fillDefaults ex_given) ∧ config_sane (fillDefaults ex_given).
Proof.
  assert (Hl : Load (Some (Some ex_given)) = Ok (fillDefaults ex_given)) by (vm_compute; reflexivity).
  split; [exact Hl|]. apply (config_load_iff ex_given (fillDefaults ex_given)) in Hl as (_ & Hs & _); [exact Hs|].
  split; [discriminate|]. intros _. vm_compute. repeat split; discriminate.
Defined.

Lemma config_pool_ports_witness :
  let c := fillDefaults (ex_raw 10 0 (ex_lockout Hour)) in
  let m := (TorPool.ScaleTo (torpool_of c) (λ _, true) true 2 99
             (TorPool.Start (torpool_of c) (λ _, true) true true 1 TorPool.NewManager).1).1 in
  NoDup (TorPool.ports m) ∧ Forall (λ p, (torSocksBasePort (cTor c) ≤ p < 65535)%Z) (TorPool.ports m) ∧
  (Z.of_nat (length (TorPool.instances m)) ≤ torMaxInstances (cTor c))%Z.
Proof.
  cbv zeta. apply (config_pool_ports (Some (Some (ex_raw 10 0 (ex_lockout Hour)))) _ (λ _, true) true true 1).
  - apply ex_loads.
  - by vm_compute.
  - by vm_compute.
  - by vm_compute.
  - apply rtc_once. apply TorPool.step_scale.
Defined.

(** Three failures eleven minutes apart, with a soft window of an hour: the
    address stays allowed although the history trips the soft window. *)
Lemma config_soft_window_ignored_witness :
  let c := fillDefaults (ex_raw 10 0 (ex_lockout Hour)) in
  let l := adLockout (cAdmin c) in
  let ts := [0; 11 * Minute; 22 * Minute]%Z in
  Lockout.Check (22 * Minute) $"ip" (Lockout.run (lockout_of c) (Lockout.EvFailure $"ip" <$> ts))
    = Lockout.StateAllowed ∧
  Lockout.ban_active (lcSoftThreshold l) (lcSoftWindow l) (lcSoftBackoff l) ts (22 * Minute).
Proof.
  cbv zeta. split.
  - apply (config_soft_window_ignored (Some (Some (ex_raw 10 0 (ex_lockout Hour))))).
    + apply ex_loads.
    + by vm_compute.
    + by vm_compute.
    + by vm_compute.
    + by vm_compute.
    + by vm_compute.
    + by vm_compute.
  - exists [0; 11 * Minute]%Z, (22 * Minute)%Z, []. split; [done|]. split; by vm_compute.
Defined.

(** The default maximum is 20 whatever the minimum, so a larger minimum
    without a maximum is refused. *)
Example config_default_max_too_small : Load (Some (Some (ex_raw 30 0 (ex_lockout 0)))) = Err ErrMinMax.
Proof. by vm_compute. Qed.
