(* ===== verification/Abuse.v ===== *)
(** The abuse-report endpoint (src/internal/feature/abuse/abuse.go, store.go):
    parameters, the sliding one-hour limiter, validation of reports, the
    append-only log of reports and the handler with its middleware.

    JSON decoding of a report and encoding of a log record, SHA-256, the
    Unicode tables and the outcome of file writes are parameters. *)

From S2P Require Import Prelude Float Http Metrics Shared FeatureRegistry GoStd.
From S2P Require Lockout Transport.

Definition FeatureName : gostring := $"abuse_api".

Definition maxBodyBytes : Z := 32768.
Definition maxOnionMin : Z := 56.
Definition maxOnionMax : Z := 58.
Definition maxReasonMin : Z := 1.
Definition maxReasonMax : Z := 2000.
Definition maxContactMax : Z := 200.
Definition maxDetailsMax : Z := 4000.
Definition defaultRateLimit : Z := 10.
Definition defaultPath : gostring := $"/_abuse".
Definition rateLimitWindow : duration := Hour.
Definition LF : ascii := ascii_of_N 10.

(** * The log *)

Record Entry := mkEntry {
  Timestamp : time;
  enTenant : gostring;
  ClientIPHash : gostring;
  enOnion : gostring;
  enReason : gostring;
  enContact : gostring;
  enDetails : gostring
}.

(** The decoded body of a report. *)
Record Report := mkReport {
  rpOnion : gostring;
  rpReason : gostring;
  rpContact : gostring;
  rpDetails : gostring
}.

(** encoding/json: a compact encoding is one line, since control characters
    are escaped. *)
Class AbuseJSON := {
  entry_marshal : Entry → option gostring;
  report_unmarshal : gostring → option Report
}.

Class AbuseJSONLaws `{AbuseJSON} : Prop := {
  marshal_one_line e s : entry_marshal e = Some s → LF ∉ s
}.

(** The file and whether the store still holds its descriptor. *)
Record Store := mkStore { stPath : gostring; stDisk : gostring; stOpen : bool }.

Inductive store_error := ErrEmptyPath | ErrMkdir | ErrOpenFile | ErrNotOpen | ErrMarshal | ErrWrite.

(** OpenStore: [dir] is filepath.Dir, [mkdir_ok] and [open_ok] are the
    outcomes of MkdirAll and OpenFile, [old] is what the file holds. *)
Definition OpenStore (dir : gostring → gostring) (mkdir_ok open_ok : bool) (old path : gostring)
    : result store_error Store :=
  if decide (path = []) then Err ErrEmptyPath
  else if (bool_decide (dir path ≠ [] ∧ dir path ≠ $".") && negb mkdir_ok)%bool then Err ErrMkdir
  else if negb open_ok then Err ErrOpenFile
  else Ok (mkStore path old true).

Section store.
Context `{AbuseJSON}.

(** [io] is how many bytes reach the file before the write fails, None when
    it does not fail. *)
Definition Append (now : time) (io : option nat) (e : Entry) (s : Store) : Store * option store_error :=
  if negb (stOpen s) then (s, Some ErrNotOpen)
  else
    let e := if IsZero (Timestamp e)
             then mkEntry now (enTenant e) (ClientIPHash e) (enOnion e) (enReason e) (enContact e) (enDetails e)
             else e in
    match entry_marshal e with
    | None => (s, Some ErrMarshal)
    | Some buf =>
        let buf := buf ++ [LF] in
        match io with
        | None => (mkStore (stPath s) (stDisk s ++ buf) true, None)
        | Some n => (mkStore (stPath s) (stDisk s ++ take n buf) true, Some ErrWrite)
        end
    end.
End store.

Definition Close (s : Store) : Store := mkStore (stPath s) (stDisk s) false.

(** * The limiter *)

Abbreviation abuseLimiter := (gmap gostring (list time)).

Definition newAbuseLimiter : abuseLimiter := ∅.

Definition key (tenant ipHash : gostring) : gostring := tenant ++ NUL :: ipHash.

(** check: the decision, the delay and the limiter afterwards. *)
Definition check (tenant ipHash : gostring) (limit : Z) (now : time) (l : abuseLimiter)
    : bool * duration * abuseLimiter :=
  if Z.leb limit 0 then (true, 0%Z, l)
  else
    let k := key tenant ipHash in
    let cutoff := time_add now (dur_neg rateLimitWindow) in
    let hist := drop_while (λ t, Before t cutoff) (default [] (l !! k)) in
    if Z.leb limit (Z.of_nat (length hist)) then
      let retry := wrap64 (rateLimitWindow - time_sub now (default 0%Z (head hist))) in
      (false, (if Z.ltb retry Second then Second else retry), <[k := hist]> l)
    else (true, 0%Z, <[k := hist ++ [now]]> l).

(** * Parameters *)

Record params := mkparams {
  paEnabled : bool;
  paPath : gostring;
  paStorePath : gostring;
  paNotifyEmail : gostring;
  rateLimitPerHr : Z;
  requireFields : gset gostring
}.

Inductive param_error :=
| ErrExpectedString | ErrExpectedInt | ErrExpectedList
| ErrPathEmpty | ErrPathSlash | ErrNotifyEmail | ErrNegativeRate | ErrUnknownField (name : gostring).

Definition asString (v : json) : result param_error gostring :=
  match v with JString s => Ok s | JNull => Ok [] | _ => Err ErrExpectedString end.

Definition asInt (v : json) : result param_error Z :=
  match v with JInt n => Ok (wrap64 n) | JFloat f => Ok (f64_to_int f) | _ => Err ErrExpectedInt end.

Fixpoint asStrings (l : list json) : result param_error (list gostring) :=
  match l with
  | [] => Ok []
  | x :: l' => let* s := asString x in let* r := asStrings l' in Ok (s :: r)
  end.

Definition asStringSlice (v : json) : result param_error (list gostring) :=
  match v with JArray l => asStrings l | JNull => Ok [] | _ => Err ErrExpectedList end.

Definition known_fields : list gostring := [$"onion"; $"reason"; $"contact"; $"details"].

Fixpoint field_set (l : list gostring) : result param_error (gset gostring) :=
  match l with
  | [] => Ok ∅
  | name :: l' =>
      if decide (name ∈ known_fields) then let* r := field_set l' in Ok ({[name]} ∪ r)
      else Err (ErrUnknownField name)
  end.

Definition param {A : Type} (p : gmap gostring json) (k : gostring) (d : A)
    (f : json → result param_error A) : result param_error A :=
  match p !! k with Some v => f v | None => Ok d end.

Definition parse_path (v : json) : result param_error gostring :=
  let* s := asString v in
  if decide (s = []) then Err ErrPathEmpty
  else if HasPrefix s [slash] then Ok s else Err ErrPathSlash.

Definition parse_rate (v : json) : result param_error Z :=
  let* n := asInt v in if Z.ltb n 0 then Err ErrNegativeRate else Ok n.

Definition parse_notify (v : json) : result param_error gostring :=
  match v with JNull => Ok [] | JString s => Ok s | _ => Err ErrNotifyEmail end.

Definition parseParams (cfg : FeatureSnapshot) : result param_error params :=
  let p := fsParams cfg in
  let* path := param p $"path" defaultPath parse_path in
  let* storePath := param p $"store_path" [] asString in
  let* notify := param p $"notify_email" [] parse_notify in
  let* limit := param p $"rate_limit_per_hour" defaultRateLimit parse_rate in
  let* fields := param p $"require_fields" ({[$"onion"; $"reason"]} : gset gostring)
                   (λ v, let* l := asStringSlice v in field_set l) in
  Ok (mkparams (fsEnabled cfg) path storePath notify limit fields).

(** [Validate]: the error of an enabled snapshot. *)
Definition Validate (cfg : FeatureSnapshot) : option param_error :=
  if negb (fsEnabled cfg) then None
  else match parseParams cfg with Ok _ => None | Err e => Some e end.

(** * Requests *)

Inductive report_error :=
| ErrRequired (field : gostring)
| ErrOnionSuffix | ErrOnionLength | ErrReasonLength | ErrContactLength | ErrDetailsLength.

Definition onionSuffix : gostring := $".onion".

Definition len (s : gostring) : Z := Z.of_nat (length s).

(** What a client sends: the bytes of its body and whether the stream breaks
    off after them. *)
Record InBody := mkInBody { ibBytes : gostring; ibFails : bool }.

(** [io.ReadAll(io.LimitReader(body, n))]. *)
Definition read_limited (n : Z) (b : InBody) : option gostring :=
  let got := Transport.limit_bytes n (ibBytes b) in
  if (ibFails b && Z.ltb (len got) n)%bool then None else Some got.

Definition extractClientIP (r : Request) : gostring :=
  match SplitHostPort (RemoteAddr r) with Some (host, _) => host | None => RemoteAddr r end.

Definition genericValidationMsg : gostring := $"invalid request" ++ [LF].

Definition StatusRequestEntityTooLarge : Z := 413.

Record AbuseFeature := mkAbuseFeature {
  afEnabled : bool;
  tenantCfg : gmap gostring params;
  afStore : option Store;
  limiter : abuseLimiter;
  salt : gostring
}.

Section handler.
Context `{GoUnicode} `{AbuseJSON} (sha256 : gostring → gostring).

Definition required (fields : gset gostring) (name value : gostring) : option report_error :=
  if decide (name ∈ fields ∧ value = []) then Some (ErrRequired name) else None.

Definition check_onion (onion : gostring) : option report_error :=
  if decide (onion = []) then None
  else
    let lower := ToLower onion in
    if negb (HasSuffix lower onionSuffix) then Some ErrOnionSuffix
    else
      let l := (len lower - len onionSuffix)%Z in
      if (Z.ltb l maxOnionMin || Z.ltb maxOnionMax l)%bool then Some ErrOnionLength else None.

Definition check_reason (reason : gostring) : option report_error :=
  if decide (reason = []) then None
  else if (Z.ltb (len reason) maxReasonMin || Z.ltb maxReasonMax (len reason))%bool
       then Some ErrReasonLength else None.

(** The first check that fails. *)
Definition first_of (l : list (option report_error)) : option report_error := head (omap id l).

Definition validateReport (r : Report) (require : gset gostring) : option report_error :=
  first_of
    [required require $"onion" (rpOnion r); required require $"reason" (rpReason r);
     required require $"contact" (rpContact r); required require $"details" (rpDetails r);
     check_onion (rpOnion r); check_reason (rpReason r);
     (if Z.ltb maxContactMax (len (rpContact r)) then Some ErrContactLength else None);
     (if Z.ltb maxDetailsMax (len (rpDetails r)) then Some ErrDetailsLength else None)].

Definition hashIP (f : AbuseFeature) (ip : gostring) : gostring := hex_encode (sha256 (ip ++ salt f)).

(** The fixed headers; the nil value of Server suppresses the header. *)
Definition base_headers (w : mheader) : mheader :=
  mh_set ContentType $"text/plain; charset=utf-8"
    (mh_set $"Cache-Control" $"no-store" (<[$"Server" := []]> w)).

Definition with_limiter (l : abuseLimiter) (f : AbuseFeature) : AbuseFeature :=
  mkAbuseFeature (afEnabled f) (tenantCfg f) (afStore f) l (salt f).

Definition with_store (s : option Store) (f : AbuseFeature) : AbuseFeature :=
  mkAbuseFeature (afEnabled f) (tenantCfg f) s (limiter f) (salt f).

Definition trimmed (r : Report) : Report :=
  mkReport (TrimSpace (rpOnion r)) (TrimSpace (rpReason r)) (TrimSpace (rpContact r)) (rpDetails r).

Definition effective_limit (p : params) : Z :=
  if Z.leb (rateLimitPerHr p) 0 then defaultRateLimit else rateLimitPerHr p.

Definition entry_for (now : time) (tenant ipHash : gostring) (r : Report) : Entry :=
  mkEntry now tenant ipHash (rpOnion r) (rpReason r) (rpContact r) (rpDetails r).

(** handle after the limiter let the request pass; [now2] is the second
    reading of the clock, [now3] the one of Append. *)
Definition accept (now2 now3 : time) (io : option nat) (h : mheader) (body : InBody) (tenant ipHash : gostring)
    (p : params) (f : AbuseFeature) : MResponse * AbuseFeature :=
  match read_limited (maxBodyBytes + 1) body with
  | None => (mkMResponse StatusBadRequest h genericValidationMsg, f)
  | Some bytes =>
      if Z.ltb maxBodyBytes (len bytes) then (mkMResponse StatusRequestEntityTooLarge h [], f)
      else match report_unmarshal bytes with
      | None => (mkMResponse StatusBadRequest h genericValidationMsg, f)
      | Some report =>
          let report := trimmed report in
          match validateReport report (requireFields p) with
          | Some _ => (mkMResponse StatusBadRequest h genericValidationMsg, f)
          | None =>
              match afStore f with
              | None => (mkMResponse StatusInternalServerError h [], f)
              | Some store =>
                  let '(store', err) := Append now3 io (entry_for now2 tenant ipHash report) store in
                  (mkMResponse (match err with None => StatusNoContent | Some _ => StatusInternalServerError end) h [],
                   with_store (Some store') f)
              end
          end
      end
  end.

Definition handle (now now2 now3 : time) (io : option nat) (w : mheader) (r : Request) (body : InBody)
    (tenant : gostring) (p : params) (f : AbuseFeature) : MResponse * AbuseFeature :=
  let h := base_headers w in
  if negb (bool_decide (Method r = MethodPost)) then
    (mkMResponse StatusMethodNotAllowed (mh_set $"Allow" $"POST" h) [], f)
  else
    let ipHash := hashIP f (extractClientIP r) in
    let '(allowed, retryAfter, l) := check tenant ipHash (effective_limit p) now (limiter f) in
    let f := with_limiter l f in
    if negb allowed then
      (mkMResponse StatusTooManyRequests
         (if Z.ltb 0 retryAfter then mh_set RetryAfter (fmt_int (f64_to_int (Seconds retryAfter))) h else h) [], f)
    else accept now2 now3 io h body tenant ipHash p f.

(** * The feature *)

(** New: [rnd] is the salt, None when crypto/rand fails. *)
Definition New (rnd : option gostring) (store : result store_error (option Store))
    : option AbuseFeature :=
  match rnd, store with
  | Some s, Ok st => Some (mkAbuseFeature false ∅ st newAbuseLimiter s)
  | _, _ => None
  end.

Definition SetStore (s : option Store) (f : AbuseFeature) : AbuseFeature := with_store s f.

Definition CloseFeature (f : AbuseFeature) : AbuseFeature := with_store None f.

Definition Observe (g : GlobalsSnapshot) (ts : gmap gostring TenantSnapshot) (f : AbuseFeature)
    : AbuseFeature :=
  let parsed (c : option FeatureSnapshot) :=
    match c with
    | Some cfg => match parseParams cfg with Ok p => Some p | Err _ => None end
    | None => None
    end in
  let entries :=
    match parsed (g !! FeatureName) with Some p => [([], p)] | None => [] end
    ++ omap (λ ht, (λ p, (ToLower ht.1, p)) <$> parsed (tsFeatures ht.2 !! FeatureName)) (map_to_list ts) in
  mkAbuseFeature (existsb (λ e, paEnabled e.2) entries)
    (foldl (λ m e, <[e.1 := e.2]> m) ∅ entries) (afStore f) (limiter f) (salt f).

(** The middleware: None when the request is passed on. *)
Definition Middleware (f : AbuseFeature) (snap : snapshotState) (ctx : Context)
    (now now2 now3 : time) (io : option nat) (w : mheader) (r : Request) (body : InBody)
    : option MResponse * AbuseFeature :=
  let pass := (None, f) in
  if negb (afEnabled f) then pass
  else
    let cfg := Resolve snap ctx FeatureName in
    if negb (fsEnabled cfg) then pass
    else match parseParams cfg with
    | Err _ => pass
    | Ok p =>
        if negb (paEnabled p) then pass
        else if negb (bool_decide (Path r = paPath p)) then pass
        else
          let tenant := match TenantFromContext ctx with Some t => ToLower (tsHost t) | None => [] end in
          let '(resp, f') := handle now now2 now3 io w r body tenant p f in
          (Some resp, f')
    end.
End handler.

(** * The limiter refines a full history *)

Record attempt := mkAttempt { atTenant : gostring; atIP : gostring; atLimit : Z; atTime : time }.

(** The limiter run over the attempts: the admitted ones in order, and the
    table. *)
Definition limiter_step (st : list attempt * abuseLimiter) (a : attempt) : list attempt * abuseLimiter :=
  let '(ok, _, l) := check (atTenant a) (atIP a) (atLimit a) (atTime a) (snd st) in
  (if ok then fst st ++ [a] else fst st, l).

Definition limiter_run (l : list attempt) : list attempt * abuseLimiter :=
  foldl limiter_step ([], newAbuseLimiter) l.

(** The instants at which a client was admitted under a limit. *)
Definition admissions (tenant ip : gostring) (l : list attempt) : list time :=
  atTime <$> List.filter (λ a, bool_decide (atTenant a = tenant ∧ atIP a = ip ∧ (0 < atLimit a)%Z)) l.

Definition in_window (now : time) (ts : list time) : nat := length (Lockout.recent rateLimitWindow now ts).

(** The table entry [h] shows at [last] and later what the admissions [ts]
    show. *)
Definition tracks (last : time) (ts h : list time) : Prop :=
  StronglySorted Z.le h ∧ Forall (λ t, t ≤ last)%Z h ∧
  ∃ old, ts = old ++ h ∧ Forall (λ t, t + rateLimitWindow < last)%Z old.

Lemma key_inj t i t' i' : nul_free i → nul_free i' → key t i = key t' i' → t = t' ∧ i = i'.
Proof.
  unfold key, nul_free. intros Hi Hi' Hk. revert t' Hk.
  induction t as [|c t IH]; intros [|c' t'] Hk; simplify_eq/=; [done|set_solver|set_solver|].
  destruct (IH t' ltac:(done)) as [-> ->]. done.
Qed.

Lemma recent_before w now ts : Forall (λ t, t + w < now)%Z ts → Lockout.recent w now ts = [].
Proof.
  unfold Lockout.recent. induction 1 as [|t ts Ht _ IH]; [done|]. cbn [List.filter].
  destruct (Z.leb_spec (now - w) t); [lia|done].
Qed.

Lemma trim_recent now h :
  StronglySorted Z.le h →
  drop_while (λ t, Before t (time_add now (dur_neg rateLimitWindow))) h = Lockout.recent rateLimitWindow now h.
Proof.
  induction 1 as [|t h Hs IH Hf]; [done|]. unfold Lockout.recent. cbn [drop_while List.filter].
  unfold Before, time_add. change (dur_neg rateLimitWindow) with (- rateLimitWindow)%Z in *.
  destruct (Z.ltb_spec t (now + - rateLimitWindow)), (Z.leb_spec (now - rateLimitWindow) t); try lia; [apply IH|].
  f_equal. symmetry. apply forallb_filter_id, forallb_forall. intros x Hx%list_elem_of_In.
  rewrite Forall_forall in Hf. specialize (Hf x Hx). apply Z.leb_le. lia.
Qed.

Lemma tracks_recent last now ts h :
  tracks last ts h → (last ≤ now)%Z →
  Lockout.recent rateLimitWindow now ts = Lockout.recent rateLimitWindow now h.
Proof.
  intros (_ & _ & old & -> & Hold) Hle. rewrite Lockout.recent_app, recent_before; [done|].
  eapply Forall_impl; [done|]. cbn. lia.
Qed.

Lemma sorted_split (h : list time) now :
  StronglySorted Z.le h →
  ∃ old, h = old ++ Lockout.recent rateLimitWindow now h ∧ Forall (λ t, t + rateLimitWindow < now)%Z old ∧
         StronglySorted Z.le (Lockout.recent rateLimitWindow now h).
Proof.
  induction 1 as [|t h Hs (old & Heq & Hold & Hrs) Hf]; [exists []; by repeat constructor|].
  unfold Lockout.recent in *. cbn [List.filter].
  destruct (Z.leb_spec (now - rateLimitWindow) t).
  - assert (Hall : List.filter (λ x, Z.leb (now - rateLimitWindow) x) h = h).
    { apply forallb_filter_id, forallb_forall. intros x Hx%list_elem_of_In.
      rewrite Forall_forall in Hf. specialize (Hf x Hx). apply Z.leb_le. lia. }
    exists []. rewrite Hall. by repeat constructor.
  - exists (t :: old). cbn [app]. rewrite <- Heq. split_and!; [done| |done]. constructor; [lia|done].
Qed.

Lemma tracks_trim last now ts h :
  tracks last ts h → (last ≤ now)%Z → tracks now ts (Lockout.recent rateLimitWindow now h).
Proof.
  intros (Hs & Hf & old & -> & Hold) Hle. destruct (sorted_split h now Hs) as (o2 & Heq & Ho2 & Hs2).
  split_and!; [done| |].
  - apply Forall_forall. intros t Ht%list_elem_of_In. unfold Lockout.recent in Ht.
    apply List.filter_In in Ht as [Ht%list_elem_of_In _]. rewrite Forall_forall in Hf.
    specialize (Hf t Ht). cbn in Hf. lia.
  - exists (old ++ o2). rewrite <- app_assoc, <- Heq. split; [done|]. apply Forall_app. split; [|done].
    eapply Forall_impl; [done|]. cbn. lia.
Qed.

Lemma tracks_mono last now ts h : tracks last ts h → (last ≤ now)%Z → tracks now ts h.
Proof.
  intros (Hs & Hf & old & -> & Hold) Hle. split_and!; [done| |exists old; split; [done|]];
    (eapply Forall_impl; [done|]; cbn; lia).
Qed.

Lemma tracks_snoc now ts h : tracks now ts h → tracks now (ts ++ [now]) (h ++ [now]).
Proof.
  intros (Hs & Hf & old & -> & Hold). split_and!.
  - induction Hs as [|t h Hs IH Ht]; [by repeat constructor|]. apply Forall_cons in Hf as [? Hf].
    cbn [app]. constructor; [by apply IH|]. apply Forall_app. split; [done|]. by repeat constructor.
  - apply Forall_app. split; [done|]. by repeat constructor.
  - exists old. by rewrite app_assoc.
Qed.

Definition limiter_inv (last : time) (st : list attempt * abuseLimiter) : Prop :=
  ∀ tenant ip, nul_free ip → tracks last (admissions tenant ip st.1) (default [] (st.2 !! key tenant ip)).

Lemma admissions_snoc tenant ip l a :
  admissions tenant ip (l ++ [a]) =
  admissions tenant ip l ++
    (if decide (atTenant a = tenant ∧ atIP a = ip ∧ (0 < atLimit a)%Z) then [atTime a] else []).
Proof.
  unfold admissions. rewrite List.filter_app, fmap_app. f_equal. cbn [List.filter].
  case_bool_decide; case_decide; done.
Qed.

(** What one check decides and leaves, in terms of the admissions. *)
Lemma check_tracks last tenant ip limit now l ts :
  tracks last ts (default [] (l !! key tenant ip)) → (last ≤ now)%Z → (0 < limit)%Z →
  let '(ok, retry, l') := check tenant ip limit now l in
  (ok = true ↔ (Z.of_nat (in_window now ts) < limit)%Z) ∧
  (ok = false → Second ≤ retry ≤ rateLimitWindow)%Z ∧
  ∃ h, l' = <[key tenant ip := h]> l ∧ tracks now (if ok then ts ++ [now] else ts) h.
Proof.
  intros Ht Hle Hl. unfold check. destruct (Z.leb_spec limit 0); [lia|]. cbv zeta.
  rewrite trim_recent by apply Ht. set (h := Lockout.recent rateLimitWindow now (default [] (l !! key tenant ip))).
  assert (Hw : in_window now ts = length h) by (unfold in_window; by rewrite (tracks_recent _ _ _ _ Ht Hle)).
  pose proof (tracks_trim _ _ _ _ Ht Hle) as Hh. fold h in Hh. rewrite Hw.
  destruct (Z.leb_spec limit (Z.of_nat (length h))) as [Hge|Hlt].
  - split; [split; [done|lia]|]. split; [|by exists h].
    intros _. destruct h as [|t0 h'] eqn:E; [cbn in Hge; lia|]. cbn [head default from_option id].
    assert (Hin : t0 ∈ Lockout.recent rateLimitWindow now (default [] (l !! key tenant ip)))
      by (fold h; rewrite E; set_solver).
    unfold Lockout.recent in Hin. apply list_elem_of_In, List.filter_In in Hin as [_ Hlo%Z.leb_le].
    destruct Hh as (_ & [Hhi _]%Forall_cons & _).
    assert (Hsub : time_sub now t0 = (now - t0)%Z).
    { unfold time_sub, rateLimitWindow, Hour, max_int64, min_int64 in *. cbv zeta.
      repeat case_match; lia. }
    rewrite Hsub, wrap64_id by (unfold in_int64, min_int64, max_int64, rateLimitWindow, Hour in *; lia).
    unfold rateLimitWindow, Hour, Second in *. case_match; lia.
  - split; [split; [lia|done]|]. split; [done|]. exists (h ++ [now]). split; [done|]. by apply tracks_snoc.
Qed.

Lemma limiter_step_inv last st a :
  limiter_inv last st → (last ≤ atTime a)%Z → nul_free (atIP a) →
  limiter_inv (atTime a) (limiter_step st a).
Proof.
  intros Hi Hle Hip tenant ip Hnul. unfold limiter_step.
  destruct (Z.leb_spec (atLimit a) 0) as [Hl|Hl].
  - unfold check. destruct (Z.leb_spec (atLimit a) 0); [|lia]. cbn [fst snd].
    rewrite admissions_snoc, decide_False, app_nil_r by lia. by eapply tracks_mono; [apply Hi|].
  - pose proof (check_tracks last (atTenant a) (atIP a) (atLimit a) (atTime a) st.2 _
                  (Hi _ _ Hip) Hle Hl) as Hc.
    destruct (check _ _ _ _ st.2) as [[ok retry] l']. destruct Hc as (_ & _ & h & -> & Hh). cbn [fst snd].
    destruct (decide (atTenant a = tenant ∧ atIP a = ip)) as [[<- <-]|Hne].
    + rewrite lookup_insert_eq. cbn [default from_option id]. destruct ok; [|done].
      by rewrite admissions_snoc, decide_True.
    + rewrite lookup_insert_ne by (intros [? ?]%key_inj; naive_solver).
      assert (Ha : admissions tenant ip (if ok then st.1 ++ [a] else st.1) = admissions tenant ip st.1).
      { destruct ok; [|done]. rewrite admissions_snoc, decide_False by naive_solver. by rewrite app_nil_r. }
      rewrite Ha. by eapply tracks_mono; [apply Hi|].
Qed.

(** Attempts in order of time, with the hexadecimal address digests. *)
Definition orderly (l : list attempt) (now : time) : Prop :=
  StronglySorted Z.le ((atTime <$> l) ++ [now]) ∧ Forall (λ a, nul_free (atIP a)) l.

Lemma limiter_run_inv l now : orderly l now → limiter_inv now (limiter_run l).
Proof.
  revert now. induction l as [|a l IH] using rev_ind; intros now [Hs Hn].
  - intros tenant ip _. change (limiter_run []) with ([] : list attempt, newAbuseLimiter).
    unfold newAbuseLimiter. cbn [fst snd]. rewrite lookup_empty. cbn.
    split_and!; [constructor|constructor|]. exists []. by split; [|constructor].
  - unfold limiter_run. rewrite foldl_app. cbn [foldl]. fold (limiter_run l).
    apply Forall_app in Hn as [Hn [Ha _]%Forall_cons].
    rewrite fmap_app in Hs. cbn [fmap list_fmap] in Hs. rewrite <- app_assoc in Hs.
    assert (Hall : limiter_inv (atTime a) (limiter_step (limiter_run l) a)).
    { apply (limiter_step_inv (atTime a)); [|lia|done]. apply IH. split; [|done].
      rewrite app_assoc in Hs. by apply StronglySorted_app_1_l in Hs. }
    intros tenant ip Hip. eapply tracks_mono; [by apply Hall|].
    apply StronglySorted_app_1_r in Hs. cbn [app] in Hs. inversion Hs as [|?? _ Hf]. by inversion Hf.
Qed.

(** The limiter decides like a full history. After any attempts in order
    of time, one more of a client is admitted exactly when fewer than [limit]
    of its attempts were admitted in the last hour, however the table was
    trimmed and whatever other clients and tenants did; a rejected client is
    told to come back after at least a second and at most an hour. *)
Theorem abuse_limiter_exact l tenant ip limit now :
  orderly l now → nul_free ip → (0 < limit)%Z →
  let '(ok, retry, _) := check tenant ip limit now (limiter_run l).2 in
  (ok = true ↔ (Z.of_nat (in_window now (admissions tenant ip (limiter_run l).1)) < limit)%Z) ∧
  (ok = false → Second ≤ retry ≤ Hour)%Z.
Proof.
  intros Ho Hip Hl. pose proof (limiter_run_inv l now Ho tenant ip Hip) as Ht.
  pose proof (check_tracks now tenant ip limit now _ _ Ht ltac:(lia) Hl) as Hc.
  destruct (check _ _ _ _ _) as [[ok retry] l']. destruct Hc as (? & ? & _). done.
Qed.

(** The admissions of the hour that ends at [t]. *)
Definition within (t : time) (ts : list time) : list time :=
  List.filter (λ x, Z.leb (t - rateLimitWindow) x && Z.leb x t)%bool ts.

Lemma within_recent s t ts : (s ≤ t)%Z → length (within t ts) ≤ in_window s ts.
Proof.
  intros Hst. unfold within, in_window, Lockout.recent. induction ts as [|x ts IH]; [done|]. cbn [List.filter].
  destruct (Z.leb_spec (t - rateLimitWindow) x), (Z.leb_spec x t), (Z.leb_spec (s - rateLimitWindow) x);
    cbn [andb length]; lia.
Qed.

Lemma run_snoc l a : limiter_run (l ++ [a]) = limiter_step (limiter_run l) a.
Proof. unfold limiter_run. by rewrite foldl_app. Qed.

Lemma orderly_snoc l a now : orderly (l ++ [a]) now → orderly l (atTime a).
Proof.
  intros [Hs Hn]. apply Forall_app in Hn as [Hn _]. split; [|done].
  rewrite fmap_app in Hs. cbn [fmap list_fmap] in Hs. by apply StronglySorted_app_1_l in Hs.
Qed.

(** No client exceeds its hourly limit: with one limit [n] for a client
    throughout, no hour, wherever it starts, holds more than [n] admitted
    attempts of it. *)
Theorem abuse_rate_bounded l now tenant ip n t :
  orderly l now → nul_free ip → (0 < n)%Z →
  Forall (λ a, atTenant a = tenant → atIP a = ip → atLimit a = n) l →
  (Z.of_nat (length (within t (admissions tenant ip (limiter_run l).1))) ≤ n)%Z.
Proof.
  intros Ho Hip Hn. revert now Ho. induction l as [|a l IH] using rev_ind; intros now Ho Hl; [cbn; lia|].
  apply Forall_app in Hl as [Hl [Ha _]%Forall_cons]. pose proof (orderly_snoc _ _ _ Ho) as Ho'.
  specialize (IH _ Ho' Hl). rewrite run_snoc. unfold limiter_step.
  pose proof (limiter_run_inv l _ Ho' tenant ip Hip) as Ht.
  destruct (decide (atTenant a = tenant ∧ atIP a = ip)) as [[H1 H2]|Hne].
  - specialize (Ha H1 H2).
    pose proof (check_tracks (atTime a) tenant ip n (atTime a) _ _ Ht ltac:(lia) Hn) as Hc.
    rewrite H1, H2, Ha. destruct (check _ _ _ _ _) as [[ok r] l']. destruct Hc as ([Hok _] & _ & _).
    destruct ok; cbn [fst]; [|done]. specialize (Hok eq_refl).
    rewrite admissions_snoc, decide_True by (split_and!; [done|done|lia]).
    unfold within. rewrite List.filter_app, length_app. fold (within t (admissions tenant ip (limiter_run l).1)).
    cbn [List.filter]. destruct (Z.leb_spec (t - rateLimitWindow) (atTime a)), (Z.leb_spec (atTime a) t);
      cbn [andb length]; [|lia..].
    pose proof (within_recent (atTime a) t (admissions tenant ip (limiter_run l).1) ltac:(lia)). lia.
  - destruct (check _ _ _ _ _) as [[ok r] l']. cbn [fst]. destruct ok; [|done].
    rewrite admissions_snoc, decide_False by naive_solver. by rewrite app_nil_r.
Qed.

(** The table never loses a client: a key stays, even when its window is
    empty, however much time passes and whatever else happens. *)
Theorem abuse_table_grows l l' k :
  is_Some ((limiter_run l).2 !! k) → is_Some ((limiter_run (l ++ l')).2 !! k).
Proof.
  intros Hk. induction l' as [|a l' IH] using rev_ind; [by rewrite app_nil_r|].
  rewrite app_assoc, run_snoc. unfold limiter_step, check. cbv zeta.
  repeat case_match; simplify_eq/=; try done; (apply lookup_insert_is_Some'; by right).
Qed.

(** * Reports and the log *)

Section log.
Context `{GoUnicode} `{AbuseJSON} (sha256 : gostring → gostring).

(** The rules a logged report satisfies. *)
Record report_ok (fields : gset gostring) (r : Report) : Prop := {
  ok_required : ∀ name v, (name, v) ∈ zip known_fields [rpOnion r; rpReason r; rpContact r; rpDetails r] →
                name ∈ fields → v ≠ [];
  ok_onion : rpOnion r ≠ [] →
    HasSuffix (ToLower (rpOnion r)) onionSuffix = true ∧ (62 ≤ len (ToLower (rpOnion r)) ≤ 64)%Z;
  ok_lengths : (len (rpReason r) ≤ 2000 ∧ len (rpContact r) ≤ 200 ∧ len (rpDetails r) ≤ 4000)%Z
}.

Lemma first_of_None l : first_of l = None ↔ Forall (λ o, o = None) l.
Proof.
  unfold first_of. induction l as [|[e|] l IH]; cbn; [done| |].
  - split; [done|]. by intros [? _]%Forall_cons.
  - rewrite Forall_cons, IH. naive_solver.
Qed.

Lemma required_None fields name v : required fields name v = None ↔ (name ∈ fields → v ≠ []).
Proof. unfold required. case_decide; naive_solver. Qed.

Lemma check_onion_None s :
  check_onion s = None ↔
  (s ≠ [] → HasSuffix (ToLower s) onionSuffix = true ∧ (62 ≤ len (ToLower s) ≤ 64)%Z).
Proof.
  unfold check_onion. case_decide; [naive_solver|]. cbv zeta.
  assert (Hl : len onionSuffix = 6%Z) by done. rewrite Hl. unfold maxOnionMin, maxOnionMax.
  destruct (HasSuffix _ _); cbn [negb]; [|naive_solver].
  destruct (Z.ltb_spec (len (ToLower s) - 6) 56), (Z.ltb_spec 58 (len (ToLower s) - 6)); cbn [orb];
    (split; intros Hx; [first [done|intros _; split; [done|lia]]|first [done|destruct (Hx ltac:(done)) as [_ ?]; lia]]).
Qed.

Lemma check_reason_None s : check_reason s = None ↔ (len s ≤ 2000)%Z.
Proof.
  unfold check_reason, maxReasonMin, maxReasonMax. case_decide as Hs; [subst; by cbn|].
  assert (1 ≤ len s)%Z by (unfold len; destruct s; [done|cbn [length]; lia]).
  destruct (Z.ltb_spec (len s) 1); [lia|]. destruct (Z.ltb_spec 2000 (len s)); cbn [orb]; split; (done || lia).
Qed.

Lemma validateReport_None r fields : validateReport r fields = None ↔ report_ok fields r.
Proof.
  unfold validateReport. rewrite first_of_None, !Forall_cons, !required_None, check_onion_None, check_reason_None.
  unfold maxContactMax, maxDetailsMax.
  assert (Hif : ∀ a b (e : report_error), (if Z.ltb a b then Some e else None) = None ↔ (b ≤ a)%Z).
  { intros a b e. destruct (Z.ltb_spec a b); split; (done || lia). }
  rewrite !Hif. split.
  - intros (H1 & H2 & H3 & H4 & H5 & H6 & H7 & H8 & _). split; [|done|done].
    unfold known_fields. cbn [zip zip_with]. intros name v. rewrite !elem_of_cons, elem_of_nil. naive_solver.
  - intros [Hr Ho (? & ? & ?)]. split_and!; try done; apply Hr; unfold known_fields; cbn [zip zip_with]; set_solver.
Qed.

(** The report a body carries when nothing is wrong with it. *)
Definition accepted (p : params) (body : InBody) (rep : Report) : Prop :=
  ∃ bytes raw, read_limited (maxBodyBytes + 1) body = Some bytes ∧ (len bytes ≤ maxBodyBytes)%Z ∧
    report_unmarshal bytes = Some raw ∧ rep = trimmed raw ∧ report_ok (requireFields p) rep.

Definition disk (f : AbuseFeature) : gostring := match afStore f with Some s => stDisk s | None => [] end.

Definition stamp (now3 : time) (e : Entry) : Entry :=
  if IsZero (Timestamp e)
  then mkEntry now3 (enTenant e) (ClientIPHash e) (enOnion e) (enReason e) (enContact e) (enDetails e) else e.

(** What accept does: a 204 with one more line, or another status. *)
Lemma accept_spec now2 now3 io h body tenant ipHash p f :
  let '(resp, f') := accept now2 now3 io h body tenant ipHash p f in
  mHeader resp = h ∧ (mBody resp = [] ∨ mBody resp = genericValidationMsg) ∧
  limiter f' = limiter f ∧ salt f' = salt f ∧
  ((mStatus resp = StatusNoContent ∧ io = None ∧
    ∃ rep line s, accepted p body rep ∧ afStore f = Some s ∧ stOpen s = true ∧
      entry_marshal (stamp now3 (entry_for now2 tenant ipHash rep)) = Some line ∧
      afStore f' = Some (mkStore (stPath s) (stDisk s ++ line ++ [LF]) true)) ∨
   (mStatus resp ≠ StatusNoContent ∧
    ((io = None ∨ io = Some 0) → afStore f' = afStore f))).
Proof.
  unfold accept. destruct (read_limited _ body) as [bytes|] eqn:Er; [|by split_and!; auto].
  destruct (Z.ltb_spec maxBodyBytes (len bytes)) as [|Hlen]; [by split_and!; auto|].
  destruct (report_unmarshal bytes) as [raw|] eqn:Eu; [|by split_and!; auto].
  cbv zeta. destruct (validateReport (trimmed raw) (requireFields p)) eqn:Ev; [by split_and!; auto|].
  destruct (afStore f) as [s|] eqn:Es; [|by split_and!; auto].
  unfold Append. destruct (stOpen s) eqn:Eo; cbn [negb].
  2:{ cbn. by split_and!; auto. }
  fold (stamp now3 (entry_for now2 tenant ipHash (trimmed raw))).
  destruct (entry_marshal _) as [line|] eqn:Em; [|by cbn; split_and!; auto].
  cbv zeta. destruct io as [n|]; cbn; split_and!; auto.
  - right. split; [done|]. intros [[=]|[= ->]]. rewrite take_0, app_nil_r. destruct s; cbn in *. by subst.
  - left. split_and!; [done|done|]. exists (trimmed raw), line, s. split_and!; try done.
    exists bytes, raw. split_and!; try done. by apply validateReport_None.
Qed.

(** One call of the middleware with everything it reads. *)
Record call := mkCall {
  clSnap : snapshotState;
  clCtx : Context;
  clNow : time; clNow2 : time; clNow3 : time;
  clIO : option nat;
  clHeader : mheader;
  clReq : Request;
  clBody : InBody
}.

Definition serve (f : AbuseFeature) (q : call) : option MResponse * AbuseFeature :=
  Middleware sha256 f (clSnap q) (clCtx q) (clNow q) (clNow2 q) (clNow3 q) (clIO q) (clHeader q)
    (clReq q) (clBody q).

Definition clTenant (q : call) : gostring :=
  match TenantFromContext (clCtx q) with Some t => ToLower (tsHost t) | None => [] end.

Definition is_204 (o : option MResponse) : bool :=
  match o with Some resp => Z.eqb (mStatus resp) StatusNoContent | None => false end.

(** The state after the calls, and the calls that were answered 204. *)
Fixpoint serve_all (f : AbuseFeature) (qs : list call) : AbuseFeature :=
  match qs with [] => f | q :: qs' => serve_all (serve f q).2 qs' end.

Fixpoint confirmed (f : AbuseFeature) (qs : list call) : list call :=
  match qs with
  | [] => []
  | q :: qs' => (if is_204 (serve f q).1 then [q] else []) ++ confirmed (serve f q).2 qs'
  end.

(** The line that a confirmed call stands for. *)
Definition line_of (sl : gostring) (q : call) (line : gostring) : Prop :=
  ∃ p rep t, parseParams (Resolve (clSnap q) (clCtx q) FeatureName) = Ok p ∧
    Path (clReq q) = paPath p ∧ accepted p (clBody q) rep ∧
    entry_marshal (entry_for t (clTenant q) (hex_encode (sha256 (extractClientIP (clReq q) ++ sl))) rep)
    = Some line.

Lemma stamp_entry now3 now2 tenant ip rep :
  ∃ t, stamp now3 (entry_for now2 tenant ip rep) = entry_for t tenant ip rep.
Proof. unfold stamp. destruct (IsZero _); eauto. Qed.

Lemma serve_spec f q :
  (clIO q = None ∨ clIO q = Some 0) →
  salt (serve f q).2 = salt f ∧
  (if is_204 (serve f q).1
   then ∃ line, line_of (salt f) q line ∧ disk (serve f q).2 = disk f ++ line ++ [LF]
   else disk (serve f q).2 = disk f).
Proof.
  intros Hio. unfold serve, Middleware. cbv zeta.
  destruct (afEnabled f); cbn [negb]; [|done].
  destruct (fsEnabled _); cbn [negb]; [|done].
  destruct (parseParams _) as [p|] eqn:Ep; [|done].
  destruct (paEnabled p); cbn [negb]; [|done].
  case_bool_decide as Hpath; cbn [negb]; [|done].
  fold (clTenant q). unfold handle. cbv zeta.
  destruct (negb _); [done|].
  destruct (check _ _ _ _ _) as [[ok retry] l]. destruct ok; cbn [negb]; [|done].
  pose proof (accept_spec (clNow2 q) (clNow3 q) (clIO q) (base_headers (clHeader q)) (clBody q) (clTenant q)
    (hashIP sha256 f (extractClientIP (clReq q))) p (with_limiter l f)) as Ha.
  destruct (accept _ _ _ _ _ _ _ p _) as [resp f'].
  destruct Ha as (_ & _ & _ & Hsalt & [(Hst & _ & rep & line & s & Hacc & Hs & _ & Hm & Hs')|[Hst Hkeep]]);
    cbn [fst snd is_204]; (split; [done|]).
  - rewrite Hst. cbn. destruct (stamp_entry (clNow3 q) (clNow2 q) (clTenant q)
      (hashIP sha256 f (extractClientIP (clReq q))) rep) as [t Ht]. rewrite Ht in Hm.
    exists line. split; [by exists p, rep, t|]. unfold disk. rewrite Hs'. cbn in Hs. by rewrite Hs.
  - destruct (Z.eqb_spec (mStatus resp) StatusNoContent); [done|]. unfold disk. by rewrite Hkeep.
Qed.

Lemma Split_line s rest : LF ∉ s → Split (s ++ LF :: rest) LF = s :: Split rest LF.
Proof.
  induction s as [|c s IH]; intros Hn; cbn [app Split]; [by rewrite decide_True|].
  rewrite decide_False by set_solver. by rewrite IH by set_solver.
Qed.

Fixpoint unlines (l : list gostring) : gostring :=
  match l with [] => [] | s :: l' => s ++ LF :: unlines l' end.

Lemma serve_all_log f qs :
  Forall (λ q, clIO q = None ∨ clIO q = Some 0) qs →
  ∃ lines, Forall2 (line_of (salt f)) (confirmed f qs) lines ∧
    disk (serve_all f qs) = disk f ++ unlines lines.
Proof.
  intros Hq. revert f. induction Hq as [|q qs Hio _ IH]; intros f; cbn [serve_all confirmed].
  { exists []. by rewrite app_nil_r. }
  destruct (serve_spec f q Hio) as [Hsalt Hd]. destruct (IH (serve f q).2) as (lines & Hl & ->).
  rewrite Hsalt in Hl. destruct (is_204 (serve f q).1).
  - destruct Hd as (line & Hline & ->). exists (line :: lines). split; [by constructor|].
    cbn [unlines]. by rewrite <- !app_assoc.
  - exists lines. by rewrite Hd.
Qed.

(** The report log holds exactly the confirmed reports. Whatever requests
    arrive at an empty log, and as long as a failing write leaves nothing
    behind, the file consists of one line per request that was answered 204,
    in that order; each line encodes a report that passed every rule of the
    tenant's configuration, with the digest of the client address and never
    the address itself; cutting the file at its newlines gives the lines back. *)
Theorem abuse_log_exact `{!AbuseJSONLaws} f qs :
  Forall (λ q, clIO q = None ∨ clIO q = Some 0) qs → disk f = [] →
  ∃ lines, Forall2 (line_of (salt f)) (confirmed f qs) lines ∧
    Split (disk (serve_all f qs)) LF = lines ++ [[]].
Proof.
  intros Hq Hf. destruct (serve_all_log f qs Hq) as (lines & Hl & Hd). exists lines. split; [done|].
  rewrite Hd, Hf. cbn [app]. clear Hd Hf Hq.
  induction Hl as [|q line qs' lines (p & rep & t & _ & _ & _ & Hm) _ IH]; [done|].
  cbn [unlines]. rewrite Split_line by (by eapply marshal_one_line). by rewrite IH.
Qed.
End log.

(** * Examples *)

Definition ab_ip : gostring := $"c0ffee".
Definition ab_at (t : time) : attempt := mkAttempt $"a" ab_ip 2 t.
Definition ab_trace : list attempt := [ab_at 0; ab_at Second; ab_at (2 * Second)].

Lemma ab_orderly now : (2 * Second ≤ now)%Z → orderly ab_trace now.
Proof.
  intros Hn. unfold Second in Hn. split; [cbn; unfold Second; repeat constructor; lia|].
  repeat constructor; unfold nul_free; decide_now.
Qed.

(** Two of the first three attempts are admitted; the next one is rejected
    within the hour and admitted when the first has left the window. *)
Lemma abuse_limiter_exact_witness :
  (check $"a" ab_ip 2 (3 * Second) (limiter_run ab_trace).2).1.1 = false ∧
  (check $"a" ab_ip 2 (Hour + Second) (limiter_run ab_trace).2).1.1 = true.
Proof.
  assert (H1 := abuse_limiter_exact ab_trace $"a" ab_ip 2 (3 * Second)
    (ab_orderly (3 * Second) ltac:(unfold Second; lia)) ltac:(unfold nul_free; decide_now) ltac:(done)).
  assert (H2 := abuse_limiter_exact ab_trace $"a" ab_ip 2 (Hour + Second)
    (ab_orderly (Hour + Second) ltac:(unfold Second, Hour; lia)) ltac:(unfold nul_free; decide_now) ltac:(done)).
  split.
  - destruct (check _ _ _ (3 * Second) _) as [[ok ?] ?]. destruct H1 as [[H1 _] _]. destruct ok; [|done].
    specialize (H1 eq_refl).
    assert (Hn : in_window (3 * Second) (admissions $"a" ab_ip (limiter_run ab_trace).1) = 2)
      by (vm_compute; reflexivity).
    rewrite Hn in H1. discriminate H1.
  - destruct (check _ _ _ (Hour + Second) _) as [[ok ?] ?]. destruct H2 as [[_ H2] _]. apply H2.
    assert (Hn : in_window (Hour + Second) (admissions $"a" ab_ip (limiter_run ab_trace).1) = 1)
      by (vm_compute; reflexivity).
    rewrite Hn. reflexivity.
Defined.

Lemma abuse_rate_bounded_witness :
  (Z.of_nat (length (within (2 * Second) (admissions $"a" ab_ip (limiter_run ab_trace).1))) ≤ 2)%Z.
Proof.
  apply (abuse_rate_bounded ab_trace (2 * Second)).
  - apply ab_orderly. done.
  - unfold nul_free. decide_now.
  - done.
  - by repeat constructor.
Defined.

(** A codec that logs the reason of a report. *)
#[local] Instance ab_json : AbuseJSON := {
  entry_marshal e := if decide (LF ∈ enReason e) then None else Some (enReason e);
  report_unmarshal s := Some (mkReport [] s [] [])
}.

#[local] Instance ab_json_laws : AbuseJSONLaws.
Proof. split. intros e s. unfold entry_marshal, ab_json. case_decide; [done|]. by intros [= <-]. Qed.

#[local] Instance ab_unicode : GoUnicode := {|
  unicode_lower s := s; unicode_upper s := s; unicode_trim s := s |}.

Definition ab_snap : snapshotState :=
  mkSnapshotState {[ FeatureName := mkFeatureSnapshot true {[ $"require_fields" := JArray [] ]} 1 ]} ∅.
Definition ab_feature : AbuseFeature :=
  mkAbuseFeature true ∅ (Some (mkStore $"log" [] true)) newAbuseLimiter [].
Definition ab_call (method body : gostring) (io : option nat) : call :=
  mkCall ab_snap None 0 0 0 io ∅ (mkRequest method $"/_abuse" [] [] $"a" $"[::1]:80" ∅ ∅) (mkInBody body false).
Definition ab_calls : list call :=
  [ab_call MethodPost $"spam" None; ab_call MethodGet $"x" None; ab_call MethodPost $"y" (Some 0);
   ab_call MethodPost $"scam" None].

(** Of four requests, one has the wrong method and one meets a full disk. *)
Lemma abuse_log_exact_witness :
  ∃ lines, Forall2 (line_of id []) (confirmed id ab_feature ab_calls) lines ∧
    Split (disk (serve_all id ab_feature ab_calls)) LF = lines ++ [[]] ∧ length lines = 2.
Proof.
  destruct (abuse_log_exact id ab_feature ab_calls) as (lines & Hl & Hs).
  - repeat apply Forall_cons_2; [by left|by left|by right|by left|apply Forall_nil_2].
  - reflexivity.
  - exists lines. split; [exact Hl|]. split; [exact Hs|].
    rewrite <- (Forall2_length _ _ _ Hl). vm_compute. reflexivity.
Defined.
