(* ===== verification/Headers.v ===== *)
(** The header-rewriting feature (src/internal/feature/headers/headers.go and
    template.go): value templates, compiled rules, reload, the rewriting of
    requests and the response writer that rewrites responses.

    Randomness is a sequence of request identifiers, of which [n] are used up;
    the clock and its RFC 3339 format are parameters. *)

From S2P Require Import Prelude Http Metrics Shared FeatureRegistry GoStd.

(** * Templates *)

Definition varClientIP : gostring := $"client_ip".
Definition varTenantHost : gostring := $"tenant_host".
Definition varRequestID : gostring := $"request_id".
Definition varNowRFC3339 : gostring := $"now_rfc3339".
Definition varHeaderPrefix : gostring := $"header:".

(** [kindLiteral] and [kindVar]. *)
Inductive templatePart :=
| Lit (literal : gostring)
| Var (name hdr : gostring).

Record Template := mkTemplate { fastPath : gostring; parts : list templatePart }.

Inductive template_error := ErrUnterminated | ErrEmptyVariable | ErrEmptyHeader | ErrUnknownVariable.

(** strings.Index. *)
Fixpoint Index (s sub : gostring) : option nat :=
  if HasPrefix s sub then Some 0
  else match s with [] => None | _ :: s' => S <$> Index s' sub end.

Definition open2 : gostring := $"{{".
Definition close2 : gostring := $"}}".

Section templates.
Context `{GoUnicode}.

Definition parseVar (name : gostring) : result template_error templatePart :=
  if decide (name ∈ [varClientIP; varTenantHost; varRequestID; varNowRFC3339]) then Ok (Var name [])
  else if HasPrefix name varHeaderPrefix then
    let h := TrimSpace (TrimPrefix name varHeaderPrefix) in
    if decide (h = []) then Err ErrEmptyHeader else Ok (Var varHeaderPrefix h)
  else Err ErrUnknownVariable.

(** The loop of Parse on what is left of the input. *)
Fixpoint parse_parts (fuel : nat) (s : gostring) : result template_error (list templatePart) :=
  match fuel with
  | 0 => Ok []
  | S n =>
      if decide (s = []) then Ok []
      else match Index s open2 with
      | None => Ok [Lit s]
      | Some o =>
          let pre := if Nat.ltb 0 o then [Lit (take o s)] else [] in
          match Index (drop o s) close2 with
          | None => Err ErrUnterminated
          | Some c =>
              let varName := TrimSpace (take (c - 2) (drop (o + 2) s)) in
              if decide (varName = []) then Err ErrEmptyVariable
              else
                let* part := parseVar varName in
                let* rest := parse_parts n (drop (o + c + 2) s) in
                Ok (pre ++ part :: rest)
          end
      end
  end.

Definition Parse (s : gostring) : result template_error Template :=
  if decide (s = []) then Ok (mkTemplate [] [])
  else
    let* ps := parse_parts (length s) s in
    match ps with
    | [Lit l] => Ok (mkTemplate l [])
    | [] => Ok (mkTemplate [] [])
    | _ => Ok (mkTemplate [] ps)
    end.
End templates.

(** * Rendering *)

Record RenderCtx := mkRenderCtx {
  rcClientIP : gostring;
  rcTenantHost : gostring;
  rcRequestID : gostring;
  rcReq : option mheader;
  rcNow : time
}.

(** newRequestID: eight random bytes, or the clock when there are none. *)
Definition newRequestID (rnd : option gostring) (ns : Z) : gostring :=
  hex_encode (match rnd with
              | Some b => b
              | None => (λ i, ascii_of_N (Z.to_N (Z.land (Z.shiftr ns (Z.of_nat i * 8)) 255))) <$> seq 0 8
              end).

Section rendering.
Context (ids : nat → gostring) (clock : time) (rfc3339 : time → gostring).

(** One part, with the number of identifiers used before and after. *)
Definition render_part (ctx : RenderCtx) (p : templatePart) (n : nat) : gostring * nat :=
  match p with
  | Lit l => (l, n)
  | Var name h =>
      if decide (name = varClientIP) then (rcClientIP ctx, n)
      else if decide (name = varTenantHost) then (rcTenantHost ctx, n)
      else if decide (name = varRequestID) then
        if decide (rcRequestID ctx = []) then (ids n, S n) else (rcRequestID ctx, n)
      else if decide (name = varNowRFC3339) then
        (rfc3339 (if IsZero (rcNow ctx) then clock else rcNow ctx), n)
      else if decide (name = varHeaderPrefix) then
        match rcReq ctx with Some hd => if decide (h = []) then ([], n) else (mh_get hd h, n) | None => ([], n) end
      else ([], n)
  end.

Fixpoint render_parts (ctx : RenderCtx) (ps : list templatePart) (n : nat) : gostring * nat :=
  match ps with
  | [] => ([], n)
  | p :: ps' =>
      let '(s, n1) := render_part ctx p n in
      let '(s', n2) := render_parts ctx ps' n1 in (s ++ s', n2)
  end.

Definition Render (ctx : RenderCtx) (t : Template) (n : nat) : gostring * nat :=
  if decide (parts t = []) then (fastPath t, n) else render_parts ctx (parts t) n.
End rendering.

(** * Rules *)

Definition FeatureName : gostring := $"proxy_headers".
Definition globalTenantKey : gostring := $"_global_".

Record addEntry := mkaddEntry { aeName : gostring; aeValue : Template }.

Record tenantRules := mktenantRules {
  stripUpstream : gset gostring;
  addUpstream : list addEntry;
  stripDownstream : gset gostring;
  addDownstream : list addEntry
}.

(** [tr.empty()], also of the nil pointer. *)
Definition rules_empty (tr : option tenantRules) : bool :=
  match tr with
  | None => true
  | Some t => bool_decide (stripUpstream t = ∅ ∧ addUpstream t = [] ∧
                           stripDownstream t = ∅ ∧ addDownstream t = [])
  end.

Inductive rule_error :=
| ErrExpectedString | ErrExpectedList | ErrExpectedMap | ErrNameEmpty | ErrMissingValue
| ErrTemplate (e : template_error).

Definition asString (v : json) : result rule_error gostring :=
  match v with JString s => Ok s | JNull => Ok [] | _ => Err ErrExpectedString end.

Fixpoint asStrings (l : list json) : result rule_error (list gostring) :=
  match l with
  | [] => Ok []
  | x :: l' => let* s := asString x in let* r := asStrings l' in Ok (s :: r)
  end.

Definition asStringSlice (v : json) : result rule_error (list gostring) :=
  match v with JArray l => asStrings l | JNull => Ok [] | _ => Err ErrExpectedList end.

Section rules.
Context `{GoUnicode}.

Fixpoint strip_names (l : list gostring) : result rule_error (gset gostring) :=
  match l with
  | [] => Ok ∅
  | name :: l' =>
      let name := TrimSpace name in
      if decide (name = []) then Err ErrNameEmpty
      else let* r := strip_names l' in Ok ({[CanonicalHeaderKey name]} ∪ r)
  end.

Definition parseStripList (p : gmap gostring json) (k : gostring) : result rule_error (gset gostring) :=
  match p !! k with
  | None => Ok ∅
  | Some raw => let* items := asStringSlice raw in strip_names items
  end.

Fixpoint as_maps (l : list json) : result rule_error (list (list (gostring * json))) :=
  match l with
  | [] => Ok []
  | JObject m :: l' => let* r := as_maps l' in Ok (m :: r)
  | _ :: _ => Err ErrExpectedMap
  end.

Definition compile_entry (m : list (gostring * json)) : result rule_error addEntry :=
  let* name := asString (default JNull (field m $"name")) in
  let name := TrimSpace name in
  if decide (name = []) then Err ErrNameEmpty
  else match field m $"value" with
  | None => Err ErrMissingValue
  | Some raw =>
      let* value := asString raw in
      match Parse value with
      | Err e => Err (ErrTemplate e)
      | Ok tpl => Ok (mkaddEntry (CanonicalHeaderKey name) tpl)
      end
  end.

Fixpoint compile_entries (l : list (list (gostring * json))) : result rule_error (list addEntry) :=
  match l with
  | [] => Ok []
  | m :: l' => let* e := compile_entry m in let* r := compile_entries l' in Ok (e :: r)
  end.

Definition parseAddList (p : gmap gostring json) (k : gostring) : result rule_error (list addEntry) :=
  match p !! k with
  | None => Ok []
  | Some (JArray l) => let* ms := as_maps l in compile_entries ms
  | Some _ => Err ErrExpectedList
  end.

(** compileCfg; None are the nil rules of a disabled snapshot without
    parameters. *)
Definition compileCfg (cfg : FeatureSnapshot) : result rule_error (option tenantRules) :=
  if (negb (fsEnabled cfg) && bool_decide (fsParams cfg = ∅))%bool then Ok None
  else
    let* su := parseStripList (fsParams cfg) $"strip_upstream" in
    let* sd := parseStripList (fsParams cfg) $"strip_downstream" in
    let* au := parseAddList (fsParams cfg) $"add_upstream" in
    let* ad := parseAddList (fsParams cfg) $"add_downstream" in
    Ok (Some (mktenantRules su au sd ad)).

Definition Validate (cfg : FeatureSnapshot) : option rule_error :=
  match compileCfg cfg with Ok _ => None | Err e => Some e end.

Record HeadersFeature := mkHeadersFeature {
  hfEnabled : bool;
  compiled : gmap gostring tenantRules
}.

Definition New : HeadersFeature := mkHeadersFeature false ∅.

Definition rules_of (cfg : FeatureSnapshot) : option tenantRules :=
  match compileCfg cfg with Ok (Some r) => Some r | _ => None end.

(** The compiled rules with the flag of their snapshot, globals first. *)
Definition observed (g : GlobalsSnapshot) (ts : gmap gostring TenantSnapshot)
    : list (gostring * tenantRules * bool) :=
  let gcfg := default FeatureSnapshot_zero (g !! FeatureName) in
  match rules_of gcfg with Some r => [(globalTenantKey, r, fsEnabled gcfg)] | None => [] end
  ++ omap (λ ht, match tsFeatures ht.2 !! FeatureName with
                 | Some cfg => (λ r, (ToLower ht.1, r, fsEnabled cfg)) <$> rules_of cfg
                 | None => None
                 end) (map_to_list ts).

Definition Observe (g : GlobalsSnapshot) (ts : gmap gostring TenantSnapshot) (_ : HeadersFeature)
    : HeadersFeature :=
  mkHeadersFeature (existsb snd (observed g ts))
    (foldl (λ m e, <[e.1.1 := e.1.2]> m) ∅ (observed g ts)).

Definition rulesFor (f : HeadersFeature) (tenantKey : gostring) : option tenantRules :=
  match compiled f !! tenantKey with
  | Some r => Some r
  | None => compiled f !! globalTenantKey
  end.
End rules.

(** clientIP: what precedes the last colon, without brackets. *)
Definition clientIP (r : Request) : gostring :=
  match LastIndexByte (RemoteAddr r) colon with
  | None => RemoteAddr r
  | Some i =>
      let ip := take i (RemoteAddr r) in
      if bool_decide (2 ≤ length ip ∧ head ip = Some lbrack ∧ last ip = Some rbrack)
      then take (length ip - 2) (drop 1 ip) else ip
  end.

(** * Rewriting *)

Section rewriting.
Context `{GoUnicode} (ids : nat → gostring) (clock : time) (rfc3339 : time → gostring).

Definition with_id (id : gostring) (ctx : RenderCtx) : RenderCtx :=
  mkRenderCtx (rcClientIP ctx) (rcTenantHost ctx) id (rcReq ctx) (rcNow ctx).

Definition with_req (h : mheader) (ctx : RenderCtx) : RenderCtx :=
  mkRenderCtx (rcClientIP ctx) (rcTenantHost ctx) (rcRequestID ctx) (Some h) (rcNow ctx).

(** [if ctx.RequestID == "" { ctx.RequestID = newRequestID() }]. *)
Definition ensure_id (ctx : RenderCtx) (n : nat) : RenderCtx * nat :=
  if decide (rcRequestID ctx = []) then (with_id (ids n) ctx, S n) else (ctx, n).

Definition strip (names : gset gostring) (h : mheader) : mheader :=
  foldl (λ h k, mh_del k h) h (elements names).

(** [h.Set(e.name, e.value.Render(ctx))] for the entries of a response. *)
Fixpoint add_fixed (ctx : RenderCtx) (es : list addEntry) (h : mheader) (n : nat) : mheader * nat :=
  match es with
  | [] => (h, n)
  | e :: es' =>
      let '(v, n1) := Render ids clock rfc3339 ctx (aeValue e) n in
      add_fixed ctx es' (mh_set (aeName e) v h) n1
  end.

(** The same for a request, whose templates read the headers being changed. *)
Fixpoint add_request (ctx : RenderCtx) (es : list addEntry) (h : mheader) (n : nat) : mheader * nat :=
  match es with
  | [] => (h, n)
  | e :: es' =>
      let '(v, n1) := Render ids clock rfc3339 (with_req h ctx) (aeValue e) n in
      add_request ctx es' (mh_set (aeName e) v h) n1
  end.

(** applyRequest on the headers of the request; the context is a copy. *)
Definition applyRequest (rules : tenantRules) (ctx : RenderCtx) (h : mheader) (n : nat) : mheader * nat :=
  let '(ctx, n1) := ensure_id ctx n in
  add_request ctx (addUpstream rules) (strip (stripUpstream rules) h) n1.

(** responseWriter *)
Record rwriter := mkrwriter { rwUnder : NetWriter; rwWrote : bool; rwIds : nat }.

Definition applyDownstream (rules : tenantRules) (ctx : RenderCtx) (h : mheader) (n : nat) : mheader * nat :=
  let '(ctx, n1) := ensure_id ctx n in
  add_fixed ctx (addDownstream rules) (strip (stripDownstream rules) h) n1.

Definition rw_prepare (rules : tenantRules) (ctx : RenderCtx) (rw : rwriter) : rwriter :=
  if rwWrote rw then rw
  else
    let '(h, n) := applyDownstream rules ctx (nwHeader (rwUnder rw)) (rwIds rw) in
    mkrwriter (nw_header (λ _, h) (rwUnder rw)) true n.

Definition rw_on (f : NetWriter → NetWriter) (rw : rwriter) : rwriter :=
  mkrwriter (f (rwUnder rw)) (rwWrote rw) (rwIds rw).

Definition rw_WriteHeader (rules : tenantRules) (ctx : RenderCtx) (code : Z) (rw : rwriter) : rwriter :=
  rw_on (nw_WriteHeader code) (rw_prepare rules ctx rw).

Definition rw_Write (rules : tenantRules) (ctx : RenderCtx) (b : gostring) (rw : rwriter) : rwriter :=
  rw_on (nw_Write b) (rw_prepare rules ctx rw).

Definition rw_op (rules : tenantRules) (ctx : RenderCtx) (rw : rwriter) (o : wop) : rwriter :=
  match o with
  | WSet k v => rw_on (nw_header (mh_set k v)) rw
  | WAdd k v => rw_on (nw_header (mh_add k v)) rw
  | WDel k => rw_on (nw_header (mh_del k)) rw
  | WWriteHeader code => rw_WriteHeader rules ctx code rw
  | WWrite b => rw_Write rules ctx b rw
  end.

(** The middleware around a handler: [next] is what the handler does with its
    writer when the request has the given headers. The result is the headers
    the handler sees and the writer when it has returned. *)
Definition Middleware (f : HeadersFeature) (snap : snapshotState) (ctx : Context) (r : Request)
    (h : mheader) (next : mheader → list wop) (w : NetWriter) (n : nat) : mheader * NetWriter :=
  let pass h := (h, foldl nw_op w (next h)) in
  if negb (hfEnabled f) then pass h
  else if negb (fsEnabled (Resolve snap ctx FeatureName)) then pass h
  else
    let '(tenantKey, tenantHost) :=
      match TenantFromContext ctx with
      | Some t => if decide (tsHost t = []) then (globalTenantKey, []) else (ToLower (tsHost t), tsHost t)
      | None => (globalTenantKey, [])
      end in
    match rulesFor f tenantKey with
    | None => pass h
    | Some rules =>
        if rules_empty (Some rules) then pass h
        else
          let rctx := mkRenderCtx (clientIP r) tenantHost [] None time_zero in
          let '(h', n1) := applyRequest rules rctx h n in
          if bool_decide (stripDownstream rules = ∅ ∧ addDownstream rules = []) then pass h'
          else (h', rwUnder (foldl (rw_op rules (with_req h' rctx)) (mkrwriter w false n1) (next h')))
    end.
End rewriting.

(** * Templates mean what they say *)

Section template_theory.
Context `{GoUnicode}.

Lemma Index_Some s sub i : Index s sub = Some i → s = take i s ++ sub ++ drop (i + length sub) s.
Proof.
  revert i. induction s as [|c s IH]; intros i; cbn [Index].
  - destruct (HasPrefix [] sub) eqn:E; [|done]. intros [= <-]. apply HasPrefix_spec in E as [r Hr].
    destruct sub; [done|done].
  - destruct (HasPrefix (c :: s) sub) eqn:E.
    + intros [= <-]. apply HasPrefix_spec in E as [r Hr]. rewrite Hr. cbn [take Nat.add app].
      by rewrite drop_app_length.
    + destruct (Index s sub) as [j|] eqn:Ej; [|done]. intros [= <-]. cbn [take Nat.add drop app].
      f_equal. by apply IH.
Qed.

(** The first pair of a byte that what precedes it does not contain. *)
Lemma Index_pair c s r : c ∉ s → Index (s ++ c :: c :: r) [c; c] = Some (length s).
Proof.
  induction s as [|d s IH]; intros Hn; cbn [app Index HasPrefix length].
  - rewrite !bool_decide_true by done. done.
  - rewrite bool_decide_false by set_solver. cbn [andb]. by rewrite IH by set_solver.
Qed.

Lemma Index_pair_None c s : c ∉ s → Index s [c; c] = None.
Proof.
  induction s as [|d s IH]; intros Hn; cbn [Index HasPrefix]; [done|].
  rewrite bool_decide_false by set_solver. cbn [andb]. by rewrite IH by set_solver.
Qed.

Lemma close_after_open v c : Index (open2 ++ v) close2 = Some c → ∃ i, c = S (S i) ∧ Index v close2 = Some i.
Proof.
  change (Index (open2 ++ v) close2) with (S <$> (S <$> Index v close2)).
  destruct (Index v close2) as [i|]; [|done]. intros [= <-]. eauto.
Qed.

(** The text of a part: a literal is itself, a variable stands between braces. *)
Inductive part_text : templatePart → gostring → Prop :=
| text_lit l : part_text (Lit l) l
| text_var p inner : parseVar (TrimSpace inner) = Ok p → part_text p (open2 ++ inner ++ close2).

Fixpoint texts (l : list gostring) : gostring := match l with [] => [] | s :: l' => s ++ texts l' end.

(** One variable of the input: what is before, inside and after it. *)
Lemma split_var s o c :
  Index s open2 = Some o → Index (drop o s) close2 = Some c →
  s = take o s ++ open2 ++ take (c - 2) (drop (o + 2) s) ++ close2 ++ drop (o + c + 2) s.
Proof.
  intros Ho Hc. pose proof (Index_Some _ _ _ Ho) as Hs. change (length open2) with 2 in Hs.
  assert (Ho' : o ≤ length s).
  { destruct (le_lt_dec o (length s)); [done|]. rewrite (take_ge s o), drop_ge in Hs by lia.
    apply (f_equal length) in Hs. rewrite length_app in Hs. cbn in Hs. lia. }
  set (v := drop (o + 2) s) in *.
  assert (Hd : drop o s = open2 ++ v).
  { rewrite Hs at 1. rewrite drop_app_length'; [done|]. rewrite length_take. lia. }
  rewrite Hd in Hc. apply close_after_open in Hc as (i & -> & Hi).
  pose proof (Index_Some _ _ _ Hi) as Hv. change (length close2) with 2 in Hv.
  replace (S (S i) - 2) with i by lia. replace (o + S (S i) + 2) with ((o + 2) + (i + 2)) by lia.
  rewrite <- drop_drop. fold v. rewrite <- Hv. done.
Qed.

Lemma parse_sound n s ps :
  length s ≤ n → parse_parts n s = Ok ps → ∃ raws, Forall2 part_text ps raws ∧ s = texts raws.
Proof.
  revert s ps. induction n as [|n IH]; intros s ps Hn; cbn [parse_parts].
  { destruct s; [|cbn in Hn; lia]. intros [= <-]. exists []. by split; [constructor|]. }
  case_decide as Hs; [intros [= <-]; exists []; by split; [constructor|]|].
  destruct (Index s open2) as [o|] eqn:Eo.
  2:{ intros [= <-]. exists [s]. split; [repeat constructor|]. cbn. by rewrite app_nil_r. }
  destruct (Index (drop o s) close2) as [c|] eqn:Ec; [|done]. cbv zeta.
  pose proof (split_var s o c Eo Ec) as Hsplit.
  set (inner := take (c - 2) (drop (o + 2) s)) in *. set (rest := drop (o + c + 2) s) in *.
  case_decide as Hv; [done|]. destruct (parseVar (TrimSpace inner)) as [part|] eqn:Ep; [|done]. cbn [res_bind].
  assert (Hrest : length rest ≤ n).
  { apply (f_equal length) in Hsplit. rewrite !length_app in Hsplit. cbn in Hsplit. lia. }
  destruct (parse_parts n rest) as [ps'|] eqn:Er; [|done]. intros [= <-].
  destruct (IH rest ps' Hrest Er) as (raws & Hf & Hr).
  destruct (Nat.ltb_spec 0 o).
  - exists (take o s :: (open2 ++ inner ++ close2) :: raws). split.
    + constructor; [constructor|]. constructor; [by constructor|done].
    + cbn [texts]. rewrite <- Hr. rewrite Hsplit at 1. by rewrite <- !app_assoc.
  - exists ((open2 ++ inner ++ close2) :: raws). split; [constructor; [by constructor|done]|].
    cbn [texts]. rewrite <- Hr. rewrite Hsplit at 1. replace o with 0 by lia. cbn [take app].
    by rewrite <- !app_assoc.
Qed.

(** Parts as an operator writes them: literals without an opening brace,
    known variables, trimmed header names without a closing brace, and no two
    literals side by side. *)
Definition part_ok (p : templatePart) : Prop :=
  match p with
  | Lit l => l ≠ [] ∧ "{"%char ∉ l
  | Var name h =>
      (name ∈ [varClientIP; varTenantHost; varRequestID; varNowRFC3339] ∧ h = []) ∨
      (name = varHeaderPrefix ∧ h ≠ [] ∧ "}"%char ∉ h ∧ TrimSpace h = h ∧
       TrimSpace (varHeaderPrefix ++ h) = varHeaderPrefix ++ h)
  end.

Fixpoint parts_ok (ps : list templatePart) : Prop :=
  match ps with
  | [] => True
  | Lit l :: ((Lit _ :: _) as ps') => False
  | p :: ps' => part_ok p ∧ parts_ok ps'
  end.

Definition show_part (p : templatePart) : gostring :=
  match p with
  | Lit l => l
  | Var name h => open2 ++ (name ++ h) ++ close2
  end.

Definition show_parts (ps : list templatePart) : gostring := texts (show_part <$> ps).

Lemma var_shape name h :
  part_ok (Var name h) →
  "}"%char ∉ name ++ h ∧ TrimSpace (name ++ h) = name ++ h ∧ name ++ h ≠ [] ∧
  parseVar (name ++ h) = Ok (Var name h).
Proof.
  intros [[Hn ->]|(-> & Hne & Hb & Ht & Htp)].
  - rewrite app_nil_r. apply list_elem_of_In in Hn. cbn [In] in Hn.
    destruct Hn as [<-|[<-|[<-|[<-|[]]]]]; (split_and!; [decide_now|vm_compute; reflexivity|done|vm_compute; reflexivity]).
  - split_and!; [|done|done|].
    + rewrite elem_of_app. intros [Hx|Hx]; [|done]. revert Hx. decide_now.
    + unfold parseVar. rewrite decide_False.
      * assert (Hp : HasPrefix (varHeaderPrefix ++ h) varHeaderPrefix = true) by (apply HasPrefix_spec; by exists h).
        rewrite Hp. unfold TrimPrefix. rewrite Hp, drop_app_length, Ht. cbv zeta. by rewrite decide_False.
      * rewrite !elem_of_cons, elem_of_nil. intros Hx. by destruct_or! Hx.
Qed.

(** Parsing one shown variable after a literal prefix without braces. *)
Lemma parse_shown_var n pre name h rest :
  "{"%char ∉ pre → part_ok (Var name h) →
  parse_parts (S n) (pre ++ show_part (Var name h) ++ rest) =
  let* r := parse_parts n rest in Ok ((if decide (pre = []) then [] else [Lit pre]) ++ Var name h :: r).
Proof.
  intros Hpre Hok. destruct (var_shape name h Hok) as (Hb & Ht & Hne & Hp).
  cbn [show_part]. rewrite <- !app_assoc. set (v := name ++ h) in *.
  assert (Hv : name ++ h ++ close2 ++ rest = v ++ close2 ++ rest) by (unfold v; by rewrite <- app_assoc).
  rewrite Hv. cbn [parse_parts].
  rewrite decide_False by (destruct pre; done).
  change open2 with ["{"; "{"]%char. cbn [app]. rewrite Index_pair by done. cbv zeta.
  rewrite drop_app_length. change (close2 ++ rest) with ("}" :: "}" :: rest)%char.
  assert (Hi : Index ("{" :: "{" :: v ++ "}" :: "}" :: rest)%char close2 = Some (S (S (length v)))).
  { change close2 with ["}"; "}"]%char.
    change (Index ("{" :: "{" :: v ++ "}" :: "}" :: rest)%char ["}"; "}"]%char)
      with (S <$> (S <$> Index (v ++ "}" :: "}" :: rest)%char ["}"; "}"]%char)).
    by rewrite Index_pair. }
  rewrite Hi. replace (S (S (length v)) - 2) with (length v) by lia.
  assert (Hd : drop (length pre + 2) (pre ++ "{" :: "{" :: v ++ "}" :: "}" :: rest)%char
               = (v ++ "}" :: "}" :: rest)%char).
  { rewrite <- drop_drop, drop_app_length. done. }
  rewrite Hd, take_app_length, Ht. rewrite decide_False by done. rewrite Hp. cbn [res_bind].
  replace (length pre + S (S (length v)) + 2) with ((length pre + 2) + (length v + 2)) by lia.
  rewrite <- drop_drop, Hd, <- drop_drop, drop_app_length. cbn [drop]. rewrite ?drop_0.
  destruct (parse_parts n rest); [|done]. cbn [res_bind]. do 2 f_equal.
  case_decide as Hp0; [by subst|].
  destruct (Nat.ltb_spec 0 (length pre)) as [|Hle]; [by rewrite take_app_length|].
  destruct pre; [done|cbn in Hle; lia].
Qed.

Lemma parse_shown n ps : length (show_parts ps) ≤ n → parts_ok ps → parse_parts n (show_parts ps) = Ok ps.
Proof.
  revert n. induction ps as [ps IH] using (well_founded_induction
    (well_founded_ltof _ (@length templatePart))); intros n Hn Hok.
  destruct ps as [|p ps]; [by destruct n|].
  assert (Hlen : ∀ name h, 0 < length (show_part (Var name h))).
  { intros. cbn [show_part]. rewrite !length_app. cbn. lia. }
  destruct p as [l|name h].
  - destruct ps as [|[l'|name h] ps]; [|done|].
    + destruct Hok as [[Hl Hb] _]. unfold show_parts in *. cbn in *. rewrite app_nil_r in *.
      destruct n as [|n]; [destruct l; [done|cbn in Hn; lia]|]. cbn [parse_parts].
      rewrite decide_False by done. change open2 with ["{"; "{"]%char. by rewrite Index_pair_None.
    + destruct Hok as [[Hl Hb] [Hv Hok]]. unfold show_parts in *. cbn [fmap list_fmap texts] in *.
      change (show_part (Lit l)) with l in *. specialize (Hlen name h).
      destruct n as [|n]; [rewrite !length_app in Hn; lia|].
      rewrite parse_shown_var by done. rewrite (IH ps) by (unfold ltof; cbn; rewrite ?length_app in Hn; (lia || done)).
      cbn [res_bind]. by rewrite decide_False.
  - destruct Hok as [Hv Hok]. unfold show_parts in *. cbn [fmap list_fmap texts] in *. specialize (Hlen name h).
    destruct n as [|n]; [rewrite !length_app in Hn; lia|].
    pose proof (parse_shown_var n [] name h (texts (show_part <$> ps)) ltac:(set_solver) Hv) as Hx.
    cbn [app] in Hx. rewrite Hx.
    rewrite (IH ps) by (unfold ltof; cbn; rewrite ?length_app in Hn; (lia || done)). done.
Qed.
End template_theory.

(** Templates mean what they say. A template that Parse accepts is the
    sequence of its literals and braced variables, byte for byte, and renders
    to their values in that order; and every sequence of well-formed literals,
    known variables and header names is parsed back from its text. *)
Theorem template_parse_exact `{GoUnicode} ids clock rfc3339 :
  (∀ s t, Parse s = Ok t →
     ∃ ps raws, Forall2 part_text ps raws ∧ s = texts raws ∧
       ∀ ctx n, Render ids clock rfc3339 ctx t n = render_parts ids clock rfc3339 ctx ps n) ∧
  (∀ ps, parts_ok ps →
     ∃ t, Parse (show_parts ps) = Ok t ∧
       ∀ ctx n, Render ids clock rfc3339 ctx t n = render_parts ids clock rfc3339 ctx ps n).
Proof.
  assert (Hlit : ∀ l ctx n, render_parts ids clock rfc3339 ctx [Lit l] n = (l, n))
    by (intros; cbn; by rewrite app_nil_r).
  assert (Hr : ∀ s ps, s ≠ [] → parse_parts (length s) s = Ok ps → ∃ t, Parse s = Ok t ∧
     ∀ ctx n, Render ids clock rfc3339 ctx t n = render_parts ids clock rfc3339 ctx ps n).
  { intros s ps Hs Hp. unfold Parse. rewrite decide_False by done. rewrite Hp. cbn [res_bind].
    destruct ps as [|[l|name h] [|p ps]]; (eexists; split; [reflexivity|]; intros; unfold Render; by rewrite ?Hlit). }
  split.
  - intros s t Ht. destruct (decide (s = [])) as [->|Hs].
    { injection Ht as <-. exists [], []. split_and!; [constructor|done|done]. }
    assert (Hp : ∃ ps, parse_parts (length s) s = Ok ps).
    { unfold Parse in Ht. rewrite decide_False in Ht by done. destruct (parse_parts _ s); [eauto|done]. }
    destruct Hp as [ps Hp]. destruct (Hr s ps Hs Hp) as (t' & Ht' & Hren). rewrite Ht in Ht'. injection Ht' as <-.
    destruct (parse_sound _ _ _ (Nat.le_refl _) Hp) as (raws & Hf & ->). eauto.
  - intros ps Hok. destruct (decide (show_parts ps = [])) as [E|Hs].
    + exists (mkTemplate [] []). rewrite E. split; [done|].
      pose proof (parse_shown 0 ps) as Hx. rewrite E in Hx. specialize (Hx (Nat.le_refl _) Hok).
      injection Hx as <-. done.
    + apply Hr; [done|]. by apply parse_shown.
Qed.

(** * Rewritten headers *)

Lemma mh_values_set k v h k' :
  mh_values (mh_set k v h) k' =
  if decide (CanonicalHeaderKey k = CanonicalHeaderKey k') then [v] else mh_values h k'.
Proof.
  unfold mh_values, mh_set. case_decide as He; [by rewrite He, lookup_insert_eq|by rewrite lookup_insert_ne].
Qed.

Lemma mh_values_strip names h k :
  mh_values (strip names h) k =
  if decide (CanonicalHeaderKey k ∈ CanonicalHeaderKey <$> elements names) then [] else mh_values h k.
Proof. apply mh_values_del_all. Qed.

(** No entry of the list is for the header [k]. *)
Definition untouched (es : list addEntry) (k : gostring) : Prop :=
  Forall (λ e, CanonicalHeaderKey (aeName e) ≠ CanonicalHeaderKey k) es.

Section rewriting_theory.
Context (ids : nat → gostring) (clock : time) (rfc3339 : time → gostring).

Lemma add_request_app ctx es es' h n :
  add_request ids clock rfc3339 ctx (es ++ es') h n =
  let '(h1, n1) := add_request ids clock rfc3339 ctx es h n in add_request ids clock rfc3339 ctx es' h1 n1.
Proof.
  revert h n. induction es as [|e es IH]; intros h n; [done|]. cbn [app add_request].
  destruct (Render _ _ _ _ _ n). apply IH.
Qed.

Lemma add_request_untouched ctx es h n k :
  untouched es k → mh_values (add_request ids clock rfc3339 ctx es h n).1 k = mh_values h k.
Proof.
  intros Hu. revert h n. induction Hu as [|e es He _ IH]; intros h n; [done|]. cbn [add_request].
  destruct (Render _ _ _ _ _ n). by rewrite IH, mh_values_set, decide_False.
Qed.

Lemma add_fixed_app ctx es es' h n :
  add_fixed ids clock rfc3339 ctx (es ++ es') h n =
  let '(h1, n1) := add_fixed ids clock rfc3339 ctx es h n in add_fixed ids clock rfc3339 ctx es' h1 n1.
Proof.
  revert h n. induction es as [|e es IH]; intros h n; [done|]. cbn [app add_fixed].
  destruct (Render _ _ _ _ _ n). apply IH.
Qed.

Lemma add_fixed_untouched ctx es h n k :
  untouched es k → mh_values (add_fixed ids clock rfc3339 ctx es h n).1 k = mh_values h k.
Proof.
  intros Hu. revert h n. induction Hu as [|e es He _ IH]; intros h n; [done|]. cbn [add_fixed].
  destruct (Render _ _ _ _ _ n). by rewrite IH, mh_values_set, decide_False.
Qed.

(** What the backend receives. After the request rules were applied, a
    header that an add rule names has exactly one value, the rendered template
    of the last such rule, which sees the headers as the earlier rules left
    them; a stripped header that no rule adds is gone; every other header is
    as the client sent it. *)
Theorem headers_upstream_exact rules ctx h n k :
  let '(ctx1, n1) := ensure_id ids ctx n in
  let h' := (applyRequest ids clock rfc3339 rules ctx h n).1 in
  (∀ pre e post, addUpstream rules = pre ++ e :: post →
     CanonicalHeaderKey (aeName e) = CanonicalHeaderKey k → untouched post k →
     let '(h2, n2) := add_request ids clock rfc3339 ctx1 pre (strip (stripUpstream rules) h) n1 in
     mh_values h' k = [(Render ids clock rfc3339 (with_req h2 ctx1) (aeValue e) n2).1]) ∧
  (untouched (addUpstream rules) k →
     mh_values h' k = if decide (CanonicalHeaderKey k ∈ CanonicalHeaderKey <$> elements (stripUpstream rules))
                      then [] else mh_values h k).
Proof.
  unfold applyRequest. destruct (ensure_id ids ctx n) as [ctx1 n1]. cbv zeta. split.
  - intros pre e post -> Hk Hpost. rewrite add_request_app.
    destruct (add_request _ _ _ _ pre _ _) as [h2 n2]. cbn [add_request].
    destruct (Render _ _ _ _ (aeValue e) n2) as [v n3].
    by rewrite add_request_untouched, mh_values_set, decide_True.
  - intros Hu. by rewrite add_request_untouched, mh_values_strip.
Qed.

(** ** Responses *)

(** The writer when a handler that does [ops] has returned. *)
Definition respond (rules : tenantRules) (ctx : RenderCtx) (w : NetWriter) (n : nat) (ops : list wop)
    : NetWriter :=
  nw_finish (rwUnder (foldl (rw_op ids clock rfc3339 rules ctx) (mkrwriter w false n) ops)).

Lemma rw_header_ops rules ctx rw ops :
  Forall header_op ops →
  foldl (rw_op ids clock rfc3339 rules ctx) rw ops =
  mkrwriter (mkNetWriter (foldl hop (nwHeader (rwUnder rw)) ops) (nwSent (rwUnder rw)) (nwWrote (rwUnder rw))
               (nwBody (rwUnder rw))) (rwWrote rw) (rwIds rw).
Proof.
  intros Hf. revert rw. induction Hf as [|o ops Ho _ IH]; intros rw; cbn [foldl].
  - by destruct rw as [[] ? ?].
  - rewrite IH. destruct o; try done; by destruct rw as [[] ? ?].
Qed.

(** Nothing is sent after the final response. *)
Lemma rw_sent_final rules ctx rw ops :
  nwWrote (rwUnder rw) = true → rwWrote rw = true →
  let rw' := foldl (rw_op ids clock rfc3339 rules ctx) rw ops in
  nwSent (rwUnder rw') = nwSent (rwUnder rw) ∧ nwWrote (rwUnder rw') = true.
Proof.
  revert rw. induction ops as [|o ops IH]; intros rw Hw Hr; [done|]. cbn [foldl].
  destruct rw as [[h sent wrote body] r m]. cbn in Hw, Hr. subst.
  destruct o; cbn; (edestruct IH as [H1 H2]; [| |rewrite H1; split; [|exact H2]]; done).
Qed.

Lemma rw_first_write rules ctx w n o code :
  write_code o = Some code → nwWrote w = false → informational code = false →
  let rw := rw_op ids clock rfc3339 rules ctx (mkrwriter w false n) o in
  let hd := (applyDownstream ids clock rfc3339 rules ctx (nwHeader w) n).1 in
  nwSent (rwUnder rw) = nwSent w ++ [(code, hd)] ∧ nwWrote (rwUnder rw) = true ∧ rwWrote rw = true.
Proof.
  intros Hc Hw Hi. destruct o; simplify_eq/=; unfold rw_WriteHeader, rw_Write, rw_prepare; cbn [rwWrote rwUnder];
    destruct (applyDownstream _ _ _ _ _ _ _) as [hd n']; unfold rw_on, nw_Write, nw_WriteHeader, nw_header;
    cbn; rewrite Hw; cbn; by rewrite ?Hi.
Qed.

(** What the client receives. When the first write of a handler is a final
    response, that response leaves with the rules applied to the headers set
    before it, once, and nothing the handler does later reaches the wire as a
    header: a stripped header that no rule adds is gone, a header that an add
    rule names has exactly one value, the rendered template of the last such
    rule, and every other header is as the handler set it. *)
Theorem headers_downstream_exact rules ctx w n pre o post code k :
  nwWrote w = false → Forall header_op pre → write_code o = Some code → informational code = false →
  let h0 := foldl hop (nwHeader w) pre in
  let hd := (applyDownstream ids clock rfc3339 rules ctx h0 n).1 in
  nwSent (respond rules ctx w n (pre ++ o :: post)) = nwSent w ++ [(code, hd)] ∧
  (untouched (addDownstream rules) k →
     mh_values hd k = if decide (CanonicalHeaderKey k ∈ CanonicalHeaderKey <$> elements (stripDownstream rules))
                      then [] else mh_values h0 k) ∧
  (∀ es e es', addDownstream rules = es ++ e :: es' →
     CanonicalHeaderKey (aeName e) = CanonicalHeaderKey k → untouched es' k →
     let '(ctx1, n1) := ensure_id ids ctx n in
     let n2 := (add_fixed ids clock rfc3339 ctx1 es (strip (stripDownstream rules) h0) n1).2 in
     mh_values hd k = [(Render ids clock rfc3339 ctx1 (aeValue e) n2).1]).
Proof.
  intros Hw Hpre Hc Hi. cbv zeta. split_and!.
  - unfold respond. rewrite foldl_app, (rw_header_ops _ _ _ pre) by done. cbn [foldl rwUnder rwWrote rwIds].
    set (w1 := mkNetWriter _ _ _ _).
    destruct (rw_first_write rules ctx w1 n o code Hc Hw Hi) as (Hs & Hw1 & Hr).
    destruct (rw_sent_final rules ctx _ post Hw1 Hr) as [Hs2 Hw2].
    rewrite finish_wrote by done. rewrite Hs2, Hs. done.
  - intros Hu. unfold applyDownstream. destruct (ensure_id _ _ _). by rewrite add_fixed_untouched, mh_values_strip.
  - intros es e es' Hes Hk Hu. unfold applyDownstream. destruct (ensure_id _ _ _). rewrite Hes, add_fixed_app.
    destruct (add_fixed _ _ _ _ es _ _) as [h2 n2]. cbn [add_fixed snd]. destruct (Render _ _ _ _ _ n2).
    by rewrite add_fixed_untouched, mh_values_set, decide_True.
Qed.

(** An informational response switches the response rules off. After a
    handler has written a 1xx status the rules count as applied: a header it
    sets afterwards leaves with the final response although the rules strip
    it. A handler that returns without writing anything is not covered
    either: the server sends its headers as they are. *)
Theorem headers_strip_bypassed rules ctx w n code k v :
  nwWrote w = false → informational code = true →
  CanonicalHeaderKey k ∈ CanonicalHeaderKey <$> elements (stripDownstream rules) →
  (∃ hd1 hd2, nwSent (respond rules ctx w n [WWriteHeader code; WSet k v; WWriteHeader StatusOK])
              = nwSent w ++ [(code, hd1); (StatusOK, hd2)] ∧ mh_values hd2 k = [v]) ∧
  (∃ hd, nwSent (respond rules ctx w n [WSet k v]) = nwSent w ++ [(StatusOK, hd)] ∧ mh_values hd k = [v]).
Proof.
  intros Hw Hi _. unfold respond. split.
  - cbn [foldl rw_op]. unfold rw_WriteHeader, rw_prepare at 2. cbn [rwWrote rwUnder rwIds].
    destruct (applyDownstream _ _ _ _ _ _ _) as [hd n'].
    unfold rw_on, rw_prepare, nw_finish, nw_WriteHeader, nw_header. cbn. rewrite Hw. cbn. rewrite Hi. cbn.
    eexists hd, (mh_set k v hd). split; [by rewrite <- app_assoc|]. by rewrite mh_values_set, decide_True.
  - cbn. unfold nw_finish, nw_WriteHeader, nw_header. cbn. rewrite Hw. cbn. eexists. split; [done|].
    by rewrite mh_values_set, decide_True.
Qed.

(** ** The request identifier *)

Lemma render_part_draws ctx p n : rcRequestID ctx ≠ [] → (render_part ids clock rfc3339 ctx p n).2 = n.
Proof. intros Hid. unfold render_part. repeat case_match; done. Qed.

Lemma Render_draws ctx t n : rcRequestID ctx ≠ [] → (Render ids clock rfc3339 ctx t n).2 = n.
Proof.
  intros Hid. unfold Render. case_decide; [done|]. generalize (parts t) as ps. intros ps.
  revert n. induction ps as [|p ps IH]; intros n; [done|]. cbn [render_parts].
  pose proof (render_part_draws ctx p n Hid) as Hp. destruct (render_part _ _ _ ctx p n) as [s n1]. cbn in Hp. subst n1.
  specialize (IH n). destruct (render_parts _ _ _ ctx ps n). done.
Qed.

Lemma add_request_draws ctx es h n :
  rcRequestID ctx ≠ [] → (add_request ids clock rfc3339 ctx es h n).2 = n.
Proof.
  intros Hid. revert h n. induction es as [|e es IH]; intros h n; [done|]. cbn [add_request].
  pose proof (Render_draws (with_req h ctx) (aeValue e) n Hid) as Hr.
  destruct (Render _ _ _ _ _ n) as [v n1]. cbn in Hr. subst n1. apply IH.
Qed.

Definition request_id : Template := mkTemplate [] [Var varRequestID []].

Lemma Render_request_id ctx n :
  rcRequestID ctx ≠ [] → Render ids clock rfc3339 ctx request_id n = (rcRequestID ctx, n).
Proof.
  intros Hid. unfold Render, request_id. cbn [parts render_parts]. rewrite decide_False by done.
  unfold render_part. rewrite !decide_False by done. rewrite decide_True by done.
  rewrite decide_False by done. by rewrite app_nil_r.
Qed.

(** Request and response carry different identifiers. applyRequest stores
    the fresh identifier in its own copy of the context, so the response pass
    draws another one: with the same request_id rule on both sides the backend
    sees one identifier and the client the next. *)
Theorem headers_request_id_differs rules ctx h hr n k :
  (∀ i, ids i ≠ []) → rcRequestID ctx = [] →
  last (addUpstream rules) = Some (mkaddEntry k request_id) →
  addDownstream rules = [mkaddEntry k request_id] →
  let '(h', n1) := applyRequest ids clock rfc3339 rules ctx h n in
  mh_values h' k = [ids n] ∧
  mh_values (applyDownstream ids clock rfc3339 rules ctx hr n1).1 k = [ids (S n)].
Proof.
  intros Hids Hid Hup Hdown. apply last_Some in Hup as [pre Hup].
  unfold applyRequest, applyDownstream, ensure_id. rewrite decide_True by done.
  set (c1 := with_id (ids n) ctx). assert (Hc1 : rcRequestID c1 ≠ []) by apply Hids.
  rewrite Hup, add_request_app.
  pose proof (add_request_draws c1 pre (strip (stripUpstream rules) h) (S n) Hc1) as Hn.
  destruct (add_request _ _ _ _ pre _ _) as [h2 n2]. cbn in Hn. subst n2. cbn [add_request aeValue aeName].
  rewrite Render_request_id by done. split.
  - by rewrite mh_values_set, decide_True.
  - rewrite decide_True by done. rewrite Hdown. cbn [add_fixed aeValue aeName].
    rewrite Render_request_id by apply Hids. cbn [fst]. by rewrite mh_values_set, decide_True.
Qed.
End rewriting_theory.

(** * Examples *)

#[local] Instance hx_unicode : GoUnicode := {|
  unicode_lower s := s; unicode_upper s := s; unicode_trim s := s |}.

Definition hx_ids (n : nat) : gostring := [ascii_of_nat (65 + n)].
Definition hx_ctx : RenderCtx := mkRenderCtx $"::1" $"a" [] None time_zero.
Definition hx_rules : tenantRules :=
  mktenantRules {[ $"Te" ]} [mkaddEntry $"Id" request_id] {[ $"Via" ]} [mkaddEntry $"Id" request_id].
Definition hx_writer : NetWriter := mkNetWriter ∅ [] false [].
Definition hx_resp (ops : list wop) : NetWriter :=
  respond hx_ids 0 (λ _, []) hx_rules hx_ctx hx_writer 0 ops.

Example template_parse_ex :
  Parse $"ip={{ client_ip }};{{header:X}}" = Ok (mkTemplate [] [Lit $"ip="; Var varClientIP []; Lit $";"; Var varHeaderPrefix $"X"])
  ∧ Parse $"{{{client_ip}}" = Err ErrUnknownVariable ∧ Parse $"a{{" = Err ErrUnterminated.
Proof. vm_compute. auto. Qed.

(** The headers of the response to a handler that sets Via. *)
Definition hx_sent : mheader :=
  (applyDownstream hx_ids 0 (λ _, []) hx_rules hx_ctx (foldl hop (nwHeader hx_writer) [WSet $"Via" $"x"]) 0).1.

Lemma headers_downstream_exact_witness :
  nwSent (hx_resp ([WSet $"Via" $"x"] ++ WWrite $"b" :: [WSet $"Via" $"y"]))
    = nwSent hx_writer ++ [(StatusOK, hx_sent)] ∧
  mh_values hx_sent $"Via" = [].
Proof.
  assert (Hu : untouched (addDownstream hx_rules) $"Via")
    by (apply Forall_cons_2; [vm_compute; discriminate|apply Forall_nil_2]).
  assert (Hd := headers_downstream_exact hx_ids 0 (λ _, []) hx_rules hx_ctx hx_writer 0 [WSet $"Via" $"x"]
    (WWrite $"b") [WSet $"Via" $"y"] StatusOK $"Via" eq_refl ltac:(repeat constructor) eq_refl eq_refl).
  cbv zeta in Hd. fold hx_sent in Hd. destruct Hd as (Hs & Hstrip & _).
  split; [exact Hs|]. rewrite (Hstrip Hu). vm_compute. reflexivity.
Defined.

Lemma headers_strip_bypassed_witness :
  (∃ hd1 hd2, nwSent (hx_resp [WWriteHeader 103; WSet $"Via" $"x"; WWriteHeader StatusOK])
              = [(103%Z, hd1); (StatusOK, hd2)] ∧ mh_values hd2 $"Via" = [$"x"]) ∧
  (∃ hd, nwSent (hx_resp [WSet $"Via" $"x"]) = [(StatusOK, hd)] ∧ mh_values hd $"Via" = [$"x"]).
Proof.
  apply (headers_strip_bypassed hx_ids 0 (λ _, []) hx_rules hx_ctx hx_writer 0 103 $"Via" $"x").
  - reflexivity.
  - reflexivity.
  - decide_now.
Defined.

Lemma headers_request_id_differs_witness :
  let '(h', n1) := applyRequest hx_ids 0 (λ _, []) hx_rules hx_ctx ∅ 0 in
  mh_values h' $"Id" = [$"A"] ∧
  mh_values (applyDownstream hx_ids 0 (λ _, []) hx_rules hx_ctx ∅ n1).1 $"Id" = [$"B"].
Proof.
  apply (headers_request_id_differs hx_ids 0 (λ _, []) hx_rules hx_ctx ∅ ∅ 0 $"Id").
  - intros i. discriminate.
  - reflexivity.
  - reflexivity.
  - reflexivity.
Defined.
