(* ===== verification/CheckHost.v ===== *)
(** The check-host.net client (src/internal/checkhost/client.go): its
    configuration, the start of a check, the decoding of results and the
    polling loop.

    An HTTP round trip is an input (the response or an error, with the rate
    limiter's wait); JSON decoding of a body, the text of numbers and the HTTP
    date format are parameters. *)

From S2P Require Import Prelude Float Http Shared GoStd.

Definition defaultBaseURL : gostring := $"https://check-host.net".
Definition defaultTimeout : duration := (30 * Second)%Z.
Definition defaultRatePerMin : Z := 12.
Definition defaultUserAgent : gostring := $"gateway-checkhost".

Record ClientConfig := mkClientConfig {
  ccBaseURL : gostring;
  ccTimeout : duration;
  ccRatePerMin : Z;
  ccUserAgent : gostring
}.

Record Client := mkClient {
  clBaseURL : gostring;
  clTimeout : duration;
  clPerSecond : float64;
  clUserAgent : gostring
}.

Definition NewClient (cfg : ClientConfig) : Client :=
  let rpm := if Z.leb (ccRatePerMin cfg) 0 then defaultRatePerMin else ccRatePerMin cfg in
  mkClient
    (TrimRight (if decide (ccBaseURL cfg = []) then defaultBaseURL else ccBaseURL cfg)
               (λ c, bool_decide (c = slash)))
    (if Z.leb (ccTimeout cfg) 0 then defaultTimeout else ccTimeout cfg)
    (f64_div (f64_of_Z rpm) (f64_of_Z 60))
    (if decide (ccUserAgent cfg = []) then defaultUserAgent else ccUserAgent cfg).

Record NodeInfo := mkNodeInfo { niName : gostring; niCountry : gostring; niCity : gostring }.

Record StartResult := mkStartResult { srRequestID : gostring; srNodes : gmap gostring NodeInfo }.

Record NodeCheck := mkNodeCheck { ncStatus : gostring; ncLatencyMs : Z; ncError : gostring }.

(** The JSON body of /check-http. *)
Record startResponse := mkstartResponse {
  raRequestID : gostring;
  raNames : gmap gostring gostring;
  raNodes : gmap gostring (list gostring)
}.

Inductive ch_error :=
| ErrHostRequired | ErrRequestID | ErrHTTP | ErrCtx
| ErrRateLimited (retryAfter : duration)
| ErrStatus (code : Z)
| ErrDecode.

(** One round trip of [do]. *)
Inductive http_outcome :=
| HTTPFailed
| HTTPReply (status : Z) (retryAfter body : gostring).

(** encoding/json on the bodies, and the texts [decodeNodeResult] falls back
    to: strconv.FormatFloat and the raw text without its quotes. *)
Class CheckHostJSON := {
  start_decode : gostring → option startResponse;
  json_decode : gostring → option json;
  format_float : float64 → gostring;
  raw_text : json → gostring;
  ParseTime : gostring → option time
}.

(** The texts that equal the code of success: the number one only. *)
Class CheckHostJSONLaws `{CheckHostJSON} : Prop := {
  format_one f : format_float f = $"1" ↔ f = f64_of_Z 1;
  raw_not_one v : match v with JBool _ | JArray _ | JObject _ => raw_text v ≠ $"1" | _ => True end
}.

Section client.
Context `{GoUnicode} `{CheckHostJSON}.

Definition parseRetryAfter (now : time) (h : gostring) : duration :=
  let h := TrimSpace h in
  if decide (h = []) then 0%Z
  else
    let by_date :=
      match ParseTime h with
      | Some t => let d := time_sub t now in if Z.ltb 0 d then d else 0%Z
      | None => 0%Z
      end in
    match ParseInt h with
    | Some secs => if Z.leb 0 secs then dur_mul secs Second else by_date
    | None => by_date
    end.

(** filterNodesByRegions: the given ids, trimmed. *)
Definition filterNodesByRegions (regions : list gostring) : list gostring :=
  List.filter (λ r, negb (bool_decide (r = []))) (TrimSpace <$> regions).

(** The query parameters of /check-http. *)
Record StartQuery := mkStartQuery { sqHost : gostring; sqMaxNodes : option Z; sqNodes : list gostring }.

Definition start_query (host : gostring) (regions : list gostring) (maxNodes : Z) : StartQuery :=
  mkStartQuery host
    (if (bool_decide (regions = []) && Z.ltb 0 maxNodes)%bool then Some maxNodes else None)
    (filterNodesByRegions regions).

Definition firstNonEmpty (a b : gostring) : gostring := if decide (TrimSpace a ≠ []) then a else b.

Definition node_info (name : option gostring) (fields : list gostring) : NodeInfo :=
  let n := default [] name in
  match fields with
  | [] => mkNodeInfo n [] []
  | [c] => mkNodeInfo n c []
  | [c; city] => mkNodeInfo n c city
  | c :: city :: cc :: _ => mkNodeInfo n (ToUpper (firstNonEmpty cc c)) city
  end.

(** The answer to a request that must have a 2xx status. *)
Definition expect_ok (now : time) (o : http_outcome) : result ch_error gostring :=
  match o with
  | HTTPFailed => Err ErrHTTP
  | HTTPReply status ra body =>
      if Z.eqb status StatusTooManyRequests then Err (ErrRateLimited (parseRetryAfter now ra))
      else if (Z.ltb status 200 || Z.leb 300 status)%bool then Err (ErrStatus status)
      else Ok body
  end.

(** StartHTTPCheck: the query and what the answer means. *)
Definition StartHTTPCheck (now : time) (host : gostring) (send : StartQuery → http_outcome)
    (regions : list gostring) (maxNodes : Z) : result ch_error StartResult :=
  if decide (host = []) then Err ErrHostRequired
  else
    let* body := expect_ok now (send (start_query host regions maxNodes)) in
    match start_decode body with
    | None => Err ErrDecode
    | Some raw =>
        Ok (mkStartResult (raRequestID raw)
              (map_imap (λ id fields, Some (node_info (raNames raw !! id) fields)) (raNodes raw)))
    end.

Definition interpret (code : gostring) (latencyMs : Z) (message : gostring) : NodeCheck :=
  let lower := ToLower message in
  if decide (code = $"1") then mkNodeCheck $"ok" latencyMs []
  else if (Contains_str lower $"timed out" || Contains_str lower $"timeout")%bool
       then mkNodeCheck $"timeout" latencyMs message
  else if Contains_str lower $"refused" then mkNodeCheck $"refused" latencyMs message
  else mkNodeCheck $"error" latencyMs message.

Definition node_pending : NodeCheck := mkNodeCheck $"pending" 0 [].

(** json.Unmarshal of an element into a float64; null leaves the zero. *)
Definition as_float (v : json) : option float64 :=
  match v with
  | JInt n => Some (f64_of_Z n)
  | JFloat f => Some f
  | JNull => Some (f64_of_Z 0)
  | _ => None
  end.

Definition node_code (v : json) : gostring :=
  match v with
  | JString s => s
  | JNull => []
  | _ => match as_float v with Some f => format_float f | None => raw_text v end
  end.

(** decodeNodeResult; the text of a decoding error is the fixed prefix. *)
Definition decode_error : NodeCheck := mkNodeCheck $"error" 0 $"decode: ".

Definition decodeNodeResult (v : json) : NodeCheck :=
  match v with
  | JArray [] | JArray (JNull :: _) | JArray (JArray [] :: _) => node_pending
  | JArray (JArray (code :: rest) :: _) =>
      let latencyMs :=
        match rest with
        | t :: _ => match as_float t with Some f => f64_to_int (f64_mul f (f64_of_Z 1000)) | None => 0%Z end
        | [] => 0%Z
        end in
      let message := match rest with _ :: JString s :: _ => s | _ => [] end in
      interpret (node_code code) latencyMs message
  | _ => decode_error
  end.

(** One entry of the result object. *)
Definition node_entry (v : json) : NodeCheck :=
  match v with JNull => node_pending | _ => decodeNodeResult v end.

Definition is_null (v : json) : bool := match v with JNull => true | _ => false end.

(** A decoded object; the last of equal keys counts. *)
Definition object_map (l : list (gostring * json)) : gmap gostring json :=
  foldl (λ m kv, <[kv.1 := kv.2]> m) ∅ l.

(** GetResult: the results, if any, and whether the service is done. *)
Definition GetResult (now : time) (requestID : gostring) (o : http_outcome)
    : result ch_error (option (gmap gostring NodeCheck) * bool) :=
  if decide (requestID = []) then Err ErrRequestID
  else
    let* body := expect_ok now o in
    let trim := TrimSpace body in
    if decide (trim = [] ∨ trim = $"null") then Ok (None, false)
    else match json_decode trim with
    | Some (JObject l) =>
        let raw := object_map l in
        Ok (Some (node_entry <$> raw), negb (existsb (λ kv, is_null kv.2) (map_to_list raw)))
    | _ => Err ErrDecode
    end.

(** What one turn of the polling loop meets: the answer, the time from the end
    of the sleep before it to the answer, and whether the context ends during
    the sleep after it. *)
Record PollEnv := mkPollEnv { peOut : http_outcome; peTook : duration; peCancel : bool }.

(** The loop of CheckNow from its [i]-th turn, which begins at [now]; None is
    out of fuel. *)
Fixpoint poll_loop (fuel i : nat) (now : time) (rid : gostring) (pollInterval : duration) (deadline : time)
    (env : nat → PollEnv) (lastSnapshot : option (gmap gostring NodeCheck))
    : option (option (gmap gostring NodeCheck) * option ch_error) :=
  match fuel with
  | 0 => None
  | S n =>
      let e := env i in
      let now := time_add now (peTook e) in
      match GetResult now rid (peOut e) with
      | Err err => Some (lastSnapshot, Some err)
      | Ok (res, ready) =>
          let lastSnapshot := match res with Some _ => res | None => lastSnapshot end in
          if ready then Some (res, None)
          else
            let remaining := time_sub deadline now in
            if Z.leb remaining 0 then Some (lastSnapshot, None)
            else
              let wait := if Z.ltb remaining pollInterval then remaining else pollInterval in
              if peCancel e then Some (lastSnapshot, Some ErrCtx)
              else poll_loop n (S i) (time_add now wait) rid pollInterval deadline env lastSnapshot
      end
  end.

Definition poll_interval (d : duration) : duration := if Z.leb d 0 then (2 * Second)%Z else d.
Definition max_wait (d : duration) : duration := if Z.leb d 0 then (30 * Second)%Z else d.

(** The turns a check can take: one per interval, and two at its ends. *)
Definition poll_fuel (pollInterval maxWait : duration) : nat :=
  Z.to_nat (max_wait maxWait / poll_interval pollInterval) + 2.

(** CheckNow; [started] is the clock when the start request was answered. *)
Definition CheckNow (started : time) (host : gostring) (send : StartQuery → http_outcome)
    (regions : list gostring) (maxNodes : Z) (pollInterval maxWait : duration) (env : nat → PollEnv)
    : option (option (gmap gostring NodeCheck) * option ch_error) :=
  match StartHTTPCheck started host send regions maxNodes with
  | Err err => Some (None, Some err)
  | Ok start =>
      poll_loop (poll_fuel pollInterval maxWait) 0 started (srRequestID start) (poll_interval pollInterval)
        (time_add started (max_wait maxWait)) env None
  end.
End client.

(** * Properties *)

Section client_theory.
Context `{GoUnicode} `{CheckHostJSON}.

(** The clock does not run backwards. *)
Definition clock_ok (env : nat → PollEnv) : Prop := ∀ i, (0 ≤ peTook (env i))%Z.

Lemma poll_loop_ends poll deadline env rid fuel i now last :
  (0 < poll)%Z → clock_ok env →
  (deadline - now ≤ Z.of_nat fuel * poll)%Z → (deadline - now ≤ max_int64)%Z →
  is_Some (poll_loop (S fuel) i now rid poll deadline env last).
Proof.
  intros Hp Hc. revert i now last. induction fuel as [|n IH]; intros i now last Hr Hmax.
  - cbn [poll_loop]. cbv zeta. specialize (Hc i). destruct (GetResult _ _ _) as [[res ready]|]; [|by eexists]. destruct ready; [by eexists|].
    assert (Hs : Z.leb (time_sub deadline (time_add now (peTook (env i)))) 0 = true).
    { apply Z.leb_le. unfold time_sub, time_add, min_int64, max_int64 in *. cbv zeta. repeat case_match; lia. }
    rewrite Hs. by eexists.
  - assert (IH' : ∀ i now last, (deadline - now ≤ Z.of_nat n * poll)%Z →
      (deadline - now ≤ max_int64)%Z → is_Some (poll_loop (S n) i now rid poll deadline env last)) by done.
    clear IH. remember (S n) as m eqn:Em. cbn [poll_loop]. cbv zeta. pose proof (Hc i) as Hci.
    set (now' := time_add now (peTook (env i))). assert (Hnow : (now ≤ now')%Z) by (unfold now', time_add; lia).
    destruct (GetResult _ _ _) as [[res ready]|]; [|by eexists]. destruct ready; [by eexists|].
    destruct (Z.leb_spec (time_sub deadline now') 0) as [|Hpos]; [by eexists|].
    destruct (peCancel (env i)); [by eexists|].
    assert (Hsub : time_sub deadline now' = (deadline - now')%Z).
    { unfold time_sub, min_int64, max_int64 in *. cbv zeta in *. repeat case_match; lia. }
    rewrite Hsub in *. apply IH'; unfold time_add; destruct (Z.ltb_spec (deadline - now') poll); lia.
Qed.

(** C31. A check always ends. Whatever the service answers, and however slow it
    is, CheckNow returns after at most two turns more than the waiting time
    holds polling intervals, as long as the clock does not run backwards. *)
Theorem check_now_terminates started host send regions maxNodes pollInterval maxWait (env : nat → PollEnv) :
  (max_wait maxWait ≤ max_int64)%Z → clock_ok env →
  is_Some (CheckNow started host send regions maxNodes pollInterval maxWait env).
Proof.
  intros Hmax Hc. unfold CheckNow. destruct (StartHTTPCheck _ _ _ _ _) as [start|]; [|by eexists].
  assert (Hp : (0 < poll_interval pollInterval)%Z)
    by (unfold poll_interval, Second; destruct (Z.leb_spec pollInterval 0); lia).
  assert (Hw : (0 < max_wait maxWait)%Z)
    by (unfold max_wait, Second; destruct (Z.leb_spec maxWait 0); lia).
  unfold poll_fuel. rewrite Nat.add_comm. cbn [Nat.add].
  apply poll_loop_ends; [done|done| |unfold time_add; lia].
  unfold time_add. set (q := (max_wait maxWait / poll_interval pollInterval)%Z).
  assert (Hq : (0 ≤ q)%Z) by (apply Z.div_pos; lia).
  pose proof (Z.mod_pos_bound (max_wait maxWait) (poll_interval pollInterval) Hp).
  pose proof (Z.div_mod (max_wait maxWait) (poll_interval pollInterval) ltac:(lia)) as Hdm. fold q in Hdm.
  rewrite Nat2Z.inj_succ, Z2Nat.id by done. nia.
Qed.

(** A node counts as reached exactly when its code is one, as a string or as
    a number. *)
Theorem node_ok_iff `{!CheckHostJSONLaws} v :
  ncStatus (decodeNodeResult v) = $"ok" ↔
  ∃ code rest attempts, v = JArray (JArray (code :: rest) :: attempts) ∧
    (code = JString $"1" ∨ code = JInt 1 ∨ (∃ n, code = JInt n ∧ f64_of_Z n = f64_of_Z 1) ∨
     code = JFloat (f64_of_Z 1)).
Proof.
  assert (Hi : ∀ c l m, ncStatus (interpret c l m) = $"ok" ↔ c = $"1").
  { intros c l m. unfold interpret. repeat case_match; cbn; split; intros; done. }
  assert (Hc : ∀ c, node_code c = $"1" ↔
    c = JString $"1" ∨ c = JInt 1 ∨ (∃ n, c = JInt n ∧ f64_of_Z n = f64_of_Z 1) ∨ c = JFloat (f64_of_Z 1)).
  { intros c. destruct c as [|b|n|f|s|l|l]; cbn [node_code as_float].
    - naive_solver.
    - pose proof (raw_not_one (JBool b)). naive_solver.
    - rewrite format_one. naive_solver.
    - rewrite format_one. naive_solver.
    - naive_solver.
    - pose proof (raw_not_one (JArray l)). naive_solver.
    - pose proof (raw_not_one (JObject l)). naive_solver. }
  split.
  - destruct v as [|b|n|f|s|[|[|b|n|f|s|[|code rest]|l] attempts]|l]; try done.
    cbn [decodeNodeResult]. intros Hok%Hi%Hc. by exists code, rest, attempts.
  - intros (code & rest & attempts & -> & Hok). cbn [decodeNodeResult]. by apply Hi, Hc.
Qed.

(** A payload of a node that says nothing. *)
Definition blank (v : json) : Prop :=
  match v with JArray [] | JArray (JNull :: _) | JArray (JArray [] :: _) => True | _ => False end.

Lemma object_map_Forall (P : json → Prop) l :
  Forall (λ kv, P kv.2) l → map_Forall (λ _ v, P v) (object_map l).
Proof.
  intros Hf. unfold object_map.
  assert (G : ∀ m : gmap gostring json, map_Forall (λ _ v, P v) m →
    map_Forall (λ _ v, P v) (foldl (λ m kv, <[kv.1 := kv.2]> m) m l)).
  { induction Hf as [|kv l Hk _ IH]; intros m Hm; [done|]. cbn [foldl]. apply IH.
    by apply map_Forall_insert_2. }
  apply G, map_Forall_empty.
Qed.

Lemma fold_insert_size (l : list (gostring * json)) (m : gmap gostring json) :
  size m ≤ size (foldl (λ m (kv : gostring * json), <[kv.1 := kv.2]> m) m l) ≤ size m + length l.
Proof.
  revert m. induction l as [|[k v] l IH]; intros m; [cbn; lia|]. cbn [foldl length fst snd].
  specialize (IH (<[k := v]> m)). pose proof (map_size_insert k v m) as Hs.
  destruct (m !! k); unfold id in Hs; lia.
Qed.

Lemma object_map_size l n : l ≠ [] → length l ≤ n → 0 < size (object_map l) ≤ n.
Proof.
  intros Hne Hn. unfold object_map. destruct l as [|[k v] l]; [done|]. cbn [foldl fst snd length] in *.
  pose proof (fold_insert_size l (<[k := v]> ∅)) as Hs.
  rewrite map_size_insert_None, map_size_empty in Hs by apply lookup_empty. lia.
Qed.

(** The service is taken to be done when every node has a payload, even if
    every payload is blank: all nodes are then reported pending. *)
Lemma blank_is_ready now rid ra body l :
  rid ≠ [] → TrimSpace body ≠ [] → TrimSpace body ≠ $"null" →
  json_decode (TrimSpace body) = Some (JObject l) → Forall (λ kv, blank kv.2) l →
  GetResult now rid (HTTPReply StatusOK ra body) = Ok (Some (node_entry <$> object_map l), true) ∧
  map_Forall (λ _ c, c = node_pending) (node_entry <$> object_map l).
Proof.
  intros Hr H1 H2 Hj Hb. pose proof (object_map_Forall blank l Hb) as Hm. split.
  - unfold GetResult. rewrite decide_False by done. cbn. rewrite decide_False by naive_solver. rewrite Hj.
    do 3 f_equal. apply negb_true_iff, not_true_iff_false. rewrite existsb_exists.
    intros ([k v] & Hin%list_elem_of_In & Hn). apply elem_of_map_to_list in Hin. apply Hm in Hin. by destruct v.
  - intros k c. rewrite lookup_fmap_Some. intros (v & <- & Hv). apply Hm in Hv.
    destruct v as [|?|?|?|?|[|[|?|?|?|?|[|? ?]|?] ?]|?]; done.
Qed.
End client_theory.

(** * Examples *)

(** A codec for one start answer and bodies that are never finished. *)
#[local] Instance ch_json : CheckHostJSON := {|
  start_decode _ := Some (mkstartResponse $"r1" ∅ ∅);
  json_decode _ := None;
  format_float _ := []; raw_text _ := []; ParseTime _ := None |}.
#[local] Instance ch_unicode : GoUnicode := {|
  unicode_lower s := s; unicode_upper s := s; unicode_trim s := s |}.

Definition ch_env (i : nat) : PollEnv :=
  mkPollEnv (HTTPReply StatusOK [] $"null") (Z.of_nat i * Second) false.

Lemma check_now_terminates_witness :
  is_Some (CheckNow 0 $"m" (λ _, HTTPReply StatusOK [] []) [] 5 0 0 ch_env) ∧
  CheckNow 0 $"m" (λ _, HTTPReply StatusOK [] []) [] 5 0 0 ch_env = Some (None, None).
Proof.
  split; [|vm_compute; reflexivity].
  apply check_now_terminates.
  - by vm_compute.
  - intros i. unfold ch_env. cbn [peTook]. unfold Second. lia.
Defined.
