(* ===== verification/Monitor.v ===== *)
(** The mirror monitor of the hub (src/internal/hub/mirrors_monitor.go, with
    the settings file of hub/mirrors.go): the merge of its settings, one probe
    cycle over the mirror registry, and the life cycle of its loop.

    The check-host client is an interface: what a probe of a host returns. *)

From S2P Require Import Prelude Float Shared Queue Mirrors.
From S2P Require CheckHost.

Definition defaultInterval : duration := (5 * Minute)%Z.
Definition defaultMaxNodes : Z := 5.
Definition defaultThresholdPct : float64 := thr_half.
Definition defaultPoll : duration := (2 * Second)%Z.
Definition defaultMaxWait : duration := (30 * Second)%Z.

(** * Settings *)

Record CheckHostSettings := mkCheckHostSettings {
  chEnabled : bool;
  chInterval : duration;
  chRegions : list gostring;
  chMaxNodes : Z;
  chThresholdPct : float64
}.

Definition settings_zero : CheckHostSettings := mkCheckHostSettings false 0 [] 0 (f64_of_Z 0).

(** The file: missing, unreadable, or its bytes. *)
Inductive settings_file := SFMissing | SFUnreadable | SFData (data : gostring).

(** LoadCheckHostSettings; None is an error. *)
Definition LoadCheckHostSettings (yaml : gostring → option CheckHostSettings) (f : settings_file)
    : option CheckHostSettings :=
  match f with
  | SFMissing => Some settings_zero
  | SFUnreadable => None
  | SFData d => yaml d
  end.

Record MonitorConfig := mkMonitorConfig {
  mcEnabled : bool;
  mcInterval : duration;
  mcRegions : list gostring;
  mcMaxNodes : Z;
  mcThresholdPct : float64;
  mcPoll : duration;
  mcMaxWait : duration
}.

Definition f64_pos (x : float64) : bool := f64_gt x (f64_of_Z 0).

(** Whether a settings file says anything besides the switch. *)
Definition settings_given (s : CheckHostSettings) : bool :=
  (Z.ltb 0 (chInterval s) || negb (bool_decide (chRegions s = [])) || Z.ltb 0 (chMaxNodes s)
   || f64_pos (chThresholdPct s))%bool.

(** resolveSettings; [s] is what LoadCheckHostSettings returned. *)
Definition resolveSettings (cfg : MonitorConfig) (s : option CheckHostSettings) : MonitorConfig :=
  let out :=
    match s with
    | None => cfg
    | Some s => mkMonitorConfig
        (if settings_given s then chEnabled s else mcEnabled cfg)
        (if Z.ltb 0 (chInterval s) then chInterval s else mcInterval cfg)
        (if decide (chRegions s = []) then mcRegions cfg else chRegions s)
        (if Z.ltb 0 (chMaxNodes s) then chMaxNodes s else mcMaxNodes cfg)
        (if f64_pos (chThresholdPct s) then chThresholdPct s else mcThresholdPct cfg)
        (mcPoll cfg) (mcMaxWait cfg)
    end in
  mkMonitorConfig (mcEnabled out) (mcInterval out) (mcRegions out)
    (if Z.eqb (mcMaxNodes out) 0 then defaultMaxNodes else mcMaxNodes out)
    (if f64_is_zero (mcThresholdPct out) then defaultThresholdPct else mcThresholdPct out)
    (mcPoll out) (mcMaxWait out).

Definition effectiveInterval (cfg : MonitorConfig) (s : option CheckHostSettings) : duration :=
  let c := resolveSettings cfg s in if Z.ltb 0 (mcInterval c) then mcInterval c else defaultInterval.

(** * One cycle *)

(** The per-node result of the client interface. *)
Record NodeCheck := mkNodeCheck { ncStatus : gostring; ncLatencyMs : Z }.

(** What a client is asked. *)
Record Probe := mkProbe {
  pbHost : gostring;
  pbRegions : list gostring;
  pbMaxNodes : Z;
  pbPoll : duration;
  pbMaxWait : duration
}.

(** A client: the results of a probe, None when it fails. The results of a
    successful probe may be the nil map, which ranges as the empty one. *)
Definition MonitorClient : Type := Probe → option (gmap gostring NodeCheck).

Inductive monitor_error := ErrCtxDone | ErrCheck (host : gostring) | ErrUpdate (host : gostring).

Section cycle.
Context {D : Type} `{EqDecision D} `{YamlCodec D} `{GoUnicode}.

(** The results as the registry stores them. *)
Definition regionResults (now : time) (results : gmap gostring NodeCheck) : gmap gostring RegionStatus :=
  (λ nc, mkRegionStatus (ncStatus nc) (ncLatencyMs nc) now) <$> results.

Definition probe_of (mcfg cfg : MonitorConfig) (host : gostring) : Probe :=
  mkProbe host (mcRegions cfg) (mcMaxNodes cfg)
    (if Z.eqb (mcPoll mcfg) 0 then defaultPoll else mcPoll mcfg)
    (if Z.eqb (mcMaxWait mcfg) 0 then defaultMaxWait else mcMaxWait mcfg).

(** The loop over the listed mirrors; [env] is what the calls for a host see
    (its [ctx_ok] also answers the test before the probe). An ended context
    returns at once and drops the collected errors. *)
Fixpoint check_mirrors (client : MonitorClient) (env : gostring → Env) (mcfg cfg : MonitorConfig)
    (ms : list MirrorHealth) (r : MirrorRegistry D) (errs : list monitor_error)
    : MirrorRegistry D * list monitor_error :=
  match ms with
  | [] => (r, errs)
  | m :: ms' =>
      if ManualBlock m then check_mirrors client env mcfg cfg ms' r errs
      else
        let host := mhHost m in
        let e := env host in
        if negb (ctx_ok e) then (r, [ErrCtxDone])
        else match client (probe_of mcfg cfg host) with
        | None => check_mirrors client env mcfg cfg ms' r (errs ++ [ErrCheck host])
        | Some results =>
            let '(r', err) := UpdateHealth e host (Some (regionResults (env_now e) results))
                                (mcThresholdPct cfg) r in
            check_mirrors client env mcfg cfg ms' r'
              (match err with Some _ => errs ++ [ErrUpdate host] | None => errs end)
        end
  end.

Definition CheckOnce (client : MonitorClient) (env : gostring → Env) (mcfg : MonitorConfig)
    (s : option CheckHostSettings) (r : MirrorRegistry D) : MirrorRegistry D * list monitor_error :=
  let cfg := resolveSettings mcfg s in
  if negb (mcEnabled cfg) then (r, []) else check_mirrors client env mcfg cfg (List_ r) r [].
End cycle.

(** * The loop *)

(** [running] is the flag; [loops] counts goroutines that are in their loop. *)
Record Monitor := mkMonitor { running : bool; loops : nat }.

Definition NewMonitor : Monitor := mkMonitor false 0.

Definition Start (m : Monitor) : Monitor := if running m then m else mkMonitor true (S (loops m)).

(** The context of the loop ends: its goroutine returns. *)
Definition ctx_done (m : Monitor) : Monitor := mkMonitor (running m) 0.

(** Stop waits for the goroutine, which has returned or does so now. *)
Definition Stop (m : Monitor) : Monitor := if running m then mkMonitor false 0 else m.

(** * Properties *)

(** The record of a mirror after a probe with the given results. *)
Definition probed `{GoUnicode} (now : time) (results : gmap gostring NodeCheck) (thr : float64)
    (m : MirrorHealth) : MirrorHealth :=
  let rr := regionResults now results in
  mkMirrorHealth (mhHost m) now rr
    (newVerdict (ManualBlock m) (Verdict m) (countFailures rr) (Z.of_nat (size rr)) thr)
    (countFailures rr) (Z.of_nat (size rr)) (ManualBlock m) (ManualNote m) (mhWeight m) (TargetTenants m).

Section cycle_theory.
Context {D : Type} `{EqDecision D} `{YamlCodec D} `{GoUnicode}.
Implicit Types r : MirrorRegistry D.
Context (client : MonitorClient) (env : gostring → Env) (mcfg cfg : MonitorConfig).
Context (Henv : ∀ h, ctx_ok (env h) = true ∧ disk_ok (env h) = true).
Context (Hyaml : ∀ m, is_Some (yaml_marshal (D := D) m)).

(** What a cycle makes of one mirror. *)
Definition cycle_outcome (m : MirrorHealth) : MirrorHealth :=
  if ManualBlock m then m
  else match client (probe_of mcfg cfg (mhHost m)) with
       | None => m
       | Some results => normalize (probed (env_now (env (mhHost m))) results (mcThresholdPct cfg) m)
       end.

(** The errors it reports for one mirror. *)
Definition cycle_errors (m : MirrorHealth) : list monitor_error :=
  if ManualBlock m then []
  else match client (probe_of mcfg cfg (mhHost m)) with None => [ErrCheck (mhHost m)] | Some _ => [] end.

Lemma UpdateHealth_ok e m results thr r :
  ctx_ok e = true → disk_ok e = true → mhHost m ≠ [] → mirrors r !! mhHost m = Some m →
  let '(r', err) := UpdateHealth e (mhHost m) (Some (regionResults (env_now e) results)) thr r in
  err = None ∧ mirrors r' = <[mhHost m := normalize (probed (env_now e) results thr m)]> (mirrors r).
Proof.
  intros Hc Hd Hh Hm. rewrite UpdateHealth_spec by done.
  assert (Hp : checked (env_now e) (mhHost m) (Some (regionResults (env_now e) results)) thr r
               = probed (env_now e) results thr m)
    by (unfold checked, probed; rewrite Hm; done).
  rewrite Hp, Upsert_spec, Hc, Hd. cbn [negb]. cbn [probed mhHost]. rewrite decide_False by done.
  destruct (Hyaml (normalize (probed (env_now e) results thr m))) as [d Hy]. rewrite Hy. done.
Qed.

Lemma check_mirrors_spec ms r errs :
  NoDup (mhHost <$> ms) → Forall (λ m, mhHost m ≠ [] ∧ mirrors r !! mhHost m = Some m) ms →
  let '(r', errs') := check_mirrors client env mcfg cfg ms r errs in
  (∀ m, m ∈ ms → mirrors r' !! mhHost m = Some (cycle_outcome m)) ∧
  (∀ h, h ∉ mhHost <$> ms → mirrors r' !! h = mirrors r !! h) ∧
  errs' = errs ++ (ms ≫= cycle_errors).
Proof.
  revert r errs. induction ms as [|m ms IH]; intros r errs Hnd Hf; cbn [check_mirrors].
  { split_and!; [by intros ? ?%elem_of_nil|done|by rewrite app_nil_r]. }
  cbn [fmap list_fmap] in Hnd. apply NoDup_cons in Hnd as [Hn Hnd]. apply Forall_cons in Hf as [[Hh Hm] Hf].
  assert (Hskip : ∀ errs, cycle_outcome m = m →
    let '(r', errs') := check_mirrors client env mcfg cfg ms r (errs ++ cycle_errors m) in
    (∀ x, x ∈ m :: ms → mirrors r' !! mhHost x = Some (cycle_outcome x)) ∧
    (∀ h, h ∉ mhHost <$> m :: ms → mirrors r' !! h = mirrors r !! h) ∧
    errs' = errs ++ (cycle_errors m ++ (ms ≫= cycle_errors))).
  { intros errs0 Ho. specialize (IH r (errs0 ++ cycle_errors m) Hnd Hf).
    destruct (check_mirrors _ _ _ _ ms r _) as [r' errs']. destruct IH as (H1 & H2 & ->). split_and!.
    - intros x [->|Hx]%elem_of_cons; [|by apply H1]. by rewrite H2, Hm, Ho.
    - intros h Hx. apply H2. set_solver.
    - by rewrite <- app_assoc. }
  unfold cycle_outcome, cycle_errors in Hskip.
  destruct (ManualBlock m) eqn:Eb.
  { specialize (Hskip errs eq_refl). rewrite app_nil_r in Hskip. cbn [app] in Hskip.
    cbn [mbind list_bind]. unfold cycle_errors at 1. rewrite Eb. exact Hskip. }
  destruct (Henv (mhHost m)) as [Hc Hd]. rewrite Hc. cbn [negb].
  destruct (client (probe_of mcfg cfg (mhHost m))) as [results|] eqn:Ec.
  2:{ specialize (Hskip errs eq_refl). cbn [mbind list_bind]. unfold cycle_errors at 1. rewrite Eb, Ec. exact Hskip. }
  clear Hskip. pose proof (UpdateHealth_ok (env (mhHost m)) m results (mcThresholdPct cfg) r Hc Hd Hh Hm) as Hu.
  destruct (UpdateHealth _ _ _ _ r) as [r1 err]. destruct Hu as [-> Hr1].
  assert (Hf1 : Forall (λ x, mhHost x ≠ [] ∧ mirrors r1 !! mhHost x = Some x) ms).
  { rewrite Forall_forall in Hf |- *. intros x Hx. destruct (Hf x Hx) as [? Hl]. split; [done|].
    rewrite Hr1, lookup_insert_ne; [done|]. intros He. apply Hn. rewrite He. by apply list_elem_of_fmap_2. }
  specialize (IH r1 errs Hnd Hf1). destruct (check_mirrors _ _ _ _ ms r1 errs) as [r' errs'].
  destruct IH as (H1 & H2 & ->). split_and!.
  - intros x [->|Hx]%elem_of_cons; [|by apply H1]. rewrite H2 by done.
    rewrite Hr1, lookup_insert_eq. unfold cycle_outcome. by rewrite Eb, Ec.
  - intros h Hx. rewrite H2 by set_solver. rewrite Hr1, lookup_insert_ne; [done|]. set_solver.
  - cbn [mbind list_bind]. unfold cycle_errors at 2. by rewrite Eb, Ec.
Qed.

Lemma List_mirrors r m : reg_wf r → m ∈ List_ r ↔ mirrors r !! mhHost m = Some m.
Proof.
  intros Hwf. unfold List_. rewrite sort_by_Permutation, list_elem_of_fmap. split.
  - intros ([k x] & -> & Hin%elem_of_map_to_list). cbn. pose proof (Hwf _ _ Hin) as [-> _]. done.
  - intros Hm. exists (mhHost m, m). split; [done|]. by apply elem_of_map_to_list.
Qed.

Lemma List_hosts_NoDup r : reg_wf r → NoDup (mhHost <$> List_ r).
Proof.
  intros Hwf. unfold List_. rewrite sort_by_Permutation, <- list_fmap_compose.
  assert (He : (mhHost ∘ snd) <$> map_to_list (mirrors r) = (map_to_list (mirrors r)).*1).
  { apply list_fmap_ext. intros i [k m] Hi. apply list_elem_of_lookup_2, elem_of_map_to_list in Hi.
    by destruct (Hwf _ _ Hi) as [? _]. }
  rewrite He. apply NoDup_fst_map_to_list.
Qed.
End cycle_theory.

(** One probe cycle does exactly its job. With the monitor on, a live
    context and a working disk, a cycle leaves the set of mirrors as it is and
    every manually blocked mirror untouched; a mirror whose probe fails keeps
    its record and is reported; every other mirror gets exactly the verdict,
    counts and regions of its own probe, whatever happens to the others. *)
Theorem monitor_cycle_exact {D} `{EqDecision D} `{YamlCodec D} `{GoUnicode}
    (client : MonitorClient) env mcfg s (r : MirrorRegistry D) :
  reg_wf r → (∀ h, ctx_ok (env h) = true ∧ disk_ok (env h) = true) →
  (∀ m, is_Some (yaml_marshal (D := D) m)) →
  mcEnabled (resolveSettings mcfg s) = true →
  let '(r', errs) := CheckOnce client env mcfg s r in
  mirrors r' = cycle_outcome client env mcfg (resolveSettings mcfg s) <$> mirrors r ∧
  errs = (List_ r ≫= cycle_errors client mcfg (resolveSettings mcfg s)).
Proof.
  intros Hwf Henv Hy Hen. unfold CheckOnce. rewrite Hen. cbn [negb].
  pose proof (check_mirrors_spec client env mcfg (resolveSettings mcfg s) Henv Hy (List_ r) r []
    (List_hosts_NoDup r Hwf)) as Hs.
  assert (Hf : Forall (λ m, mhHost m ≠ [] ∧ mirrors r !! mhHost m = Some m) (List_ r)).
  { apply Forall_forall. intros m Hm%List_mirrors; [|done]. split; [|done].
    by destruct (Hwf _ _ Hm) as (_ & ? & _). }
  specialize (Hs Hf). destruct (check_mirrors _ _ _ _ _ _ _) as [r' errs]. destruct Hs as (H1 & H2 & ->).
  split; [|done]. apply map_eq. intros h. rewrite lookup_fmap.
  destruct (mirrors r !! h) as [m|] eqn:Em; cbn [fmap option_fmap option_map].
  - pose proof (Hwf _ _ Em) as [He _]. subst h. apply H1. by apply List_mirrors.
  - rewrite H2; [done|]. intros (m & -> & Hm)%list_elem_of_fmap. apply List_mirrors in Hm; [|done]. congruence.
Qed.

(** The adapter between the client package and the monitor's interface. *)
Definition adapt (results : gmap gostring CheckHost.NodeCheck) : gmap gostring NodeCheck :=
  (λ c, mkNodeCheck (CheckHost.ncStatus c) (CheckHost.ncLatencyMs c)) <$> results.

Lemma pending_fails `{GoUnicode} : statusIsFailure $"pending" = true.
Proof. vm_compute. reflexivity. Qed.

Lemma all_pending_count `{GoUnicode} now results :
  map_Forall (λ _ c, c = CheckHost.node_pending) results →
  countFailures (regionResults now (adapt results)) = Z.of_nat (size results).
Proof.
  intros Hp. unfold countFailures. rewrite forallb_filter_id.
  - rewrite <- (length_map_to_list results). f_equal. unfold regionResults, adapt.
    by rewrite !map_to_list_fmap, !length_fmap.
  - apply forallb_forall. intros [k st] Hin%list_elem_of_In%elem_of_map_to_list. cbn [snd].
    unfold regionResults, adapt in Hin. rewrite !lookup_fmap in Hin.
    destruct (results !! k) as [c|] eqn:E; [|done]. apply Hp in E as ->. cbn in Hin. injection Hin as <-.
    apply pending_fails.
Qed.

(** A silent checking service takes every mirror down. When the service
    answers a poll with blank results, the client takes the check to be done
    and reports the nodes as pending, and the monitor counts a pending node
    as a failure: under the default threshold a mirror nobody has tested is
    marked blocked. *)
Theorem monitor_blames_silence {D} `{EqDecision D} `{YamlCodec D} `{GoUnicode} `{CheckHost.CheckHostJSON}
    (client : MonitorClient) env mcfg s (r : MirrorRegistry D) m t rid ra body l res :
  reg_wf r → (∀ h, ctx_ok (env h) = true ∧ disk_ok (env h) = true) →
  (∀ x, is_Some (yaml_marshal (D := D) x)) →
  mcEnabled (resolveSettings mcfg s) = true → mcThresholdPct (resolveSettings mcfg s) = defaultThresholdPct →
  mirrors r !! mhHost m = Some m → ManualBlock m = false →
  rid ≠ [] → TrimSpace body ≠ [] → TrimSpace body ≠ $"null" →
  CheckHost.json_decode (TrimSpace body) = Some (JObject l) → l ≠ [] → length l ≤ 100 →
  Forall (λ kv, CheckHost.blank kv.2) l →
  CheckHost.GetResult t rid (CheckHost.HTTPReply Http.StatusOK ra body) = Ok (Some res, true) →
  client (probe_of mcfg (resolveSettings mcfg s) (mhHost m)) = Some (adapt res) →
  Verdict <$> mirrors (CheckOnce client env mcfg s r).1 !! mhHost m = Some VerdictBlocked.
Proof.
  intros Hwf Henv Hy Hen Hthr Hm Hb Hrid Ht1 Ht2 Hj Hne Hlen Hblank Hres Hclient.
  destruct (CheckHost.blank_is_ready t rid ra body l Hrid Ht1 Ht2 Hj Hblank) as [Hg Hp].
  rewrite Hg in Hres. injection Hres as <-. set (res := CheckHost.node_entry <$> CheckHost.object_map l) in *.
  pose proof (check_mirrors_spec client env mcfg (resolveSettings mcfg s) Henv Hy (List_ r) r []
    (List_hosts_NoDup r Hwf)) as Hs.
  assert (Hf : Forall (λ m, mhHost m ≠ [] ∧ mirrors r !! mhHost m = Some m) (List_ r)).
  { apply Forall_forall. intros x Hx%List_mirrors; [|done]. split; [|done].
    by destruct (Hwf _ _ Hx) as (_ & ? & _). }
  specialize (Hs Hf). unfold CheckOnce. rewrite Hen. cbn [negb].
  destruct (check_mirrors _ _ _ _ _ _ _) as [r' errs]. destruct Hs as (Hlisted & _ & _). cbn [fst].
  rewrite (Hlisted m) by (by apply List_mirrors). cbn [fmap option_fmap option_map]. f_equal.
  unfold cycle_outcome. rewrite Hb, Hclient. unfold normalize. cbn [Verdict probed].
  rewrite all_pending_count by done. unfold newVerdict. rewrite Hb, Hthr.
  assert (Hsz : size (regionResults (env_now (env (mhHost m))) (adapt res)) = size res)
    by (unfold regionResults, adapt; by rewrite !map_size_fmap).
  rewrite Hsz. assert (Hn : 0 < size res ≤ 100).
  { subst res. rewrite map_size_fmap. apply CheckHost.object_map_size; done. }
  destruct (Z.eqb_spec (Z.of_nat (size res)) 0); [lia|].
  unfold defaultThresholdPct. rewrite mirror_verdict_half by lia.
  destruct (Z.leb_spec (Z.of_nat (size res)) (2 * Z.of_nat (size res))); [done|lia].
Qed.

(** A settings file that only switches the monitor off is ignored. *)
Theorem monitor_disable_ignored mcfg :
  mcEnabled (resolveSettings mcfg (Some settings_zero)) = mcEnabled mcfg.
Proof. done. Qed.

(** Once its context has ended, a monitor that was started cannot be started
    again without Stop: the flag is never taken back. *)
Theorem monitor_start_lost n :
  Nat.iter n Start (ctx_done (Start NewMonitor)) = mkMonitor true 0.
Proof.
  induction n as [|n IH]; [done|].
  change (Start (Nat.iter n Start (ctx_done (Start NewMonitor))) = mkMonitor true 0). by rewrite IH.
Qed.

(** * Examples *)

#[local] Instance mo_yaml : YamlCodec MirrorHealth := {| yaml_marshal := Some; yaml_unmarshal := Some |}.
#[local] Instance mo_unicode : GoUnicode := {|
  unicode_lower s := s; unicode_upper s := s; unicode_trim s := s |}.

Definition mo_mirror (host : gostring) (manual : bool) : MirrorHealth :=
  mkMirrorHealth host 0 ∅ VerdictLive 0 0 manual [] 1 [].
Definition mo_reg : MirrorRegistry MirrorHealth :=
  mkMirrors ∅ {[ $"a" := mo_mirror $"a" false; $"b" := mo_mirror $"b" true ]} 1 false 0 ∅.
Definition mo_cfg : MonitorConfig := mkMonitorConfig true 0 [] 0 (f64_of_Z 0) 0 0.

Lemma mo_reg_wf : reg_wf mo_reg.
Proof.
  intros h m. unfold mo_reg. cbn [mirrors]. rewrite lookup_insert_Some.
  intros [[<- <-]|[_ [<- <-]%lookup_singleton_Some]]; (split_and!; [done|done|by vm_compute]).
Qed.

Lemma mo_env_ok : ∀ h : gostring, ctx_ok (env_fine 9) = true ∧ disk_ok (env_fine 9) = true.
Proof. done. Qed.

Lemma mo_yaml_ok : ∀ m, is_Some (yaml_marshal (D := MirrorHealth) m).
Proof. intros m. by exists m. Qed.

Definition mo_client : MonitorClient :=
  λ p, if decide (pbHost p = $"a") then Some {[ $"n" := mkNodeCheck $"ok" 5 ]} else None.

Lemma monitor_cycle_exact_witness :
  mirrors (CheckOnce mo_client (λ _, env_fine 9) mo_cfg None mo_reg).1
  = cycle_outcome mo_client (λ _, env_fine 9) mo_cfg (resolveSettings mo_cfg None) <$> mirrors mo_reg.
Proof.
  assert (Hx := monitor_cycle_exact mo_client (λ _, env_fine 9) mo_cfg None mo_reg mo_reg_wf mo_env_ok
    mo_yaml_ok eq_refl).
  destruct (CheckOnce _ _ _ _ _) as [r' errs]. destruct Hx as [Hx _]. exact Hx.
Defined.

(** A service whose body lists one node with an empty result. *)
#[local] Instance mo_json : CheckHost.CheckHostJSON := {|
  CheckHost.start_decode _ := None;
  CheckHost.json_decode _ := Some (JObject [($"n", JArray [])]);
  CheckHost.format_float _ := []; CheckHost.raw_text _ := []; CheckHost.ParseTime _ := None |}.

Definition mo_silent : gmap gostring CheckHost.NodeCheck := {[ $"n" := CheckHost.node_pending ]}.

Lemma monitor_blames_silence_witness :
  Verdict <$> mirrors (CheckOnce (λ _, Some (adapt mo_silent)) (λ _, env_fine 9) mo_cfg None mo_reg).1 !! $"a"
  = Some VerdictBlocked.
Proof.
  apply (monitor_blames_silence (λ _, Some (adapt mo_silent)) (λ _, env_fine 9) mo_cfg None mo_reg
    (mo_mirror $"a" false) 0 $"r1" [] $"x" [($"n", JArray [])] mo_silent mo_reg_wf mo_env_ok mo_yaml_ok).
  - reflexivity.
  - vm_compute. reflexivity.
  - reflexivity.
  - reflexivity.
  - discriminate.
  - vm_compute. discriminate.
  - vm_compute. discriminate.
  - reflexivity.
  - discriminate.
  - cbn. lia.
  - by repeat constructor.
  - vm_compute. reflexivity.
  - reflexivity.
Defined.
