(* ===== verification/NetIP.v ===== *)
(** Addresses of package net as the gateway uses them: ParseIP, ParseCIDR and
    IPNet.Contains. An address is a list of byte values, 16 long after
    ParseIP; an IPv4 address is kept in its IPv4-in-IPv6 form. *)

From S2P Require Import Prelude GoStd.

Abbreviation IP := (list Z).

(** * Text *)

(** parseIPv4Fields from the state of its loop: the value and the number of
    digits of the current field, and the finished fields. *)
Fixpoint v4_fields (s : gostring) (val : Z) (digits : nat) (fields : list Z) : option (list Z) :=
  match s with
  | [] => if Nat.ltb (length fields) 3 then None else Some (fields ++ [val])
  | c :: s' =>
      if is_digit c then
        if (Nat.eqb digits 1 && Z.eqb val 0)%bool then None
        else
          let val' := (val * 10 + digit_val c)%Z in
          if Z.ltb 255 val' then None else v4_fields s' val' (S digits) fields
      else if decide (c = "."%char) then
        if (Nat.eqb digits 0 || bool_decide (s' = []))%bool then None
        else if Nat.eqb (length fields) 3 then None
        else v4_fields s' 0 0 (fields ++ [val])
      else None
  end.

(** The hexadecimal digits at the front of [s]: their value, their number and
    the rest; at most four. *)
Fixpoint hex_group (s : gostring) (off : nat) (acc : Z) : option (Z * nat * gostring) :=
  match s with
  | c :: s' =>
      match fromHexChar c with
      | Some d => if Nat.ltb 3 off then None else hex_group s' (S off) (acc * 16 + Z.of_N d)
      | None => Some (acc, off, s)
      end
  | [] => Some (acc, off, s)
  end.

(** The loop of parseIPv6: the bytes so far, the place of the ellipsis and the
    input; one turn per group, so eight are enough. *)
Fixpoint v6_groups (fuel : nat) (ip : list Z) (ellipsis : option nat) (s : gostring)
    : option (list Z * option nat * gostring) :=
  match fuel with
  | 0 => Some (ip, ellipsis, s)
  | S n =>
      if Nat.leb 16 (length ip) then Some (ip, ellipsis, s)
      else match hex_group s 0 0 with
      | None => None
      | Some (acc, off, rest) =>
          if Nat.eqb off 0 then None
          else
            let dot := match rest with c :: _ => bool_decide (c = "."%char) | [] => false end in
            if dot then
              if (negb (bool_decide (is_Some ellipsis)) && negb (Nat.eqb (length ip) 12))%bool then None
              else if Nat.ltb 16 (length ip + 4) then None
              else match v4_fields s 0 0 [] with
                   | None => None
                   | Some f => Some (ip ++ f, ellipsis, [])
                   end
            else
              let ip' := ip ++ [Z.shiftr acc 8; Z.land acc 255] in
              match rest with
              | [] => Some (ip', ellipsis, [])
              | c :: rest' =>
                  if negb (bool_decide (c = ":"%char)) then None
                  else match rest' with
                  | [] => None
                  | c' :: rest'' =>
                      if decide (c' = ":"%char) then
                        match ellipsis with
                        | Some _ => None
                        | None =>
                            match rest'' with
                            | [] => Some (ip', Some (length ip'), [])
                            | _ => v6_groups n ip' (Some (length ip')) rest''
                            end
                        end
                      else v6_groups n ip' ellipsis rest'
                  end
              end
      end
  end.

(** parseIPv6 on a text without a zone. *)
Definition parse_v6 (s : gostring) : option IP :=
  let '(ellipsis, s1) := if HasPrefix s $"::" then (Some 0, drop 2 s) else (None, s) in
  if (bool_decide (is_Some ellipsis) && bool_decide (s1 = []))%bool then Some (replicate 16 0%Z)
  else match v6_groups 8 [] ellipsis s1 with
  | None => None
  | Some (ip, ell, rest) =>
      if decide (rest ≠ []) then None
      else if Nat.ltb (length ip) 16 then
        match ell with
        | None => None
        | Some e => Some (take e ip ++ replicate (16 - length ip) 0%Z ++ drop e ip)
        end
      else match ell with Some _ => None | None => Some ip end
  end.

Definition v4InV6Prefix : list Z := replicate 10 0%Z ++ [255; 255]%Z.

(** netip.ParseAddr of a text without a zone: the address in 16 bytes and its
    bit length. The first of the three special bytes decides. *)
Fixpoint first_special (s : gostring) : option ascii :=
  match s with
  | [] => None
  | c :: s' => if decide (c = "."%char ∨ c = ":"%char ∨ c = "%"%char) then Some c else first_special s'
  end.

Definition ParseAddr (s : gostring) : option (IP * nat) :=
  match first_special s with
  | Some "."%char => (λ f, (v4InV6Prefix ++ f, 32)) <$> v4_fields s 0 0 []
  | Some ":"%char => if decide ("%"%char ∈ s) then None else (λ ip, (ip, 128)) <$> parse_v6 s
  | _ => None
  end.

Definition ParseIP (s : gostring) : option IP := fst <$> ParseAddr s.

(** The four bytes of an IPv4 address, in either form. *)
Definition To4 (ip : IP) : option IP :=
  if decide (length ip = 4) then Some ip
  else if decide (length ip = 16 ∧ take 12 ip = v4InV6Prefix) then Some (drop 12 ip)
  else None.

(** * Networks *)

Record IPNet := mkIPNet { netIP : IP; netMask : list Z }.

(** The byte of a mask with [k] leading ones. *)
Definition mask_byte (k : nat) : Z := (256 - 2 ^ Z.of_nat (8 - Nat.min k 8))%Z.

(** CIDRMask(ones, 8*n). *)
Fixpoint CIDRMask (ones n : nat) : list Z :=
  match n with
  | 0 => []
  | S n' => mask_byte ones :: CIDRMask (ones - 8) n'
  end.

Definition mask_with (ip m : list Z) : list Z := zip_with Z.land ip m.

(** IP.Mask for an address of 16 bytes and a mask of 4 or 16. *)
Definition Mask (ip : IP) (m : list Z) : list Z :=
  let ip := if decide (length m = 4 ∧ length ip = 16 ∧ take 12 ip = v4InV6Prefix) then drop 12 ip else ip in
  if decide (length ip = length m) then mask_with ip m else [].

(** dtoi: the whole text is decimal and below 0xFFFFFF. *)
Fixpoint dtoi (s : gostring) (n : Z) : option Z :=
  match s with
  | [] => Some n
  | c :: s' =>
      if is_digit c then
        let n' := (n * 10 + digit_val c)%Z in
        if Z.leb 16777215 n' then None else dtoi s' n'
      else None
  end.

Definition ParseCIDR (s : gostring) : option IPNet :=
  match cut_byte "/"%char s with
  | None => None
  | Some (addr, mask) =>
      match ParseAddr addr with
      | None => None
      | Some (ip, bits) =>
          if decide (mask = []) then None
          else match dtoi mask 0 with
          | None => None
          | Some n =>
              if Z.ltb (Z.of_nat bits) n then None
              else
                let m := CIDRMask (Z.to_nat n) (bits / 8) in
                Some (mkIPNet (Mask ip m) m)
          end
      end
  end.

(** networkNumberAndMask *)
Definition networkNumberAndMask (n : IPNet) : option (IP * list Z) :=
  let number := match To4 (netIP n) with Some x => Some x | None =>
                  if decide (length (netIP n) = 16) then Some (netIP n) else None end in
  match number with
  | None => None
  | Some ip =>
      if decide (length (netMask n) = length ip) then Some (ip, netMask n)
      else if decide (length (netMask n) = 16 ∧ length ip = 4) then Some (ip, drop 12 (netMask n))
      else None
  end.

Definition Contains (n : IPNet) (ip : IP) : bool :=
  match networkNumberAndMask n with
  | None => false
  | Some (nn, m) =>
      let x := default ip (To4 ip) in
      bool_decide (length x = length nn ∧ mask_with nn m = mask_with x m)
  end.

Example parse_ip_ex :
  ParseIP $"10.0.0.1" = Some (v4InV6Prefix ++ [10; 0; 0; 1])%Z ∧
  ParseIP $"2001:db8::1" = Some ([32; 1; 13; 184] ++ replicate 11 0 ++ [1])%Z ∧
  ParseIP $"::" = Some (replicate 16 0%Z) ∧ ParseIP $"::ffff:1.2.3.4" = ParseIP $"1.2.3.4" ∧
  ParseIP $"1::" = Some ([0; 1] ++ replicate 14 0)%Z ∧
  ParseIP $"10.0.0.01" = None ∧ ParseIP $"10.0.0" = None ∧ ParseIP $"1:2:3:4:5:6:7:8::" = None ∧
  ParseIP $"fe80::1%eth0" = None ∧ ParseIP $"1:::2" = None ∧ ParseIP $"12345::" = None ∧ ParseIP [] = None.
Proof. vm_compute. repeat split. Qed.

Definition in_cidr (cidr ip : gostring) : option bool :=
  n ← ParseCIDR cidr; x ← ParseIP ip; Some (Contains n x).

Example contains_ex :
  in_cidr $"173.245.48.0/20" $"173.245.63.255" = Some true ∧
  in_cidr $"173.245.48.0/20" $"173.245.64.0" = Some false ∧
  in_cidr $"2400:cb00::/32" $"2400:cb00:1::1" = Some true ∧
  in_cidr $"2400:cb00::/32" $"2400:cb01::1" = Some false ∧
  in_cidr $"::/0" $"1.2.3.4" = Some false ∧ in_cidr $"10.0.0.0/33" $"10.0.0.0" = None.
Proof. vm_compute. repeat split. Qed.

(** * Well-formed addresses *)

Definition bytes_ok (l : list Z) : Prop := Forall (λ b, 0 ≤ b < 256)%Z l.

Lemma bytes_ok_app l k : bytes_ok (l ++ k) ↔ bytes_ok l ∧ bytes_ok k.
Proof. apply Forall_app. Qed.

Lemma v4_fields_wf s val digits fields f :
  (0 ≤ val < 256)%Z → bytes_ok fields → length fields ≤ 3 → v4_fields s val digits fields = Some f →
  length f = 4 ∧ bytes_ok f.
Proof.
  revert val digits fields. induction s as [|c s IH]; intros val digits fields Hv Hf Hl; cbn [v4_fields].
  - destruct (Nat.ltb_spec (length fields) 3); [done|]. intros [= <-]. rewrite length_app. cbn [length].
    split; [lia|]. apply Forall_app. split; [done|]. by constructor.
  - destruct (is_digit c) eqn:Hd.
    + destruct (_ && _)%bool; [done|]. destruct (Z.ltb_spec 255 (val * 10 + digit_val c)); [done|].
      apply IH; [|done|done]. unfold is_digit in Hd. apply andb_prop in Hd as [H1%N.leb_le H2%N.leb_le].
      unfold digit_val, byte_val in *. lia.
    + destruct (decide (c = _)); [|done]. destruct (_ || _)%bool; [done|].
      destruct (Nat.eqb_spec (length fields) 3); [done|]. apply IH; [lia| |].
      * apply Forall_app. split; [done|]. by constructor.
      * rewrite length_app. cbn [length]. lia.
Qed.

Lemma hex_group_range s off acc v n r :
  (0 ≤ acc < 16 ^ Z.of_nat off)%Z → off ≤ 4 → hex_group s off acc = Some (v, n, r) → (0 ≤ v < 65536)%Z.
Proof.
  revert off acc. induction s as [|c s IH]; intros off acc Ha Ho; cbn [hex_group].
  - intros [= <- <- <-]. split; [lia|]. eapply Z.lt_le_trans; [apply Ha|].
    change 65536%Z with (16 ^ 4)%Z. apply Z.pow_le_mono_r; lia.
  - destruct (fromHexChar c) as [d|] eqn:Hc.
    + destruct (Nat.ltb_spec 3 off); [done|]. apply IH; [|lia].
      assert (d < 16)%N.
      { unfold fromHexChar in Hc. repeat case_match; simplify_eq; try lia;
          repeat match goal with H : (_ && _)%bool = true |- _ => apply andb_prop in H as [?%N.leb_le ?%N.leb_le] end; lia. }
      rewrite Nat2Z.inj_succ, Z.pow_succ_r by lia. nia.
    + intros [= <- <- <-]. split; [lia|]. eapply Z.lt_le_trans; [apply Ha|].
      change 65536%Z with (16 ^ 4)%Z. apply Z.pow_le_mono_r; lia.
Qed.

(** The bytes of an unfinished IPv6 address and the place of its ellipsis. *)
Definition v6_inv (ip : list Z) (ell : option nat) : Prop :=
  bytes_ok ip ∧ Nat.Even (length ip) ∧ length ip ≤ 16 ∧ (∀ e, ell = Some e → e ≤ length ip).

Lemma v6_inv_group ip ell acc :
  v6_inv ip ell → length ip < 16 → (0 ≤ acc < 65536)%Z → v6_inv (ip ++ [Z.shiftr acc 8; Z.land acc 255]) ell.
Proof.
  intros (Hb & [k Hk] & Hl & He) Hlt Ha. unfold v6_inv. rewrite length_app. cbn [length]. split_and!.
  - apply Forall_app. split; [done|]. rewrite Z.shiftr_div_pow2 by lia. change (2 ^ 8)%Z with 256%Z.
    replace 255%Z with (Z.ones 8) by done. rewrite Z.land_ones by lia. change (2 ^ 8)%Z with 256%Z.
    repeat constructor; try (apply Z.mod_pos_bound; lia);
      [apply Z.div_pos; lia|apply Z.div_lt_upper_bound; lia].
  - exists (S k). lia.
  - lia.
  - intros e ->. specialize (He e eq_refl). lia.
Qed.

Lemma v6_groups_inv fuel ip ell s ip' ell' s' :
  v6_inv ip ell → v6_groups fuel ip ell s = Some (ip', ell', s') → v6_inv ip' ell'.
Proof.
  revert ip ell s. induction fuel as [|n IH]; intros ip ell s Hinv; cbn [v6_groups]; [by intros [= <- <- <-]|].
  destruct (Nat.leb_spec 16 (length ip)) as [|Hlt]; [by intros [= <- <- <-]|].
  destruct (hex_group s 0 0) as [[[acc off] rest]|] eqn:Hh; [|done].
  apply hex_group_range in Hh as Hr; [|lia|lia].
  destruct (Nat.eqb off 0); [done|].
  destruct (match rest with [] => false | _ => _ end).
  - destruct (_ && _)%bool; [done|]. destruct (Nat.ltb_spec 16 (length ip + 4)); [done|].
    destruct (v4_fields s 0 0 []) as [f|] eqn:Hf; [|done]. intros [= <- <- <-].
    apply v4_fields_wf in Hf as [Hl4 Hb4]; [|lia|constructor|cbn; lia].
    destruct Hinv as (Hb & [k Hk] & Hl & He). unfold v6_inv. rewrite length_app, Hl4. split_and!.
    + by apply Forall_app.
    + exists (k + 2). lia.
    + lia.
    + intros e ->. specialize (He e eq_refl). lia.
  - pose proof (v6_inv_group ip ell acc Hinv Hlt Hr) as Hg. destruct rest as [|c rest]; [by intros [= <- <- <-]|].
    destruct (negb _); [done|]. destruct rest as [|c' rest]; [done|]. destruct (decide (c' = _)).
    + assert (Hg' : v6_inv (ip ++ [Z.shiftr acc 8; Z.land acc 255])
                (Some (length (ip ++ [Z.shiftr acc 8; Z.land acc 255])))).
      { destruct Hg as (? & ? & ? & _). split_and!; try done. by intros ? [= <-]. }
      destruct ell; [done|]. destruct rest; [by intros [= <- <- <-]|by apply IH].
    + by apply IH.
Qed.

Lemma ParseAddr_wf s ip bits :
  ParseAddr s = Some (ip, bits) →
  length ip = 16 ∧ bytes_ok ip ∧ (bits = 32 ∧ take 12 ip = v4InV6Prefix ∨ bits = 128).
Proof.
  unfold ParseAddr. destruct (first_special s) as [c|]; [|done].
  assert (Hv4 : ∀ f, v4_fields s 0 0 [] = Some f → length f = 4 ∧ bytes_ok f).
  { intros f. apply v4_fields_wf; [lia|constructor|cbn; lia]. }
  assert (Hd : ∀ o, (λ f, (v4InV6Prefix ++ f, 32)) <$> v4_fields s 0 0 [] = o → o = Some (ip, bits) →
    length ip = 16 ∧ bytes_ok ip ∧ (bits = 32 ∧ take 12 ip = v4InV6Prefix ∨ bits = 128)).
  { intros o <- Ho. apply fmap_Some in Ho as (f & Hf & [-> ->]%pair_eq). destruct (Hv4 f Hf) as [Hl Hb].
    split_and!; [rewrite length_app, Hl; done|apply Forall_app; split; [repeat constructor; lia|done]|left].
    split; [done|]. by rewrite take_app_length'. }
  assert (Hc : ∀ o, (if decide ("%"%char ∈ s) then None else (λ ip, (ip, 128)) <$> parse_v6 s) = o →
    o = Some (ip, bits) →
    length ip = 16 ∧ bytes_ok ip ∧ (bits = 32 ∧ take 12 ip = v4InV6Prefix ∨ bits = 128)).
  { intros o <-. destruct (decide _); [done|]. intros Ho. apply fmap_Some in Ho as (ip6 & Hp & [= -> ->]).
    enough (length ip6 = 16 ∧ bytes_ok ip6) by naive_solver.
    unfold parse_v6 in Hp. destruct (if HasPrefix s $"::" then _ else _) as [ell s1] eqn:Hs.
    destruct (_ && _)%bool; [injection Hp as <-; split; [done|repeat constructor; lia]|].
    destruct (v6_groups 8 [] ell s1) as [[[ip' ell'] rest]|] eqn:Hg; [|done].
    apply v6_groups_inv in Hg as (Hb & _ & Hl & He).
    - destruct (decide (rest ≠ [])); [done|]. destruct (Nat.ltb_spec (length ip') 16).
      + destruct ell' as [e|]; [|done]. injection Hp as <-. specialize (He e eq_refl).
        rewrite !length_app, length_replicate, length_take, length_drop. split; [lia|].
        rewrite !bytes_ok_app. split_and!; [by apply Forall_take|apply Forall_replicate; lia|by apply Forall_drop].
      + destruct ell'; [done|]. injection Hp as <-. split; [lia|done].
    - split_and!; [constructor|by exists 0|cbn; lia|]. intros e ->. destruct (HasPrefix s _); simplify_eq. cbn. lia. }
  destruct (decide (c = "."%char)) as [->|]; [by apply Hd|].
  destruct (decide (c = ":"%char)) as [->|]; [by apply Hc|].
  by destruct c as [[] [] [] [] [] [] [] []].
Qed.

(** * Networks are prefixes *)

(** The address as a number, most significant byte first. *)
Fixpoint ip_val (l : list Z) : Z :=
  match l with
  | [] => 0
  | b :: l' => (b * 256 ^ Z.of_nat (length l') + ip_val l')%Z
  end.

(** Two addresses of one family agree in their first [k] bits. *)
Definition same_prefix (k : nat) (a b : IP) : Prop :=
  length a = length b ∧
  (ip_val a / 2 ^ Z.of_nat (8 * length a - k) = ip_val b / 2 ^ Z.of_nat (8 * length b - k))%Z.

Lemma ip_val_range l : bytes_ok l → (0 ≤ ip_val l < 256 ^ Z.of_nat (length l))%Z.
Proof.
  intros Hb. induction Hb as [|b l Hb _ IH]; [done|]. cbn [ip_val length].
  rewrite Nat2Z.inj_succ, Z.pow_succ_r by lia. nia.
Qed.

(** Masking a byte keeps its upper bits. *)
Lemma land_mask_byte (x : Z) (j : nat) :
  (0 ≤ x < 256)%Z → j ≤ 8 → Z.land x (256 - 2 ^ Z.of_nat j) = (x / 2 ^ Z.of_nat j * 2 ^ Z.of_nat j)%Z.
Proof.
  intros Hx Hj.
  set (P := λ n : nat, forallb (λ m : nat, Z.eqb (Z.land (Z.of_nat n) (256 - 2 ^ Z.of_nat m))
                          (Z.of_nat n / 2 ^ Z.of_nat m * 2 ^ Z.of_nat m)) (seq 0 9)).
  assert (HP : forallb P (seq 0 256) = true) by (vm_compute; reflexivity).
  rewrite forallb_forall in HP. specialize (HP (Z.to_nat x)). unfold P in HP.
  rewrite forallb_forall in HP. rewrite Z2Nat.id in HP by lia.
  apply Z.eqb_eq, HP; apply in_seq; lia.
Qed.

Lemma mask_byte_eq (x y : Z) k :
  (0 ≤ x < 256)%Z → (0 ≤ y < 256)%Z →
  Z.land x (mask_byte k) = Z.land y (mask_byte k) ↔
  (x / 2 ^ Z.of_nat (8 - Nat.min k 8) = y / 2 ^ Z.of_nat (8 - Nat.min k 8))%Z.
Proof.
  intros Hx Hy. unfold mask_byte. rewrite !land_mask_byte by lia. split; [|congruence].
  apply Z.mul_reg_r. pose proof (Z.pow_pos_nonneg 2 (Z.of_nat (8 - Nat.min k 8))). lia.
Qed.

Lemma mask_zero_eq a b n : length a = n → length b = n →
  bytes_ok a → bytes_ok b → mask_with a (CIDRMask 0 n) = mask_with b (CIDRMask 0 n).
Proof.
  revert a b. induction n as [|n IH]; intros [|x a] [|y b] Ha Hb; try done. intros Hxa Hyb.
  apply Forall_cons in Hxa as [Hx Hxa], Hyb as [Hy Hyb]. cbn. f_equal; [|apply IH; auto].
  change (mask_byte 0) with 0%Z. by rewrite !Z.land_0_r.
Qed.

Lemma div_cons (x v P Q : Z) : (0 < P)%Z → (0 < Q)%Z → (0 ≤ v < P)%Z → ((x * P + v) / (P * Q) = x / Q)%Z.
Proof.
  intros HP HQ Hv. rewrite <- Z.div_div by lia. f_equal. rewrite Z.div_add_l by lia.
  rewrite Z.div_small by lia. lia.
Qed.

Lemma div_cons_split (x y v w A D : Z) :
  (0 < A)%Z → (0 < D)%Z → (0 ≤ v < A * D)%Z → (0 ≤ w < A * D)%Z →
  ((x * (A * D) + v) / D = (y * (A * D) + w) / D ↔ x = y ∧ v / D = w / D)%Z.
Proof.
  intros HA HD Hv Hw. rewrite !Z.mul_assoc, !Z.div_add_l by lia.
  assert (0 ≤ v / D < A)%Z by (split; [apply Z.div_pos; lia|apply Z.div_lt_upper_bound; lia]).
  assert (0 ≤ w / D < A)%Z by (split; [apply Z.div_pos; lia|apply Z.div_lt_upper_bound; lia]).
  split; [|intros [-> ->]; done]. intros He. assert (x = y) by nia. subst. split; [done|lia].
Qed.

(** Equal under the mask of [k] ones is equal in the first [k] bits. *)
Lemma mask_prefix a b n k :
  length a = n → length b = n → bytes_ok a → bytes_ok b → k ≤ 8 * n →
  mask_with a (CIDRMask k n) = mask_with b (CIDRMask k n) ↔ same_prefix k a b.
Proof.
  unfold same_prefix. revert a b k. induction n as [|n IH]; intros [|x a] [|y b] k Ha Hb; try done.
  intros Hxa Hyb Hk. apply Forall_cons in Hxa as [Hx Hxa], Hyb as [Hy Hyb]. cbn [length] in *.
  assert (Hla : length a = n) by lia. assert (Hlb : length b = n) by lia.
  pose proof (ip_val_range a Hxa) as Hva. pose proof (ip_val_range b Hyb) as Hvb.
  cbn [CIDRMask mask_with zip_with ip_val]. fold (mask_with a (CIDRMask (k - 8) n)) (mask_with b (CIDRMask (k - 8) n)).
  rewrite Hla, Hlb in *.
  assert (Hcons : ∀ (u v : Z) (s t : list Z), u :: s = v :: t ↔ u = v ∧ s = t) by naive_solver.
  rewrite Hcons, (mask_byte_eq x y k) by done.
  assert (Hp256 : (256 ^ Z.of_nat n = 2 ^ Z.of_nat (8 * n))%Z).
  { change 256%Z with (2 ^ 8)%Z. rewrite <- Z.pow_mul_r by lia. f_equal. lia. }
  destruct (decide (8 ≤ k)) as [H8|H8].
  - rewrite Nat.min_r by lia. replace (8 - 8) with 0 by lia. rewrite !Z.div_1_r.
    rewrite IH by (done || lia). rewrite Hla, Hlb.
    replace (8 * S n - k) with (8 * n - (k - 8)) by lia.
    assert (Hsplit : (256 ^ Z.of_nat n = 2 ^ Z.of_nat (k - 8) * 2 ^ Z.of_nat (8 * n - (k - 8)))%Z).
    { rewrite Hp256, <- Z.pow_add_r by lia. f_equal. lia. }
    rewrite Hsplit in *. rewrite div_cons_split; [naive_solver| | |done|done];
      apply Z.pow_pos_nonneg; lia.
  - rewrite Nat.min_l by lia. replace (k - 8) with 0 by lia.
    assert (Hz := mask_zero_eq a b n Hla Hlb Hxa Hyb).
    replace (2 ^ Z.of_nat (8 * S n - k))%Z with (256 ^ Z.of_nat n * 2 ^ Z.of_nat (8 - k))%Z
      by (rewrite Hp256, <- Z.pow_add_r by lia; f_equal; lia).
    rewrite !div_cons by (done || apply Z.pow_pos_nonneg; lia). naive_solver.
Qed.

Lemma mask_with_idemp a m : mask_with (mask_with a m) m = mask_with a m.
Proof.
  unfold mask_with. revert m. induction a as [|x a IH]; intros [|y m]; cbn; try done.
  by rewrite IH, <- Z.land_assoc, Z.land_diag.
Qed.

Lemma CIDRMask_length k n : length (CIDRMask k n) = n.
Proof. revert k. induction n; intros k; cbn; auto. Qed.

Lemma mask_with_length a k n : length a = n → length (mask_with a (CIDRMask k n)) = n.
Proof. intros Ha. unfold mask_with. rewrite length_zip_with, CIDRMask_length. lia. Qed.

Lemma dtoi_range s n v : (0 ≤ n < 16777215)%Z → dtoi s n = Some v → (0 ≤ v < 16777215)%Z.
Proof.
  revert n. induction s as [|c s IH]; intros n Hn; cbn [dtoi]; [by intros [= <-]|].
  destruct (is_digit c) eqn:Hd; [|done]. destruct (Z.leb_spec 16777215 (n * 10 + digit_val c)); [done|].
  apply IH. unfold is_digit in Hd. apply andb_prop in Hd as [H1%N.leb_le H2%N.leb_le].
  unfold digit_val, byte_val in *. lia.
Qed.

Lemma To4_16 ip : length ip = 16 → To4 ip = if decide (take 12 ip = v4InV6Prefix) then Some (drop 12 ip) else None.
Proof.
  intros Hl. unfold To4. rewrite decide_False by lia. destruct (decide (take 12 ip = _)) as [He|He].
  - by rewrite decide_True.
  - rewrite decide_False; [done|]. by intros [_ ?].
Qed.

(** What the text of a network stands for: a base address of a family and a
    number of bits. *)
Definition denotes (s : gostring) (base : IP) (bits k : nat) : Prop :=
  ∃ addr mask, cut_byte "/"%char s = Some (addr, mask) ∧ ParseAddr addr = Some (base, bits) ∧
    mask ≠ [] ∧ dtoi mask 0 = Some (Z.of_nat k) ∧ k ≤ bits.

(** A parsed IPv4 network contains the IPv4 addresses with its prefix and
    nothing else; an IPv6 network that is not an IPv4 one in disguise contains
    the other addresses with its prefix. *)
Lemma ParseCIDR_contains s net :
  ParseCIDR s = Some net →
  ∃ base bits k, denotes s base bits k ∧
    ∀ ip, length ip = 16 → bytes_ok ip →
      (bits = 32 → Contains net ip = true ↔ ∃ x, To4 ip = Some x ∧ same_prefix k (drop 12 base) x) ∧
      (bits = 128 → To4 (netIP net) = None →
         Contains net ip = true ↔ To4 ip = None ∧ same_prefix k base ip).
Proof.
  unfold ParseCIDR. destruct (cut_byte _ s) as [[addr mask]|] eqn:Hcut; [|done].
  destruct (ParseAddr addr) as [[base bits]|] eqn:Ha; [|done]. destruct (decide (mask = [])); [done|].
  destruct (dtoi mask 0) as [v|] eqn:Hd; [|done]. destruct (Z.ltb_spec (Z.of_nat bits) v); [done|].
  intros Hnet. apply (inj Some) in Hnet as <-. apply dtoi_range in Hd as Hv; [|lia].
  exists base, bits, (Z.to_nat v). split.
  { exists addr, mask. split_and!; try done; [by rewrite Z2Nat.id by lia|lia]. }
  apply ParseAddr_wf in Ha as (Hl & Hb & Hf). intros ip Hli Hbi.
  unfold Contains, networkNumberAndMask. cbn [netIP netMask]. split.
  - intros ->. change (32 / 8) with 4. set (m := CIDRMask (Z.to_nat v) 4).
    assert (Hm : length m = 4) by apply CIDRMask_length. destruct Hf as [[_ Hpre]|]; [|done].
    unfold Mask. rewrite (decide_True (P := length m = 4 ∧ _)) by done. rewrite Hm.
    assert (Hl4 : length (drop 12 base) = 4) by (rewrite length_drop; lia).
    assert (Hlm : length (mask_with (drop 12 base) m) = 4) by by apply mask_with_length.
    rewrite decide_True by done. unfold To4 at 1. rewrite decide_True by done. rewrite Hlm, decide_True by done.
    rewrite bool_decide_eq_true, mask_with_idemp, (To4_16 ip Hli).
    destruct (decide (take 12 ip = _)) as [He|He]; cbn [from_option]; unfold id.
    + rewrite Hlm. assert (Hl4' : length (drop 12 ip) = 4) by (rewrite length_drop; lia).
      unfold m; rewrite (mask_prefix _ _ 4); [|done|done|by apply Forall_drop|by apply Forall_drop|lia]. naive_solver.
    + rewrite Hlm. naive_solver lia.
  - intros -> Hnone. change (128 / 8) with 16 in *. set (m := CIDRMask (Z.to_nat v) 16) in *.
    assert (Hm : length m = 16) by apply CIDRMask_length. cbn [netIP] in Hnone.
    assert (HM : Mask base m = mask_with base m).
    { unfold Mask. rewrite (decide_False (P := length m = 4 ∧ _)) by (intros [? _]; lia).
      by rewrite decide_True by lia. }
    rewrite HM in *. assert (Hlm : length (mask_with base m) = 16) by by apply mask_with_length.
    rewrite Hnone, Hlm, Hm. rewrite (decide_True (P := 16 = 16)) by done. rewrite Hlm.
    rewrite (decide_True (P := 16 = 16)) by done.
    rewrite bool_decide_eq_true, mask_with_idemp, Hlm, (To4_16 ip Hli).
    destruct (decide (take 12 ip = _)) as [He|He]; cbn [from_option]; unfold id.
    + rewrite length_drop. naive_solver lia.
    + unfold m; rewrite (mask_prefix _ _ 16) by (done || lia). naive_solver.
Qed.
