(* ===== verification/Blocklist.v ===== *)
(** The regular-expression block list (src/internal/feature/blocklist):
    parsing and compiling the rules of a snapshot, publishing them per tenant,
    and the middleware that applies the first rule that matches.

    The regexp package is a parameter: a compiler and a matcher. *)

From S2P Require Import Prelude Float Http Shared FeatureRegistry GoStd.

(** regexp.Compile and Regexp.MatchString. *)
Class GoRegexp := {
  Regexp : Type;
  regexp_compile : gostring → option Regexp;
  MatchString : Regexp → gostring → bool
}.

Definition FeatureName : gostring := $"blocklist_regex".
Definition globalTenantKey : gostring := $"_global_".
Definition defaultTimeout : duration := (30 * Second)%Z.

(** * Configuration *)

Record parsedRule := mkparsedRule {
  prPattern : gostring;
  prAction : gostring;
  prTarget : gostring;
  prHeader : gostring
}.

Inductive rule_error :=
| ErrExpectedString | ErrExpectedInt | ErrDefaultAction | ErrNegativeTimeout
| ErrPatternsNotList | ErrEntryNotMap (i : nat) | ErrMissingPattern (i : nat)
| ErrEmptyPattern (i : nat) | ErrBadAction (i : nat) | ErrActionMissing (i : nat)
| ErrBadTarget (i : nat) | ErrHeaderRequired (i : nat) | ErrCompile (i : nat).

Definition asString (v : json) : result rule_error gostring :=
  match v with JString s => Ok s | JNull => Ok [] | _ => Err ErrExpectedString end.

Definition asInt (v : json) : result rule_error Z :=
  match v with JInt n => Ok (wrap64 n) | JFloat f => Ok (f64_to_int f) | _ => Err ErrExpectedInt end.

(** A block action, refused with [e] when it is none. *)
Definition as_action (e : rule_error) (v : json) : result rule_error gostring :=
  let* s := asString v in
  if BlockAction_IsValid s then Ok s else Err e.

Definition parse_target (i : nat) (v : json) : result rule_error gostring :=
  let* s := asString v in
  if decide (s = $"path" ∨ s = $"header") then Ok s
  else if decide (s = []) then Ok $"path"
  else Err (ErrBadTarget i).

Definition parseOne (i : nat) (m : list (gostring * json)) (def : gostring)
    : result rule_error parsedRule :=
  match field m $"pattern" with
  | None => Err (ErrMissingPattern i)
  | Some raw =>
      let* pattern := asString raw in
      if decide (pattern = []) then Err (ErrEmptyPattern i)
      else
        let* action := match field m $"action" with
                       | Some raw => as_action (ErrBadAction i) raw
                       | None => if decide (def = []) then Err (ErrActionMissing i) else Ok []
                       end in
        let* target := match field m $"target" with
                       | Some raw => parse_target i raw
                       | None => Ok $"path"
                       end in
        let* header := match field m $"header" with Some raw => asString raw | None => Ok [] end in
        if decide (target = $"header" ∧ header = []) then Err (ErrHeaderRequired i)
        else Ok (mkparsedRule pattern action target header)
  end.

Fixpoint parse_entries (i : nat) (l : list json) (def : gostring) : result rule_error (list parsedRule) :=
  match l with
  | [] => Ok []
  | JObject m :: l' =>
      let* pr := parseOne i m def in
      let* rest := parse_entries (S i) l' def in
      Ok (pr :: rest)
  | _ :: _ => Err (ErrEntryNotMap i)
  end.

(** The timeout: [time.Duration(n) * time.Second] of a number not negative. *)
Definition parse_timeout (v : json) : result rule_error duration :=
  let* n := asInt v in
  if Z.ltb n 0 then Err ErrNegativeTimeout else Ok (dur_mul n Second).

Definition parseRules (cfg : FeatureSnapshot) : result rule_error (list parsedRule * gostring * duration) :=
  let p := fsParams cfg in
  let* defAction := match p !! $"default_action" with
                    | Some raw => as_action ErrDefaultAction raw
                    | None => Ok []
                    end in
  let* timeout := match p !! $"timeout_seconds" with
                  | Some raw => parse_timeout raw
                  | None => Ok 0%Z
                  end in
  match p !! $"patterns" with
  | None => Ok ([], defAction, timeout)
  | Some (JArray l) => let* rules := parse_entries 0 l defAction in Ok (rules, defAction, timeout)
  | Some _ => Err ErrPatternsNotList
  end.

Section rules.
Context `{GoUnicode} `{GoRegexp}.

Record compiledPattern := mkcompiledPattern {
  cpRe : Regexp;
  cpAction : gostring;
  cpTarget : gostring;
  cpHeader : gostring
}.

Record tenantRules := mktenantRules {
  patterns : list compiledPattern;
  defaultAction : gostring;
  trTimeout : duration
}.

Fixpoint compile_all (i : nat) (l : list parsedRule) : result rule_error (list compiledPattern) :=
  match l with
  | [] => Ok []
  | pr :: l' =>
      match regexp_compile (prPattern pr) with
      | None => Err (ErrCompile i)
      | Some re =>
          let* rest := compile_all (S i) l' in
          Ok (mkcompiledPattern re (prAction pr) (prTarget pr) (prHeader pr) :: rest)
      end
  end.

(** compileCfg; None are the nil rules of a disabled snapshot without
    patterns. *)
Definition compileCfg (cfg : FeatureSnapshot) : result rule_error (option tenantRules) :=
  let* parsed := parseRules cfg in
  let '(rules, defAction, timeout) := parsed in
  if (negb (fsEnabled cfg) && bool_decide (rules = []))%bool then Ok None
  else
    let* ps := compile_all 0 rules in
    Ok (Some (mktenantRules ps defAction timeout)).

Definition Validate (cfg : FeatureSnapshot) : option rule_error :=
  if (negb (fsEnabled cfg) && bool_decide (fsParams cfg = ∅))%bool then None
  else match compileCfg cfg with Ok _ => None | Err e => Some e end.

(** * Matching *)

(** What the pattern is run on; None when the rule does not apply. *)
Definition subject (target header : gostring) (r : Request) : option gostring :=
  if decide (target = $"header") then
    if decide (header = []) then None
    else
      let s := hdr_get (ReqHeader r) (CanonicalHeaderKey header) in
      if decide (s = []) then None else Some s
  else Some (Path r).

Fixpoint match_loop (ps : list compiledPattern) (r : Request) : option compiledPattern :=
  match ps with
  | [] => None
  | p :: ps' =>
      match subject (cpTarget p) (cpHeader p) r with
      | None => match_loop ps' r
      | Some s => if MatchString (cpRe p) s then Some p else match_loop ps' r
      end
  end.

Definition Match (tr : option tenantRules) (r : Request) : option compiledPattern :=
  match tr with None => None | Some t => match_loop (patterns t) r end.

(** * The feature *)

Record BlocklistFeature := mkBlocklistFeature {
  bfEnabled : bool;
  compiled : gmap gostring tenantRules
}.

Definition New : BlocklistFeature := mkBlocklistFeature false ∅.

Definition rules_of (cfg : FeatureSnapshot) : option tenantRules :=
  match compileCfg cfg with Ok (Some r) => Some r | _ => None end.

(** The compiled rules with the flag of their snapshot, globals first. *)
Definition observed (g : GlobalsSnapshot) (ts : gmap gostring TenantSnapshot)
    : list (gostring * tenantRules * bool) :=
  let gcfg := default FeatureSnapshot_zero (g !! FeatureName) in
  match rules_of gcfg with Some r => [(globalTenantKey, r, fsEnabled gcfg)] | None => [] end
  ++ omap (λ ht, match tsFeatures ht.2 !! FeatureName with
                 | Some cfg => (λ r, (ToLower ht.1, r, fsEnabled cfg)) <$> rules_of cfg
                 | None => None
                 end) (map_to_list ts).

Definition Observe (g : GlobalsSnapshot) (ts : gmap gostring TenantSnapshot) (_ : BlocklistFeature)
    : BlocklistFeature :=
  mkBlocklistFeature (existsb snd (observed g ts))
    (foldl (λ m e, <[e.1.1 := e.1.2]> m) ∅ (observed g ts)).

Definition rulesFor (f : BlocklistFeature) (tenantKey : gostring) : option tenantRules :=
  match compiled f !! tenantKey with
  | Some r => Some r
  | None => compiled f !! globalTenantKey
  end.
End rules.

(** The end of a blocked request: a torn connection or an empty answer, after
    a wait. *)
Inductive blocked :=
| BClosed (wait : duration)
| BStatus (wait : duration) (code : Z).

(** [hijack]: whether the writer can be hijacked and hijacking succeeds. *)
Definition hijackAndClose (hijack : bool) (wait : duration) : blocked :=
  if hijack then BClosed wait else BStatus wait StatusBadRequest.

(** [cancelled]: the time after which the request's context ends, if it does. *)
Definition respond (hijack : bool) (cancelled : option duration) (action : gostring) (timeout : duration)
    : blocked :=
  if decide (action = BlockActionNotFound) then BStatus 0 StatusNotFound
  else if decide (action = BlockActionTooMany) then BStatus 0 StatusTooManyRequests
  else if decide (action = BlockActionTimeout) then
    let sleep := if Z.leb timeout 0 then defaultTimeout else timeout in
    hijackAndClose hijack (match cancelled with Some c => Z.min sleep c | None => sleep end)
  else hijackAndClose hijack 0.

Section middleware.
Context `{GoUnicode} `{GoRegexp}.

(** The action on a match: the rule's, the default of the rule set, or drop. *)
Definition action_of (p : compiledPattern) (rules : tenantRules) : gostring :=
  let action := if decide (cpAction p = []) then defaultAction rules else cpAction p in
  if decide (action = []) then BlockActionDrop else action.

Definition tenant_key (ctx : Context) : gostring :=
  match TenantFromContext ctx with
  | Some t => if decide (tsHost t = []) then globalTenantKey else ToLower (tsHost t)
  | None => globalTenantKey
  end.

(** None: the request goes on to the next handler. *)
Definition Middleware (f : BlocklistFeature) (hijack : bool) (cancelled : option duration)
    (r : Request) (snap : snapshotState) (ctx : Context) : option blocked :=
  if negb (bfEnabled f) then None
  else if negb (fsEnabled (Resolve snap ctx FeatureName)) then None
  else
    match rulesFor f (tenant_key ctx) with
    | None => None
    | Some rules =>
        match Match (Some rules) r with
        | None => None
        | Some m => Some (respond hijack cancelled (action_of m rules) (trTimeout rules))
        end
    end.
End middleware.

(** * The effective configuration is enforced *)

(** A published map has the value of the entries with the key. *)
Lemma foldl_insert_Some {A V} (key : A → gostring) (val : A → V) (l : list A) (m : gmap gostring V) k v :
  (∀ e, e ∈ l → key e = k → val e = v) → (∃ e, e ∈ l ∧ key e = k) ∨ m !! k = Some v →
  foldl (λ m e, <[key e := val e]> m) m l !! k = Some v.
Proof.
  revert m. induction l as [|e l IH]; intros m Hall Hex; cbn [foldl].
  - destruct Hex as [(? & []%elem_of_nil & _)|?]; done.
  - apply IH; [intros; apply Hall; set_solver|].
    destruct (decide (key e = k)) as [Hk|Hk].
    + right. rewrite Hk, lookup_insert_eq. f_equal. apply Hall; [set_solver|done].
    + rewrite lookup_insert_ne by done. destruct Hex as [(e' & He' & Hk')|?]; [|by right].
      left. exists e'. split; [|done]. apply elem_of_cons in He' as [->|?]; done.
Qed.

Lemma foldl_insert_None {A V} (key : A → gostring) (val : A → V) (l : list A) (m : gmap gostring V) k :
  (∀ e, e ∈ l → key e ≠ k) → foldl (λ m e, <[key e := val e]> m) m l !! k = m !! k.
Proof.
  revert m. induction l as [|e l IH]; intros m Hall; cbn [foldl]; [done|].
  rewrite IH by set_solver. apply lookup_insert_ne, Hall. set_solver.
Qed.

Section enforcement.
Context `{GoUnicode} `{GoRegexp}.

(** The rule applies to the request. *)
Definition rule_matches (pr : parsedRule) (r : Request) : Prop :=
  ∃ re s, regexp_compile (prPattern pr) = Some re ∧ subject (prTarget pr) (prHeader pr) r = Some s ∧
    MatchString re s = true.

(** What a snapshot demands: it is on and its first rule that applies to the
    request has the action, its own or the default. *)
Definition demands (cfg : FeatureSnapshot) (r : Request) (action : gostring) (timeout : duration) : Prop :=
  fsEnabled cfg = true ∧ BlockAction_IsValid action = true ∧
  ∃ pre pr post def,
    parseRules cfg = Ok (pre ++ pr :: post, def, timeout) ∧
    Forall (λ q, ¬ rule_matches q r) pre ∧ rule_matches pr r ∧
    (prAction pr = action ∨ prAction pr = [] ∧ def = action).

Lemma as_action_valid e v a : as_action e v = Ok a → BlockAction_IsValid a = true.
Proof. unfold as_action. destruct (asString v); [|done]. cbn [res_bind]. destruct (BlockAction_IsValid _) eqn:E; [|done]. by intros [= ->]. Qed.

(** The action a parsed rule ends up with. *)
Definition final_action (def : gostring) (pr : parsedRule) : gostring :=
  if decide (prAction pr = []) then def else prAction pr.

Lemma parseOne_action i m def pr :
  (def = [] ∨ BlockAction_IsValid def = true) → parseOne i m def = Ok pr →
  BlockAction_IsValid (final_action def pr) = true.
Proof.
  intros Hdef. unfold parseOne. destruct (field m _) as [raw|]; [|done].
  destruct (asString raw) as [pat|]; [|done]. cbn [res_bind]. destruct (decide (pat = [])); [done|].
  destruct (match field m $"action" with Some _ => _ | None => _ end) as [a|] eqn:Ea; [|done]. cbn [res_bind].
  destruct (match field m $"target" with Some _ => _ | None => _ end) as [tg|]; [|done]. cbn [res_bind].
  destruct (match field m $"header" with Some _ => _ | None => _ end) as [hd|]; [|done]. cbn [res_bind].
  destruct (decide (tg = _ ∧ _)); [done|]. intros [= <-]. unfold final_action. cbn [prAction].
  destruct (field m $"action") as [v|].
  - apply as_action_valid in Ea. destruct (decide (a = [])) as [->|]; done.
  - destruct (decide (def = [])); [done|]. simplify_eq. rewrite decide_True by done. by destruct Hdef.
Qed.

Lemma parse_entries_action i l def rules :
  (def = [] ∨ BlockAction_IsValid def = true) → parse_entries i l def = Ok rules →
  Forall (λ pr, BlockAction_IsValid (final_action def pr) = true) rules.
Proof.
  intros Hdef. revert i rules. induction l as [|v l IH]; intros i rules; cbn [parse_entries].
  - intros [= <-]. constructor.
  - destruct v; try done. destruct (parseOne _ _ _) as [pr|] eqn:E; [|done]. cbn [res_bind].
    destruct (parse_entries (S i) _ _) as [rest|] eqn:E2; [|done]. intros [= <-].
    constructor; [by eapply parseOne_action|by eapply IH].
Qed.

Lemma parseRules_action cfg rules def t :
  parseRules cfg = Ok (rules, def, t) → Forall (λ pr, BlockAction_IsValid (final_action def pr) = true) rules.
Proof.
  unfold parseRules. destruct (match _ !! $"default_action" with Some _ => _ | None => _ end) as [d|] eqn:Ed; [|done].
  cbn [res_bind]. destruct (match _ !! $"timeout_seconds" with Some _ => _ | None => _ end) as [t'|]; [|done].
  cbn [res_bind]. assert (Hd : d = [] ∨ BlockAction_IsValid d = true).
  { destruct (_ !! $"default_action"); [right; by eapply as_action_valid|left; by simplify_eq]. }
  destruct (_ !! $"patterns") as [[]|]; try done.
  - destruct (parse_entries _ _ _) eqn:E; [|done]. intros [= <- <- <-]. by eapply parse_entries_action.
  - intros [= <- <- <-]. constructor.
Qed.

Definition compiled_as (pr : parsedRule) (cp : compiledPattern) : Prop :=
  regexp_compile (prPattern pr) = Some (cpRe cp) ∧ cpAction cp = prAction pr ∧
  cpTarget cp = prTarget pr ∧ cpHeader cp = prHeader pr.

Lemma compile_all_spec i l ps : compile_all i l = Ok ps → Forall2 compiled_as l ps.
Proof.
  revert i ps. induction l as [|pr l IH]; intros i ps; cbn [compile_all].
  - intros [= <-]. constructor.
  - destruct (regexp_compile _) as [re|] eqn:E; [|done].
    destruct (compile_all (S i) l) as [rest|] eqn:E2; [|done]. intros [= <-].
    constructor; [done|by eapply IH].
Qed.

Lemma rule_matches_compiled pr cp r :
  compiled_as pr cp →
  rule_matches pr r ↔ ∃ s, subject (cpTarget cp) (cpHeader cp) r = Some s ∧ MatchString (cpRe cp) s = true.
Proof.
  intros (Hre & _ & Ht & Hh). unfold rule_matches. rewrite Ht, Hh. split.
  - intros (re & s & ? & ? & ?). simplify_eq. eauto.
  - intros (s & ? & ?). eauto.
Qed.

(** The loop finds the first rule that applies. *)
Lemma match_loop_first l ps r :
  Forall2 compiled_as l ps →
  match match_loop ps r with
  | Some cp => ∃ pre pr post, l = pre ++ pr :: post ∧ Forall (λ q, ¬ rule_matches q r) pre ∧
                 rule_matches pr r ∧ prAction pr = cpAction cp
  | None => Forall (λ q, ¬ rule_matches q r) l
  end.
Proof.
  intros Hf. induction Hf as [|pr cp l ps Hc Hf IH]; cbn [match_loop]; [constructor|].
  pose proof (rule_matches_compiled pr cp r Hc) as Hm.
  assert (Hskip : ¬ rule_matches pr r →
    match match_loop ps r with
    | Some cp => ∃ pre pr' post, pr :: l = pre ++ pr' :: post ∧ Forall (λ q, ¬ rule_matches q r) pre ∧
                   rule_matches pr' r ∧ prAction pr' = cpAction cp
    | None => Forall (λ q, ¬ rule_matches q r) (pr :: l)
    end).
  { intros Hn. destruct (match_loop ps r) as [cp'|]; [|by constructor].
    destruct IH as (pre & pr' & post & -> & Hpre & Hpr & Ha). exists (pr :: pre), pr', post.
    split_and!; [done|by constructor|done|done]. }
  destruct (subject _ _ r) as [s|].
  - destruct (MatchString (cpRe cp) s) eqn:E.
    + exists [], pr, l. split_and!; [done|constructor|apply Hm; eauto|]. by destruct Hc as (_ & <- & _).
    + apply Hskip. rewrite Hm. intros (? & [= <-] & ?). congruence.
  - apply Hskip. rewrite Hm. by intros (? & ? & _).
Qed.

(** A reload that was validated, of hosts that differ in more than case. *)
Record accepted_reload (g : GlobalsSnapshot) (ts : gmap gostring TenantSnapshot) : Prop := {
  ar_globals : Validate (default FeatureSnapshot_zero (g !! FeatureName)) = None;
  ar_tenants : map_Forall (λ _ t, Validate (effective g t FeatureName) = None) ts;
  ar_hosts : ∀ h h', is_Some (ts !! h) → is_Some (ts !! h') → ToLower h = ToLower h' → h = h';
  ar_reserved : ∀ h, is_Some (ts !! h) → ToLower h ≠ globalTenantKey
}.

(** The context of a request to a published tenant, or to none. *)
Definition published (ts : gmap gostring TenantSnapshot) (ctx : Context) : Prop :=
  match TenantFromContext ctx with
  | Some t => tsHost t ≠ [] ∧ ts !! tsHost t = Some t
  | None => True
  end.

Lemma validated_rules cfg :
  fsEnabled cfg = true → Validate cfg = None → ∃ rules, rules_of cfg = Some rules.
Proof.
  intros He. unfold Validate, rules_of. rewrite He. cbn [negb andb].
  destruct (compileCfg cfg) as [[rules|]|] eqn:E; [eauto| |done]. intros _.
  unfold compileCfg in E. destruct (parseRules cfg) as [[[rs d] t]|]; [|done]. cbn [res_bind] in E.
  rewrite He in E. cbn [negb andb] in E. by destruct (compile_all 0 rs).
Qed.

Lemma observed_spec g ts e :
  e ∈ observed g ts ↔
  (rules_of (default FeatureSnapshot_zero (g !! FeatureName)) = Some e.1.2 ∧ e.1.1 = globalTenantKey ∧
   e.2 = fsEnabled (default FeatureSnapshot_zero (g !! FeatureName))) ∨
  (∃ h t cfg, ts !! h = Some t ∧ tsFeatures t !! FeatureName = Some cfg ∧
     rules_of cfg = Some e.1.2 ∧ e.1.1 = ToLower h ∧ e.2 = fsEnabled cfg).
Proof.
  unfold observed. rewrite elem_of_app. f_equiv.
  - destruct (rules_of _) as [r|]; [rewrite list_elem_of_singleton|rewrite elem_of_nil; naive_solver].
    destruct e as [[k r'] b]. naive_solver.
  - rewrite list_elem_of_omap. split.
    + intros ([h t] & Hin & He). apply elem_of_map_to_list in Hin. cbn [fst snd] in He.
      destruct (tsFeatures t !! FeatureName) as [cfg|] eqn:Ec; [|done].
      apply fmap_Some in He as (r & Hr & ->). exists h, t, cfg. done.
    + intros (h & t & cfg & Hh & Hc & Hr & Hk & Hb). exists (h, t). split; [by apply elem_of_map_to_list|].
      cbn [fst snd]. rewrite Hc, Hr. destruct e as [[k r'] b]. cbn [fst snd] in *. by subst.
Qed.

(** The snapshot an enabled request resolves to is one that Observe saw. *)
Lemma resolved_observed g ts f0 ctx :
  accepted_reload g ts → published ts ctx →
  let cfg := Resolve (mkSnapshotState g ts) ctx FeatureName in
  fsEnabled cfg = true →
  ∃ rules, rules_of cfg = Some rules ∧ bfEnabled (Observe g ts f0) = true ∧
    rulesFor (Observe g ts f0) (tenant_key ctx) = Some rules.
Proof.
  intros Hacc Hpub cfg Hen.
  set (gcfg := default FeatureSnapshot_zero (g !! FeatureName)).
  assert (Hglob : ∀ rules, rules_of gcfg = Some rules →
    compiled (Observe g ts f0) !! globalTenantKey = Some rules).
  { intros rules Hr. cbn [Observe compiled]. apply (foldl_insert_Some (λ e, e.1.1) (λ e, e.1.2)).
    - intros e He Hk. apply observed_spec in He as [(He & _)|(h & t & c & Hh & _ & _ & Hl & _)].
      + fold gcfg in He. congruence.
      + exfalso. rewrite Hl in Hk. by eapply (ar_reserved _ _ Hacc).
    - left. exists (globalTenantKey, rules, fsEnabled gcfg). split; [|done]. apply observed_spec. by left. }
  assert (Hflag : ∀ e, e ∈ observed g ts → e.2 = true → bfEnabled (Observe g ts f0) = true).
  { intros e He Hb. cbn. apply existsb_exists. exists e. by rewrite <- list_elem_of_In. }
  assert (Hfall : ∀ key, cfg = gcfg → (∀ e, e ∈ observed g ts → e.1.1 = key → key = globalTenantKey) →
    ∃ rules, rules_of cfg = Some rules ∧ bfEnabled (Observe g ts f0) = true ∧
      rulesFor (Observe g ts f0) key = Some rules).
  { intros key Hc Hkey. destruct (validated_rules gcfg) as [rules Hr]; [by rewrite <- Hc|apply Hacc|].
    exists rules. split; [by rewrite Hc|]. split.
    - apply (Hflag (globalTenantKey, rules, fsEnabled gcfg)); [apply observed_spec; by left|]. cbn. by rewrite <- Hc.
    - unfold rulesFor. destruct (decide (key = globalTenantKey)) as [->|Hne].
      + by rewrite (Hglob _ Hr).
      + replace (compiled (Observe g ts f0) !! key) with (@None tenantRules); [by rewrite (Hglob _ Hr)|].
        symmetry. cbn [Observe compiled]. rewrite (foldl_insert_None (λ e, e.1.1) (λ e, e.1.2)); [done|].
        intros e He Hk. apply Hne. by eapply Hkey. }
  unfold published in Hpub. unfold tenant_key. subst cfg. unfold Resolve in *.
  destruct (TenantFromContext ctx) as [t|]; [|apply Hfall; [done|by intros]].
  destruct Hpub as [Hne Ht]. rewrite (decide_False (P := tsHost t = [])) by done.
  destruct (tsFeatures t !! FeatureName) as [cfg|] eqn:Ec.
  - destruct (validated_rules cfg) as [rules Hr]; [done| |].
    { pose proof (ar_tenants _ _ Hacc _ _ Ht) as Hv. unfold effective in Hv. by rewrite Ec in Hv. }
    assert (Hin : (ToLower (tsHost t), rules, fsEnabled cfg) ∈ observed g ts).
    { apply observed_spec. right. exists (tsHost t), t, cfg. done. }
    exists rules. split; [done|]. split; [by eapply Hflag|]. unfold rulesFor. cbn [Observe compiled].
    rewrite (foldl_insert_Some (λ e, e.1.1) (λ e, e.1.2) _ _ _ rules); [done| |left; eauto].
    intros e He Hk. apply observed_spec in He as [(_ & Hg & _)|(h & t' & c & Hh & Hc & Hr' & Hl & _)].
    + exfalso. apply (ar_reserved _ _ Hacc (tsHost t)); [eauto|congruence].
    + assert (h = tsHost t) as -> by (apply (ar_hosts _ _ Hacc); [eauto|eauto|congruence]). congruence.
  - apply Hfall; [done|]. intros e He Hk. apply observed_spec in He as [(_ & Hg & _)|(h & t' & c & Hh & Hc & _ & Hl & _)].
    + congruence.
    + assert (h = tsHost t) as -> by (apply (ar_hosts _ _ Hacc); [eauto|eauto|congruence]). congruence.
Qed.

(** The block list enforces the effective configuration. After a validated
    reload, a request to a published tenant, or to none, is blocked exactly
    when the snapshot it resolves to (the tenant's own or the global one) is on
    and has a rule that applies to it; the first such rule decides, with its
    own action or the default one, which is always one of the four actions;
    every other request goes on. *)
Theorem blocklist_enforces g ts f0 ctx hijack cancelled r :
  accepted_reload g ts → published ts ctx →
  let cfg := Resolve (mkSnapshotState g ts) ctx FeatureName in
  match Middleware (Observe g ts f0) hijack cancelled r (mkSnapshotState g ts) ctx with
  | Some out => ∃ action timeout, demands cfg r action timeout ∧ out = respond hijack cancelled action timeout
  | None => ∀ action timeout, ¬ demands cfg r action timeout
  end.
Proof.
  intros Hacc Hpub cfg. unfold Middleware. fold cfg.
  destruct (fsEnabled cfg) eqn:Hen.
  2: { replace (if negb (bfEnabled (Observe g ts f0)) then None else _) with (@None blocked)
         by (destruct (bfEnabled _); done). intros a t (He & _). congruence. }
  destruct (resolved_observed g ts f0 ctx Hacc Hpub Hen) as (rules & Hr & Hf & Hk).
  rewrite Hf, Hk. cbn [negb Match]. unfold rules_of in Hr. fold cfg in Hr.
  destruct (compileCfg cfg) as [[rules'|]|] eqn:Hc; try done. injection Hr as ->.
  unfold compileCfg in Hc. destruct (parseRules cfg) as [[[rs def] tmo]|] eqn:Hp; [|done]. cbn [res_bind] in Hc.
  rewrite Hen in Hc. cbn [negb andb] in Hc. destruct (compile_all 0 rs) as [ps|] eqn:Hps; [|done].
  injection Hc as <-. cbn [patterns trTimeout]. apply compile_all_spec in Hps.
  pose proof (match_loop_first _ _ r Hps) as Hm. destruct (match_loop ps r) as [cp|].
  - destruct Hm as (pre & pr & post & -> & Hpre & Hpr & Ha). apply parseRules_action in Hp as Hval.
    apply Forall_app in Hval as [_ Hval]. apply Forall_cons in Hval as [Hval _].
    assert (Hfin : action_of cp (mktenantRules ps def tmo) = final_action def pr).
    { unfold action_of, final_action in *. cbn [defaultAction]. rewrite <- Ha.
      destruct (decide (prAction pr = [])) as [|]; (destruct (decide (_ = [])) as [Hnil|]; [|done]);
        rewrite ?Hnil in Hval; done. }
    rewrite Hfin. exists (final_action def pr), tmo. split; [|done]. split_and!; [done|done|].
    exists pre, pr, post, def. split_and!; try done. unfold final_action. destruct (decide _); auto.
  - intros a t (_ & _ & pre & pr & post & def' & Hp' & _ & Hpr & _).
    rewrite Hp in Hp'. injection Hp' as -> _ _.
    apply Forall_app in Hm as [_ Hm]. by apply Forall_cons in Hm as [Hm _].
Qed.

(** A tenant that switches the feature on without patterns inherits nothing:
    whatever the global rules are, its requests pass. *)
Theorem blocklist_override_replaces g ts f0 t cfg hijack cancelled r :
  accepted_reload g ts → tsHost t ≠ [] → ts !! tsHost t = Some t →
  tsFeatures t !! FeatureName = Some cfg → fsParams cfg !! $"patterns" = None →
  Middleware (Observe g ts f0) hijack cancelled r (mkSnapshotState g ts) (Some t) = None.
Proof.
  intros Hacc Hne Ht Hc Hp. unfold Middleware. destruct (bfEnabled _); [|done]. cbn [negb].
  destruct (fsEnabled (Resolve _ (Some t) FeatureName)) eqn:Hen; [|done]. cbn [negb].
  destruct (resolved_observed g ts f0 (Some t) Hacc (conj Hne Ht) Hen) as (rules & Hr & _ & Hk).
  rewrite Hk. cbn [Match]. replace (Resolve _ (Some t) FeatureName) with cfg in Hr
    by (unfold Resolve; cbn [TenantFromContext]; by rewrite Hc).
  enough (patterns rules = []) as -> by done.
  unfold rules_of, compileCfg, parseRules in Hr. rewrite Hp in Hr.
  destruct (match _ !! $"default_action" with Some _ => _ | None => _ end); [|done]. cbn [res_bind] in Hr.
  destruct (match _ !! $"timeout_seconds" with Some _ => _ | None => _ end); [|done]. cbn [res_bind] in Hr.
  destruct (negb (fsEnabled cfg) && _)%bool; [done|]. cbn [compile_all res_bind] in Hr. by injection Hr as <-.
Qed.

(** A rule without the key [target] is run on the path, whatever other keys
    it has: the key [match] of the documentation has no effect. *)
Theorem blocklist_match_key_ignored i m def pr :
  field m $"target" = None → parseOne i m def = Ok pr → prTarget pr = $"path".
Proof.
  intros Ht. unfold parseOne. rewrite Ht. destruct (field m $"pattern") as [raw|]; [|done].
  destruct (asString raw) as [pat|]; [|done]. cbn [res_bind]. destruct (decide (pat = [])); [done|].
  destruct (match field m $"action" with Some _ => _ | None => _ end); [|done]. cbn [res_bind].
  destruct (match field m $"header" with Some _ => _ | None => _ end); [|done]. cbn [res_bind].
  rewrite decide_False by (intros [? _]; done). by intros [= <-].
Qed.
End enforcement.

(** * Examples *)

#[local] Instance bl_unicode : GoUnicode := {|
  unicode_lower s := s; unicode_upper s := s; unicode_trim s := s |}.

(** Patterns without special characters match where they occur. *)
#[local] Instance bl_regexp : GoRegexp := {|
  Regexp := gostring;
  regexp_compile s := if contains_byte s "("%char then None else Some s;
  MatchString re s := Contains_str s re |}.

Definition bl_rule (pattern action : gostring) : json :=
  JObject [($"pattern", JString pattern); ($"action", JString action)].
Definition bl_cfg : FeatureSnapshot :=
  mkFeatureSnapshot true {[ $"patterns" := JArray [bl_rule $"wp" $"404"; bl_rule $"w" $"drop"] ]} 1.
Definition bl_tenant : TenantSnapshot := mkTenantSnapshot $"a" true {[ FeatureName := bl_cfg ]}.
Definition bl_tenants : gmap gostring TenantSnapshot := {[ $"a" := bl_tenant ]}.
Definition bl_request (path : gostring) : Request := mkRequest $"GET" path [] [] $"a" [] ∅ ∅.

Lemma bl_accepted : accepted_reload ∅ bl_tenants.
Proof.
  unfold bl_tenants. split.
  - vm_compute. reflexivity.
  - apply map_Forall_singleton. vm_compute. reflexivity.
  - intros h h' [t Ht] [t' Ht']. apply lookup_singleton_Some in Ht as [<- _], Ht' as [<- _]. done.
  - intros h [t Ht]. apply lookup_singleton_Some in Ht as [<- _]. vm_compute. discriminate.
Qed.

Lemma blocklist_enforces_witness :
  (∃ action timeout, demands bl_cfg (bl_request $"/wp") action timeout ∧
     BStatus 0 StatusNotFound = respond false None action timeout) ∧
  (∃ action timeout, demands bl_cfg (bl_request $"/w") action timeout ∧
     BStatus 0 StatusBadRequest = respond false None action timeout).
Proof.
  assert (Hpub : published bl_tenants (Some bl_tenant)) by (split; [discriminate|vm_compute; reflexivity]).
  split.
  - assert (Hm := blocklist_enforces ∅ bl_tenants New (Some bl_tenant) false None (bl_request $"/wp") bl_accepted Hpub).
    cbv zeta in Hm. replace (Middleware _ _ _ _ _ _) with (Some (BStatus 0 StatusNotFound)) in Hm
      by (vm_compute; reflexivity). exact Hm.
  - assert (Hm := blocklist_enforces ∅ bl_tenants New (Some bl_tenant) false None (bl_request $"/w") bl_accepted Hpub).
    cbv zeta in Hm. replace (Middleware _ _ _ _ _ _) with (Some (BStatus 0 StatusBadRequest)) in Hm
      by (vm_compute; reflexivity). exact Hm.
Defined.

(** A number is no action: the rule [action: 404], decoded as an integer,
    makes the whole reload fail. *)
Example blocklist_numeric_action :
  Validate (mkFeatureSnapshot true
    {[ $"patterns" := JArray [JObject [($"pattern", JString $"wp"); ($"action", JInt 404)]] ]} 1)
  = Some ErrExpectedString.
Proof. vm_compute. reflexivity. Qed.
