(* ===== verification/GeoIP.v ===== *)
(** The country block list (src/internal/feature/geoip/geoip.go): rules, the
    database readers that reloads open and close, and the middleware.

    The MaxMind reader is a parameter ([mmdb]); readers are numbered in the
    order in which they are opened, and whether a file can be opened or stat
    succeeds is an input. *)

From S2P Require Import Prelude Http Shared FeatureRegistry GoStd NetIP.

Definition FeatureName : gostring := $"geoip".
Definition defaultAction : gostring := BlockActionNotFound.

(** The country of an address, or a failed lookup. *)
Definition LookupFunc : Type := IP → option gostring.

Record rule := mkrule {
  ruEnabled : bool;
  dbPath : gostring;
  blocked : gset gostring;
  action : gostring;
  trustXFF : bool;
  lookup_fn : option LookupFunc
}.

Record readerHandle := mkreaderHandle { hReader : nat; hRefs : Z }.

Record GeoFeature := mkGeoFeature {
  gfEnabled : bool;
  readers : gmap gostring readerHandle;
  tenantRules : gmap gostring rule;
  globalRule : rule;
  testLookups : gmap gostring LookupFunc
}.

(** The readers handed out by maxminddb.Open so far and those closed since. *)
Record Readers := mkReaders { nextReader : nat; closedReaders : list nat }.

Definition rule_zero : rule := mkrule false [] ∅ [] false None.

Definition New : GeoFeature := mkGeoFeature false ∅ ∅ rule_zero ∅.

Definition WithLookupFunc (path : gostring) (fn : LookupFunc) (f : GeoFeature) : GeoFeature :=
  mkGeoFeature (gfEnabled f) (readers f) (tenantRules f) (globalRule f) (<[path := fn]> (testLookups f)).

(** * Rules *)

Inductive geo_error :=
| ErrAction | ErrCountryLength | ErrCountryLetters | ErrCountryNotString | ErrCountriesNotList
| ErrDbPathRequired | ErrDbPathStat | ErrDbPathDir.

Section rules.
Context `{GoUnicode}.

Definition addCountry (dst : gset gostring) (code : gostring) : result geo_error (gset gostring) :=
  let c := TrimSpace code in
  if decide (length c ≠ 2) then Err ErrCountryLength
  else
    let upper := ToUpper c in
    if forallb (λ r, Z.leb 65 r && Z.leb r 90)%bool (runes upper) then Ok ({[upper]} ∪ dst)
    else Err ErrCountryLetters.

Fixpoint addCountries (dst : gset gostring) (l : list json) : result geo_error (gset gostring) :=
  match l with
  | [] => Ok dst
  | JString c :: l' => let* dst' := addCountry dst c in addCountries dst' l'
  | _ :: _ => Err ErrCountryNotString
  end.

Definition parse_action (p : gmap gostring json) : result geo_error gostring :=
  match as_string (p !! $"action") with
  | None => Ok defaultAction
  | Some v =>
      let a := TrimSpace v in
      if BlockAction_IsValid a then Ok a else Err ErrAction
  end.

Definition parseRule (cfg : FeatureSnapshot) : result geo_error rule :=
  let p := fsParams cfg in
  let path := match as_string (p !! $"db_path") with Some v => TrimSpace v | None => [] end in
  let xff := match as_bool (p !! $"trust_xff") with Some b => b | None => false end in
  let* a := parse_action p in
  let* b := match p !! $"block_countries" with
            | None => Ok ∅
            | Some (JArray l) => addCountries ∅ l
            | Some _ => Err ErrCountriesNotList
            end in
  Ok (mkrule (fsEnabled cfg) path b a xff None).

Definition mustParse (cfg : FeatureSnapshot) : rule :=
  match parseRule cfg with
  | Ok r => r
  | Err _ => mkrule false [] ∅ defaultAction false None
  end.

(** [stat]: whether the path is a directory, None when stat fails. *)
Definition Validate (stat : gostring → option bool) (f : GeoFeature) (cfg : FeatureSnapshot) : option geo_error :=
  if negb (fsEnabled cfg) then None
  else match parseRule cfg with
  | Err e => Some e
  | Ok r =>
      if decide (dbPath r = []) then Some ErrDbPathRequired
      else if decide (is_Some (testLookups f !! dbPath r)) then None
      else match stat (dbPath r) with
      | None => Some ErrDbPathStat
      | Some true => Some ErrDbPathDir
      | Some false => None
      end
  end.

(** * Reloads *)

(** The databases a rule set needs, with repetitions. *)
Definition addNeed (r : rule) : list gostring :=
  if (ruEnabled r && bool_decide (dbPath r ≠ []))%bool then [dbPath r] else [].

Definition need_list (g : rule) (ts : gmap gostring rule) : list gostring :=
  addNeed g ++ (map_to_list ts ≫= λ hr, addNeed hr.2).

Definition needed (l : list gostring) (p : gostring) : Z := Z.of_nat (length (filter (p =.) l)).

(** One turn of the loop that opens readers. *)
Definition open_reader (open_ok : gostring → bool) (tests : gmap gostring LookupFunc)
    (st : gmap gostring readerHandle * Readers) (p : gostring) : gmap gostring readerHandle * Readers :=
  let '(rs, w) := st in
  if decide (is_Some (tests !! p)) then st
  else if decide (is_Some (rs !! p)) then st
  else if open_ok p then
    (<[p := mkreaderHandle (nextReader w) 0]> rs, mkReaders (S (nextReader w)) (closedReaders w))
  else st.

(** Closing what nothing refers to. *)
Definition drop_unused (rs : gmap gostring readerHandle) (w : Readers) : gmap gostring readerHandle * Readers :=
  let unused := filter (λ ph, (hRefs ph.2 ≤ 0)%Z) (map_to_list rs) in
  (filter (λ ph, (0 < hRefs ph.2)%Z) rs, mkReaders (nextReader w) (closedReaders w ++ (hReader <$> unused.*2))).

Definition Observe (open_ok : gostring → bool) (globals : FeatureSnapshot)
    (tenants : gmap gostring FeatureSnapshot) (f : GeoFeature) (w : Readers) : GeoFeature * Readers :=
  let newGlobal := mustParse globals in
  let newTenants := mustParse <$> tenants in
  let needs := need_list newGlobal newTenants in
  let '(rs1, w1) := foldl (open_reader open_ok (testLookups f)) (readers f, w) (remove_dups needs) in
  let rs2 := map_imap (λ p h, Some (mkreaderHandle (hReader h) (needed needs p))) rs1 in
  let '(rs3, w3) := drop_unused rs2 w1 in
  let en := (ruEnabled newGlobal || existsb (λ hr, ruEnabled hr.2) (map_to_list newTenants))%bool in
  (mkGeoFeature en rs3 newTenants newGlobal (testLookups f), w3).

Definition Close (f : GeoFeature) (w : Readers) : GeoFeature * Readers :=
  (mkGeoFeature false ∅ (tenantRules f) (globalRule f) (testLookups f),
   mkReaders (nextReader w) (closedReaders w ++ (hReader <$> (map_to_list (readers f)).*2))).

(** * Requests *)

Definition effectiveRule (f : GeoFeature) (ctx : Context) (cfg : FeatureSnapshot) : rule :=
  let finish (r : rule) :=
    mkrule (ruEnabled r && fsEnabled cfg) (dbPath r) (blocked r) (action r) (trustXFF r)
      (match testLookups f !! dbPath r with Some fn => Some fn | None => lookup_fn r end) in
  match TenantFromContext ctx with
  | Some t => match tenantRules f !! tsHost t with Some tr => finish tr | None => finish (globalRule f) end
  | None => finish (globalRule f)
  end.

(** Where a lookup goes: an injected function or a reader. *)
Inductive lookup_source :=
| Injected (fn : LookupFunc)
| FromReader (id : nat).

Definition lookupFor (f : GeoFeature) (path : gostring) : option lookup_source :=
  match testLookups f !! path with
  | Some fn => Some (Injected fn)
  | None => (λ h, FromReader (hReader h)) <$> readers f !! path
  end.

Definition XForwardedFor : gostring := $"X-Forwarded-For".

Definition extractClientIP (r : Request) (trust : bool) : gostring :=
  let xff := hdr_get (ReqHeader r) XForwardedFor in
  let lst := TrimSpace (default [] (last (Split xff ","%char))) in
  if (trust && bool_decide (xff ≠ []) && bool_decide (lst ≠ []))%bool then lst
  else match SplitHostPort (RemoteAddr r) with Some (host, _) => host | None => RemoteAddr r end.
End rules.

(** The end of a blocked request, after a wait. *)
Inductive geo_outcome :=
| GClosed
| GStatus (wait : duration) (code : Z).

(** newStallTimer: the time until the deadline as seen at the second reading
    of the clock. *)
Definition newStallTimer (deadline now : time) : duration :=
  let d := time_sub deadline now in if Z.ltb d 0 then 0%Z else d.

(** [t1], [t2]: the two readings of the clock; [cancelled]: when the request's
    context ends. *)
Definition applyAction (hijack : bool) (cancelled : option duration) (t1 t2 : time) (a : gostring) : geo_outcome :=
  if decide (a = BlockActionDrop) then
    if hijack then GClosed else GStatus 0 StatusBadRequest
  else if decide (a = BlockActionTooMany) then GStatus 0 StatusTooManyRequests
  else if decide (a = BlockActionTimeout) then
    let d := newStallTimer (time_add t1 (30 * Second)) t2 in
    GStatus (match cancelled with Some c => Z.min d c | None => d end) StatusRequestTimeout
  else GStatus 0 StatusNotFound.

Section middleware.
Context `{GoUnicode} (mmdb : nat → LookupFunc).

Definition run_lookup (s : lookup_source) : LookupFunc :=
  match s with Injected fn => fn | FromReader id => mmdb id end.

(** None: the request goes on to the next handler. *)
Definition Middleware (f : GeoFeature) (hijack : bool) (cancelled : option duration) (t1 t2 : time)
    (r : Request) (snap : snapshotState) (ctx : Context) : option geo_outcome :=
  if negb (gfEnabled f) then None
  else
    let cfg := Resolve snap ctx FeatureName in
    if negb (fsEnabled cfg) then None
    else
      let ru := effectiveRule f ctx cfg in
      if (negb (ruEnabled ru) || bool_decide (blocked ru = ∅))%bool then None
      else match ParseIP (extractClientIP r (trustXFF ru)) with
      | None => None
      | Some ip =>
          let lk := match lookup_fn ru with
                    | Some fn => Some fn
                    | None => run_lookup <$> lookupFor f (dbPath ru)
                    end in
          match lk with
          | None => None
          | Some fn =>
              match fn ip with
              | None => None
              | Some country =>
                  if decide (country = []) then None
                  else if decide (country ∉ blocked ru) then None
                  else Some (applyAction hijack cancelled t1 t2 (action ru))
              end
          end
      end.
End middleware.

(** * Readers are neither leaked nor closed twice *)

Lemma map_to_list_filter_perm {A} (P : gostring * A → Prop) `{∀ x, Decision (P x)} (m : gmap gostring A) :
  map_to_list (filter P m) ≡ₚ filter P (map_to_list m).
Proof.
  apply NoDup_Permutation.
  - apply NoDup_map_to_list.
  - apply NoDup_filter, NoDup_map_to_list.
  - intros [k x]. rewrite list_elem_of_filter, !elem_of_map_to_list, map_lookup_filter_Some. naive_solver.
Qed.

Lemma map_to_list_update_perm {A} (g : gostring → A → A) (m : gmap gostring A) :
  map_to_list (map_imap (λ k x, Some (g k x)) m) ≡ₚ (λ kx, (kx.1, g kx.1 kx.2)) <$> map_to_list m.
Proof.
  apply NoDup_Permutation.
  - apply NoDup_map_to_list.
  - apply (NoDup_fmap_1 fst). rewrite <- list_fmap_compose. apply NoDup_fst_map_to_list.
  - intros [k x]. rewrite list_elem_of_fmap, elem_of_map_to_list, map_lookup_imap. split.
    + destruct (m !! k) as [y|] eqn:E; [|done]. intros [= <-]. exists (k, y). split; [done|].
      by apply elem_of_map_to_list.
    + intros ([k' y] & [= -> ->] & Hin%elem_of_map_to_list). by rewrite Hin.
Qed.

Definition open_ids (rs : gmap gostring readerHandle) : list nat := (λ ph, hReader ph.2) <$> map_to_list rs.

(** Every reader ever opened is, exactly once, closed or held. *)
Definition readers_inv (f : GeoFeature) (w : Readers) : Prop :=
  closedReaders w ++ open_ids (readers f) ≡ₚ seq 0 (nextReader w).

Lemma open_reader_inv open_ok tests rs w p :
  closedReaders w ++ open_ids rs ≡ₚ seq 0 (nextReader w) →
  let '(rs', w') := open_reader open_ok tests (rs, w) p in
  closedReaders w' ++ open_ids rs' ≡ₚ seq 0 (nextReader w').
Proof.
  intros Hi. unfold open_reader. repeat case_decide; try done. destruct (open_ok p); [|done].
  cbn [closedReaders nextReader]. rewrite <- eq_None_not_Some in *. unfold open_ids.
  rewrite map_to_list_insert by done. cbn [fmap list_fmap hReader snd].
  rewrite seq_S, <- Hi. cbn [Nat.add]. rewrite <- Permutation_middle, (Permutation_app_comm _ [nextReader w]). done.
Qed.

Lemma open_all_inv open_ok tests ps rs w :
  closedReaders w ++ open_ids rs ≡ₚ seq 0 (nextReader w) →
  let '(rs', w') := foldl (open_reader open_ok tests) (rs, w) ps in
  closedReaders w' ++ open_ids rs' ≡ₚ seq 0 (nextReader w').
Proof.
  revert rs w. induction ps as [|p ps IH]; intros rs w Hi; cbn [foldl]; [done|].
  pose proof (open_reader_inv open_ok tests rs w p Hi) as Hp.
  destruct (open_reader open_ok tests (rs, w) p) as [rs' w']. by apply IH.
Qed.

Lemma update_refs_inv (g : gostring → readerHandle → readerHandle) rs :
  (∀ p h, hReader (g p h) = hReader h) → open_ids (map_imap (λ p h, Some (g p h)) rs) ≡ₚ open_ids rs.
Proof.
  intros Hg. unfold open_ids. rewrite map_to_list_update_perm, <- list_fmap_compose.
  erewrite list_fmap_ext; [done|]. intros i [p h] _. cbn. apply Hg.
Qed.

Lemma drop_unused_inv rs w :
  closedReaders w ++ open_ids rs ≡ₚ seq 0 (nextReader w) →
  let '(rs', w') := drop_unused rs w in
  closedReaders w' ++ open_ids rs' ≡ₚ seq 0 (nextReader w').
Proof.
  intros Hi. unfold drop_unused. cbn [closedReaders nextReader]. rewrite <- Hi, <- (assoc (++)).
  apply Permutation_app_head. unfold open_ids. rewrite map_to_list_filter_perm, <- list_fmap_compose, <- fmap_app.
  apply (fmap_Permutation (λ ph : gostring * readerHandle, hReader ph.2)).
  rewrite <- (filter_app_complement (λ ph, (hRefs ph.2 ≤ 0)%Z) (map_to_list rs)) at 3.
  apply Permutation_app_head. erewrite list_filter_iff; [done|]. intros ph. lia.
Qed.

(** The operations on the feature. *)
Inductive geo_op :=
| OObserve (open_ok : gostring → bool) (globals : FeatureSnapshot) (tenants : gmap gostring FeatureSnapshot)
| OClose
| OWithLookup (path : gostring) (fn : LookupFunc).

Section lifecycle.
Context `{GoUnicode}.

Definition geo_step (st : GeoFeature * Readers) (o : geo_op) : GeoFeature * Readers :=
  match o with
  | OObserve ok g ts => Observe ok g ts st.1 st.2
  | OClose => Close st.1 st.2
  | OWithLookup p fn => (WithLookupFunc p fn st.1, st.2)
  end.

Lemma geo_step_inv st o : readers_inv st.1 st.2 → readers_inv (geo_step st o).1 (geo_step st o).2.
Proof.
  destruct st as [f w]. cbn [fst snd]. intros Hi. unfold readers_inv in *. destruct o; cbn [geo_step].
  - unfold Observe. pose proof (open_all_inv open_ok (testLookups f)
      (remove_dups (need_list (mustParse globals) (mustParse <$> tenants))) _ _ Hi) as Hopen.
    cbn [fst snd]. destruct (foldl _ _ _) as [rs1 w1].
    set (rs2 := map_imap _ rs1). assert (H2 : closedReaders w1 ++ open_ids rs2 ≡ₚ seq 0 (nextReader w1)).
    { unfold rs2. rewrite update_refs_inv by done. done. }
    pose proof (drop_unused_inv rs2 w1 H2) as H3. destruct (drop_unused rs2 w1) as [rs3 w3]. done.
  - unfold Close. cbn [fst snd readers closedReaders nextReader]. rewrite <- Hi.
    unfold open_ids. rewrite map_to_list_empty. cbn. by rewrite app_nil_r, <- list_fmap_compose.
  - done.
Qed.

(** What a reload leaves open. *)
Lemma open_all_lookup open_ok tests ps rs w p :
  is_Some ((foldl (open_reader open_ok tests) (rs, w) ps).1 !! p) ↔
  is_Some (rs !! p) ∨ p ∈ ps ∧ tests !! p = None ∧ open_ok p = true.
Proof.
  revert rs w. induction ps as [|q ps IH]; intros rs w; cbn [foldl fst].
  - set_solver.
  - rewrite elem_of_cons. unfold open_reader at 2. destruct (decide (is_Some (tests !! q))) as [Ht|Ht].
    { rewrite IH. destruct Ht as [x Hx]. split; [tauto|]. intros [?|[[->|?] [? ?]]]; [tauto|congruence|tauto]. }
    destruct (decide (is_Some (rs !! q))) as [Hr|Hr]; [rewrite IH; split; [tauto|]; intros [?|[[->|?] ?]]; tauto|].
    apply eq_None_not_Some in Ht, Hr. destruct (open_ok q) eqn:Hq; rewrite IH; [|split; [tauto|]; intros [?|[[->|?] [? ?]]]; [tauto|congruence|tauto]].
    destruct (decide (p = q)) as [->|Hne].
    + rewrite lookup_insert_eq. split; [tauto|]. intros _. left. eauto.
    + rewrite lookup_insert_ne by done. tauto.
Qed.

(** C14. The databases of the country list are managed exactly. Whatever
    reloads, shutdowns and injected lookups happen, every reader ever opened
    is held or was closed, and exactly once; and after a reload the readers
    held are those of the databases some enabled rule names that were open or
    could be opened, with the number of those rules as the count. *)
Theorem geoip_readers_exact ops open_ok g ts p :
  let st := foldl geo_step (New, mkReaders 0 []) ops in
  let needs := need_list (mustParse g) (mustParse <$> ts) in
  let '(f', w') := Observe open_ok g ts st.1 st.2 in
  closedReaders w' ++ open_ids (readers f') ≡ₚ seq 0 (nextReader w') ∧
  (is_Some (readers f' !! p) ↔
     p ∈ needs ∧ (is_Some (readers st.1 !! p) ∨ testLookups st.1 !! p = None ∧ open_ok p = true)) ∧
  (hRefs <$> readers f' !! p = (λ _, Z.of_nat (length (filter (p =.) needs))) <$> readers f' !! p).
Proof.
  cbv zeta. set (st := foldl _ _ _). set (needs := need_list _ _).
  assert (Hinv : readers_inv st.1 st.2).
  { subst st. induction ops as [|o ops IH] using rev_ind; [|rewrite foldl_app; by apply geo_step_inv].
    unfold readers_inv, open_ids. cbn [foldl fst snd New readers closedReaders nextReader seq].
    by rewrite map_to_list_empty. }
  pose proof (geo_step_inv st (OObserve open_ok g ts) Hinv) as Hinv'. cbn [geo_step] in Hinv'.
  destruct (Observe open_ok g ts st.1 st.2) as [f' w'] eqn:HO. split; [exact Hinv'|].
  unfold Observe in HO. fold needs in HO.
  pose proof (open_all_lookup open_ok (testLookups st.1) (remove_dups needs) (readers st.1) st.2 p) as Hl.
  destruct (foldl (open_reader _ _) _ _) as [rs1 w1]. cbn [fst] in Hl. unfold drop_unused in HO. injection HO as <- <-. cbn [readers].
  rewrite map_lookup_filter, map_lookup_imap. rewrite elem_of_remove_dups in Hl.
  assert (Hneed : (0 < needed needs p)%Z ↔ p ∈ needs).
  { unfold needed. split.
    - intros Hp. destruct (filter (p =.) needs) as [|x l] eqn:E; [cbn in Hp; lia|].
      assert (x ∈ filter (p =.) needs) as Hx by (rewrite E; left). apply list_elem_of_filter in Hx as [<- ?]. done.
    - intros Hp. assert (p ∈ filter (p =.) needs) as Hx by by apply list_elem_of_filter.
      destruct (filter (p =.) needs); [by apply elem_of_nil in Hx|cbn; lia]. }
  destruct (rs1 !! p) as [h|] eqn:E; simpl.
  - pose proof (proj1 Hl (ex_intro _ h eq_refl)) as Hr. case_guard as Hg; simpl.
    + split; [|done]. apply Hneed in Hg. split; [tauto|eauto].
    + split; [|done]. split; [by intros [? ?]|]. intros [Hp%Hneed _]. done.
  - split; [|done]. split; [by intros [? ?]|]. intros [Hp Hor].
    assert (is_Some (@None readerHandle)) as [? [=]] by (apply Hl; tauto).
Qed.
End lifecycle.

(** * The effective rule is enforced *)

(** The overrides the proxy hands to Observe with the global snapshot. *)
Definition tenant_snapshots (ts : gmap gostring TenantSnapshot) : gmap gostring FeatureSnapshot :=
  omap (λ t, tsFeatures t !! FeatureName) ts.

Section enforcement.
Context `{GoUnicode} (mmdb : nat → LookupFunc).

(** The snapshot is on, well formed and blocks the country that the database
    of its rule gives for the client's address. *)
Definition country_blocked (f : GeoFeature) (cfg : FeatureSnapshot) (r : Request) (ru : rule) : Prop :=
  fsEnabled cfg = true ∧ parseRule cfg = Ok ru ∧
  ∃ ip fn country, ParseIP (extractClientIP r (trustXFF ru)) = Some ip ∧
    run_lookup mmdb <$> lookupFor f (dbPath ru) = Some fn ∧ fn ip = Some country ∧
    country ≠ [] ∧ country ∈ blocked ru.

Lemma parseRule_enabled cfg ru : parseRule cfg = Ok ru → ruEnabled ru = fsEnabled cfg ∧ lookup_fn ru = None.
Proof.
  unfold parseRule. destruct (parse_action _); [|done]. cbn [res_bind].
  destruct (match _ !! $"block_countries" with Some _ => _ | None => _ end); [|done]. by intros [= <-].
Qed.

Lemma mustParse_enabled cfg : ruEnabled (mustParse cfg) = true → parseRule cfg = Ok (mustParse cfg).
Proof. unfold mustParse. by destruct (parseRule cfg). Qed.

(** The rule Observe keeps for the snapshot a request resolves to. *)
Lemma observed_rule open_ok g ts f0 w0 ctx :
  match TenantFromContext ctx with Some t => ts !! tsHost t = Some t | None => True end →
  let gcfg := default FeatureSnapshot_zero (g !! FeatureName) in
  let f := (Observe open_ok gcfg (tenant_snapshots ts) f0 w0).1 in
  let cfg := Resolve (mkSnapshotState g ts) ctx FeatureName in
  let kept := mustParse cfg in
  (ruEnabled kept = true → gfEnabled f = true) ∧
  effectiveRule f ctx cfg =
    mkrule (ruEnabled kept && fsEnabled cfg) (dbPath kept) (blocked kept) (action kept) (trustXFF kept)
      (match testLookups f !! dbPath kept with Some fn => Some fn | None => lookup_fn kept end).
Proof.
  intros Hpub. cbv zeta. unfold Observe.
  destruct (foldl (open_reader _ _) _ _) as [rs1 w1]. destruct (drop_unused _ w1) as [rs3 w3].
  cbn [fst gfEnabled]. unfold effectiveRule, Resolve. cbn [tenantRules globalRule testLookups globals].
  assert (Hlk : ∀ h, (mustParse <$> tenant_snapshots ts) !! h
                     = mustParse <$> (ts !! h ≫= λ t, tsFeatures t !! FeatureName)).
  { intros h. unfold tenant_snapshots. by rewrite lookup_fmap, lookup_omap. }
  destruct (TenantFromContext ctx) as [t|].
  - rewrite Hlk, Hpub. cbn [mbind option_bind]. destruct (tsFeatures t !! FeatureName) as [c|] eqn:Ec; cbn [fmap option_fmap option_map].
    + split; [|done]. intros He. apply orb_true_intro. right. apply existsb_exists.
      exists (tsHost t, mustParse c). split; [|done]. apply list_elem_of_In, elem_of_map_to_list.
      rewrite Hlk, Hpub. cbn [mbind option_bind]. by rewrite Ec.
    + split; [|done]. intros ->. done.
  - split; [|done]. intros ->. done.
Qed.

(** The country list enforces the effective configuration. After a reload,
    a request to a published tenant, or to none, gets the configured action
    exactly when the snapshot it resolves to is on and well formed, the
    client's address parses, and the database of the rule places it in a
    blocked country; whenever the address, the database or the lookup is
    missing the request goes on. *)
Theorem geoip_enforces open_ok g ts f0 w0 ctx hijack cancelled t1 t2 r :
  match TenantFromContext ctx with Some t => ts !! tsHost t = Some t | None => True end →
  let f := (Observe open_ok (default FeatureSnapshot_zero (g !! FeatureName)) (tenant_snapshots ts) f0 w0).1 in
  let cfg := Resolve (mkSnapshotState g ts) ctx FeatureName in
  match Middleware mmdb f hijack cancelled t1 t2 r (mkSnapshotState g ts) ctx with
  | Some out => ∃ ru, country_blocked f cfg r ru ∧ out = applyAction hijack cancelled t1 t2 (action ru)
  | None => ∀ ru, ¬ country_blocked f cfg r ru
  end.
Proof.
  intros Hpub. cbv zeta.
  set (f := (Observe _ _ _ _ _).1). set (cfg := Resolve _ ctx FeatureName).
  destruct (observed_rule open_ok g ts f0 w0 ctx Hpub) as [Hflag Heff]. fold f cfg in Hflag, Heff.
  unfold Middleware. fold cfg. destruct (fsEnabled cfg) eqn:Hen.
  2: { replace (if negb (gfEnabled f) then None else _) with (@None geo_outcome) by (destruct (gfEnabled f); done).
       intros ru (He & _). congruence. }
  destruct (ruEnabled (mustParse cfg)) eqn:Hk.
  2: { replace (if negb (gfEnabled f) then None else _) with (@None geo_outcome)
         by (destruct (gfEnabled f); [|done]; cbn [negb]; by rewrite Heff).
       intros ru (_ & Hp & _). unfold mustParse in Hk. rewrite Hp in Hk.
       destruct (parseRule_enabled cfg ru Hp) as [He _]. congruence. }
  rewrite Hflag by done. cbn [negb]. rewrite Heff. cbn [ruEnabled andb negb orb blocked trustXFF lookup_fn dbPath action].
  apply mustParse_enabled in Hk as Hp. destruct (parseRule_enabled _ _ Hp) as [_ Hnone]. rewrite Hnone.
  assert (Hlk : match match testLookups f !! dbPath (mustParse cfg) with Some fn => Some fn | None => None end with
                | Some fn => Some fn
                | None => run_lookup mmdb <$> lookupFor f (dbPath (mustParse cfg))
                end = run_lookup mmdb <$> lookupFor f (dbPath (mustParse cfg))).
  { unfold lookupFor. by destruct (testLookups f !! _). }
  rewrite Hlk. set (ru := mustParse cfg) in *.
  assert (Hinv : ∀ ru', country_blocked f cfg r ru' → ru' = ru) by (intros ru' (_ & Hp' & _); congruence).
  case_bool_decide as Hemp; [intros ru' Hb; pose proof (Hinv _ Hb) as ->; destruct Hb as (_ & _ & ? & ? & ? & _ & _ & _ & _ & Hin); by rewrite Hemp in Hin|].
  destruct (ParseIP _) as [ip|] eqn:Hip; [|intros ru' Hb; pose proof (Hinv _ Hb) as ->; destruct Hb as (_ & _ & ? & ? & ? & ? & _); congruence].
  destruct (run_lookup mmdb <$> lookupFor f (dbPath ru)) as [fn|] eqn:Hfn;
    [|intros ru' Hb; pose proof (Hinv _ Hb) as ->; destruct Hb as (_ & _ & ? & ? & ? & _ & ? & _); congruence].
  destruct (fn ip) as [country|] eqn:Hc;
    [|intros ru' Hb; pose proof (Hinv _ Hb) as ->; destruct Hb as (_ & _ & ? & ? & ? & ? & ? & ? & _); congruence].
  repeat case_decide.
  - intros ru' Hb. pose proof (Hinv _ Hb) as ->. destruct Hb as (_ & _ & ? & ? & ? & ? & ? & ? & ? & _). congruence.
  - intros ru' Hb. pose proof (Hinv _ Hb) as ->. destruct Hb as (_ & _ & ? & ? & ? & ? & ? & ? & _ & ?). congruence.
  - exists ru. split; [|done]. split_and!; [done|done|]. exists ip, fn, country.
    split_and!; done.
Qed.

(** A lookup in flight can use a closed database: the function lookupFor
    returns holds the reader without the lock, and a reload that no longer
    names the database closes the reader. *)
Theorem geoip_lookup_after_close open_ok g ts f w p id :
  lookupFor f p = Some (FromReader id) → p ∉ need_list (mustParse g) (mustParse <$> ts) →
  id ∈ closedReaders (Observe open_ok g ts f w).2.
Proof.
  intros Hl Hn. unfold lookupFor in Hl. destruct (testLookups f !! p); [done|].
  apply fmap_Some in Hl as (h & Hh & [= ->]). unfold Observe. set (needs := need_list _ _) in *.
  assert (Hkeep : ∀ ps rs w1, p ∉ ps → rs !! p = Some h →
    (foldl (open_reader open_ok (testLookups f)) (rs, w1) ps).1 !! p = Some h).
  { intros ps. induction ps as [|q ps IH]; intros rs w1 Hp Hr; cbn [foldl fst]; [done|].
    apply not_elem_of_cons in Hp as [Hne Hp]. unfold open_reader at 2.
    repeat case_decide; try by apply IH. destruct (open_ok q); apply IH; try done. by rewrite lookup_insert_ne. }
  pose proof (Hkeep (remove_dups needs) (readers f) w ltac:(by rewrite elem_of_remove_dups) Hh) as Hr.
  destruct (foldl _ _ _) as [rs1 w1]. cbn [fst] in Hr. unfold drop_unused. cbn [snd closedReaders].
  apply elem_of_app. right. apply list_elem_of_fmap. exists (mkreaderHandle (hReader h) (needed needs p)).
  split; [done|]. apply list_elem_of_fmap. exists (p, mkreaderHandle (hReader h) (needed needs p)). split; [done|].
  apply list_elem_of_filter. split.
  - cbn [snd hRefs]. unfold needed. replace (filter (p =.) needs) with (@nil gostring); [done|].
    symmetry. destruct (filter (p =.) needs) as [|x l] eqn:E; [done|].
    assert (x ∈ filter (p =.) needs) as Hx by (rewrite E; left). by apply list_elem_of_filter in Hx as [<- ?].
  - apply elem_of_map_to_list. by rewrite map_lookup_imap, Hr.
Qed.

(** The documented list of allowed countries has no effect. *)
Theorem geoip_allow_ignored cfg :
  parseRule cfg = parseRule (mkFeatureSnapshot (fsEnabled cfg) (delete $"allow_countries" (fsParams cfg)) (fsVersion cfg)).
Proof.
  unfold parseRule, parse_action. cbn [fsParams fsEnabled]. by rewrite !lookup_delete_ne by discriminate.
Qed.
End enforcement.

(** * Examples *)

(** An instance whose upper case of the long s (U+017F) is the letter S, as
    Unicode has it. *)
Definition long_s : gostring := [ascii_of_N 197; ascii_of_N 191].
#[local] Instance ge_unicode : GoUnicode := {|
  unicode_lower s := s;
  unicode_upper s := if decide (s = long_s) then $"S" else s;
  unicode_trim s := s |}.

Definition ge_cfg : FeatureSnapshot :=
  mkFeatureSnapshot true {[ $"db_path" := JString $"/g"; $"block_countries" := JArray [JString $"kp"] ]} 1.
Definition ge_tenant : TenantSnapshot := mkTenantSnapshot $"a" true {[ FeatureName := ge_cfg ]}.
Definition ge_tenants : gmap gostring TenantSnapshot := {[ $"a" := ge_tenant ]}.
Definition ge_request (addr : gostring) : Request := mkRequest $"GET" $"/" [] [] $"a" addr ∅ ∅.

(** One database, in which 10.0.0.0/8 is in KP. *)
Definition ge_mmdb (_ : nat) (ip : IP) : option gostring :=
  Some (if decide (ip !! 12 = Some 10%Z) then $"KP" else $"SE").

Definition ge_feature : GeoFeature :=
  (Observe (λ _, true) FeatureSnapshot_zero (tenant_snapshots ge_tenants) New (mkReaders 0 [])).1.

Lemma geoip_enforces_witness :
  (∃ ru, country_blocked ge_mmdb ge_feature ge_cfg (ge_request $"10.0.0.1:99") ru ∧
     GStatus 0 StatusNotFound = applyAction false None 0 0 (action ru)) ∧
  (∀ ru, ¬ country_blocked ge_mmdb ge_feature ge_cfg (ge_request $"11.0.0.1:99") ru).
Proof.
  split.
  - assert (Hm := geoip_enforces ge_mmdb (λ _, true) ∅ ge_tenants New (mkReaders 0 []) (Some ge_tenant) false None 0 0
      (ge_request $"10.0.0.1:99") ltac:(vm_compute; reflexivity)). cbv zeta in Hm.
    replace (Middleware _ _ _ _ _ _ _ _ _) with (Some (GStatus 0 StatusNotFound)) in Hm by (vm_compute; reflexivity).
    exact Hm.
  - assert (Hm := geoip_enforces ge_mmdb (λ _, true) ∅ ge_tenants New (mkReaders 0 []) (Some ge_tenant) false None 0 0
      (ge_request $"11.0.0.1:99") ltac:(vm_compute; reflexivity)). cbv zeta in Hm.
    replace (Middleware _ _ _ _ _ _ _ _ _) with (@None geo_outcome) in Hm by (vm_compute; reflexivity).
    exact Hm.
Defined.

Lemma geoip_lookup_after_close_witness :
  0 ∈ closedReaders (Observe (λ _, true) FeatureSnapshot_zero ∅ ge_feature (mkReaders 1 [])).2.
Proof.
  apply (geoip_lookup_after_close (λ _, true) FeatureSnapshot_zero ∅ ge_feature (mkReaders 1 []) $"/g" 0).
  - vm_compute. reflexivity.
  - decide_now.
Defined.

(** The documented override without db_path is refused; a code is counted in
    bytes, so the long s passes as the one-letter country S; an action written
    as the number 429 is taken for the default. *)
Example geoip_documented_override_refused :
  Validate (λ _, Some false) New
    (mkFeatureSnapshot true {[ $"block_countries" := JArray [JString $"CN"]; $"action" := JInt 404 ]} 1)
  = Some ErrDbPathRequired.
Proof. vm_compute. reflexivity. Qed.

Example geoip_one_letter_country : addCountry ∅ long_s = Ok {[ $"S" ]}.
Proof. vm_compute. reflexivity. Qed.

Example geoip_numeric_action_ignored :
  parse_action {[ $"action" := JInt 429 ]} = Ok BlockActionNotFound.
Proof. vm_compute. reflexivity. Qed.
