(* ===== verification/Cloudflare.v ===== *)
(** The Cloudflare validator of the proxy (src/internal/proxy/cloudflare.go):
    fetching the published ranges, the retry schedule and the middleware.

    The two HTTP fetches are inputs: None when the request fails, otherwise
    the status, the body and whether reading it fails. *)

From S2P Require Import Prelude Http GoStd NetIP.

Definition refreshInterval : duration := (24 * Hour)%Z.
Definition retryBaseInterval : duration := Minute.

Record CFValidator := mkCFValidator { nets : list IPNet; cfEnabled : bool }.

Record Fetched := mkFetched { feStatus : Z; feBody : gostring; feReadFails : bool }.

(** * bufio.Scanner with ScanLines *)

Definition NL : ascii := ascii_of_N 10.
Definition CR : ascii := ascii_of_N 13.
Definition MaxScanTokenSize : Z := 65536.

Definition dropCR (s : gostring) : gostring :=
  match last s with Some c => if decide (c = CR) then take (length s - 1) s else s | None => s end.

(** The lines of a text; an empty line after the last newline is none. *)
Definition raw_lines (s : gostring) : list gostring :=
  let ls := Split s NL in
  match last ls with Some [] => take (length ls - 1) ls | _ => ls end.

Definition scan_lines (s : gostring) : list gostring := dropCR <$> raw_lines s.

(** scanner.Err: a read error, or a line that does not fit the buffer. *)
Definition scan_fails (f : Fetched) : bool :=
  (feReadFails f || existsb (λ l, Z.leb MaxScanTokenSize (Z.of_nat (length l))) (raw_lines (feBody f)))%bool.

Section ranges.
Context `{GoUnicode}.

(** The networks of the lines that parse; the others are skipped. *)
Definition ranges (ls : list gostring) : list IPNet :=
  omap (λ l, let line := TrimSpace l in if decide (line = []) then None else ParseCIDR line) ls.

Definition fetchCFRanges (resp : option Fetched) : option (list IPNet) :=
  match resp with
  | None => None
  | Some f =>
      if negb (Z.eqb (feStatus f) StatusOK) then None
      else
        let ns := ranges (scan_lines (feBody f)) in
        if scan_fails f then None
        else if decide (ns = []) then None
        else Some ns
  end.

(** The flag says whether the ranges were replaced. *)
Definition refresh (v4 v6 : option Fetched) (v : CFValidator) : CFValidator * bool :=
  match fetchCFRanges v4 with
  | None => (v, false)
  | Some nets4 =>
      match fetchCFRanges v6 with
      | None => (v, false)
      | Some nets6 =>
          let combined := nets4 ++ nets6 in
          if decide (length combined = 0) then (v, false)
          else (mkCFValidator combined (cfEnabled v), true)
      end
  end.

(** NewCFValidator with the outcomes of its first fetches. *)
Definition NewCFValidator (enabled : bool) (v4 v6 : option Fetched) : CFValidator :=
  let v := mkCFValidator [] enabled in
  if enabled then (refresh v4 v6 v).1 else v.
End ranges.

(** * The retry schedule *)

(** The loop from [i] to [failures] with [n] turns left. *)
Fixpoint backoff (n : nat) (next : duration) : duration :=
  match n with
  | 0 => next
  | S n' =>
      let next' := dur_mul next 2 in
      if Z.leb refreshInterval next' then refreshInterval else backoff n' next'
  end.

(** One turn of refreshLoop: the number of failures in a row and the delay
    until the next attempt. *)
Definition refreshLoop_step (ok : bool) (failures : nat) : nat * duration :=
  if ok then (0, refreshInterval)
  else (S failures, backoff failures retryBaseInterval).

(** * Requests *)

Definition IsCloudflareIP (v : CFValidator) (ipStr : gostring) : bool :=
  if negb (cfEnabled v) then true
  else match ParseIP ipStr with
  | None => false
  | Some ip => existsb (λ cidr, Contains cidr ip) (nets v)
  end.

(** What the middleware does: pass, or answer 403 and log the address. *)
Inductive cf_outcome := CFPass | CFForbidden (logIP : gostring).

Definition Middleware (v : CFValidator) (hashIP : option (gostring → gostring)) (r : Request) : cf_outcome :=
  if negb (cfEnabled v) then CFPass
  else
    let ip := match SplitHostPort (RemoteAddr r) with Some (h, _) => h | None => [] end in
    if negb (IsCloudflareIP v ip) then
      CFForbidden (match hashIP with Some h => h ip | None => ip end)
    else CFPass.

(** * What is admitted *)

Section admission.
Context `{GoUnicode}.

(** The address lies in the network that the text denotes. *)
Definition in_network (line : gostring) (ip : IP) : Prop :=
  ∃ base bits k, denotes line base bits k ∧
    (bits = 32 ∧ (∃ x, To4 ip = Some x ∧ same_prefix k (drop 12 base) x) ∨
     bits = 128 ∧ To4 ip = None ∧ same_prefix k base ip).

(** No IPv6 network of the list is an IPv4 network in disguise. *)
Definition plain_ranges (ls : list gostring) : Prop :=
  ∀ l net, l ∈ ls → ParseCIDR (TrimSpace l) = Some net → length (netMask net) = 4 ∨ To4 (netIP net) = None.

Lemma denotes_unique s base bits k base' bits' k' :
  denotes s base bits k → denotes s base' bits' k' → base = base' ∧ bits = bits' ∧ k = k'.
Proof.
  intros (a & m & H1 & H2 & _ & H3 & _) (a' & m' & H1' & H2' & _ & H3' & _). simplify_eq.
  split_and!; lia || done.
Qed.

Lemma denotes_parses s base bits k :
  denotes s base bits k → ∃ net, ParseCIDR s = Some net ∧ length (netMask net) = bits / 8.
Proof.
  intros (a & m & Hc & Ha & Hm & Hd & Hk). unfold ParseCIDR. rewrite Hc, Ha, decide_False, Hd by done.
  destruct (Z.ltb_spec (Z.of_nat bits) (Z.of_nat k)); [lia|]. eexists. split; [done|]. apply CIDRMask_length.
Qed.

Lemma contains_network l net ip :
  ParseCIDR l = Some net → (length (netMask net) = 4 ∨ To4 (netIP net) = None) →
  length ip = 16 → bytes_ok ip → Contains net ip = true ↔ in_network l ip.
Proof.
  intros Hp Hplain Hl Hb. destruct (ParseCIDR_contains l net Hp) as (base & bits & k & Hden & Hc).
  destruct (Hc ip Hl Hb) as [H32 H128].
  destruct (denotes_parses _ _ _ _ Hden) as (net' & Hp' & Hmask). rewrite Hp in Hp'. injection Hp' as <-.
  assert (Hbits : bits = 32 ∨ bits = 128).
  { destruct Hden as (a & m & _ & Ha & _). apply ParseAddr_wf in Ha as (_ & _ & [[-> _]| ->]); auto. }
  destruct Hbits as [-> | ->].
  - rewrite (H32 eq_refl). split.
    + intros Hx. exists base, 32, k. auto.
    + intros (base' & bits' & k' & Hden' & Hor). destruct (denotes_unique _ _ _ _ _ _ _ Hden Hden') as (<- & <- & <-).
      destruct Hor as [[_ ?]|[? _]]; done.
  - assert (Hn : To4 (netIP net) = None) by (destruct Hplain as [Hm|]; [rewrite Hmask in Hm; done|done]).
    rewrite (H128 eq_refl Hn). split.
    + intros Hx. exists base, 128, k. auto.
    + intros (base' & bits' & k' & Hden' & Hor). destruct (denotes_unique _ _ _ _ _ _ _ Hden Hden') as (<- & <- & <-).
      destruct Hor as [[? _]|[_ ?]]; done.
Qed.

(** Only Cloudflare's addresses pass. After a successful refresh an enabled
    validator lets a peer through exactly when its address parses and has the
    prefix of a network on one of the two published lists: IPv4 peers those of
    the IPv4 networks and other peers those of the IPv6 networks. *)
Theorem cf_admits_exactly v f4 f6 v' s :
  cfEnabled v = true → refresh (Some f4) (Some f6) v = (v', true) →
  plain_ranges (scan_lines (feBody f4) ++ scan_lines (feBody f6)) →
  IsCloudflareIP v' s = true ↔
  ∃ ip l, ParseIP s = Some ip ∧ l ∈ scan_lines (feBody f4) ++ scan_lines (feBody f6) ∧ in_network (TrimSpace l) ip.
Proof.
  intros Hen Href Hplain. unfold refresh, fetchCFRanges in Href.
  assert (Hnets : nets v' = ranges (scan_lines (feBody f4) ++ scan_lines (feBody f6)) ∧ cfEnabled v' = true).
  { unfold ranges. rewrite omap_app. repeat case_match; simplify_eq; done. }
  destruct Hnets as [Hnets Hen']. unfold IsCloudflareIP. rewrite Hen', Hnets. cbn [negb].
  destruct (ParseIP s) as [ip|] eqn:Hip; [|naive_solver].
  assert (Hwf : length ip = 16 ∧ bytes_ok ip).
  { unfold ParseIP in Hip. apply fmap_Some in Hip as ([ip' bits] & Ha & ->). apply ParseAddr_wf in Ha as (? & ? & _). done. }
  destruct Hwf as [Hl Hb]. rewrite existsb_exists. split.
  - intros (net & Hin%list_elem_of_In & Hc). unfold ranges in Hin. apply list_elem_of_omap in Hin as (l & Hin & Hp).
    cbn beta zeta in Hp. destruct (decide (TrimSpace l = [])); [done|]. exists ip, l. split_and!; [done|done|].
    apply (contains_network _ net); [done|by eapply Hplain|done|done|done].
  - intros (ip' & l & [= <-] & Hin & Hnet). pose proof Hnet as (base & bits & k & Hden & _).
    destruct (denotes_parses _ _ _ _ Hden) as (net & Hp & _). exists net. split.
    + apply list_elem_of_In, list_elem_of_omap. exists l. split; [done|]. cbn beta zeta.
      rewrite decide_False; [done|]. intros He. rewrite He in Hp. done.
    + apply (contains_network _ net) in Hnet; [done|done|by eapply Hplain|done|done].
Qed.

(** A refresh that fails changes nothing, and one that succeeds leaves no empty
    list behind. *)
Theorem cf_refresh_atomic v4 v6 v :
  match refresh v4 v6 v with
  | (v', false) => v' = v
  | (v', true) => cfEnabled v' = cfEnabled v ∧ nets v' ≠ [] ∧
      ∃ n4 n6, fetchCFRanges v4 = Some n4 ∧ fetchCFRanges v6 = Some n6 ∧ nets v' = n4 ++ n6
  end.
Proof.
  unfold refresh. destruct (fetchCFRanges v4) as [n4|]; [|done]. destruct (fetchCFRanges v6) as [n6|]; [|done].
  destruct (decide _) as [|Hn]; [done|]. cbn [cfEnabled nets]. split_and!; [done| |eauto].
  intros He. by rewrite He in Hn.
Qed.

(** A line that does not parse is dropped without an error. *)
Theorem cf_bad_lines_skipped ls l ls' :
  ParseCIDR (TrimSpace l) = None → ranges (ls ++ l :: ls') = ranges (ls ++ ls').
Proof.
  intros Hp. unfold ranges. rewrite !omap_app. f_equal. cbn [omap list_omap]. rewrite Hp. by destruct (decide _).
Qed.
End admission.

Lemma backoff_spec n next :
  (0 < next < refreshInterval)%Z → backoff n next = Z.min (next * 2 ^ Z.of_nat n) refreshInterval.
Proof.
  revert next. induction n as [|n IH]; intros next Hn; cbn [backoff]; [rewrite Z.mul_1_r; lia|].
  unfold dur_mul. rewrite wrap64_id.
  2: { unfold refreshInterval, Hour in Hn. unfold in_int64, min_int64, max_int64. lia. }
  rewrite Nat2Z.inj_succ, Z.pow_succ_r by lia.
  assert (0 < 2 ^ Z.of_nat n)%Z by (apply Z.pow_pos_nonneg; lia).
  destruct (Z.leb_spec refreshInterval (next * 2)); [nia|]. rewrite IH by lia. f_equal. lia.
Qed.

(** Retries back off within bounds. After [k] failures in a row the next
    attempt comes after a minute doubled [k - 1] times, at most a day; after a
    success it comes after a day and the count starts again. *)
Theorem cf_retry_schedule k :
  refreshLoop_step false k = (S k, Z.min (Minute * 2 ^ Z.of_nat k) (24 * Hour)) ∧
  refreshLoop_step true k = (0, (24 * Hour)%Z).
Proof. split; [|done]. unfold refreshLoop_step. f_equal. apply backoff_spec. done. Qed.

(** * Examples *)

#[local] Instance cf_unicode : GoUnicode := {|
  unicode_lower s := s; unicode_upper s := s; unicode_trim s := s |}.

Definition cf_v4 : Fetched := mkFetched 200 ($"173.245.48.0/20" ++ [CR; NL] ++ $"bad" ++ [NL]) false.
Definition cf_v6 : Fetched := mkFetched 200 $"2400:cb00::/32" false.
Definition cf_validator : CFValidator := (refresh (Some cf_v4) (Some cf_v6) (mkCFValidator [] true)).1.

Lemma cf_admits_exactly_witness :
  (∃ ip l, ParseIP $"173.245.50.1" = Some ip ∧ l ∈ scan_lines (feBody cf_v4) ++ scan_lines (feBody cf_v6) ∧
     in_network (TrimSpace l) ip) ∧ IsCloudflareIP cf_validator $"8.8.8.8" = false.
Proof.
  split; [|vm_compute; reflexivity].
  apply (cf_admits_exactly (mkCFValidator [] true) cf_v4 cf_v6 cf_validator $"173.245.50.1").
  - reflexivity.
  - vm_compute. reflexivity.
  - intros l net Hin Hp.
    assert (Hl : scan_lines (feBody cf_v4) ++ scan_lines (feBody cf_v6) = [$"173.245.48.0/20"; $"bad"; $"2400:cb00::/32"])
      by (vm_compute; reflexivity).
    rewrite Hl in Hin. apply elem_of_cons in Hin as [->|Hin].
    + left. vm_compute in Hp. injection Hp as <-. reflexivity.
    + apply elem_of_cons in Hin as [->|Hin]; [vm_compute in Hp; done|]. apply list_elem_of_singleton in Hin as ->.
      right. vm_compute in Hp. injection Hp as <-. vm_compute. reflexivity.
  - vm_compute. reflexivity.
Defined.
