(* ===== verification/ProxyServer.v ===== *)
(** The assembly of the proxy (src/internal/proxy/server.go, security.go,
    metrics.go, errors.go): the chain of outer middlewares around the host
    router, the headers a backend sees, error pages and the pool cache.

    A handler is what it does with its writer, in order, and how it ends; the
    router with the features and the reverse proxy below it is a parameter of
    the chain. httputil.ReverseProxy and http.Error are modelled as documented;
    the embedded pages and Prometheus are inputs and recorded events. *)

From S2P Require Import Prelude Float Http Shared FeatureRegistry GoStd AdminGate TorPool Transport Cloudflare.

(** * Handlers *)

Inductive ending := Returned | Panicked.

(** Prometheus observations, in order. *)
Inductive metric :=
| MActive (d : Z)
| MDuration (cached : bool)
| MRequest (method : gostring) (status : Z)
| MCache (hit : bool).

Record trace := mktrace { tOps : list wop; tEnd : ending; tMetrics : list metric }.

(** A request and the limit on its body, if one was installed. *)
Record Incoming := mkIncoming { inReq : Request; inLimit : option Z }.

Abbreviation PHandler := (Incoming → trace).

(** http.Error *)
Definition http_Error (msg : gostring) (code : Z) : list wop :=
  [WDel ContentLength; WSet ContentType $"text/plain; charset=utf-8";
   WSet $"X-Content-Type-Options" $"nosniff"; WWriteHeader code; WWrite (msg ++ [ascii_of_N 10])].

Definition is_write (o : wop) : bool := match o with WWriteHeader _ | WWrite _ => true | _ => false end.

(** What reaches the client: the writer when the server is done with it and
    whether the response was brought to an orderly end. *)
Definition wire (t : trace) : NetWriter * bool :=
  let w := foldl nw_op (mkNetWriter ∅ [] false []) (tOps t) in
  match tEnd t with Returned => (nw_finish w, true) | Panicked => (w, false) end.

(** * security.go *)

Definition security_headers : list (gostring * gostring) :=
  [($"X-Frame-Options", $"DENY");
   ($"X-Content-Type-Options", $"nosniff");
   ($"Referrer-Policy", $"same-origin");
   ($"Permissions-Policy", $"camera=(), microphone=(), geolocation=(), payment=()");
   ($"Strict-Transport-Security", $"max-age=63072000; includeSubDomains")].

Definition securityHeadersMiddleware (next : PHandler) : PHandler := λ i,
  let t := next i in
  mktrace (((λ kv, WSet kv.1 kv.2) <$> security_headers) ++ tOps t) (tEnd t) (tMetrics t).

(** writeProbe: whether anything was written. *)
Definition written (ops : list wop) : bool := existsb is_write ops.

Definition recoveryMiddleware (next : PHandler) : PHandler := λ i,
  let t := next i in
  match tEnd t with
  | Returned => t
  | Panicked =>
      if written (tOps t) then mktrace (tOps t) Returned (tMetrics t)
      else mktrace (tOps t ++ http_Error $"Internal Server Error" StatusInternalServerError) Returned (tMetrics t)
  end.

(** The path of the log line of a recovered panic. *)
Definition panic_log (gate : option Gate) (i : Incoming) : gostring := redactPath gate (Path (inReq i)).

Definition maxBodyMiddleware (maxBytes : Z) (next : PHandler) : PHandler := λ i,
  next (mkIncoming (inReq i) (Some (match inLimit i with Some n => Z.min n maxBytes | None => maxBytes end))).

(** * metrics.go *)

Definition knownMethods : list gostring :=
  [$"GET"; $"POST"; $"PUT"; $"PATCH"; $"DELETE"; $"HEAD"; $"OPTIONS"; $"CONNECT"; $"TRACE"].

Definition normalizeMethod (m : gostring) : gostring := if decide (m ∈ knownMethods) then m else $"OTHER".

Record statusRecorder := mkstatusRecorder { srCode : Z; srWritten : bool }.

(** One call on the recorder: what it forwards and its new state. *)
Definition sr_op (sr : statusRecorder) (o : wop) : list wop * statusRecorder :=
  match o with
  | WWriteHeader c => if srWritten sr then ([], sr) else ([o], mkstatusRecorder c true)
  | WWrite b =>
      if srWritten sr then ([o], sr) else ([WWriteHeader StatusOK; o], mkstatusRecorder StatusOK true)
  | _ => ([o], sr)
  end.

Fixpoint sr_run (sr : statusRecorder) (ops : list wop) : list wop * statusRecorder :=
  match ops with
  | [] => ([], sr)
  | o :: ops' =>
      let '(out, sr1) := sr_op sr o in
      let '(rest, sr2) := sr_run sr1 ops' in
      (out ++ rest, sr2)
  end.

(** The header map after the calls. *)
Definition header_after (ops : list wop) : mheader := nwHeader (foldl nw_op (mkNetWriter ∅ [] false []) ops).

Definition metricsMiddleware (next : PHandler) : PHandler := λ i,
  let t := next i in
  let '(ops, sr) := sr_run (mkstatusRecorder StatusOK false) (tOps t) in
  let xc := mh_get (header_after ops) $"X-Cache" in
  let observed :=
    match tEnd t with
    | Panicked => []
    | Returned =>
        [MDuration (bool_decide (xc = $"HIT")); MRequest (normalizeMethod (Method (inReq i))) (srCode sr)] ++
        (if decide (xc = $"HIT") then [MCache true]
         else if decide (xc = $"MISS") then [MCache false] else [])
    end in
  mktrace ops (tEnd t) ([MActive 1] ++ tMetrics t ++ observed ++ [MActive (-1)]).

(** * errors.go *)

Definition StatusRequestEntityTooLarge : Z := 413.
Definition StatusBadGateway : Z := 502.

(** http.StatusText of the codes the proxy serves pages for. *)
Definition StatusText (code : Z) : gostring :=
  if Z.eqb code 413 then $"Request Entity Too Large"
  else if Z.eqb code 429 then $"Too Many Requests"
  else if Z.eqb code 502 then $"Bad Gateway"
  else if Z.eqb code 503 then $"Service Unavailable"
  else if Z.eqb code 504 then $"Gateway Timeout" else [].

Definition serveErrorPage (staticFiles : gostring → option gostring) (code : Z) : list wop :=
  match staticFiles ($"static/" ++ fmt_int code ++ $".html") with
  | None => http_Error (StatusText code) code
  | Some data =>
      [WSet ContentType $"text/html; charset=utf-8"; WSet $"X-Content-Type-Options" $"nosniff";
       WWriteHeader code; WWrite data]
  end.

(** * server.go: the chain *)

Definition maxBodyBytes : Z := 4 * 1024 * 1024.

(** CFValidator.Middleware around a handler. *)
Definition cfMiddleware (v : CFValidator) (hashIP : option (gostring → gostring)) (next : PHandler) : PHandler := λ i,
  match Cloudflare.Middleware v hashIP (inReq i) with
  | CFPass => next i
  | CFForbidden _ => mktrace (http_Error $"403 Forbidden" StatusForbidden) Returned []
  end.

(** gate.ServeHTTP with the admin handler [admin]. *)
Definition gate_serve (admin : Request → trace) (g : Gate) (i : Incoming) : trace :=
  match ServeHTTP g (inReq i) with
  | Empty status => mktrace [WSet ContentLength $"0"; WWriteHeader status] Returned []
  | Delegate r => admin r
  | Panic => mktrace [] Panicked []
  end.

Definition adminGateMiddleware (admin : Request → trace) (gate : option Gate) (next : PHandler) : PHandler := λ i,
  match gate with
  | Some g => if MatchesPrefix g (Path (inReq i)) then gate_serve admin g i else next i
  | None => next i
  end.

(** The handler NewServer installs; [inner] is the host router with the
    features and the reverse proxy below it. *)
Definition NewServer_handler (gate : Gate) (admin : Request → trace) (v : CFValidator)
    (hashIP : option (gostring → gostring)) (inner : PHandler) : PHandler :=
  let handler := cfMiddleware v hashIP inner in
  let handler := securityHeadersMiddleware handler in
  let handler := maxBodyMiddleware maxBodyBytes handler in
  let handler := metricsMiddleware handler in
  let handler := adminGateMiddleware admin (Some gate) handler in
  recoveryMiddleware handler.

(** * server.go: the reverse proxy *)

Definition inboundProxyHeaders : list gostring :=
  [$"Forwarded"; $"X-Forwarded-For"; $"X-Forwarded-Host"; $"X-Forwarded-Proto"; $"X-Forwarded-Port";
   $"X-Real-IP"; $"X-Real-Port"; $"X-Original-URL"; $"X-Rewrite-URL"; $"X-Original-Host"; $"True-Client-IP";
   $"CF-Ray"; $"CF-Visitor"; $"Fastly-Client-IP"; $"X-Client-IP"; $"X-Cluster-Client-IP"; $"Via";
   $"X-Proxy-Secret"].

Definition hdr_del (k : gostring) (h : header) : header := delete (CanonicalHeaderKey k) h.

Definition stripInboundProxyHeaders (h : header) (cf : bool) : header :=
  let h := foldl (λ h name, hdr_del name h) h inboundProxyHeaders in
  if negb cf then hdr_del $"CF-Connecting-IP" h else h.

Definition director (cf : bool) (r : Request) : Request :=
  mkRequest (Method r) (Path r) (RawPath r) (RawQuery r) (ReqHost r) (RemoteAddr r)
    (stripInboundProxyHeaders (ReqHeader r) cf) (Cookies r).

(** The hop-by-hop headers that ReverseProxy removes. *)
Definition hopHeaders : list gostring :=
  [$"Connection"; $"Proxy-Connection"; $"Keep-Alive"; $"Proxy-Authenticate"; $"Proxy-Authorization"; $"Te";
   $"Trailer"; $"Transfer-Encoding"; $"Upgrade"].

Definition is_ows (c : ascii) : bool := bool_decide (c = " "%char ∨ c = ascii_of_N 9).
Definition trim_ows (s : gostring) : gostring := TrimRight (drop_while is_ows s) is_ows.

(** The names a Connection header lists. *)
Definition connection_tokens (h : header) : list gostring :=
  filter (λ s, s ≠ []) (trim_ows <$> Split (hdr_get h $"Connection") ","%char).

Definition removeHopByHop (h : header) : header :=
  foldl (λ h name, hdr_del name h) (foldl (λ h name, hdr_del name h) h (connection_tokens h)) hopHeaders.

Definition lower_is (s t : gostring) : bool := bool_decide (map lower_byte s = t).

Definition upgradeType (h : header) : gostring :=
  if existsb (λ s, lower_is s $"upgrade") (connection_tokens h) then hdr_get h $"Upgrade" else [].

Definition printable (s : gostring) : bool :=
  forallb (λ c, let n := N_of_ascii c in N.leb 32 n && N.leb n 126)%bool s.

(** What httputil.ReverseProxy hands to its transport: None when it refuses an
    upgrade, otherwise the request with the headers rewritten. *)
Definition reverse_proxy_request (cf : bool) (r : Request) : option Request :=
  let d := director cf r in
  let h := ReqHeader d in
  let up := upgradeType h in
  if negb (printable up) then None
  else
    let te := existsb (λ s, lower_is s $"trailers") (trim_ows <$> Split (hdr_get (ReqHeader r) $"Te") ","%char) in
    let h1 := removeHopByHop h in
    let h2 := if te then hdr_set $"Te" $"trailers" h1 else h1 in
    let h3 := if decide (up = []) then h2 else hdr_set $"Upgrade" up (hdr_set $"Connection" $"Upgrade" h2) in
    let h4 := match SplitHostPort (RemoteAddr r) with
              | None => h3
              | Some (ip, _) =>
                  match h3 !! XForwardedFor with
                  | Some prior => hdr_set XForwardedFor (prior ++ $", " ++ ip) h3
                  | None => hdr_set XForwardedFor ip h3
                  end
              end in
    let h5 := match h4 !! $"User-Agent" with Some _ => h4 | None => hdr_set $"User-Agent" [] h4 end in
    Some (mkRequest (Method r) (Path r) (RawPath r) (RawQuery r) (ReqHost r) (RemoteAddr r) h5 (Cookies r)).

(** ModifyResponse *)
Definition modifyResponse (h : mheader) : mheader :=
  foldl (λ h k, mh_del k h) h [$"Server"; $"X-Powered-By"; $"Via"; $"Content-Security-Policy"].

(** ErrorHandler *)
Definition errorHandler (staticFiles : gostring → option gostring) (tooLarge : bool) : list wop :=
  serveErrorPage staticFiles (if tooLarge then StatusRequestEntityTooLarge else StatusBadGateway).

(** The target of the listener on port 80. *)
Definition redirect_target (domain requestURI : gostring) : gostring := $"https://" ++ domain ++ requestURI.

(** * server.go: the pool cache *)

(** fetchPool: the cache is replaced when the answer decodes. *)
Definition fetchPool (decoded : option (list BackendInfo)) (cache : list BackendInfo) : list BackendInfo * bool :=
  match decoded with Some pool => (pool, true) | None => (cache, false) end.

Definition SetPoolCache (pool _cache : list BackendInfo) : list BackendInfo := pool.

(** * The recorder of the metrics *)

Lemma sr_run_headers c wr pre ops :
  Forall header_op pre →
  sr_run (mkstatusRecorder c wr) (pre ++ ops) =
  (pre ++ (sr_run (mkstatusRecorder c wr) ops).1, (sr_run (mkstatusRecorder c wr) ops).2).
Proof.
  intros Hf. induction Hf as [|o pre Ho _ IH]; cbn [app sr_run]; [by destruct (sr_run _ ops)|].
  destruct o; try done; cbn [sr_op]; by rewrite IH.
Qed.

Definition not_status (o : wop) : bool := match o with WWriteHeader _ => false | _ => true end.

(** Once something was written the recorder drops every further status. *)
Lemma sr_run_written c ops : sr_run (mkstatusRecorder c true) ops = (List.filter not_status ops, mkstatusRecorder c true).
Proof. induction ops as [|o ops IH]; [done|]. cbn [sr_run List.filter]. destruct o; cbn; by rewrite IH. Qed.

Lemma writes_not_status ops : writes (List.filter not_status ops) = writes ops.
Proof.
  induction ops as [|o ops IH]; [done|]. unfold writes in *. cbn [List.filter]. destruct o; cbn; by rewrite IH.
Qed.

(** A first write with a final status passes the recorder unchanged. *)
Lemma sr_run_first pre o post code :
  Forall header_op pre → write_code o = Some code →
  ∃ post', sr_run (mkstatusRecorder StatusOK false) (pre ++ o :: post)
           = (pre ++ WWriteHeader code :: post', mkstatusRecorder code true) ∧ writes post' = writes (o :: post).
Proof.
  intros Hpre Hc. rewrite sr_run_headers by done. cbn [sr_run].
  destruct o as [| | |c|b]; simplify_eq/=; rewrite sr_run_written; cbn [fst snd].
  - exists (List.filter not_status post). split; [done|]. apply writes_not_status.
  - exists (WWrite b :: List.filter not_status post). split; [done|]. unfold writes in *. cbn.
    f_equal. apply writes_not_status.
Qed.

(** No call of the list touches the header [k]. *)
Definition leaves (k : gostring) (o : wop) : Prop :=
  match o with
  | WSet k' _ | WAdd k' _ | WDel k' => CanonicalHeaderKey k' ≠ CanonicalHeaderKey k
  | _ => True
  end.

Lemma hop_leaves k ops h : Forall (leaves k) ops → mh_values (foldl hop h ops) k = mh_values h k.
Proof.
  intros Hf. revert h. induction Hf as [|o ops Ho _ IH]; intros h; cbn [foldl]; [done|]. rewrite IH.
  unfold mh_values. destruct o; cbn [hop leaves] in *; unfold mh_set, mh_add, mh_del;
    rewrite ?lookup_insert_ne, ?lookup_delete_ne; done.
Qed.

Definition security_ops : list wop := (λ kv, WSet kv.1 kv.2) <$> security_headers.

Lemma security_values k v h : (k, v) ∈ security_headers → mh_values (foldl hop h security_ops) k = [v].
Proof.
  intros Hin. unfold security_headers in Hin.
  repeat (apply elem_of_cons in Hin as [[= -> ->]|Hin];
    [unfold security_ops, security_headers; cbn [fmap list_fmap foldl hop fst snd]; unfold mh_values, mh_set;
     repeat (rewrite lookup_insert_ne by discriminate); by rewrite lookup_insert_eq|]).
  by apply elem_of_nil in Hin.
Qed.


(** The admin surface is invisible below the gate: for a path of the gate the
    outcome depends only on the gate and the admin handler, and the metrics
    see nothing but what that handler reports. *)
Theorem proxy_admin_invisible gate admin v hashIP inner v' hashIP' inner' i :
  MatchesPrefix gate (Path (inReq i)) = true →
  let t := NewServer_handler gate admin v hashIP inner i in
  t = NewServer_handler gate admin v' hashIP' inner' i ∧
  tMetrics t = tMetrics (gate_serve admin gate i).
Proof.
  intros Hg. unfold NewServer_handler, recoveryMiddleware, adminGateMiddleware. rewrite Hg. split; [done|].
  destruct (gate_serve admin gate i) as [ops [] ms]; [done|]. cbn [tEnd tOps tMetrics]. by destruct (written ops).
Qed.

(** No panic reaches the server; a panic before anything was written becomes an
    empty-handed 500. *)
Theorem proxy_recovers gate admin v hashIP inner i :
  tEnd (NewServer_handler gate admin v hashIP inner i) = Returned ∧
  (∀ ops ms, adminGateMiddleware admin (Some gate) (metricsMiddleware (maxBodyMiddleware maxBodyBytes
       (securityHeadersMiddleware (cfMiddleware v hashIP inner)))) i = mktrace ops Panicked ms →
     Forall header_op ops →
     (nwSent (wire (NewServer_handler gate admin v hashIP inner i)).1).*1 = [StatusInternalServerError]).
Proof.
  unfold NewServer_handler, recoveryMiddleware. split.
  - set (t := adminGateMiddleware _ _ _ i). destruct (tEnd t) eqn:He; [done|]. by destruct (written (tOps t)).
  - intros ops ms -> Hf. cbn [tEnd tOps tMetrics].
    assert (Hw : written ops = false).
    { apply not_true_is_false. intros Hw%existsb_exists. destruct Hw as (o & Ho%list_elem_of_In & Hwr).
      rewrite Forall_forall in Hf. specialize (Hf o Ho). by destruct o. }
    rewrite Hw. unfold wire. cbn [tOps tEnd fst]. unfold http_Error.
    set (pre := [WDel ContentLength; WSet ContentType $"text/plain; charset=utf-8"; WSet $"X-Content-Type-Options" $"nosniff"]).
    change (ops ++ _) with (ops ++ pre ++ WWriteHeader StatusInternalServerError :: [WWrite ($"Internal Server Error" ++ [ascii_of_N 10])]).
    rewrite (assoc (++) ops pre).
    destruct (nw_first_final (ops ++ pre) (WWriteHeader StatusInternalServerError)
      [WWrite ($"Internal Server Error" ++ [ascii_of_N 10])] StatusInternalServerError ∅) as (Hs & Hwr & _);
      [apply Forall_app; split; [done|repeat constructor]|done|done|].
    rewrite finish_wrote by done. by rewrite Hs.
Qed.

(** A truncated response looks complete. When a handler panics after it has
    begun to write, the recovery middleware returns normally, so the server
    ends the response in order and the client receives the partial body as a
    whole one; without the middleware the connection would be aborted. *)
Theorem proxy_truncation_hidden gate admin v hashIP inner i pre o post code ms :
  MatchesPrefix gate (Path (inReq i)) = false → Cloudflare.Middleware v hashIP (inReq i) = CFPass →
  inLimit i = None → inner (mkIncoming (inReq i) (Some (4 * 1024 * 1024)%Z)) = mktrace (pre ++ o :: post) Panicked ms →
  Forall header_op pre → write_code o = Some code → informational code = false →
  let t := NewServer_handler gate admin v hashIP inner i in
  (wire t).2 = true ∧ nwBody (wire t).1 = writes (o :: post) ∧ (nwSent (wire t).1).*1 = [code] ∧
  (wire (inner (mkIncoming (inReq i) (Some (4 * 1024 * 1024)%Z)))).2 = false.
Proof.
  intros Hg Hcf Hlim Hinner Hpre Hc Hi. cbv zeta.
  set (sec := security_ops ++ pre). assert (Hsec : Forall header_op sec).
  { apply Forall_app. split; [|done]. unfold security_ops. apply Forall_fmap, Forall_forall. done. }
  destruct (sr_run_first sec o post code Hsec Hc) as (post' & Hsr & Hwr).
  assert (Hbelow : maxBodyMiddleware maxBodyBytes (securityHeadersMiddleware (cfMiddleware v hashIP inner)) i
                    = mktrace (sec ++ o :: post) Panicked ms).
  { unfold maxBodyMiddleware, securityHeadersMiddleware, cfMiddleware. rewrite Hlim. cbn [inReq]. rewrite Hcf.
    unfold maxBodyBytes. rewrite Hinner. cbn [tOps tEnd tMetrics]. unfold sec. by rewrite <- (assoc (++)). }
  assert (Ht : ∃ ms', NewServer_handler gate admin v hashIP inner i = mktrace (sec ++ WWriteHeader code :: post') Returned ms').
  { unfold NewServer_handler, recoveryMiddleware, adminGateMiddleware. rewrite Hg.
    unfold metricsMiddleware. rewrite Hbelow. cbn [tOps tEnd tMetrics]. rewrite Hsr. cbn [tEnd tOps].
    replace (written (sec ++ WWriteHeader code :: post')) with true; [eauto|].
    symmetry. apply existsb_exists. exists (WWriteHeader code). split; [apply in_app_iff; right; by left|done]. }
  destruct Ht as (ms' & ->). unfold wire at 1 2 3. cbn [tOps tEnd fst snd].
  destruct (nw_first_final sec (WWriteHeader code) post' code ∅ Hsec eq_refl Hi) as (Hs & Hw & Hb).
  rewrite finish_wrote by done. rewrite Hs, Hb, Hinner. split_and!; [done| |done|done].
  unfold writes in *. cbn. done.
Qed.

(** An informational response costs the status. When the handlers below
    forward a 1xx response, as the reverse proxy does for a backend that sends
    early hints, the metrics recorder takes it for the response: the final
    status is dropped, the client receives 200 instead of it, and the request
    is counted under the informational status. *)
Theorem proxy_early_hints_lose_status gate admin v hashIP inner i hint code b ms :
  MatchesPrefix gate (Path (inReq i)) = false → Cloudflare.Middleware v hashIP (inReq i) = CFPass →
  inLimit i = None → informational hint = true →
  inner (mkIncoming (inReq i) (Some (4 * 1024 * 1024)%Z)) = mktrace [WWriteHeader hint; WWriteHeader code; WWrite b] Returned ms →
  let t := NewServer_handler gate admin v hashIP inner i in
  (nwSent (wire t).1).*1 = [hint; StatusOK] ∧ nwBody (wire t).1 = b ∧
  MRequest (normalizeMethod (Method (inReq i))) hint ∈ tMetrics t.
Proof.
  intros Hg Hcf Hlim Hhint Hinner. cbv zeta.
  assert (Ht : ∃ ms', NewServer_handler gate admin v hashIP inner i
               = mktrace (security_ops ++ [WWriteHeader hint; WWrite b]) Returned ms' ∧
               MRequest (normalizeMethod (Method (inReq i))) hint ∈ ms').
  { assert (Hbelow : maxBodyMiddleware maxBodyBytes (securityHeadersMiddleware (cfMiddleware v hashIP inner)) i
                      = mktrace (security_ops ++ [WWriteHeader hint; WWriteHeader code; WWrite b]) Returned ms).
    { unfold maxBodyMiddleware, securityHeadersMiddleware, cfMiddleware. rewrite Hlim. cbn [inReq]. rewrite Hcf.
      unfold maxBodyBytes. by rewrite Hinner. }
    unfold NewServer_handler, recoveryMiddleware, adminGateMiddleware. rewrite Hg.
    unfold metricsMiddleware. rewrite Hbelow. cbn [tOps tEnd tMetrics].
    rewrite sr_run_headers by (unfold security_ops; apply Forall_fmap, Forall_forall; done). cbn [sr_run sr_op srWritten fst snd app srCode tEnd].
    eexists. split; [done|]. set_solver. }
  destruct Ht as (ms' & -> & Hin). unfold wire. cbn [tOps tEnd fst tMetrics].
  rewrite foldl_app, (nw_header_ops security_ops) by (unfold security_ops; apply Forall_fmap, Forall_forall; done).
  cbn [nwHeader nwSent nwWrote nwBody]. generalize (foldl hop (∅ : mheader) security_ops). intros h.
  cbn [foldl nw_op]. unfold nw_finish, nw_Write, nw_WriteHeader.
  cbn [nwHeader nwSent nwWrote nwBody app]. rewrite Hhint. cbn. split_and!; done.
Qed.

(** * What a backend is told about the client *)

Lemma hdr_del_all_lookup names h k :
  foldl (λ h n, hdr_del n h) h names !! k =
  if decide (k ∈ CanonicalHeaderKey <$> names) then None else h !! k.
Proof.
  revert h. induction names as [|n names IH]; intros h; cbn [foldl fmap list_fmap].
  - by rewrite decide_False by (by intros ?%not_elem_of_nil).
  - rewrite IH. unfold hdr_del. destruct (decide (k ∈ CanonicalHeaderKey <$> names)) as [Hi|Hi].
    + by rewrite decide_True by (by right).
    + destruct (decide (k = CanonicalHeaderKey n)) as [->|Hne].
      * rewrite decide_True by left. by rewrite lookup_delete_eq.
      * rewrite decide_False by (intros [?|?]%elem_of_cons; done). by rewrite lookup_delete_ne.
Qed.

Lemma removeHopByHop_None h k : h !! k = None → removeHopByHop h !! k = None.
Proof. intros Hk. unfold removeHopByHop. rewrite !hdr_del_all_lookup. by repeat case_decide. Qed.

Lemma removeHopByHop_Some h k v : removeHopByHop h !! k = Some v → h !! k = Some v.
Proof. unfold removeHopByHop. rewrite !hdr_del_all_lookup. by repeat case_decide. Qed.

(** The names that the reverse proxy itself may set. *)
Definition proxy_sets : list gostring := [$"Te"; $"Upgrade"; $"Connection"; $"User-Agent"; XForwardedFor].

(** Other headers are the client's, with the director's removals. *)
Lemma reverse_proxy_other cf r r' k :
  reverse_proxy_request cf r = Some r' → k ∉ proxy_sets →
  ReqHeader r' !! k = removeHopByHop (stripInboundProxyHeaders (ReqHeader r) cf) !! k.
Proof.
  intros Hr Hk. unfold proxy_sets in Hk. repeat (apply not_elem_of_cons in Hk as [? Hk]).
  unfold reverse_proxy_request in Hr. destruct (negb (printable _)); [done|]. apply (inj Some) in Hr as <-.
  cbn [ReqHeader director]. unfold hdr_set.
  repeat match goal with
  | |- context [match ?x !! $"User-Agent" with _ => _ end] => destruct (x !! $"User-Agent")
  | |- context [match ?x !! XForwardedFor with _ => _ end] => destruct (x !! XForwardedFor)
  | |- context [match SplitHostPort ?a with _ => _ end] => destruct (SplitHostPort a) as [[? ?]|]
  | |- context [if decide ?P then _ else _] => destruct (decide P)
  | |- context [if existsb ?f ?l then _ else _] => destruct (existsb f l)
  end; rewrite ?lookup_insert_ne by done; done.
Qed.

Lemma reverse_proxy_peer cf r r' :
  reverse_proxy_request cf r = Some r' → ReqHeader r' !! XForwardedFor = fst <$> SplitHostPort (RemoteAddr r).
Proof.
  intros Hr. unfold reverse_proxy_request in Hr. destruct (negb (printable _)); [done|]. apply (inj Some) in Hr as <-.
  cbn [ReqHeader director]. set (h1 := removeHopByHop _).
  assert (H1 : h1 !! XForwardedFor = None).
  { apply removeHopByHop_None. unfold stripInboundProxyHeaders. destruct cf; cbn [negb]; unfold hdr_del;
      rewrite ?lookup_delete_ne by (vm_compute; discriminate); rewrite hdr_del_all_lookup, decide_True; done || decide_now. }
  set (h2 := if existsb _ _ then _ else h1).
  assert (H2 : h2 !! XForwardedFor = None).
  { subst h2. destruct (existsb _ _); [|done]. unfold hdr_set. by rewrite lookup_insert_ne. }
  set (h3 := if decide _ then h2 else _).
  assert (H3 : h3 !! XForwardedFor = None).
  { subst h3. destruct (decide _); [done|]. unfold hdr_set. by rewrite !lookup_insert_ne. }
  rewrite H3. unfold hdr_set. destruct (SplitHostPort (RemoteAddr r)) as [[ip p]|]; cbn [fmap option_fmap option_map fst].
  - destruct (<[XForwardedFor := ip]> h3 !! $"User-Agent"); rewrite ?(lookup_insert_ne _ $"User-Agent") by done;
      by rewrite lookup_insert_eq.
  - destruct (h3 !! $"User-Agent"); by rewrite ?lookup_insert_ne.
Qed.

(** C13. What a client sends under the names of forwarding headers is not what
    the backend gets. In a request that leaves for a backend X-Forwarded-Proto
    is https, X-Proxy-Secret is the configured secret or absent, and
    X-Forwarded-For is the address of the connection (absent when it cannot be
    split off the port), or the one of CF-Connecting-IP when Cloudflare
    validation is on; the other fourteen listed names (Forwarded,
    X-Forwarded-Port, X-Real-IP and so on, X-Forwarded-Host aside) are absent.
    Other headers, Cookie and Authorization among them, are not meant. *)
Theorem proxy_forwarding_trusted cf cfg tenant r r' body buffered b :
  reverse_proxy_request cf r = Some r' →
  let h := orHeader (outRequest cfg tenant r' body buffered b) in
  let announced := hdr_get (ReqHeader r') CFConnectingIP in
  h !! XForwardedProto = Some $"https" ∧
  h !! XProxySecret = (if decide (pcProxySecret cfg = []) then None else Some (pcProxySecret cfg)) ∧
  h !! XForwardedFor = (if decide (announced = []) then fst <$> SplitHostPort (RemoteAddr r) else Some announced) ∧
  (announced ≠ [] → cf = true ∧ announced = hdr_get (ReqHeader r) CFConnectingIP) ∧
  (∀ n, n ∈ inboundProxyHeaders → CanonicalHeaderKey n ∉ [XForwardedProto; XProxySecret; XForwardedFor; $"X-Forwarded-Host"] →
     h !! CanonicalHeaderKey n = None).
Proof.
  intros Hr. pose proof (reverse_proxy_peer cf r r' Hr) as Hpeer.
  assert (Hstrip : ∀ k, k ∈ CanonicalHeaderKey <$> inboundProxyHeaders → k ≠ XForwardedFor → ReqHeader r' !! k = None).
  { intros k Hk Hne. assert (Hall : Forall (λ k, k = XForwardedFor ∨ k ∉ proxy_sets) (CanonicalHeaderKey <$> inboundProxyHeaders))
      by decide_now.
    rewrite Forall_forall in Hall. destruct (Hall k Hk) as [?|Hns]; [done|].
    rewrite (reverse_proxy_other cf r r' k Hr Hns). apply removeHopByHop_None. unfold stripInboundProxyHeaders.
    assert (Hf : foldl (λ h name, hdr_del name h) (ReqHeader r) inboundProxyHeaders !! k = None)
      by (by rewrite hdr_del_all_lookup, decide_True).
    destruct cf; cbn [negb]; [done|]. unfold hdr_del at 1. by rewrite lookup_delete_None; right. }
  cbv zeta. unfold outRequest. cbn [orHeader]. set (ann := hdr_get (ReqHeader r') CFConnectingIP).
  set (h0 := if decide (pcProxySecret cfg = []) then _ else _).
  set (h1 := if decide (ann = []) then _ else _). unfold hdr_set at 1 2 3 4.
  assert (Hx : ∀ k, k ≠ XForwardedProto → k ≠ XProxySecret → k ≠ XForwardedFor →
    <[XForwardedProto := $"https"]> h1 !! k = ReqHeader r' !! k).
  { intros k H1 H2 H3. rewrite lookup_insert_ne by done. subst h1 h0. unfold hdr_set.
    repeat destruct (decide _); by rewrite ?lookup_insert_ne. }
  split_and!.
  - by rewrite lookup_insert_eq.
  - rewrite lookup_insert_ne by done. subst h1 h0. unfold hdr_set.
    destruct (decide (ann = [])), (decide (pcProxySecret cfg = [])); rewrite ?(lookup_insert_ne _ XForwardedFor) by done;
      rewrite ?lookup_insert_eq; try done; apply Hstrip; done || decide_now.
  - rewrite lookup_insert_ne by done. subst h1 h0. unfold hdr_set.
    destruct (decide (ann = [])); [|by rewrite lookup_insert_eq].
    destruct (decide (pcProxySecret cfg = [])); by rewrite ?(lookup_insert_ne _ XProxySecret) by done.
  - intros Hne. unfold ann, hdr_get in *.
    destruct (ReqHeader r' !! CFConnectingIP) as [a|] eqn:E; [|done]. cbn [from_option] in *. unfold id in *.
    rewrite (reverse_proxy_other cf r r' CFConnectingIP Hr) in E by decide_now. apply removeHopByHop_Some in E.
    unfold stripInboundProxyHeaders in E. destruct cf; cbn [negb] in E.
    + rewrite hdr_del_all_lookup in E. destruct (decide _); [done|]. by rewrite E.
    + unfold hdr_del at 1 in E. replace (CanonicalHeaderKey $"CF-Connecting-IP") with CFConnectingIP in E by (vm_compute; reflexivity).
      by rewrite lookup_delete_eq in E.
  - intros n Hn Hk. repeat (apply not_elem_of_cons in Hk as [? Hk]). rewrite Hx by done.
    apply Hstrip; [by apply list_elem_of_fmap_2|done].
Qed.

(** * Examples *)

Definition px_gate : Gate := AdminGate.New (AdminGate.mkConfig false [] [] []).
Definition px_validator : CFValidator := mkCFValidator [] false.
Definition px_admin (_ : Request) : trace := mktrace [] Returned [].
Definition px_request (h : header) : Request := mkRequest $"GET" $"/" [] [] $"a" $"1.2.3.4:5" h ∅.
Definition px_in : Incoming := mkIncoming (px_request ∅) None.
Definition px_inner (ops : list wop) (e : ending) : PHandler := λ _, mktrace ops e [].

Definition px_serve (ops : list wop) (e : ending) : trace :=
  NewServer_handler px_gate px_admin px_validator None (px_inner ops e) px_in.


Lemma proxy_truncation_hidden_witness :
  (wire (px_serve ([] ++ WWrite $"half" :: []) Panicked)).2 = true ∧
  nwBody (wire (px_serve ([] ++ WWrite $"half" :: []) Panicked)).1 = $"half".
Proof.
  destruct (proxy_truncation_hidden px_gate px_admin px_validator None
    (px_inner ([] ++ WWrite $"half" :: []) Panicked) px_in [] (WWrite $"half") [] 200 []
    ltac:(vm_compute; reflexivity) ltac:(vm_compute; reflexivity) eq_refl eq_refl ltac:(constructor) eq_refl eq_refl)
    as (Hw & Hb & _). split; [exact Hw|exact Hb].
Defined.

Lemma proxy_early_hints_lose_status_witness :
  (nwSent (wire (px_serve [WWriteHeader 103; WWriteHeader 302; WWrite $"x"] Returned)).1).*1 = [103; 200]%Z.
Proof.
  destruct (proxy_early_hints_lose_status px_gate px_admin px_validator None
    (px_inner [WWriteHeader 103; WWriteHeader 302; WWrite $"x"] Returned) px_in 103 302 $"x" []
    ltac:(vm_compute; reflexivity) ltac:(vm_compute; reflexivity) eq_refl eq_refl eq_refl) as (Hs & _).
  exact Hs.
Defined.

Definition px_spoofed : header := {[ $"Via" := $"v"; XForwardedFor := $"9.9.9.9"; XProxySecret := $"s" ]}.
Definition px_backend : BackendInfo := mkBackendInfo 9050 true 0 0 (f64_of_Z 0) $"b".

Lemma proxy_forwarding_trusted_witness :
  ∃ r', reverse_proxy_request false (px_request px_spoofed) = Some r' ∧
    orHeader (outRequest (mkProxyConfig 1 $"d" [] []) None r' None None px_backend) !! XProxySecret = None ∧
    orHeader (outRequest (mkProxyConfig 1 $"d" [] []) None r' None None px_backend) !! CanonicalHeaderKey $"Via" = None.
Proof.
  destruct (reverse_proxy_request false (px_request px_spoofed)) as [r'|] eqn:E; [|vm_compute in E; discriminate E].
  exists r'. split; [reflexivity|].
  destruct (proxy_forwarding_trusted false (mkProxyConfig 1 $"d" [] []) None (px_request px_spoofed) r' None None px_backend E)
    as (_ & Hs & _ & _ & Hn).
  split; [exact Hs|]. apply Hn; decide_now.
Defined.
