(* ===== verification/Sanitize.v ===== *)
(** The content sanitizer (src/internal/feature/sanitize/sanitize.go): policies,
    the recorder of responses, the filter over HTML tokens and the replay.

    The tokenizer and EscapeString of golang.org/x/net/html are parameters, and
    so is whether mime.ParseMediaType accepts the parameters of a content
    type. *)

From S2P Require Import Prelude Float Http Shared FeatureRegistry GoStd.

Definition FeatureName : gostring := $"content_sanitizer".
Definition globalTenantKey : gostring := $"_global_".
Definition defaultMaxBody : Z := 8 * 1024 * 1024.

Definition defaultStripTags : list gostring :=
  [$"script"; $"object"; $"embed"; $"iframe"; $"link"; $"meta"; $"form"; $"input"].

Definition defaultStripAttrPatterns : list gostring := [$"onclick"; $"onload"; $"onerror"; $"javascript:"].

Definition defaultContentTypes : list gostring := [$"text/html"].

Definition voidElements : list gostring :=
  [$"area"; $"base"; $"br"; $"col"; $"embed"; $"hr"; $"img"; $"input"; $"link"; $"meta"; $"param"; $"source";
   $"track"; $"wbr"; $"keygen"; $"command"].

Definition isVoid (name : gostring) : bool := bool_decide (name ∈ voidElements).

Record policy := mkpolicy {
  poEnabled : bool;
  stripTags : gset gostring;
  stripAttrs : list gostring;
  contentTypes : list gostring;
  poMaxBody : Z
}.

(** A tag's name as TagName returns it, its attributes in order as TagAttr
    does, and the bytes of the token. *)
Inductive token :=
| TStart (name : gostring) (attrs : list (gostring * gostring)) (raw : gostring)
| TSelf (name : gostring) (attrs : list (gostring * gostring)) (raw : gostring)
| TEnd (name : gostring) (raw : gostring)
| TText (raw : gostring)
| TComment (raw : gostring)
| TDoctype (raw : gostring).

(** html.NewTokenizer: the tokens of a document and whether the tokenizer ended
    at the end of the input. html.EscapeString and the parameters of a content
    type. *)
Class HtmlLib := {
  html_tokens : gostring → list token * bool;
  EscapeString : gostring → gostring;
  media_params_ok : gostring → bool
}.

Section policies.
Context `{GoUnicode} `{HtmlLib}.

Definition matchesContentType (p : policy) (ct : gostring) : bool :=
  if decide (contentTypes p = []) then false
  else
    let base := match cut_byte ";"%char ct with Some (b, _) => b | None => ct end in
    let mediaType := if media_params_ok ct then ToLower (TrimSpace (ToLower base)) else ToLower (TrimSpace base) in
    if decide (mediaType = []) then false
    else existsb (λ want, bool_decide (mediaType = want) || HasPrefix mediaType want)%bool (contentTypes p).

Definition shouldStripTag (p : policy) (name : gostring) : bool := bool_decide (name ∈ stripTags p).

Definition shouldStripAttr (p : policy) (key val : gostring) : bool :=
  existsb (λ pat, if decide (pat = []) then false
                  else if decide (key = pat) then true
                  else (bool_decide (val ≠ []) && Contains_str val pat)%bool) (stripAttrs p).

(** * Configuration *)

Inductive san_error := ErrNotString | ErrNotList | ErrNotInt.

Fixpoint as_strings (l : list json) : result san_error (list gostring) :=
  match l with
  | [] => Ok []
  | JString s :: l' => let* r := as_strings l' in Ok (s :: r)
  | _ :: _ => Err ErrNotString
  end.

Definition asStringList (p : gmap gostring json) (key : gostring) (def : list gostring)
    : result san_error (list gostring) :=
  match p !! key with
  | None => Ok def
  | Some JNull => Ok []
  | Some (JArray l) => as_strings l
  | Some _ => Err ErrNotList
  end.

Definition asInt64 (p : gmap gostring json) (key : gostring) (def : Z) : result san_error Z :=
  match p !! key with
  | None | Some JNull => Ok def
  | Some (JInt n) => Ok (wrap64 n)
  | Some (JFloat f) => Ok (f64_to_int f)
  | Some _ => Err ErrNotInt
  end.

(** Trimmed and lower-cased, without empty entries. *)
Definition clean (l : list gostring) : list gostring :=
  filter (λ s, s ≠ []) ((λ s, ToLower (TrimSpace s)) <$> l).

Definition compileCfg (cfg : FeatureSnapshot) : result san_error (option policy) :=
  if (negb (fsEnabled cfg) && bool_decide (fsParams cfg = ∅))%bool then Ok None
  else
    let p := fsParams cfg in
    let* tags := asStringList p $"strip_tags" defaultStripTags in
    let* attrs := asStringList p $"strip_attributes" defaultStripAttrPatterns in
    let* cts := asStringList p $"content_types" defaultContentTypes in
    let* mb := asInt64 p $"max_body_bytes" defaultMaxBody in
    Ok (Some (mkpolicy (fsEnabled cfg) (list_to_set (clean tags)) (clean attrs) (clean cts) mb)).

Definition Validate (cfg : FeatureSnapshot) : option san_error :=
  if (negb (fsEnabled cfg) && bool_decide (fsParams cfg = ∅))%bool then None
  else match compileCfg cfg with Ok _ => None | Err e => Some e end.

Record SanitizeFeature := mkSanitizeFeature { sfEnabled : bool; compiled : gmap gostring policy }.

Definition New : SanitizeFeature := mkSanitizeFeature false ∅.

Definition policy_of (cfg : FeatureSnapshot) : option policy :=
  match compileCfg cfg with Ok (Some p) => Some p | _ => None end.

Definition observed (g : GlobalsSnapshot) (ts : gmap gostring TenantSnapshot) : list (gostring * policy) :=
  match policy_of (default FeatureSnapshot_zero (g !! FeatureName)) with
  | Some p => [(globalTenantKey, p)]
  | None => []
  end
  ++ omap (λ ht, tsFeatures ht.2 !! FeatureName ≫= λ cfg, (λ p, (ToLower ht.1, p)) <$> policy_of cfg) (map_to_list ts).

Definition Observe (g : GlobalsSnapshot) (ts : gmap gostring TenantSnapshot) (_ : SanitizeFeature) : SanitizeFeature :=
  mkSanitizeFeature (existsb (λ kp, poEnabled kp.2) (observed g ts))
    (foldl (λ m kp, <[kp.1 := kp.2]> m) ∅ (observed g ts)).

Definition policyFor (f : SanitizeFeature) (ctx : Context) : option policy :=
  let global := compiled f !! globalTenantKey in
  match TenantFromContext ctx with
  | Some t =>
      if decide (tsHost t = []) then global
      else match compiled f !! ToLower (tsHost t) with Some p => Some p | None => global end
  | None => global
  end.

(** * The filter *)

(** The attributes that are written back. *)
Definition keep_attrs (p : policy) (attrs : list (gostring * gostring)) : list (gostring * gostring) :=
  filter (λ kv, shouldStripAttr p (ToLower kv.1) (ToLower kv.2) = false) attrs.

Definition quote : gostring := ["034"%char].

Definition render_attr (kv : gostring * gostring) : gostring :=
  $" " ++ kv.1 ++ $"=" ++ quote ++ EscapeString kv.2 ++ quote.

Definition render_tag (p : policy) (name : gostring) (attrs : list (gostring * gostring)) (close : gostring) : gostring :=
  $"<" ++ name ++ (keep_attrs p attrs ≫= render_attr) ++ close.

(** One token: what it adds to the output and the new stack. *)
Definition san_token (p : policy) (stack : list gostring) (t : token) : gostring * list gostring :=
  match stack with
  | top :: rest =>
      match t with
      | TStart name _ _ =>
          let n := ToLower name in
          ([], if (negb (isVoid n) && bool_decide (n = top))%bool then n :: stack else stack)
      | TEnd name _ => ([], if decide (ToLower name = top) then rest else stack)
      | _ => ([], stack)
      end
  | [] =>
      match t with
      | TStart name attrs _ =>
          let n := ToLower name in
          if shouldStripTag p n then ([], if isVoid n then [] else [n])
          else (render_tag p name attrs $">", [])
      | TSelf name attrs _ =>
          if shouldStripTag p (ToLower name) then ([], []) else (render_tag p name attrs $"/>", [])
      | TEnd _ raw | TText raw | TComment raw | TDoctype raw => (raw, [])
      end
  end.

Fixpoint san_loop (p : policy) (stack : list gostring) (ts : list token) : gostring :=
  match ts with
  | [] => []
  | t :: ts' => let '(out, stack') := san_token p stack t in out ++ san_loop p stack' ts'
  end.

(** None: the tokenizer failed before the end of the input. *)
Definition sanitizeHTML (p : policy) (body : gostring) : option gostring :=
  let '(ts, ok) := html_tokens body in
  if ok then Some (san_loop p [] ts) else None.

(** * Recording and replaying *)

Record recorder := mkrecorder {
  recHeader : mheader;
  recBuf : gostring;
  recStatus : Z;
  wroteHdr : bool;
  recMaxBody : Z;
  totalBytes : Z;
  overflowed : bool;
  recMethod : gostring
}.

Definition newRecorderWith (method : gostring) (maxBody : Z) : recorder :=
  mkrecorder ∅ [] 0 false maxBody 0 false method.

Definition rec_header (g : mheader → mheader) (r : recorder) : recorder :=
  mkrecorder (g (recHeader r)) (recBuf r) (recStatus r) (wroteHdr r) (recMaxBody r) (totalBytes r) (overflowed r) (recMethod r).

Definition rec_WriteHeader (status : Z) (r : recorder) : recorder :=
  if wroteHdr r then r
  else mkrecorder (recHeader r) (recBuf r) status true (recMaxBody r) (totalBytes r) (overflowed r) (recMethod r).

Definition rec_Write (b : gostring) (r : recorder) : recorder :=
  let r := rec_WriteHeader StatusOK r in
  let n := Z.of_nat (length b) in
  let total := wrap64 (totalBytes r + n) in
  let remaining := (recMaxBody r - Z.of_nat (length (recBuf r)))%Z in
  let with_buf buf over :=
    mkrecorder (recHeader r) buf (recStatus r) (wroteHdr r) (recMaxBody r) total (overflowed r || over) (recMethod r) in
  if Z.ltb 0 (recMaxBody r) then
    if Z.leb remaining 0 then with_buf (recBuf r) true
    else if Z.ltb remaining n then with_buf (recBuf r ++ take (Z.to_nat remaining) b) true
    else with_buf (recBuf r ++ b) false
  else with_buf (recBuf r ++ b) false.

Definition rec_op (r : recorder) (o : wop) : recorder :=
  match o with
  | WSet k v => rec_header (mh_set k v) r
  | WAdd k v => rec_header (mh_add k v) r
  | WDel k => rec_header (mh_del k) r
  | WWriteHeader c => rec_WriteHeader c r
  | WWrite b => rec_Write b r
  end.

(** The body to send and the recorded headers. *)
Definition finish_body (r : recorder) (p : policy) : gostring * mheader :=
  let ct := mh_get (recHeader r) ContentType in
  let sanitize := (matchesContentType p ct && negb (overflowed r))%bool in
  if sanitize then
    match sanitizeHTML p (recBuf r) with
    | None => (recBuf r, recHeader r)
    | Some out => (out, mh_del ContentLength (recHeader r))
    end
  else (recBuf r, recHeader r).

Definition finish (r : recorder) (p : policy) (w : NetWriter) : NetWriter :=
  let '(body, h) := finish_body r p in
  let w := nw_header (λ dst, h ∪ dst) w in
  let w := nw_WriteHeader (if Z.eqb (recStatus r) 0 then StatusOK else recStatus r) w in
  if (bool_decide (body ≠ []) && negb (bool_decide (recMethod r = MethodHead)))%bool then nw_Write body w else w.

(** The middleware around a handler that does [next] with its writer. *)
Definition Middleware (f : SanitizeFeature) (snap : snapshotState) (ctx : Context) (r : Request)
    (next : list wop) (w : NetWriter) : NetWriter :=
  let pass := foldl nw_op w next in
  if negb (sfEnabled f) then pass
  else if negb (fsEnabled (Resolve snap ctx FeatureName)) then pass
  else match policyFor f ctx with
  | None => pass
  | Some p =>
      if negb (poEnabled p) then pass
      else finish (foldl rec_op (newRecorderWith (Method r) (poMaxBody p)) next) p w
  end.

(** * What the filter promises *)

(** The start tags that are removed with what they contain, and the ones that
    contain nothing. *)
Definition removed (p : policy) (t : token) : bool :=
  match t with TStart n _ _ | TSelf n _ _ => shouldStripTag p (ToLower n) | _ => false end.

Definition childless (t : token) : bool :=
  match t with TStart n _ _ => isVoid (ToLower n) | _ => true end.

(** A kept token with the attributes that stay. *)
Definition filtered (p : policy) (t : token) : token :=
  match t with
  | TStart n attrs raw => TStart n (keep_attrs p attrs) raw
  | TSelf n attrs raw => TSelf n (keep_attrs p attrs) raw
  | _ => t
  end.

Definition print_tag (n : gostring) (attrs : list (gostring * gostring)) (close : gostring) : gostring :=
  $"<" ++ n ++ (attrs ≫= render_attr) ++ close.

Definition print_token (t : token) : gostring :=
  match t with
  | TStart n attrs _ => print_tag n attrs $">"
  | TSelf n attrs _ => print_tag n attrs $"/>"
  | TEnd _ raw | TText raw | TComment raw | TDoctype raw => raw
  end.

Definition opens (n : gostring) (t : token) : Prop :=
  match t with TStart m _ _ => ToLower m = n | _ => False end.

Definition closes (n : gostring) (t : token) : Prop :=
  match t with TEnd m _ => ToLower m = n | _ => False end.

(** Every tag that opens [n] is closed inside. *)
Inductive Balanced (n : gostring) : list token → Prop :=
| bal_nil : Balanced n []
| bal_other t ts : ¬ opens n t → ¬ closes n t → Balanced n ts → Balanced n (t :: ts)
| bal_nest t b t' ts : opens n t → Balanced n b → closes n t' → Balanced n ts → Balanced n (t :: b ++ t' :: ts).

Definition closed_in (n : gostring) (ts : list token) : Prop :=
  ∃ b t' rest, ts = b ++ t' :: rest ∧ Balanced n b ∧ closes n t'.

(** No prefix closes the [n] that is open when [ts] starts. *)
Inductive Unclosed (n : gostring) : list token → Prop :=
| unc_nil : Unclosed n []
| unc_other t ts : ¬ opens n t → ¬ closes n t → Unclosed n ts → Unclosed n (t :: ts)
| unc_nest t b t' ts : opens n t → Balanced n b → closes n t' → Unclosed n ts → Unclosed n (t :: b ++ t' :: ts)
| unc_deep t ts : opens n t → Unclosed n ts → Unclosed n (t :: ts).

(** The tokens that stay: a removed element goes with everything up to its own
    end tag, or to the end of the document when it has none. *)
Inductive Sanitized (p : policy) : list token → list token → Prop :=
| san_nil : Sanitized p [] []
| san_keep t ts out : removed p t = false → Sanitized p ts out → Sanitized p (t :: ts) (filtered p t :: out)
| san_leaf t ts out : removed p t = true → childless t = true → Sanitized p ts out → Sanitized p (t :: ts) out
| san_elem t n b t' ts out :
    removed p t = true → childless t = false → opens n t → Balanced n b → closes n t' →
    Sanitized p ts out → Sanitized p (t :: b ++ t' :: ts) out
| san_unclosed t n ts :
    removed p t = true → childless t = false → opens n t → Unclosed n ts → Sanitized p (t :: ts) [].

(** No tag and no attribute of the policy. *)
Definition harmless (p : policy) (t : token) : Prop :=
  match t with
  | TStart n attrs _ | TSelf n attrs _ =>
      ToLower n ∉ stripTags p ∧ Forall (λ kv, shouldStripAttr p (ToLower kv.1) (ToLower kv.2) = false) attrs
  | _ => True
  end.

Lemma Sanitized_harmless p ts out : Sanitized p ts out → Forall (harmless p) out.
Proof.
  induction 1 as [|t ts out Hr _ IH| | |]; try done. constructor; [|done].
  assert (Hk : ∀ attrs, Forall (λ kv, shouldStripAttr p (ToLower kv.1) (ToLower kv.2) = false) (keep_attrs p attrs)).
  { intros attrs. apply Forall_forall. by intros kv [? _]%list_elem_of_filter. }
  destruct t; cbn in *; try done; (split; [by apply bool_decide_eq_false in Hr|apply Hk]).
Qed.

(** One step of the loop inside a removed element. *)
Lemma san_loop_other p n d t ts :
  ¬ opens n t → ¬ closes n t → san_loop p (replicate (S d) n) (t :: ts) = san_loop p (replicate (S d) n) ts.
Proof.
  intros Ho Hc. cbn [san_loop replicate san_token]. destruct t; cbn [opens closes] in *; try done.
  - rewrite bool_decide_eq_false_2, andb_false_r by done. done.
  - by rewrite decide_False.
Qed.

Lemma san_loop_opens p n d t ts :
  opens n t → isVoid n = false → san_loop p (replicate (S d) n) (t :: ts) = san_loop p (replicate (S (S d)) n) ts.
Proof. intros Ho Hv. destruct t; cbn [opens] in Ho; try done. subst n. cbn. by rewrite Hv, bool_decide_eq_true_2. Qed.

Lemma san_loop_closes p n d t ts :
  closes n t → san_loop p (replicate (S d) n) (t :: ts) = san_loop p (replicate d n) ts.
Proof. intros Hc. destruct t; cbn [closes] in Hc; try done. subst n. cbn. by rewrite decide_True. Qed.

Lemma san_loop_balanced p n b d ts :
  Balanced n b → isVoid n = false → san_loop p (replicate (S d) n) (b ++ ts) = san_loop p (replicate (S d) n) ts.
Proof.
  intros Hb Hv. revert d ts. induction Hb as [|t b Ho Hc _ IH|t b t' b' Ho _ IHb Hc _ IHb']; intros d ts; [done| |].
  - cbn [app]. by rewrite san_loop_other, IH.
  - cbn [app]. rewrite <- (assoc (++)). cbn [app].
    by rewrite san_loop_opens, IHb, san_loop_closes, IHb'.
Qed.

#[local] Instance opens_dec n t : Decision (opens n t).
Proof. destruct t; cbn; apply _. Defined.
#[local] Instance closes_dec n t : Decision (closes n t).
Proof. destruct t; cbn; apply _. Defined.

(** An element that is open is closed by the rest, or by none of it. *)
Lemma closed_or_unclosed n ts : closed_in n ts ∨ Unclosed n ts.
Proof.
  induction ts as [ts IH] using (induction_ltof1 _ length). unfold ltof in IH.
  destruct ts as [|t ts]; [by right; constructor|].
  destruct (decide (closes n t)) as [Hc|Hc]; [left; exists [], t, ts; by repeat constructor|].
  destruct (IH ts) as [(b & t' & rest & -> & Hb & Hc')|Hs]; [cbn; lia| |].
  - destruct (decide (opens n t)) as [Ho|Ho].
    + destruct (IH rest) as [(b2 & t2 & rest2 & -> & Hb2 & Hc2)|Hs]; [rewrite length_cons, length_app; cbn; lia| |].
      * left. exists (t :: b ++ t' :: b2), t2, rest2. cbn. rewrite <- (assoc (++)). split_and!; [done|by constructor|done].
      * right. by constructor.
    + left. exists (t :: b), t', rest. split_and!; [done|by constructor|done].
  - right. destruct (decide (opens n t)); [by apply unc_deep|by apply unc_other].
Qed.

Lemma san_loop_unclosed p n ts d : Unclosed n ts → isVoid n = false → san_loop p (replicate (S d) n) ts = [].
Proof.
  intros Hu Hv. revert d. induction Hu as [|t ts Ho Hc _ IH|t b t' ts Ho Hb Hc _ IH|t ts Ho _ IH]; intros d; [done| | |].
  - by rewrite san_loop_other.
  - by rewrite san_loop_opens, san_loop_balanced, san_loop_closes.
  - by rewrite san_loop_opens.
Qed.

Lemma san_loop_kept p t ts :
  removed p t = false → san_loop p [] (t :: ts) = print_token (filtered p t) ++ san_loop p [] ts.
Proof. intros Hr. destruct t; cbn in *; rewrite ?Hr; done. Qed.

Lemma san_loop_leaf p t ts :
  removed p t = true → childless t = true → san_loop p [] (t :: ts) = san_loop p [] ts.
Proof. intros Hr Hc. destruct t; cbn in *; rewrite ?Hr, ?Hc; done. Qed.

Lemma san_loop_enter p t n ts :
  removed p t = true → childless t = false → opens n t →
  isVoid n = false ∧ san_loop p [] (t :: ts) = san_loop p (replicate 1 n) ts.
Proof. intros Hr Hc Ho. destruct t; cbn in *; subst; try done. by rewrite Hr, Hc. Qed.

Lemma Sanitized_loop p ts out : Sanitized p ts out → san_loop p [] ts = out ≫= print_token.
Proof.
  induction 1 as [|t ts out Hr _ IH|t ts out Hr Hc _ IH|t n b t' ts out Hr Hc Ho Hb Hc' _ IH|t n ts Hr Hc Ho Hn].
  - done.
  - rewrite san_loop_kept by done. cbn. by rewrite IH.
  - by rewrite san_loop_leaf.
  - destruct (san_loop_enter p t n (b ++ t' :: ts) Hr Hc Ho) as [Hv ->].
    by rewrite san_loop_balanced, san_loop_closes.
  - destruct (san_loop_enter p t n ts Hr Hc Ho) as [Hv ->]. by apply san_loop_unclosed.
Qed.

Lemma Sanitized_total p ts : ∃ out, Sanitized p ts out.
Proof.
  induction ts as [ts IH] using (induction_ltof1 _ length). unfold ltof in IH.
  destruct ts as [|t ts]; [by eexists; constructor|]. destruct (IH ts) as [out Hout]; [cbn; lia|].
  destruct (removed p t) eqn:Hr; [|by eexists; constructor].
  destruct (childless t) eqn:Hc; [by exists out; constructor|].
  assert (∃ n, opens n t) as [n Ho] by (destruct t; cbn in *; eauto; done).
  destruct (closed_or_unclosed n ts) as [(b & t' & rest & -> & Hb & Hc')|Hs].
  - destruct (IH rest) as [out' Hout']; [cbn; rewrite length_app; cbn; lia|]. exists out'. by eapply san_elem.
  - exists []. by eapply san_unclosed.
Qed.
(** * What the recorder keeps *)

Lemma rec_op_frame o r :
  recHeader (rec_op r o) = hop (recHeader r) o ∧ recMethod (rec_op r o) = recMethod r ∧
  recMaxBody (rec_op r o) = recMaxBody r ∧
  (wroteHdr r = true → wroteHdr (rec_op r o) = true ∧ recStatus (rec_op r o) = recStatus r).
Proof.
  destruct r as [h buf st wr m tot ov me].
  destruct o; cbn; unfold rec_Write, rec_WriteHeader; destruct wr; cbn; repeat case_match; done.
Qed.

Lemma rec_frame ops r :
  let r' := foldl rec_op r ops in
  recHeader r' = foldl hop (recHeader r) ops ∧ recMethod r' = recMethod r ∧ recMaxBody r' = recMaxBody r ∧
  (wroteHdr r = true → recStatus r' = recStatus r).
Proof.
  revert r. induction ops as [|o ops IH]; intros r; [done|]. cbn [foldl].
  destruct (rec_op_frame o r) as (Hh & Hm & Hx & Hs). destruct (IH (rec_op r o)) as (-> & -> & -> & IHs).
  rewrite Hh, Hm, Hx. split_and!; try done. intros Hw. destruct (Hs Hw) as [Hw' <-]. by apply IHs.
Qed.

(** The first call that writes decides the status. *)
Lemma rec_status pre o post code r :
  Forall header_op pre → write_code o = Some code → wroteHdr r = false →
  recStatus (foldl rec_op r (pre ++ o :: post)) = code.
Proof.
  intros Hpre Hc. revert r. induction Hpre as [|q pre Hq _ IH]; intros r Hw; cbn [app foldl].
  - destruct (rec_frame post (rec_op r o)) as (_ & _ & _ & Hs). rewrite Hs; clear Hs;
      destruct o; simplify_eq/=; unfold rec_Write, rec_WriteHeader; rewrite ?Hw; cbn; repeat case_match; done.
  - apply IH. by destruct q.
Qed.

Definition fits (m : Z) (s : gostring) : Prop := (m ≤ 0 ∨ Z.of_nat (length s) < m)%Z.

Lemma fits_app m s s' : fits m (s ++ s') → fits m s.
Proof. unfold fits. rewrite length_app. lia. Qed.

Lemma rec_fits ops r :
  fits (recMaxBody r) (recBuf r ++ writes ops) →
  recBuf (foldl rec_op r ops) = recBuf r ++ writes ops ∧ overflowed (foldl rec_op r ops) = overflowed r.
Proof.
  revert r. induction ops as [|o ops IH]; intros r Hf; cbn [foldl]; [by rewrite app_nil_r|].
  assert (Hstep : recBuf (rec_op r o) = recBuf r ++ writes [o] ∧ overflowed (rec_op r o) = overflowed r).
  { unfold writes in *. cbn [mbind list_bind] in *. rewrite !app_nil_r, (assoc (++)) in *. apply fits_app in Hf.
    destruct r as [h buf st wr m tot ov me], o; cbn in *; rewrite ?app_nil_r; try done;
      unfold rec_Write, rec_WriteHeader; destruct wr; cbn; unfold fits in Hf; rewrite ?length_app in Hf; try done;
      (destruct (Z.ltb_spec 0 m); [|by rewrite orb_false_r]);
      (destruct (Z.leb_spec (m - Z.of_nat (length buf)) 0); [lia|]);
      (destruct (Z.ltb_spec (m - Z.of_nat (length buf)) (Z.of_nat (length b))); [lia|]); cbn; by rewrite orb_false_r. }
  destruct Hstep as [Hb Ho]. destruct (rec_op_frame o r) as (_ & _ & Hm & _).
  destruct (IH (rec_op r o)) as [-> ->].
  { rewrite Hb, Hm, <- (assoc (++)). unfold writes in *. cbn in *. by rewrite app_nil_r. }
  rewrite Hb, <- (assoc (++)). unfold writes. cbn. by rewrite app_nil_r.
Qed.
Lemma rec_Write_cap b r :
  (0 < recMaxBody r)%Z → (Z.of_nat (length (recBuf r)) ≤ recMaxBody r)%Z →
  recBuf (rec_Write b r) = take (Z.to_nat (recMaxBody r)) (recBuf r ++ b) ∧
  overflowed (rec_Write b r) = (overflowed r || Z.ltb (recMaxBody r) (Z.of_nat (length (recBuf r ++ b)))
    || Z.eqb (Z.of_nat (length (recBuf r))) (recMaxBody r))%bool.
Proof.
  destruct r as [h buf st wr m tot ov me]. cbn. intros Hm Hl.
  unfold rec_Write, rec_WriteHeader. destruct wr; cbn; rewrite length_app, take_app;
    rewrite (take_ge buf) by lia;
    (rewrite (proj2 (Z.ltb_lt 0 m)) by lia);
    (destruct (Z.leb_spec (m - Z.of_nat (length buf)) 0);
     [cbn; replace (Z.to_nat m - length buf)%nat with 0%nat by lia; rewrite take_0, app_nil_r; split; [done|];
      destruct ov, (Z.ltb_spec m (Z.of_nat (length buf + length b))), (Z.eqb_spec (Z.of_nat (length buf)) m); try done; lia|]);
    (destruct (Z.ltb_spec (m - Z.of_nat (length buf)) (Z.of_nat (length b))); cbn;
     [split; [f_equal; f_equal; lia|]|split; [by rewrite (take_ge b) by lia|]]);
    destruct ov, (Z.ltb_spec m (Z.of_nat (length buf + length b))), (Z.eqb_spec (Z.of_nat (length buf)) m); try done; lia.
Qed.

Lemma take_app_take {A} n (l l' : list A) : take n (take n l ++ l') = take n (l ++ l').
Proof.
  destruct (decide (n ≤ length l)) as [Hl|Hl]; [|by rewrite (take_ge l) by lia].
  rewrite !take_app_le, take_take, Nat.min_id; [done|lia|]. rewrite length_take. lia.
Qed.

Lemma writes_cons o ops : writes (o :: ops) = writes [o] ++ writes ops.
Proof. unfold writes. cbn. by rewrite app_nil_r. Qed.

(** Past the limit the recorder keeps the first [maxBody] bytes. *)
Lemma rec_over ops r :
  (0 < recMaxBody r)%Z → (Z.of_nat (length (recBuf r)) ≤ recMaxBody r)%Z →
  recBuf (foldl rec_op r ops) = take (Z.to_nat (recMaxBody r)) (recBuf r ++ writes ops) ∧
  (overflowed r = true ∨ (recMaxBody r < Z.of_nat (length (recBuf r ++ writes ops)))%Z →
   overflowed (foldl rec_op r ops) = true).
Proof.
  intros Hm. revert r Hm. induction ops as [|o ops IH]; intros r Hm Hl; cbn [foldl].
  { cbn. rewrite app_nil_r. split; [by rewrite take_ge by lia|intros [?|?]; [done|lia]]. }
  destruct (rec_op_frame o r) as (_ & _ & Hx & _).
  assert (Hstep : recBuf (rec_op r o) = take (Z.to_nat (recMaxBody r)) (recBuf r ++ writes [o]) ∧
    (overflowed r = true ∨ (recMaxBody r < Z.of_nat (length (recBuf r ++ writes [o])))%Z → overflowed (rec_op r o) = true)).
  { destruct o as [| | | |b]; cbn [rec_op]; unfold writes; cbn [mbind list_bind]; rewrite !app_nil_r.
    1-4: (split; [rewrite take_ge by lia; unfold rec_WriteHeader; by destruct (wroteHdr r)|
      intros [?|?]; [unfold rec_WriteHeader; by destruct (wroteHdr r)|lia]]).
    destruct (rec_Write_cap b r Hm Hl) as [-> ->]. split; [done|].
    intros [->|Hlt]; [done|]. by rewrite (proj2 (Z.ltb_lt _ _) Hlt), orb_true_r. }
  destruct Hstep as [Hb Ho]. destruct (IH (rec_op r o)) as [-> Hov].
  { by rewrite Hx. }
  { rewrite Hx, Hb, length_take. lia. }
  rewrite Hx, Hb, take_app_take, (writes_cons o ops), (assoc (++)). split; [done|].
  intros Hlong. apply Hov. destruct (overflowed r); [left; by apply Ho; left|]. destruct Hlong as [?|Hlong]; [done|].
  destruct (decide (recMaxBody r < Z.of_nat (length (recBuf r ++ writes [o])))%Z) as [Hy|Hn]; [left; apply Ho; by right|].
  right. rewrite Hx, Hb, take_ge by lia. exact Hlong.
Qed.
Lemma finish_wire r p h0 code :
  recStatus r = code → code ≠ 0%Z → informational code = false → recMethod r ≠ MethodHead →
  finish r p (mkNetWriter h0 [] false []) =
  let '(body, h) := finish_body r p in mkNetWriter (h ∪ h0) [(code, h ∪ h0)] true body.
Proof.
  intros Hs Hz Hi Hm. unfold finish. destruct (finish_body r p) as [body h]. rewrite Hs, (proj2 (Z.eqb_neq _ _) Hz).
  rewrite (bool_decide_eq_false_2 (recMethod r = MethodHead)) by done.
  unfold nw_WriteHeader, nw_header. cbn [nwHeader nwSent nwWrote nwBody]. rewrite Hi. cbn [negb andb].
  rewrite andb_true_r. by destruct body.
Qed.

(** The feature is on for the request, with policy [p]. *)
Definition active (f : SanitizeFeature) (snap : snapshotState) (ctx : Context) (p : policy) : Prop :=
  sfEnabled f = true ∧ fsEnabled (Resolve snap ctx FeatureName) = true ∧
  policyFor f ctx = Some p ∧ poEnabled p = true.

Lemma Middleware_active f snap ctx p r ops w :
  active f snap ctx p →
  Middleware f snap ctx r ops w = finish (foldl rec_op (newRecorderWith (Method r) (poMaxBody p)) ops) p w.
Proof. intros (He & Hr & Hp & Hpe). unfold Middleware. by rewrite He, Hr, Hp, Hpe. Qed.

(** C12. A page that a handler writes under an active policy, of a content type
    the policy matches, shorter than a positive max_body_bytes, that the
    tokenizer reads to its end, for a request other than HEAD, and for which nothing but headers is
    set before a final status, is sent with the
    handler's status and headers, without its Content-Length, and its
    body is the page less every element the policy strips (up to its own end
    tag, nested elements of the same name counted, or to the end of the
    document) and less every attribute the policy strips; such a reduction of
    the page exists, and no tag or attribute of the policy is left in it. *)
Theorem sanitize_enforces f snap ctx p r h0 pre o post code ts :
  active f snap ctx p → Method r ≠ MethodHead →
  Forall header_op pre → write_code o = Some code → informational code = false → code ≠ 0%Z →
  let ops := pre ++ o :: post in
  matchesContentType p (mh_get (foldl hop ∅ ops) ContentType) = true → fits (poMaxBody p) (writes ops) →
  html_tokens (writes ops) = (ts, true) →
  (∃ out, Sanitized p ts out) ∧
  ∀ out, Sanitized p ts out →
    let hd := mh_del ContentLength (foldl hop ∅ ops) ∪ h0 in
    Forall (harmless p) out ∧
    Middleware f snap ctx r ops (mkNetWriter h0 [] false []) = mkNetWriter hd [(code, hd)] true (out ≫= print_token).
Proof.
  intros Ha Hm Hpre Hc Hi Hz ops Hct Hfit Hts. split; [apply Sanitized_total|]. intros out Hout. cbv zeta.
  split; [by eapply Sanitized_harmless|]. rewrite (Middleware_active _ _ _ p) by done.
  set (r0 := newRecorderWith _ _). destruct (rec_frame ops r0) as (Hh & Hme & _).
  destruct (rec_fits ops r0 Hfit) as [Hb Ho].
  rewrite (finish_wire _ _ _ code) by (try apply rec_status; try done; by rewrite Hme).
  unfold finish_body, sanitizeHTML. rewrite Hh, Hb, Ho. cbn [recHeader recBuf overflowed newRecorderWith r0 app].
  rewrite Hct, Hts. cbn [andb negb]. by rewrite (Sanitized_loop p ts out).
Qed.

(** A response longer than max_body_bytes is cut: whatever its content
    type, the client gets the handler's headers, Content-Length included, and
    only the first max_body_bytes bytes, although the feature means to pass
    such a response through unchanged. *)
Theorem sanitize_truncates f snap ctx p r h0 pre o post code :
  active f snap ctx p → Method r ≠ MethodHead →
  Forall header_op pre → write_code o = Some code → informational code = false → code ≠ 0%Z →
  let ops := pre ++ o :: post in
  (0 < poMaxBody p < Z.of_nat (length (writes ops)))%Z →
  let hd := foldl hop ∅ ops ∪ h0 in
  Middleware f snap ctx r ops (mkNetWriter h0 [] false [])
  = mkNetWriter hd [(code, hd)] true (take (Z.to_nat (poMaxBody p)) (writes ops)).
Proof.
  intros Ha Hm Hpre Hc Hi Hz ops Hlong hd. rewrite (Middleware_active _ _ _ p) by done.
  set (r0 := newRecorderWith _ _). destruct (rec_frame ops r0) as (Hh & Hme & _).
  destruct (rec_over ops r0) as [Hb Ho]; [cbn; lia|cbn; lia|].
  rewrite (finish_wire _ _ _ code) by (try apply rec_status; try done; by rewrite Hme).
  unfold finish_body. rewrite Hh, Hb, Ho by (right; cbn; lia). by rewrite andb_false_r.
Qed.

(** An interim response the handler sends is the response: the recorder takes
    the first status it is given, an early hint as well, and the status that
    follows is lost. *)
Theorem sanitize_interim_status f snap ctx p r h0 pre code post :
  active f snap ctx p → Forall header_op pre → informational code = true → 
  let w := Middleware f snap ctx r (pre ++ WWriteHeader code :: post) (mkNetWriter h0 [] false []) in
  ∃ hd, head (nwSent w) = Some (code, hd) ∧ Forall (λ s, s.1 ∈ [code; StatusOK]) (nwSent w).
Proof.
  intros Ha Hpre Hi. cbv zeta. rewrite (Middleware_active _ _ _ p) by done. set (r0 := newRecorderWith _ _).
  assert (Hst : recStatus (foldl rec_op r0 (pre ++ WWriteHeader code :: post)) = code) by by apply rec_status.
  assert (Hz : code ≠ 0%Z) by (intros ->; done).
  unfold finish. destruct (finish_body _ p) as [body h]. rewrite Hst, (proj2 (Z.eqb_neq _ _) Hz).
  unfold nw_Write, nw_WriteHeader, nw_header. cbn [nwHeader nwSent nwWrote nwBody]. rewrite Hi. cbn [negb].
  case_match; cbn [nwWrote nwSent app head]; (eexists; split; [done|]); repeat constructor; set_solver.
Qed.
End policies.

(** * Examples *)

#[local] Instance sa_unicode : GoUnicode := {| unicode_lower s := s; unicode_upper s := s; unicode_trim s := s |}.

(** Tags without white space around their one attribute. *)
Definition sa_tag (s : gostring) : token :=
  let raw := $"<" ++ s ++ $">" in
  match s with
  | "/"%char :: n => TEnd n raw
  | _ => match cut_byte " "%char s with
         | None => TStart s [] raw
         | Some (n, a) => TStart n match cut_byte "="%char a with Some (k, v) => [(k, v)] | None => [(a, [])] end raw
         end
  end.

Fixpoint sa_tokens (tag : option gostring) (s : gostring) : list token :=
  match s, tag with
  | [], _ => []
  | "<"%char :: s', None => sa_tokens (Some []) s'
  | ">"%char :: s', Some n => sa_tag n :: sa_tokens None s'
  | c :: s', Some n => sa_tokens (Some (n ++ [c])) s'
  | c :: s', None => TText [c] :: sa_tokens None s'
  end.

#[local] Instance sa_html : HtmlLib := {|
  html_tokens s := (sa_tokens None s, true); EscapeString s := s; media_params_ok _ := true |}.

Definition sa_cfg (max : Z) : FeatureSnapshot := mkFeatureSnapshot true {[ $"max_body_bytes" := JInt max ]} 1.
Definition sa_tenant (max : Z) : TenantSnapshot := mkTenantSnapshot $"a" true {[ FeatureName := sa_cfg max ]}.
Definition sa_feature (max : Z) : SanitizeFeature := Observe ∅ {[ $"a" := sa_tenant max ]} New.
Definition sa_request : Request := mkRequest $"GET" $"/" [] [] $"a" [] ∅ ∅.
Definition sa_policy (max : Z) : policy :=
  mkpolicy true (list_to_set defaultStripTags) defaultStripAttrPatterns defaultContentTypes max.
Definition sa_page : gostring := $"<a onclick=x><form>t<form></form></form>b".
Definition sa_pre : list wop := [WSet ContentType $"text/html"].
Definition sa_hd : mheader := {[ ContentType := [$"text/html"] ]}.

Lemma sa_active (max : Z) :
  max = 100%Z ∨ max = 3%Z → active (sa_feature max) (mkSnapshotState ∅ ∅) (Some (sa_tenant max)) (sa_policy max).
Proof. intros [-> | ->]; split_and!; vm_compute; reflexivity. Qed.

Lemma sanitize_enforces_witness :
  Middleware (sa_feature 100) (mkSnapshotState ∅ ∅) (Some (sa_tenant 100)) sa_request
    (sa_pre ++ WWriteHeader 200 :: [WWrite sa_page]) (mkNetWriter ∅ [] false [])
  = mkNetWriter sa_hd [(200%Z, sa_hd)] true $"<a>b".
Proof.
  destruct (sanitize_enforces (sa_feature 100) (mkSnapshotState ∅ ∅) (Some (sa_tenant 100)) (sa_policy 100) sa_request ∅
    sa_pre (WWriteHeader 200) [WWrite sa_page] 200 (sa_tokens None sa_page) (sa_active 100 (or_introl eq_refl))) as [_ Hall];
    [discriminate|repeat constructor|reflexivity|reflexivity|discriminate|vm_compute; reflexivity|right; vm_compute; reflexivity
    |reflexivity|].
  destruct (Hall [TStart $"a" [] $"<a onclick=x>"; TText $"b"]) as [_ Hm].
  - change (sa_tokens None sa_page) with
      [TStart $"a" [($"onclick", $"x")] $"<a onclick=x>"; TStart $"form" [] $"<form>"; TText $"t"; TStart $"form" [] $"<form>";
       TEnd $"form" $"</form>"; TEnd $"form" $"</form>"; TText $"b"].
    replace (TStart $"a" [] $"<a onclick=x>") with (filtered (sa_policy 100) (TStart $"a" [($"onclick", $"x")] $"<a onclick=x>"))
      by (vm_compute; reflexivity).
    apply san_keep; [vm_compute; reflexivity|].
    apply (san_elem _ (TStart $"form" [] $"<form>") $"form"
      [TText $"t"; TStart $"form" [] $"<form>"; TEnd $"form" $"</form>"] (TEnd $"form" $"</form>") [TText $"b"]);
      try (vm_compute; reflexivity).
    + apply bal_other; [intros []|intros []|].
      apply (bal_nest _ _ [] _ []); [reflexivity|constructor|reflexivity|constructor].
    + apply (san_keep _ (TText $"b")); [reflexivity|constructor].
  - rewrite Hm. vm_compute. reflexivity.
Defined.

Lemma sanitize_truncates_witness :
  Middleware (sa_feature 3) (mkSnapshotState ∅ ∅) (Some (sa_tenant 3)) sa_request
    ([WSet ContentType $"font/woff"; WSet ContentLength $"5"] ++ WWriteHeader 200 :: [WWrite $"abcde"]) (mkNetWriter ∅ [] false [])
  = let hd := {[ ContentType := [$"font/woff"]; ContentLength := [$"5"] ]} in mkNetWriter hd [(200%Z, hd)] true $"abc".
Proof.
  rewrite (sanitize_truncates (sa_feature 3) (mkSnapshotState ∅ ∅) (Some (sa_tenant 3)) (sa_policy 3) sa_request ∅
    [WSet ContentType $"font/woff"; WSet ContentLength $"5"] (WWriteHeader 200) [WWrite $"abcde"] 200 (sa_active 3 (or_intror eq_refl)));
    [vm_compute; reflexivity|discriminate|repeat constructor|reflexivity|reflexivity|discriminate|vm_compute; split; reflexivity].
Defined.
