(* ===== verification/Gateway.v ===== *)
(** The assembled features of the proxy (src/internal/proxy/server.go:
    registerFeatures and the feature part of Shutdown, and the RegisterWith
    helpers of the feature packages): one registry, one instance of every
    feature, and the observers that carry an accepted reload to them.

    The middlewares are the ones of the features' files; here they are a
    parameter, and so are the error messages. Observers are the numbers the
    registry calls, run by [observe]. What the file system answers (the
    databases of GeoIP, the store of the TTL block list) may differ at every
    reload. *)

From S2P Require Import Prelude Float Http Shared Bolt GoStd.
From S2P Require Import RateLimit TtlBlock StaticCache Abuse Headers Blocklist GeoIP Sanitize FeatureRegistry.

Section gateway.
Context `{GoUnicode} `{Blocklist.GoRegexp} {L : Type} `{RateLimit.RateLimiter L}
  {B : Type} `{Bucket B} `{TtlBlock.EntryCodec} `{SortSlice} `{Abuse.AbuseJSON}
  {C : Type} `{StaticCache.Ristretto C} `{GoFloat} (sha256 : gostring → gostring).
Context {A : Type} (mw : gostring → Handler A → Handler A).

(** What the file system answers during a reload. *)
Record Files := mkFiles {
  flStat : gostring → option bool;
  flMmdb : gostring → bool;
  flStore : gostring → gostring → option (@TtlBlock.Store B)
}.

Record featureHandles := mkfeatureHandles {
  fhBlocklist : Blocklist.BlocklistFeature;
  fhRatelimit : @RateLimit.RateFeature L;
  fhRateSweeping : bool;
  fhGeoip : GeoIP.GeoFeature;
  fhReaders : GeoIP.Readers;
  fhTtlblock : @TtlBlock.TtlFeature B;
  fhSanitize : Sanitize.SanitizeFeature;
  fhHeaders : Headers.HeadersFeature;
  fhAbuse : option Abuse.AbuseFeature;
  fhCache : @StaticCache.CacheFeature C
}.

Definition message {E} (validate : FeatureSnapshot → option E) (c : FeatureSnapshot) : option gostring :=
  (λ _, $"invalid") <$> validate c.

Definition the_feature {E} (name : gostring) (validate : FeatureSnapshot → option E) : @Feature A :=
  mkFeature name (Some (mw name)) (message validate).

Definition geo_feature (fs : Files) : @Feature A :=
  the_feature GeoIP.FeatureName (GeoIP.Validate (flStat fs) GeoIP.New).

(** Register and AddReloadObserver of one feature; None is a panic. *)
Definition register (f : @Feature A) (obs : nat) (r : @Registry A) : option (@Registry A) :=
  AddReloadObserver (Name f) obs <$> Register f r.

Definition obs_blocklist : nat := 0.
Definition obs_ratelimit : nat := 1.
Definition obs_geoip : nat := 2.
Definition obs_ttlblock : nat := 3.
Definition obs_sanitize : nat := 4.
Definition obs_headers : nat := 5.
Definition obs_abuse : nat := 6.
Definition obs_cache : nat := 7.

(** The features as constructed, the sweepers of the limiter and the block list
    started. *)
Definition new_handles (abuse : option Abuse.AbuseFeature) : featureHandles :=
  mkfeatureHandles Blocklist.New RateLimit.NewFeature true GeoIP.New (GeoIP.mkReaders 0 [])
    (TtlBlock.Start TtlBlock.NewFeature) Sanitize.New Headers.New abuse StaticCache.New.

(** registerFeatures. [rnd] is the salt abuse.New draws, None when crypto/rand
    fails; the store path it gets is empty, so no store is opened. *)
Definition registerFeatures (fs : Files) (rnd : option gostring) (reg : @Registry A)
    : option (@Registry A * featureHandles) :=
  reg ← register (the_feature Blocklist.FeatureName Blocklist.Validate) obs_blocklist reg;
  reg ← register (the_feature RateLimit.FeatureName RateLimit.Validate) obs_ratelimit reg;
  reg ← register (geo_feature fs) obs_geoip reg;
  reg ← register (the_feature TtlBlock.FeatureName TtlBlock.Validate) obs_ttlblock reg;
  reg ← register (the_feature Sanitize.FeatureName Sanitize.Validate) obs_sanitize reg;
  reg ← register (the_feature Headers.FeatureName Headers.Validate) obs_headers reg;
  let abuse := Abuse.New rnd (Ok None) in
  reg ← (if abuse is Some _ then register (the_feature Abuse.FeatureName Abuse.Validate) obs_abuse reg else Some reg);
  reg ← register (the_feature StaticCache.FeatureName StaticCache.Validate) obs_cache reg;
  Some (reg, new_handles abuse).

(** One observer call, after the registry has published the new snapshot. *)
Definition observe (fs : Files) (reg : @Registry A) (h : featureHandles) (call : nat * FeatureSnapshot) : featureHandles :=
  let '(obs, snap) := call in
  let '(mkfeatureHandles bl rl sw ge rd tb sa hd ab ca) := h in
  if Nat.eqb obs obs_blocklist then
    mkfeatureHandles (Blocklist.Observe (Globals reg) (Tenants reg) bl) rl sw ge rd tb sa hd ab ca
  else if Nat.eqb obs obs_ratelimit then
    mkfeatureHandles bl (RateLimit.ApplyFromSnapshots (Tenants reg) (RateLimit.Observe snap rl)) sw ge rd tb sa hd ab ca
  else if Nat.eqb obs obs_geoip then
    let '(ge', rd') := GeoIP.Observe (flMmdb fs) snap (GeoIP.tenant_snapshots (Tenants reg)) ge rd in
    mkfeatureHandles bl rl sw ge' rd' tb sa hd ab ca
  else if Nat.eqb obs obs_ttlblock then
    mkfeatureHandles bl rl sw ge rd
      (TtlBlock.RegisterTenants (Tenants reg) (TtlBlock.Observe (flStore fs) snap tb).1) sa hd ab ca
  else if Nat.eqb obs obs_sanitize then
    mkfeatureHandles bl rl sw ge rd tb (Sanitize.Observe (Globals reg) (Tenants reg) sa) hd ab ca
  else if Nat.eqb obs obs_headers then
    mkfeatureHandles bl rl sw ge rd tb sa (Headers.Observe (Globals reg) (Tenants reg) hd) ab ca
  else if Nat.eqb obs obs_abuse then
    mkfeatureHandles bl rl sw ge rd tb sa hd (Abuse.Observe (Globals reg) (Tenants reg) <$> ab) ca
  else if Nat.eqb obs obs_cache then
    mkfeatureHandles bl rl sw ge rd tb sa hd ab (StaticCache.Observe (Globals reg) (Tenants reg) ca)
  else h.

(** GeoIP's Validate consults the files of the moment. *)
Definition seeing (fs : Files) (reg : @Registry A) : @Registry A :=
  mkRegistry (order reg) (<[GeoIP.FeatureName := geo_feature fs]> (features reg)) (observers reg) (current reg).

(** A reload of the assembled server: whether it is accepted. *)
Definition gateway_reload (fs : Files) (g : GlobalsSnapshot) (ts : gmap gostring TenantSnapshot)
    (st : @Registry A * featureHandles) : @Registry A * featureHandles * bool :=
  let '(reg', r) := Reload g ts (seeing fs st.1) in
  match r with
  | inl _ => ((reg', st.2), false)
  | inr calls => ((reg', foldl (observe fs reg') st.2 calls), true)
  end.

(** The feature part of Shutdown. *)
Definition Shutdown (h : featureHandles) : featureHandles :=
  let '(mkfeatureHandles bl rl sw ge rd tb sa hd ab ca) := h in
  let tb := (TtlBlock.SetStore None (TtlBlock.Stop tb)).1 in
  let ab := Abuse.CloseFeature <$> ab in
  let '(ge, rd) := GeoIP.Close ge rd in
  mkfeatureHandles bl rl false ge rd tb sa hd ab ca.

(** * Histories *)

(** What happens between reloads, as far as it changes a feature: requests in
    the limiter, its sweeper, the sweeper of the block list, abuse reports and
    requests in the cache. *)
Inductive traffic :=
| TRate (now : time) (hijack : bool) (cancelled : option duration) (ctx : Context) (r : Request)
| TRateDone (now : time) (host : gostring) (r : Request)
| TRateSweep (now : time)
| TTtlTick (now : time) (commit : bool)
| TAbuse (ctx : Context) (now now2 now3 : time) (io : option nat) (w : mheader) (r : Request) (body : Abuse.InBody)
| TCache (ctx : Context) (r : Request) (w : mheader) (up : list wop).

Definition handle_traffic (snap : snapshotState) (t : traffic) (h : featureHandles) : featureHandles :=
  let '(mkfeatureHandles bl rl sw ge rd tb sa hd ab ca) := h in
  match t with
  | TRate now hijack cancelled ctx r =>
      mkfeatureHandles bl (RateLimit.Middleware rl now hijack cancelled ctx r).1 sw ge rd tb sa hd ab ca
  | TRateDone now host r =>
      let rl' := match RateLimit.stateFor rl host with
                 | Some st => RateLimit.with_state host (RateLimit.serve_leave now r st) rl
                 | None => rl
                 end in
      mkfeatureHandles bl rl' sw ge rd tb sa hd ab ca
  | TRateSweep now => mkfeatureHandles bl (RateLimit.sweepAllTenants now rl) sw ge rd tb sa hd ab ca
  | TTtlTick now commit => mkfeatureHandles bl rl sw ge rd (TtlBlock.sweep_tick now commit tb) sa hd ab ca
  | TAbuse ctx now now2 now3 io w r body =>
      mkfeatureHandles bl rl sw ge rd tb sa hd
        ((λ f, (Abuse.Middleware sha256 f snap ctx now now2 now3 io w r body).2) <$> ab) ca
  | TCache ctx r w up => mkfeatureHandles bl rl sw ge rd tb sa hd ab (StaticCache.Middleware sha256 ca snap ctx r w up).2
  end.

(** The states of a server, with the snapshots of the last accepted reload. *)
Inductive reachable :
    @Registry A * featureHandles → option (GlobalsSnapshot * gmap gostring TenantSnapshot) → Prop :=
| gw_new fs rnd st : registerFeatures fs rnd NewRegistry = Some st → reachable st None
| gw_accepted fs g ts st st' last :
    reachable st last → gateway_reload fs g ts st = (st', true) → reachable st' (Some (g, ts))
| gw_rejected fs g ts st st' last :
    reachable st last → gateway_reload fs g ts st = (st', false) → reachable st' last
| gw_traffic t reg h last :
    reachable (reg, h) last → reachable (reg, handle_traffic (current reg) t h) last.

(** * The assembled registry *)

(** The features in the order of registration with their observers. *)
Definition entries (fs : Files) (abuse : bool) : list (@Feature A * nat) :=
  [(the_feature Blocklist.FeatureName Blocklist.Validate, obs_blocklist);
   (the_feature RateLimit.FeatureName RateLimit.Validate, obs_ratelimit);
   (geo_feature fs, obs_geoip);
   (the_feature TtlBlock.FeatureName TtlBlock.Validate, obs_ttlblock);
   (the_feature Sanitize.FeatureName Sanitize.Validate, obs_sanitize);
   (the_feature Headers.FeatureName Headers.Validate, obs_headers)] ++
  (if abuse then [(the_feature Abuse.FeatureName Abuse.Validate, obs_abuse)] else []) ++
  [(the_feature StaticCache.FeatureName StaticCache.Validate, obs_cache)].

Definition names (abuse : bool) : list gostring :=
  [$"blocklist_regex"; $"rate_limit"; $"geoip"; $"ttl_blocklist"; $"content_sanitizer"; $"proxy_headers"] ++
  (if abuse then [$"abuse_api"] else []) ++ [$"static_cache"].

Lemma entries_names fs abuse : (λ fn, Name fn.1) <$> entries fs abuse = names abuse.
Proof. by destruct abuse. Qed.

Lemma names_NoDup abuse : NoDup (names abuse).
Proof. destruct abuse; apply (bool_decide_unpack _); vm_compute; exact I. Qed.

Definition lists (reg : @Registry A) (l : list (@Feature A * nat)) : Prop :=
  order reg = (λ fn, Name fn.1) <$> l ∧
  (∀ fn, fn ∈ l → features reg !! Name fn.1 = Some fn.1 ∧ observers reg !! Name fn.1 = Some [fn.2]) ∧
  (∀ k, k ∉ order reg → features reg !! k = None ∧ observers reg !! k = None).

Lemma register_lists reg l f n :
  lists reg l → Name f ≠ [] → Name f ∉ (λ fn, Name fn.1) <$> l →
  ∃ reg', register f n reg = Some reg' ∧ lists reg' (l ++ [(f, n)]) ∧ current reg' = current reg.
Proof.
  intros (Ho & Hl & Hr) Hne Hni. unfold register, Register. rewrite decide_False by done.
  destruct (Hr (Name f)) as [Hf Hobs]; [by rewrite Ho|]. rewrite Hf. cbn [fmap option_fmap option_map].
  eexists. split; [done|]. unfold AddReloadObserver. cbn [order features observers current]. split; [|done].
  split_and!.
  - cbn. by rewrite Ho, fmap_app.
  - intros fn [Hin|Hin%list_elem_of_singleton]%elem_of_app; cbn [features observers].
    + assert (Name f ≠ Name fn.1) by (intros Heq; apply Hni, list_elem_of_fmap; by exists fn).
      rewrite !lookup_insert_ne by done. by apply Hl.
    + subst fn. cbn. by rewrite !lookup_insert_eq, Hobs.
  - cbn [order features observers]. intros k Hk. rewrite elem_of_app, list_elem_of_singleton in Hk.
    rewrite !lookup_insert_ne by naive_solver. apply Hr. tauto.
Qed.

Lemma NewRegistry_lists : lists NewRegistry [].
Proof. split_and!; [done|intros fn Hin; by apply not_elem_of_nil in Hin|done]. Qed.

Ltac register_next Hl :=
  let reg := fresh "reg" in let Hr := fresh "Hr" in let Hc := fresh "Hc" in
  match goal with
  | |- context [register ?f ?n ?r] =>
      destruct (register_lists r _ f n Hl) as (reg & Hr & Hl' & Hc);
      [done|apply (bool_decide_unpack _); vm_compute; exact I|];
      rewrite Hr; clear Hl Hr; rename Hl' into Hl; cbn [mbind option_bind app] in Hl |- *
  end.

Lemma registerFeatures_lists fs rnd :
  ∃ reg, registerFeatures fs rnd NewRegistry = Some (reg, new_handles (Abuse.New rnd (Ok None))) ∧
    lists reg (entries fs (bool_decide (is_Some (Abuse.New rnd (Ok None))))) ∧ current reg = mkSnapshotState ∅ ∅.
Proof.
  unfold registerFeatures. assert (Hl := NewRegistry_lists).
  assert (Hcur : current (@NewRegistry A) = mkSnapshotState ∅ ∅) by done.
  do 6 register_next Hl. destruct (Abuse.New rnd (Ok None)) as [ab|] eqn:Hab.
  - do 2 register_next Hl. eexists. split; [done|]. rewrite bool_decide_eq_true_2 by eauto.
    split; [exact Hl|congruence].
  - cbn [mbind option_bind]. register_next Hl. eexists. split; [done|].
    rewrite bool_decide_eq_false_2 by (by intros []). split; [exact Hl|congruence].
Qed.

(** What every feature of the list accepted. *)
Definition accepted_by (l : list (@Feature A * nat)) (g : GlobalsSnapshot) (ts : gmap gostring TenantSnapshot) : Prop :=
  Forall (λ fn, Validate fn.1 (default FeatureSnapshot_zero (g !! Name fn.1)) = None ∧
                map_Forall (λ _ t, Validate fn.1 (effective g t (Name fn.1)) = None) ts) l.

Lemma validate_feature_nil (f : @Feature A) name g ts :
  validate_feature f name g ts = [] →
  Validate f (default FeatureSnapshot_zero (g !! name)) = None ∧
  map_Forall (λ _ t, Validate f (effective g t name) = None) ts.
Proof.
  unfold validate_feature. intros [Hg Ht]%app_eq_nil. split; [by destruct (Validate f _)|].
  intros h t Hh. destruct (Validate f (effective g t name)) as [e|] eqn:He; [|done].
  assert (Hin : ErrTenant name h e ∈ omap (λ ht, ErrTenant name ht.1 <$> Validate f (effective g ht.2 name)) (map_to_list ts)).
  { apply list_elem_of_omap. exists (h, t). split; [by apply elem_of_map_to_list|]. cbn. by rewrite He. }
  rewrite Ht in Hin. by apply not_elem_of_nil in Hin.
Qed.

Lemma bind_names {X} (g' : gostring → list X) (l : list (@Feature A * nat)) (k : @Feature A * nat → list X) :
  (∀ fn, fn ∈ l → g' (Name fn.1) = k fn) → ((λ fn, Name fn.1) <$> l) ≫= g' = l ≫= k.
Proof.
  induction l as [|fn l IH]; intros Hk; [done|]. cbn. rewrite Hk, IH by set_solver. done.
Qed.

Lemma bind_nil {X Y} (l : list X) (k : X → list Y) : l ≫= k = [] → ∀ x, x ∈ l → k x = [].
Proof. induction l as [|y l IH]; cbn; [set_solver|]. intros [? ?]%app_eq_nil x [->|?]%elem_of_cons; auto. Qed.

Lemma Reload_lists reg l g ts :
  lists reg l →
  match Reload g ts reg with
  | (reg', inl _) => reg' = reg
  | (reg', inr calls) =>
      lists reg' l ∧ current reg' = mkSnapshotState g ts ∧ accepted_by l g ts ∧
      calls = (λ fn, (fn.2, default FeatureSnapshot_zero (g !! Name fn.1))) <$> l
  end.
Proof.
  intros (Ho & Hl & Hr). unfold Reload. destruct (validate_all reg g ts) eqn:Hv; [|done].
  split_and!; [by split_and!|done| |].
  - apply Forall_forall. intros fn Hfn. apply validate_feature_nil.
    unfold validate_all in Hv. rewrite Ho in Hv. destruct (Hl fn Hfn) as [Hf _].
    assert (Hx := bind_nil _ _ Hv (Name fn.1) ltac:(apply list_elem_of_fmap; eauto)). cbn in Hx. by rewrite Hf in Hx.
  - rewrite Ho. rewrite (bind_names _ l (λ fn, [(fn.2, default FeatureSnapshot_zero (g !! Name fn.1))])).
    + by induction l; cbn; f_equal.
    + intros fn Hfn. destruct (Hl fn Hfn) as [_ ->]. done.
Qed.

Lemma seeing_lists fs fs' abuse reg : lists reg (entries fs abuse) → lists (seeing fs' reg) (entries fs' abuse).
Proof.
  intros (Ho & Hl & Hr).
  assert (Hgeo : GeoIP.FeatureName ∈ order reg).
  { rewrite Ho, entries_names. apply (bool_decide_unpack _). by destruct abuse; vm_compute. }
  unfold seeing. split_and!; cbn [order features observers].
  - by rewrite Ho, !entries_names.
  - intros fn Hfn. destruct (decide (Name fn.1 = GeoIP.FeatureName)) as [Hn|Hn].
    + assert (fn = (geo_feature fs', obs_geoip)) as ->.
      { unfold entries in Hfn. destruct abuse; cbn [app] in Hfn;
          repeat (apply elem_of_cons in Hfn as [->|Hfn]; [first [done|by vm_compute in Hn]|]); by apply not_elem_of_nil in Hfn. }
      cbn. rewrite lookup_insert_eq. split; [done|]. apply (Hl (geo_feature fs, obs_geoip)).
      unfold entries. destruct abuse; set_solver.
    + rewrite lookup_insert_ne by done. apply Hl. unfold entries in *. destruct abuse; cbn [app] in *;
        rewrite !elem_of_cons in *; naive_solver.
  - intros k Hk. rewrite lookup_insert_ne by (intros <-; done). by apply Hr.
Qed.

(** One accepted reload in terms of the features. *)
Lemma gateway_reload_lists fs0 fs g ts reg h st' :
  lists reg (entries fs0 (bool_decide (is_Some (fhAbuse h)))) →
  gateway_reload fs g ts (reg, h) = (st', true) →
  let '(mkfeatureHandles bl rl sw ge rd tb sa hd ab ca) := h in
  let gl name := default FeatureSnapshot_zero (g !! name) in
  let '(ge', rd') := GeoIP.Observe (flMmdb fs) (gl GeoIP.FeatureName) (GeoIP.tenant_snapshots ts) ge rd in
  lists st'.1 (entries fs (bool_decide (is_Some ab))) ∧ current st'.1 = mkSnapshotState g ts ∧
  accepted_by (entries fs (bool_decide (is_Some ab))) g ts ∧
  st'.2 = mkfeatureHandles (Blocklist.Observe g ts bl)
    (RateLimit.ApplyFromSnapshots ts (RateLimit.Observe (gl RateLimit.FeatureName) rl)) sw ge' rd'
    (TtlBlock.RegisterTenants ts (TtlBlock.Observe (flStore fs) (gl TtlBlock.FeatureName) tb).1)
    (Sanitize.Observe g ts sa) (Headers.Observe g ts hd) (Abuse.Observe g ts <$> ab) (StaticCache.Observe g ts ca).
Proof.
  intros Hl. destruct h as [bl rl sw ge rd tb sa hd ab ca]. cbn [fhAbuse] in Hl. cbv zeta.
  destruct (GeoIP.Observe _ _ _ ge rd) as [ge' rd'] eqn:Hgeo.
  unfold gateway_reload. cbn [fst snd]. apply (seeing_lists _ fs) in Hl.
  assert (Hre := Reload_lists _ _ g ts Hl). destruct (Reload g ts (seeing fs reg)) as [reg' [?|calls]]; [done|].
  destruct Hre as (Hl' & Hcur & Hacc & ->). intros Heq. assert (st' = _) as -> by (apply (f_equal fst) in Heq; exact (eq_sym Heq)).
  cbn [fst snd]. split_and!; [done|done|done|].
  assert (Hg : Globals reg' = g) by (unfold Globals; by rewrite Hcur).
  assert (Ht : Tenants reg' = ts) by (unfold Tenants; by rewrite Hcur).
  destruct ab as [ab|].
  - rewrite bool_decide_eq_true_2 by eauto. unfold entries.
    cbn [app fmap list_fmap foldl fst snd Name the_feature geo_feature observe Nat.eqb obs_blocklist obs_ratelimit obs_geoip
      obs_ttlblock obs_sanitize obs_headers obs_abuse obs_cache]. rewrite Hg, Ht, Hgeo. done.
  - rewrite bool_decide_eq_false_2 by (by intros []). unfold entries.
    cbn [app fmap list_fmap foldl fst snd Name the_feature geo_feature observe Nat.eqb obs_blocklist obs_ratelimit obs_geoip
      obs_ttlblock obs_sanitize obs_headers obs_abuse obs_cache]. rewrite Hg, Ht, Hgeo. done.
Qed.

(** * What holds in every reachable state *)

Lemma abuse_storeless (f : Abuse.AbuseFeature) snap ctx now now2 now3 io w r body :
  Abuse.afStore f = None →
  let res := Abuse.Middleware sha256 f snap ctx now now2 now3 io w r body in
  Abuse.afStore res.2 = None ∧ Abuse.afEnabled res.2 = Abuse.afEnabled f ∧ Abuse.tenantCfg res.2 = Abuse.tenantCfg f ∧
  ∀ resp, res.1 = Some resp → mStatus resp ≠ StatusNoContent.
Proof.
  intros Hs. unfold Abuse.Middleware. cbv zeta.
  destruct (Abuse.afEnabled f) eqn:Hen; cbn [negb]; [|done].
  destruct (fsEnabled _); cbn [negb]; [|done]. destruct (Abuse.parseParams _) as [p|]; [|done].
  destruct (Abuse.paEnabled p); cbn [negb]; [|done]. destruct (bool_decide (Path r = _)); cbn [negb]; [|done].
  unfold Abuse.handle. destruct (bool_decide (Method r = _)); cbn [negb].
  2: { cbn. rewrite Hen. split_and!; try done. by intros resp [= <-]. }
  destruct (Abuse.check _ _ _ _ _) as [[allowed retry] l]. destruct allowed; cbn [negb].
  2: { cbn. rewrite Hen. split_and!; try done. by intros resp [= <-]. }
  unfold Abuse.accept, Abuse.with_limiter. cbn [Abuse.afStore]. rewrite Hs.
  destruct (Abuse.read_limited _ _); [|cbn; split_and!; try done; by intros resp [= <-]].
  destruct (Z.ltb _ _); [cbn; split_and!; try done; by intros resp [= <-]|].
  destruct (Abuse.report_unmarshal _); [|cbn; split_and!; try done; by intros resp [= <-]].
  destruct (Abuse.validateReport _ _); cbn; (split_and!; try done; by intros resp [= <-]).
Qed.

(** The limiter and the block list as the snapshots alone would make them. *)
Definition fresh_rate (g : GlobalsSnapshot) (ts : gmap gostring TenantSnapshot) : @RateLimit.RateFeature L :=
  RateLimit.ApplyFromSnapshots ts
    (RateLimit.Observe (default FeatureSnapshot_zero (g !! RateLimit.FeatureName)) RateLimit.NewFeature).

Definition fresh_ttl (g : GlobalsSnapshot) (ts : gmap gostring TenantSnapshot) : @TtlBlock.TtlFeature B :=
  TtlBlock.RegisterTenants ts
    (TtlBlock.Observe (λ _ _, None) (default FeatureSnapshot_zero (g !! TtlBlock.FeatureName)) TtlBlock.NewFeature).1.

(** The features run with the configuration of these snapshots: the block
    rules, the sanitizer and the header rules are those of a new feature that
    saw only them, and so are the switch, defaults, sweep interval and tenant
    parameters of the limiter and the switch and parameters of the block list,
    which holds no store while it is off; GeoIP is what its observer made of
    them; so are the switch and settings of the abuse feature; and the cache
    has their parameters and is on when they enable it anywhere and a cache
    could be built. *)
Record configured (g : GlobalsSnapshot) (ts : gmap gostring TenantSnapshot) (h : featureHandles) : Prop := {
  cf_blocklist : fhBlocklist h = Blocklist.Observe g ts Blocklist.New;
  cf_sanitize : fhSanitize h = Sanitize.Observe g ts Sanitize.New;
  cf_headers : fhHeaders h = Headers.Observe g ts Headers.New;
  cf_rate_on : RateLimit.rfEnabled (fhRatelimit h) = RateLimit.rfEnabled (fresh_rate g ts) ∧
    RateLimit.globalDefault (fhRatelimit h) = RateLimit.globalDefault (fresh_rate g ts) ∧
    RateLimit.sweepInterval (fhRatelimit h) = RateLimit.sweepInterval (fresh_rate g ts);
  cf_rate : RateLimit.cfg <$> RateLimit.tenantBuckets (fhRatelimit h)
            = RateLimit.cfg <$> RateLimit.tenantBuckets (fresh_rate g ts);
  cf_geo : ∃ fs f0 w0, fhGeoip h = (GeoIP.Observe (flMmdb fs) (default FeatureSnapshot_zero (g !! GeoIP.FeatureName))
                                     (GeoIP.tenant_snapshots ts) f0 w0).1;
  cf_ttl : TtlBlock.fEnabled (fhTtlblock h) = TtlBlock.fEnabled (fresh_ttl g ts) ∧
    TtlBlock.globalCfg (fhTtlblock h) = TtlBlock.globalCfg (fresh_ttl g ts) ∧
    TtlBlock.tenantCfg (fhTtlblock h) = TtlBlock.tenantCfg (fresh_ttl g ts);
  cf_ttl_store : TtlBlock.fEnabled (fhTtlblock h) = false → TtlBlock.fStore (fhTtlblock h) = None;
  cf_abuse : ∀ ab, fhAbuse h = Some ab →
    Abuse.afEnabled ab = Abuse.afEnabled (Abuse.Observe g ts ab) ∧
    Abuse.tenantCfg ab = Abuse.tenantCfg (Abuse.Observe g ts ab);
  cf_cache : ∀ p, StaticCache.parseParams (default FeatureSnapshot_zero (g !! StaticCache.FeatureName)) = Ok p →
    StaticCache.cfParams (fhCache h) = Some p ∧
    StaticCache.cfEnabled (fhCache h)
    = (StaticCache.anyEnabled g ts && bool_decide (is_Some (StaticCache.cfCache (fhCache h))))%bool
}.

(** The parts no reload touches: background work runs, every database reader
    is accounted for, and the abuse log has no store. *)
Record background (h : featureHandles) : Prop := {
  bg_rate : fhRateSweeping h = true;
  bg_ttl : TtlBlock.sweeper (fhTtlblock h) = Some TtlBlock.defaultSweepInterval;
  bg_geo : GeoIP.readers_inv (fhGeoip h) (fhReaders h);
  bg_lookups : GeoIP.testLookups (fhGeoip h) = ∅;
  bg_abuse : ∀ ab, fhAbuse h = Some ab → Abuse.afStore ab = None
}.

Lemma fmap_insert_same {X Y} (f : X → Y) (m : gmap gostring X) k x x' :
  m !! k = Some x → f x' = f x → f <$> <[k := x']> m = f <$> m.
Proof. intros Hk He. rewrite fmap_insert, He. apply insert_id. by rewrite lookup_fmap, Hk. Qed.

Lemma rate_traffic_cfg (rl : @RateLimit.RateFeature L) now hijack cancelled ctx r :
  let rl' := (RateLimit.Middleware rl now hijack cancelled ctx r).1 in
  (RateLimit.rfEnabled rl' = RateLimit.rfEnabled rl ∧ RateLimit.globalDefault rl' = RateLimit.globalDefault rl ∧
   RateLimit.sweepInterval rl' = RateLimit.sweepInterval rl) ∧
  RateLimit.cfg <$> RateLimit.tenantBuckets rl' = RateLimit.cfg <$> RateLimit.tenantBuckets rl.
Proof.
  unfold RateLimit.Middleware, RateLimit.limited, RateLimit.stateFor.
  destruct (RateLimit.rfEnabled rl) eqn:He; cbn [negb]; [|done]. destruct (TenantFromContext ctx) as [t|]; [|done].
  destruct (RateLimit.tenantBuckets rl !! tsHost t) as [st|] eqn:Ht; [|done]. cbn [fmap option_fmap option_map].
  pose proof (RateLimit.traffic_cfg st (RateLimit.Arrive now r)) as Hc. cbn [RateLimit.traffic_step] in Hc. destruct (RateLimit.serve_enter now r st) as [st' ok]. cbn [fst] in *.
  split; [done|]. cbn [RateLimit.with_state RateLimit.tenantBuckets]. by apply (fmap_insert_same _ _ _ st).
Qed.

Lemma rate_done_cfg (rl : @RateLimit.RateFeature L) now host r :
  let rl' := match RateLimit.stateFor rl host with
             | Some st => RateLimit.with_state host (RateLimit.serve_leave now r st) rl
             | None => rl
             end in
  (RateLimit.rfEnabled rl' = RateLimit.rfEnabled rl ∧ RateLimit.globalDefault rl' = RateLimit.globalDefault rl ∧
   RateLimit.sweepInterval rl' = RateLimit.sweepInterval rl) ∧
  RateLimit.cfg <$> RateLimit.tenantBuckets rl' = RateLimit.cfg <$> RateLimit.tenantBuckets rl.
Proof.
  unfold RateLimit.stateFor. destruct (RateLimit.tenantBuckets rl !! host) as [st|] eqn:Ht; [|done]. split; [done|].
  apply (fmap_insert_same _ _ _ st); [done|]. exact (RateLimit.traffic_cfg st (RateLimit.Depart now r false)).
Qed.

Lemma rate_sweep_cfg (rl : @RateLimit.RateFeature L) now :
  RateLimit.cfg <$> RateLimit.tenantBuckets (RateLimit.sweepAllTenants now rl) = RateLimit.cfg <$> RateLimit.tenantBuckets rl.
Proof. cbn. rewrite <- map_fmap_compose. by apply map_fmap_ext. Qed.

Lemma cache_traffic_params (f : @StaticCache.CacheFeature C) snap ctx r w up :
  let f' := (StaticCache.Middleware sha256 f snap ctx r w up).2 in
  StaticCache.cfParams f' = StaticCache.cfParams f ∧ StaticCache.cfEnabled f' = StaticCache.cfEnabled f ∧
  bool_decide (is_Some (StaticCache.cfCache f')) = bool_decide (is_Some (StaticCache.cfCache f)).
Proof.
  unfold StaticCache.Middleware. destruct (StaticCache.admitted sha256 f snap ctx r) as [[[p c] key]|] eqn:Ha; [|done].
  destruct (StaticCache.rc_get c key); [done|]. destruct (StaticCache.fetch _ _ _ _ _) as [[res ran] c'].
  unfold StaticCache.admitted in Ha. repeat (case_match; try done).
Qed.

Lemma traffic_background snap t h : background h → background (handle_traffic snap t h).
Proof.
  destruct h as [bl rl sw ge rd tb sa hd ab ca]. intros [K1 K2 K3 K4 K5].
  destruct t; (split; [exact K1|exact K2|exact K3|exact K4|]); cbn [handle_traffic fhAbuse] in *; try exact K5.
  intros f' Hf'. apply fmap_Some in Hf' as (f & Hf & ->). by apply abuse_storeless, K5.
Qed.

Lemma traffic_configured snap t g ts h : background h → configured g ts h → configured g ts (handle_traffic snap t h).
Proof.
  destruct h as [bl rl sw ge rd tb sa hd ab ca]. intros Hbg [K1 K2 K3 K4 K5 K6 K7 K8 K10 K11].
  cbn [fhBlocklist fhSanitize fhHeaders fhRatelimit fhGeoip fhTtlblock fhAbuse fhCache] in *.
  destruct t; split; cbn [handle_traffic fhBlocklist fhSanitize fhHeaders fhRatelimit fhGeoip fhTtlblock fhAbuse fhCache];
    try assumption; try done.
  - destruct K4 as (<- & <- & <-). apply rate_traffic_cfg.
  - rewrite <- K5. apply rate_traffic_cfg.
  - destruct K4 as (<- & <- & <-). apply rate_done_cfg.
  - rewrite <- K5. apply rate_done_cfg.
  - rewrite <- K5. apply rate_sweep_cfg.
  - intros Hoff. cbn [TtlBlock.sweep_tick TtlBlock.fStore]. by rewrite K8.
  - intros f' Hf'. apply fmap_Some in Hf' as (f & Hf & ->).
    destruct (abuse_storeless f snap ctx now now2 now3 io w r body (bg_abuse _ Hbg f Hf)) as (_ & -> & -> & _).
    destruct (K10 f Hf) as [-> ->]. done.
  - intros p Hp. destruct (cache_traffic_params ca snap ctx r w up) as (-> & -> & ->). by apply K11.
Qed.

Lemma geo_observe_tests ok g ts f w : GeoIP.testLookups (GeoIP.Observe ok g ts f w).1 = GeoIP.testLookups f.
Proof. unfold GeoIP.Observe. destruct (foldl _ _ _) as [rs1 w1]. by destruct (GeoIP.drop_unused _ _). Qed.

Lemma ttl_observe_cfg os snap (f : @TtlBlock.TtlFeature B) :
  let f' := (TtlBlock.Observe os snap f).1 in
  TtlBlock.fEnabled f' = fsEnabled snap ∧ TtlBlock.globalCfg f' = TtlBlock.parseParams (fsParams snap) ∧
  TtlBlock.sweeper f' = TtlBlock.sweeper f ∧ (fsEnabled snap = false → TtlBlock.fStore f' = None).
Proof.
  unfold TtlBlock.Observe. destruct (fsEnabled snap); cbn [negb]; [|done].
  destruct (bool_decide _); [|done]. by destruct (os _ _).
Qed.

Lemma reload_keeps fs0 fs g ts reg h st' :
  lists reg (entries fs0 (bool_decide (is_Some (fhAbuse h)))) → background h →
  gateway_reload fs g ts (reg, h) = (st', true) →
  lists st'.1 (entries fs (bool_decide (is_Some (fhAbuse st'.2)))) ∧
  background st'.2 ∧ current st'.1 = mkSnapshotState g ts ∧
  accepted_by (entries fs (bool_decide (is_Some (fhAbuse st'.2)))) g ts ∧ configured g ts st'.2.
Proof.
  intros Hl Hbg Hre. pose proof (gateway_reload_lists _ _ _ _ _ _ _ Hl Hre) as Hst. clear Hre.
  destruct h as [bl rl sw ge rd tb sa hd ab ca], Hbg as [K1 K2 K3 K4 K5].
  cbn [fhRateSweeping fhTtlblock fhGeoip fhReaders fhAbuse] in *. cbv zeta in Hst.
  pose proof (GeoIP.geo_step_inv (ge, rd) (GeoIP.OObserve (flMmdb fs) (default FeatureSnapshot_zero (g !! GeoIP.FeatureName)) (GeoIP.tenant_snapshots ts)) K3) as Hinv.
  pose proof (geo_observe_tests (flMmdb fs) (default FeatureSnapshot_zero (g !! GeoIP.FeatureName)) (GeoIP.tenant_snapshots ts) ge rd) as Htests.
  cbn [GeoIP.geo_step fst snd] in Hinv.
  destruct (GeoIP.Observe _ _ _ ge rd) as [ge' rd'] eqn:Hgeo. destruct Hst as (Hl' & Hcur & Hacc & Hh).
  pose proof (ttl_observe_cfg (flStore fs) (default FeatureSnapshot_zero (g !! TtlBlock.FeatureName)) tb) as (Ht1 & Ht2 & Ht3 & Ht4).
  destruct st' as [reg' h']. cbn [fst snd] in *. subst h'. cbn [fhAbuse] in *.
  replace (bool_decide (is_Some (Abuse.Observe g ts <$> ab))) with (bool_decide (is_Some ab))
    by (by destruct ab).
  split_and!; [done| |done|done|].
  - split; cbn [fhRateSweeping fhTtlblock fhGeoip fhReaders fhAbuse]; [done| |done|congruence|].
    + unfold TtlBlock.RegisterTenants. cbn [TtlBlock.sweeper]. congruence.
    + intros f' Hf'. apply fmap_Some in Hf' as (f & Hf & ->). exact (K5 f Hf).
  - split; cbn [fhBlocklist fhSanitize fhHeaders fhRatelimit fhGeoip fhTtlblock fhAbuse fhCache]; try done.
    + exists fs, ge, rd. by rewrite Hgeo.
    + destruct (ttl_observe_cfg (λ _ _, None) (default FeatureSnapshot_zero (g !! TtlBlock.FeatureName)) TtlBlock.NewFeature)
        as (Hf1 & Hf2 & _).
      unfold fresh_ttl, TtlBlock.RegisterTenants. cbn [TtlBlock.fEnabled TtlBlock.globalCfg TtlBlock.tenantCfg].
      by rewrite Ht1, Ht2, Hf1, Hf2.
    + unfold TtlBlock.RegisterTenants. cbn [TtlBlock.fEnabled TtlBlock.fStore]. rewrite Ht1. exact Ht4.
    + intros f' Hf'. by apply fmap_Some in Hf' as (f & Hf & ->).
    + intros p Hp. unfold StaticCache.Observe. by rewrite Hp.
Qed.

Lemma gateway_reload_rejected fs g ts st st' :
  gateway_reload fs g ts st = (st', false) → st' = (seeing fs st.1, st.2).
Proof.
  unfold gateway_reload, Reload. destruct (validate_all _ g ts) as [|e l]; [done|].
  intros Heq. by apply (f_equal fst) in Heq.
Qed.

Lemma gateway_reachable_inv st last :
  reachable st last →
  (∃ fs, lists st.1 (entries fs (bool_decide (is_Some (fhAbuse st.2))))) ∧ background st.2 ∧
  match last with
  | None => current st.1 = mkSnapshotState ∅ ∅
  | Some (g, ts) =>
      current st.1 = mkSnapshotState g ts ∧
      (∃ fs, accepted_by (entries fs (bool_decide (is_Some (fhAbuse st.2)))) g ts) ∧ configured g ts st.2
  end.
Proof.
  induction 1 as [fs rnd st Hnew|fs g ts [reg h] st' last _ ((fs0 & Hl) & Hbg & _) Hre
    |fs g ts [reg h] st' last _ ((fs0 & Hl) & Hbg & Hlast) Hre|t reg h last _ ((fs0 & Hl) & Hbg & Hlast)].
  - destruct (registerFeatures_lists fs rnd) as (reg & Hr & Hl & Hcur). rewrite Hr in Hnew.
    apply (inj Some) in Hnew as <-. cbn [fst snd]. split_and!; [by exists fs| |done].
    split; cbn [new_handles fhRateSweeping fhTtlblock fhGeoip fhReaders fhAbuse]; [done|done| |done|].
    + unfold GeoIP.readers_inv, GeoIP.open_ids. cbn [GeoIP.New GeoIP.readers]. by rewrite map_to_list_empty.
    + unfold Abuse.New. destruct rnd; [|done]. by intros f <-%(inj Some).
  - destruct (reload_keeps _ _ _ _ _ _ _ Hl Hbg Hre) as (Hl' & Hbg' & Hcur & Hacc & Hcfg). split_and!; eauto.
  - apply gateway_reload_rejected in Hre as ->. cbn [fst snd] in *. split_and!; [|done|done].
    exists fs. by eapply seeing_lists.
  - cbn [fst snd] in *.
    assert (Hab : bool_decide (is_Some (fhAbuse (handle_traffic (current reg) t h))) = bool_decide (is_Some (fhAbuse h))).
    { destruct h as [bl rl sw ge rd tb sa hd ab ca], t; try done. by destruct ab. }
    rewrite Hab. split_and!; [by exists fs0|by apply traffic_background|]. destruct last as [[g ts]|]; [|done].
    destruct Hlast as (Hcur & Hacc & Hcfg). split_and!; [done|done|by apply traffic_configured].
Qed.


Lemma accepted_elem l g ts fn :
  accepted_by l g ts → fn ∈ l →
  Validate fn.1 (default FeatureSnapshot_zero (g !! Name fn.1)) = None ∧
  map_Forall (λ _ t, Validate fn.1 (effective g t (Name fn.1)) = None) ts.
Proof. unfold accepted_by. rewrite Forall_forall. auto. Qed.

Lemma message_None {E} (v : FeatureSnapshot → option E) c : message v c = None → v c = None.
Proof. unfold message. by destruct (v c). Qed.

(** The keys of a published tenant map that the features fold to lower case. *)
Definition plain_hosts (ts : gmap gostring TenantSnapshot) : Prop :=
  (∀ h h', is_Some (ts !! h) → is_Some (ts !! h') → ToLower h = ToLower h' → h = h') ∧
  (∀ h, is_Some (ts !! h) → ToLower h ≠ Blocklist.globalTenantKey).

(** In a proxy that has accepted a reload, a request of a published tenant
    is answered by the regex block list exactly when the tenant's rules of
    that reload demand it, with the demanded action, and by GeoIP exactly when
    its rule blocks the country of the client; no earlier reload and no
    traffic makes a difference. *)
Theorem gateway_gates_enforced mmdb reg h g ts ctx hijack cancelled t1 t2 r :
  reachable (reg, h) (Some (g, ts)) → plain_hosts ts → Blocklist.published ts ctx →
  let bcfg := Resolve (current reg) ctx Blocklist.FeatureName in
  let gcfg := Resolve (current reg) ctx GeoIP.FeatureName in
  match Blocklist.Middleware (fhBlocklist h) hijack cancelled r (current reg) ctx with
  | Some out => ∃ action timeout, Blocklist.demands bcfg r action timeout ∧
                  out = Blocklist.respond hijack cancelled action timeout
  | None => ∀ action timeout, ¬ Blocklist.demands bcfg r action timeout
  end ∧
  match GeoIP.Middleware mmdb (fhGeoip h) hijack cancelled t1 t2 r (current reg) ctx with
  | Some out => ∃ ru, GeoIP.country_blocked mmdb (fhGeoip h) gcfg r ru ∧
                  out = GeoIP.applyAction hijack cancelled t1 t2 (GeoIP.action ru)
  | None => ∀ ru, ¬ GeoIP.country_blocked mmdb (fhGeoip h) gcfg r ru
  end.
Proof.
  intros Hr [Hh1 Hh2] Hpub. destruct (gateway_reachable_inv _ _ Hr) as (_ & _ & Hcur & (fs & Hacc) & Hcfg).
  cbn [fst snd] in *. rewrite Hcur. cbv zeta. split.
  - rewrite (cf_blocklist _ _ _ Hcfg). apply Blocklist.blocklist_enforces; [|done].
    destruct (accepted_elem _ g ts (the_feature Blocklist.FeatureName Blocklist.Validate, obs_blocklist) Hacc) as [Hg Ht];
      [unfold entries; left|].
    split; [by apply message_None in Hg| |exact Hh1|exact Hh2].
    intros k t Hk. by apply message_None, (Ht k).
  - destruct (cf_geo _ _ _ Hcfg) as (fs' & f0 & w0 & ->). apply GeoIP.geoip_enforces.
    destruct ctx as [t|]; [|done]. by destruct Hpub.
Qed.

(** The proxy as assembled never takes an abuse report: its abuse feature is
    given no store, nothing gives it one later, and every request the
    feature answers gets a status other than 204. *)
Theorem gateway_abuse_never_accepts reg h last f ctx now now2 now3 io w r body resp :
  reachable (reg, h) last → fhAbuse h = Some f →
  (Abuse.Middleware sha256 f (current reg) ctx now now2 now3 io w r body).1 = Some resp →
  mStatus resp ≠ StatusNoContent.
Proof.
  intros Hr Hf Hresp. destruct (gateway_reachable_inv _ _ Hr) as (_ & Hbg & _).
  by eapply abuse_storeless; [apply (bg_abuse _ Hbg)|].
Qed.


Lemma entries_mw fs abuse fn : fn ∈ entries fs abuse → Middleware fn.1 = Some (mw (Name fn.1)).
Proof.
  unfold entries. destruct abuse; cbn [app]; intros Hin;
    repeat (apply elem_of_cons in Hin as [->|Hin]; [done|]); by apply not_elem_of_nil in Hin.
Qed.

(** The chain: the first registered feature is outermost. *)
Theorem gateway_chain_order fs rnd :
  ∃ reg h, registerFeatures fs rnd NewRegistry = Some (reg, h) ∧
    ∀ inner, BuildChain reg inner = foldr mw inner (names (bool_decide (is_Some rnd))).
Proof.
  destruct (registerFeatures_lists fs rnd) as (reg & Hr & (Ho & Hl & _) & _). eexists _, _. split; [exact Hr|].
  intros inner. replace (bool_decide (is_Some rnd)) with (bool_decide (is_Some (Abuse.New rnd (Ok None)))) by by destruct rnd.
  rewrite BuildChain_foldr, Ho, <- (entries_names fs).
  assert (Hmw := entries_mw fs (bool_decide (is_Some (Abuse.New rnd (Ok None))))). clear -Hmw Hl.
  induction (entries fs _) as [|fn l IH]; [done|]. cbn [fmap list_fmap foldr].
  destruct (Hl fn ltac:(left)) as [-> _]. rewrite (Hmw fn) by left. f_equal.
  apply IH; intros fn' Hin; [apply Hl|apply Hmw]; by right.
Qed.
End gateway.

(** * Examples *)

#[local] Existing Instance Blocklist.bl_unicode.
#[local] Existing Instance Blocklist.bl_regexp.
#[local] Existing Instance RateLimit.rx_limiter.
#[local] Existing Instance TtlBlock.ex_codec.
#[local] Existing Instance GoStd.insertion_sort_slice.
#[local] Existing Instance Abuse.ab_json.
#[local] Existing Instance StaticCache.sc_store.
#[local] Existing Instance StaticCache.sc_float.

Abbreviation gw_handles :=
  (@featureHandles Blocklist.bl_regexp Z (gmap gostring gostring) (gmap gostring StaticCache.cacheEntry)).

Definition gw_mw (_ : gostring) (next : Handler unit) : Handler unit := next.
Definition gw_files : @Files (gmap gostring gostring) := mkFiles (λ _, Some false) (λ _, true) (λ _ _, None).
Definition gw_globals : GlobalsSnapshot :=
  {[ Abuse.FeatureName := mkFeatureSnapshot true {[ $"require_fields" := JArray [] ]} 1 ]}.

Definition gw_start : option (@Registry unit * gw_handles) := registerFeatures gw_mw gw_files (Some $"s") NewRegistry.
Definition gw_blank : @Registry unit * gw_handles := default (NewRegistry, new_handles None) gw_start.
Definition gw_loaded : @Registry unit * gw_handles := (gateway_reload gw_mw gw_files gw_globals Blocklist.bl_tenants gw_blank).1.

Lemma gw_reachable : reachable id gw_mw gw_loaded (Some (gw_globals, Blocklist.bl_tenants)).
Proof.
  apply (gw_accepted id gw_mw gw_files gw_globals Blocklist.bl_tenants gw_blank gw_loaded None).
  - apply (gw_new id gw_mw gw_files (Some $"s")). unfold gw_blank.
    destruct (registerFeatures_lists (L := Z) (B := gmap gostring gostring) (C := gmap gostring StaticCache.cacheEntry)
      id gw_mw gw_files (Some $"s")) as (reg & Hr & _). fold gw_start in Hr. fold gw_start. by rewrite Hr.
  - unfold gw_loaded. assert (Hok : (gateway_reload gw_mw gw_files gw_globals Blocklist.bl_tenants gw_blank).2 = true)
      by (vm_compute; reflexivity). by rewrite <- Hok, <- surjective_pairing.
Qed.


Lemma gateway_gates_enforced_witness :
  ∃ action timeout, Blocklist.demands Blocklist.bl_cfg (Blocklist.bl_request $"/wp") action timeout ∧
    Blocklist.BStatus 0 StatusNotFound = Blocklist.respond false None action timeout.
Proof.
  assert (Hm := gateway_gates_enforced id gw_mw (λ _ _, None) gw_loaded.1 gw_loaded.2 gw_globals Blocklist.bl_tenants
    (Some Blocklist.bl_tenant) false None 0 0 (Blocklist.bl_request $"/wp")).
  rewrite <- surjective_pairing in Hm. specialize (Hm gw_reachable). cbv zeta in Hm.
  destruct Hm as [Hm _].
  - split; [exact (Blocklist.ar_hosts _ _ Blocklist.bl_accepted)|exact (Blocklist.ar_reserved _ _ Blocklist.bl_accepted)].
  - split; [discriminate|vm_compute; reflexivity].
  - replace (Blocklist.Middleware _ _ _ _ _ _) with (Some (Blocklist.BStatus 0 StatusNotFound)) in Hm
      by (vm_compute; reflexivity). exact Hm.
Defined.


(** A report that satisfies every rule is answered 500. *)
Definition gw_report : Request := mkRequest MethodPost $"/_abuse" [] [] $"a" $"[::1]:80" ∅ ∅.

Lemma gateway_abuse_never_accepts_witness :
  ∃ f resp, fhAbuse gw_loaded.2 = Some f ∧
    (Abuse.Middleware id f (current gw_loaded.1) None 0 0 0 None ∅ gw_report (Abuse.mkInBody $"spam" false)).1 = Some resp ∧
    mStatus resp = StatusInternalServerError ∧ mStatus resp ≠ StatusNoContent.
Proof.
  destruct (fhAbuse gw_loaded.2) as [f|] eqn:Hf; [|vm_compute in Hf; discriminate].
  destruct (Abuse.Middleware id f (current gw_loaded.1) None 0 0 0 None ∅ gw_report (Abuse.mkInBody $"spam" false)).1
    as [resp|] eqn:Hresp.
  - exists f, resp. split; [done|]. split; [done|]. split.
    + vm_compute in Hf. apply (inj Some) in Hf. subst f. vm_compute in Hresp. apply (inj Some) in Hresp. by subst resp.
    + assert (Hr := gw_reachable). rewrite (surjective_pairing gw_loaded) in Hr.
      exact (gateway_abuse_never_accepts id gw_mw _ _ _ f None 0 0 0 None ∅ gw_report _ resp Hr Hf Hresp).
  - vm_compute in Hf. apply (inj Some) in Hf. subst f. vm_compute in Hresp. discriminate.
Defined.
