(* ===== verification/CA.v ===== *)
(** The certificate authority of the hub (src/internal/hub/mtls.go): serials,
    client certificates bound to a node, revocation and the check of a peer.

    x509 is a parameter: parsing of requests and whether a certificate carries
    the signature of this root. The URI names of a certificate are kept as
    text and parsed as net/url does. The serial file is its number. *)

From S2P Require Import Prelude GoStd.

Definition sanSchemeGateway : gostring := $"gateway".
Definition sanNodeIDHost : gostring := $"node-id".
Definition sanNodeTypeHost : gostring := $"node-type".

(** * Certificates *)

Record CSR := mkCSR { csrCN : gostring; csrSigned : bool }.

Record Certificate := mkCertificate {
  ctSerial : Z;
  ctCN : gostring;
  ctURIs : list gostring;
  ctClientAuth : bool;
  ctNotBefore : time;
  ctNotAfter : time
}.

Class X509 := {
  parse_csr : gostring → option CSR;
  (** x509.CreateCertificate succeeds on this template. *)
  creates : Certificate → bool;
  (** Certificate.CheckSignatureFrom(root) succeeds. *)
  signed : Certificate → bool
}.

(** The signature of this root verifies. *)
Class X509Laws `{X509} : Prop := {
  created_signed c : creates c = true → signed c = true
}.

(** * net/url on the names *)

Definition uri_string (scheme opaque : gostring) : gostring := scheme ++ $":" ++ opaque.

Definition control_byte (c : ascii) : bool := (N.ltb (N_of_ascii c) 32 || N.eqb (N_of_ascii c) 127)%bool.

Definition before (c : ascii) (s : gostring) : gostring :=
  match cut_byte c s with Some (a, _) => a | None => s end.

(** Scheme and opaque part of an absolute reference without a rooted path. *)
Definition uri_parse (s : gostring) : option (gostring * gostring) :=
  if existsb control_byte s then None
  else match cut_byte ":"%char (before "#"%char s) with
  | None => None
  | Some (scheme, rest) =>
      let rest := before "?"%char rest in
      Some (map lower_byte scheme, if HasPrefix rest $"/" then [] else rest)
  end.

(** The serial file of the data directory: absent or empty, or a number. *)
Abbreviation SerialFile := (option Z).

(** The outcome of writeSerial. A write that fails leaves the file as it was
    (None: the directory or the open failed) or with what os.WriteFile put
    there after truncating it. *)
Inductive serial_write :=
| SerialWritten
| SerialFailed (kept : option SerialFile).

Section ca.
Context `{X509}.

(** [caDir]: a data directory is set. *)
Record CA := mkCA { nextSerial : Z; caDir : bool; revoked : gset Z }.

Inductive ca_error :=
| ErrNodeIDRequired | ErrBadNodeType | ErrValidity | ErrCSR | ErrCSRSignature | ErrCSRName
| ErrSerialWrite | ErrSign.

Definition validNodeType (t : gostring) : bool := bool_decide (t ∈ [$"proxy"; $"door"; $"local"]).

(** [io] is the outcome of writeSerial. *)
Definition allocateSerial (io : serial_write) (st : CA * SerialFile) : CA * SerialFile * option Z :=
  let '(c, file) := st in
  let serial := nextSerial c in
  let next := (serial + 1)%Z in
  if caDir c then
    match io with
    | SerialWritten => (mkCA next true (revoked c), Some next, Some serial)
    | SerialFailed kept => (c, default file kept, None)
    end
  else (mkCA next false (revoked c), file, Some serial).

Definition client_cert (nodeID nodeType : gostring) (now : time) (validity : duration) (serial : Z) : Certificate :=
  mkCertificate serial nodeID
    [uri_string sanSchemeGateway (sanNodeIDHost ++ $":" ++ nodeID);
     uri_string sanSchemeGateway (sanNodeTypeHost ++ $":" ++ nodeType)]
    true (time_add now (dur_neg Minute)) (time_add now validity).

Definition SignCSR (io : serial_write) (now : time) (csrBytes nodeID nodeType : gostring) (validity : duration)
    (st : CA * SerialFile) : CA * SerialFile * result ca_error Certificate :=
  if decide (nodeID = []) then (st, Err ErrNodeIDRequired)
  else if negb (validNodeType nodeType) then (st, Err ErrBadNodeType)
  else if Z.leb validity 0 then (st, Err ErrValidity)
  else match parse_csr csrBytes with
  | None => (st, Err ErrCSR)
  | Some csr =>
      if negb (csrSigned csr) then (st, Err ErrCSRSignature)
      else if decide (csrCN csr ≠ nodeID) then (st, Err ErrCSRName)
      else match allocateSerial io st with
      | (st', None) => (st', Err ErrSerialWrite)
      | (st', Some serial) =>
          let cert := client_cert nodeID nodeType now validity serial in
          (st', if creates cert then Ok cert else Err ErrSign)
      end
  end.

(** [sans] counts the names; [key] is whether a key could be generated. *)
Definition IssueServerCert (io : serial_write) (key : bool) (now : time) (cn : gostring) (sans : nat) (validity : duration)
    (st : CA * SerialFile) : CA * SerialFile * option Certificate :=
  if decide (sans = 0) then (st, None)
  else if Z.leb validity 0 then (st, None)
  else if negb key then (st, None)
  else match allocateSerial io st with
  | (st', None) => (st', None)
  | (st', Some serial) =>
      let cert := mkCertificate serial cn [] false (time_add now (dur_neg Minute)) (time_add now validity) in
      (st', if creates cert then Some cert else None)
  end.

Definition Revoke (serial : Z) (c : CA) : CA := mkCA (nextSerial c) (caDir c) ({[serial]} ∪ revoked c).

Definition IsRevoked (serial : Z) (c : CA) : bool := bool_decide (serial ∈ revoked c).

(** The loop over the names: the last one of each kind counts. *)
Definition identity_step (acc : gostring * gostring) (u : gostring) : gostring * gostring :=
  match uri_parse u with
  | None => acc
  | Some (scheme, opaque) =>
      if decide (scheme ≠ sanSchemeGateway) then acc
      else match cut_byte ":"%char opaque with
      | None => acc
      | Some (host, value) =>
          if decide (host = sanNodeIDHost) then (value, acc.2)
          else if decide (host = sanNodeTypeHost) then (acc.1, value)
          else acc
      end
  end.

(** An error says whether its message contains the word revoked: the names are
    part of the message about a disagreement. *)
Definition extractIdentity (cert : Certificate) : result bool (gostring * gostring) :=
  let '(nodeID, nodeType) := foldl identity_step ([], []) (ctURIs cert) in
  if decide (nodeID = []) then Err false
  else if decide (nodeType = []) then Err false
  else if decide (ctCN cert ≠ [] ∧ ctCN cert ≠ nodeID) then
    Err (Contains_str (ctCN cert) $"revoked" || Contains_str nodeID $"revoked")%bool
  else Ok (nodeID, nodeType).

Inductive peer := Peer (nodeID nodeType : gostring) | PeerRevoked | PeerBad (says_revoked : bool).

(** VerifyPeer on the leaf of the connection. *)
Definition VerifyPeer (c : CA) (leaf : Certificate) : peer :=
  if negb (signed leaf) then PeerBad false
  else if IsRevoked (ctSerial leaf) c then PeerRevoked
  else match extractIdentity leaf with
  | Ok (id, t) => Peer id t
  | Err b => PeerBad b
  end.

(** readSerial: an absent or empty file is no number, and a number is at most
    64 bits long; None is an error. [rd] is whether the file can be read. *)
Definition readSerial (rd : bool) (file : SerialFile) : option (option Z) :=
  if rd then
    match file with
    | None => Some None
    | Some n => if Z.ltb n (2 ^ 64) then Some (Some n) else None
    end
  else None.

(** generateCA and loadCA, the latter with the serial file next to the
    certificate. *)
Definition generateCA : CA := mkCA 1 true ∅.

Definition loadCA (rd : bool) (parent : SerialFile) : CA :=
  match readSerial rd parent with
  | Some (Some n) => mkCA (Z.max 1 n) true ∅
  | _ => mkCA 1 false ∅
  end.

(** SetDataDir on a directory that exists or could be made, with whether it
    succeeds: the directory is set before the file is read. *)
Definition SetDataDir (rd : bool) (file : SerialFile) (c : CA) : CA * bool :=
  let c := mkCA (nextSerial c) true (revoked c) in
  match readSerial rd file with
  | None => (c, false)
  | Some None => (c, true)
  | Some (Some n) => (mkCA (if Z.ltb (nextSerial c) n then n else nextSerial c) true (revoked c), true)
  end.

(** * Identities *)

(** An identifier that survives the URI: no query, no fragment, no control. *)
Definition plain_id (s : gostring) : Prop :=
  "#"%char ∉ s ∧ "?"%char ∉ s ∧ existsb control_byte s = false.

Lemma before_none c s : c ∉ s → before c s = s.
Proof. intros Hc. unfold before. apply cut_byte_None in Hc. by rewrite Hc. Qed.

Lemma uri_parse_name kind v :
  kind = sanNodeIDHost ∨ kind = sanNodeTypeHost → plain_id v →
  uri_parse (uri_string sanSchemeGateway (kind ++ $":" ++ v)) = Some (sanSchemeGateway, kind ++ $":" ++ v).
Proof.
  intros Hk (Hf & Hq & Hc). unfold uri_parse, uri_string.
  assert (Hkc : "#"%char ∉ kind ∧ "?"%char ∉ kind ∧ existsb control_byte kind = false ∧ HasPrefix (kind ++ $":" ++ v) $"/" = false).
  { destruct Hk as [-> | ->]; (split_and!; [apply (bool_decide_unpack _); by vm_compute..|done|done]). }
  destruct Hkc as (Hk1 & Hk2 & Hk3 & Hk4).
  rewrite !existsb_app, Hc, Hk3. cbn [existsb orb].
  rewrite before_none by (rewrite !elem_of_app; intros [Hin|[Hin|[Hin|[Hin|Hin]]]]; try done;
    revert Hin; apply (bool_decide_unpack _); by vm_compute).
  replace (sanSchemeGateway ++ $":" ++ kind ++ $":" ++ v) with (sanSchemeGateway ++ ":"%char :: (kind ++ $":" ++ v)) by done.
  rewrite cut_byte_app by (apply (bool_decide_unpack _); by vm_compute).
  rewrite before_none by (rewrite !elem_of_app; intros [Hin|[Hin|Hin]]; try done; revert Hin; apply (bool_decide_unpack _); by vm_compute).
  by rewrite Hk4.
Qed.

Lemma identity_step_name acc kind v :
  kind = sanNodeIDHost ∨ kind = sanNodeTypeHost → plain_id v →
  identity_step acc (uri_string sanSchemeGateway (kind ++ $":" ++ v)) =
  if decide (kind = sanNodeIDHost) then (v, acc.2) else (acc.1, v).
Proof.
  intros Hk Hv. unfold identity_step. rewrite uri_parse_name by done. rewrite decide_False by (intros Hn; by apply Hn).
  change (kind ++ $":" ++ v) with (kind ++ ":"%char :: v).
  rewrite cut_byte_app by (destruct Hk as [-> | ->]; apply (bool_decide_unpack _); by vm_compute).
  destruct Hk as [-> | ->]; by vm_compute.
Qed.

Lemma plain_type t : validNodeType t = true → plain_id t ∧ t ≠ [].
Proof.
  unfold validNodeType. rewrite bool_decide_eq_true. intros Ht. repeat (apply elem_of_cons in Ht as [->|Ht];
    [split; [split_and!; [apply (bool_decide_unpack _); by vm_compute..|done]|done]|]).
  by apply not_elem_of_nil in Ht.
Qed.

Lemma client_cert_identity id t now validity serial :
  id ≠ [] → plain_id id → validNodeType t = true →
  extractIdentity (client_cert id t now validity serial) = Ok (id, t).
Proof.
  intros Hne Hid Ht. apply plain_type in Ht as [Ht Htne]. unfold extractIdentity, client_cert.
  cbn [ctURIs ctCN foldl].
  rewrite (identity_step_name _ sanNodeIDHost id (or_introl eq_refl) Hid), decide_True by done. cbn [snd].
  rewrite (identity_step_name _ sanNodeTypeHost t (or_intror eq_refl) Ht), decide_False by done. cbn [fst].
  rewrite !decide_False by tauto. done.
Qed.

Lemma SignCSR_Ok io now csr id t validity st st' cert :
  SignCSR io now csr id t validity st = (st', Ok cert) →
  id ≠ [] ∧ validNodeType t = true ∧ creates cert = true ∧
  cert = client_cert id t now validity (nextSerial st.1) ∧ st' = (allocateSerial io st).1 ∧
  (allocateSerial io st).2 = Some (nextSerial st.1).
Proof.
  unfold SignCSR. case_decide; [done|]. destruct (validNodeType t); cbn [negb]; [|done].
  destruct (Z.leb validity 0); [done|]. destruct (parse_csr csr) as [rq|]; [|done].
  destruct (csrSigned rq); cbn [negb]; [|done]. case_decide; [done|].
  destruct st as [c file]. unfold allocateSerial. destruct (caDir c); [destruct io; [|done]|];
    cbn [fst snd]; destruct (creates _) eqn:Hc; try done; intros [= <- <-]; done.
Qed.

(** C37. A certificate that the authority signs for a node is, wherever the
    authority checks it later, that node's and no other's: it verifies to
    exactly the identifier and type it was signed for until its serial is
    revoked, and is refused as revoked from then on. *)
Theorem ca_certificate_identity `{!X509Laws} io now csr id t validity st st' cert :
  SignCSR io now csr id t validity st = (st', Ok cert) → plain_id id →
  ctClientAuth cert = true ∧ ctCN cert = id ∧
  ∀ c, VerifyPeer c cert = (if decide (ctSerial cert ∈ revoked c) then PeerRevoked else Peer id t) ∧
       VerifyPeer (Revoke (ctSerial cert) c) cert = PeerRevoked.
Proof.
  intros Hs Hp. apply SignCSR_Ok in Hs as (Hne & Ht & Hc & Hcert & _).
  assert (Hid : extractIdentity cert = Ok (id, t)) by (rewrite Hcert; by apply client_cert_identity).
  split; [by rewrite Hcert|]. split; [by rewrite Hcert|]. intros c.
  unfold VerifyPeer, IsRevoked. rewrite created_signed by done. cbn [negb]. rewrite Hid. split.
  - case_decide; [by rewrite bool_decide_eq_true_2|by rewrite bool_decide_eq_false_2].
  - rewrite bool_decide_eq_true_2; [done|]. cbn [Revoke revoked]. set_solver.
Qed.

(** * Serials *)

(** What the hub does with its authority; a restart loads the pair of files
    again, with the serial file of the data directory next to the certificate
    ([beside], the default layout) or none, and an error of SetDataDir is only
    logged. *)
Inductive ca_event :=
| ESign (io : serial_write) (now : time) (csr id t : gostring) (validity : duration)
| EServer (io : serial_write) (key : bool) (now : time) (cn : gostring) (sans : nat) (validity : duration)
| ERevoke (serial : Z)
| ERestart (rd beside : bool).

(** NewCA on an existing pair and SetDataDir, as gateway-hub calls them. *)
Definition ca_boot (rd beside : bool) (file : SerialFile) : CA :=
  (SetDataDir rd file (loadCA rd (if beside then file else None))).1.

(** The serials of the certificates handed out, oldest first. *)
Definition ca_step (s : CA * SerialFile * list Z) (e : ca_event) : CA * SerialFile * list Z :=
  let '(st, out) := s in
  match e with
  | ESign io now csr id t validity =>
      let '(st', r) := SignCSR io now csr id t validity st in
      (st', match r with Ok cert => out ++ [ctSerial cert] | Err _ => out end)
  | EServer io key now cn sans validity =>
      let '(st', r) := IssueServerCert io key now cn sans validity st in
      (st', match r with Some cert => out ++ [ctSerial cert] | None => out end)
  | ERevoke serial => ((Revoke serial st.1, st.2), out)
  | ERestart rd beside => ((ca_boot rd beside st.2, st.2), out)
  end.

(** A write of the serial file leaves what it found or the new number, and a
    restart can read it. *)
Definition serial_safe (e : ca_event) : Prop :=
  match e with
  | ESign (SerialFailed (Some _)) _ _ _ _ _ | EServer (SerialFailed (Some _)) _ _ _ _ _ => False
  | ERestart rd _ => rd = true
  | _ => True
  end.

Definition serial_inv (s : CA * SerialFile * list Z) : Prop :=
  let '(c, file, out) := s in
  caDir c = true ∧ (1 ≤ nextSerial c)%Z ∧ NoDup out ∧ Forall (λ n, n < nextSerial c)%Z out ∧
  (file = Some (nextSerial c) ∨ file = None ∧ nextSerial c = 1%Z).

Lemma serial_inv_alloc io c file out :
  serial_inv (c, file, out) → (∀ f, io ≠ SerialFailed (Some f)) →
  let '(st', r) := allocateSerial io (c, file) in
  serial_inv (st', out) ∧ (nextSerial st'.1 ≤ nextSerial c + 1)%Z ∧
  match r with Some n => serial_inv (st', out ++ [n]) | None => True end.
Proof.
  intros (Hd & Hp & Hnd & Hlt & Hf) Hio. unfold allocateSerial. rewrite Hd.
  destruct io as [|[f|]]; [|by destruct (Hio f)|cbn; split_and!; auto; lia]. cbn.
  assert (Hlt' : Forall (λ n, n < nextSerial c + 1)%Z out) by (eapply Forall_impl; [done|]; cbn; lia).
  split_and!; try done; try lia; try (by left).
  - apply NoDup_app. split_and!; [done| |apply NoDup_singleton]. intros n Hn ->%list_elem_of_singleton.
    rewrite Forall_forall in Hlt. apply Hlt in Hn. lia.
  - apply Forall_app. split; [done|]. repeat constructor. lia.
Qed.

Lemma ca_boot_serial beside c file :
  (1 ≤ nextSerial c < 2 ^ 64)%Z → file = Some (nextSerial c) ∨ file = None ∧ nextSerial c = 1%Z →
  nextSerial (ca_boot true beside file) = nextSerial c ∧ caDir (ca_boot true beside file) = true.
Proof.
  intros [Hp Hb] Hf. unfold ca_boot, SetDataDir, loadCA, readSerial.
  destruct Hf as [-> |[-> Hn]]; [|destruct beside; cbn; lia].
  assert (Hlt : (nextSerial c <? 2 ^ 64)%Z = true) by (by apply Z.ltb_lt).
  destruct beside; rewrite Hlt; cbn [nextSerial fst caDir]; (split; [|done]).
  - destruct (Z.ltb_spec (Z.max 1 (nextSerial c)) (nextSerial c)); lia.
  - destruct (Z.ltb_spec 1 (nextSerial c)); lia.
Qed.

Lemma serial_inv_step s e :
  serial_inv s → serial_safe e → (nextSerial s.1.1 < 2 ^ 64)%Z →
  serial_inv (ca_step s e) ∧ (nextSerial (ca_step s e).1.1 ≤ nextSerial s.1.1 + 1)%Z.
Proof.
  destruct s as [[c file] out]. intros Hi He Hb. cbn [fst] in Hb. destruct e; cbn [ca_step].
  - unfold SignCSR. assert (Hsame : serial_inv (c, file, out) ∧ (nextSerial c ≤ nextSerial c + 1)%Z) by (split; [done|lia]).
    case_decide; [done|]. destruct (validNodeType t); [|done]. cbn [negb].
    destruct (Z.leb validity 0); [done|]. destruct (parse_csr csr) as [rq|]; [|done].
    destruct (csrSigned rq); [|done]. cbn [negb]. case_decide; [done|].
    pose proof (serial_inv_alloc io c file out Hi) as Ha. destruct (allocateSerial io (c, file)) as [st' r].
    destruct Ha as (Ha1 & Hle & Ha2); [by intros f ->|]. destruct r as [n|]; [|done]. by destruct (creates _).
  - unfold IssueServerCert. assert (Hsame : serial_inv (c, file, out) ∧ (nextSerial c ≤ nextSerial c + 1)%Z) by (split; [done|lia]).
    case_decide; [done|]. destruct (Z.leb validity 0); [done|]. destruct key; [|done]. cbn [negb].
    pose proof (serial_inv_alloc io c file out Hi) as Ha. destruct (allocateSerial io (c, file)) as [st' r].
    destruct Ha as (Ha1 & Hle & Ha2); [by intros f ->|]. destruct r as [n|]; [|done]. by destruct (creates _).
  - split; [exact Hi|cbn; lia].
  - cbn [serial_safe] in He. subst rd. destruct Hi as (Hd & Hp & Hnd & Hlt & Hf). cbn [fst snd].
    destruct (ca_boot_serial beside c file (conj Hp Hb) Hf) as [Hn Hd'].
    rewrite Hn. split; [|lia]. unfold serial_inv. rewrite Hn. done.
Qed.

Lemma serial_inv_run evs s :
  serial_inv s → Forall serial_safe evs → (nextSerial s.1.1 + Z.of_nat (length evs) ≤ 2 ^ 64)%Z →
  serial_inv (foldl ca_step s evs).
Proof.
  revert s. induction evs as [|e evs IH]; intros s Hs Hsafe Hlen; cbn [foldl]; [done|].
  apply Forall_cons in Hsafe as [He Hsafe]. cbn [length] in Hlen.
  destruct (serial_inv_step s e Hs He) as [Hs' Hle]; [lia|]. apply IH; [done|done|lia].
Qed.

(** C38. No two certificates that the hub ever hands out, to nodes or to itself,
    share a serial number, across restarts, failed writes of the serial file
    and failed signatures: for fewer than 2^64 operations, as long as a write
    that fails leaves the file as it was and every restart can read it. *)
Theorem ca_serials_unique evs :
  Forall serial_safe evs → (Z.of_nat (length evs) < 2 ^ 64)%Z →
  NoDup (foldl ca_step (generateCA, None, []) evs).2.
Proof.
  intros Hsafe Hlen. assert (Hinv : serial_inv (generateCA, None, [])) by (cbn; split_and!; try done; [apply NoDup_nil_2|by right]).
  pose proof (serial_inv_run evs _ Hinv Hsafe ltac:(cbn [fst nextSerial generateCA]; lia)) as Hs.
  destruct (foldl _ _ evs) as [[c file] out]. by destruct Hs as (_ & _ & ? & _).
Qed.

(** Revocation does not survive a restart: a certificate that was refused is
    accepted again. *)
Theorem ca_restart_forgets_revocation cert id t rd beside file :
  signed cert = true → extractIdentity cert = Ok (id, t) →
  VerifyPeer (ca_boot rd beside file) cert = Peer id t.
Proof.
  intros Hs Hid. unfold VerifyPeer, IsRevoked. rewrite Hs, Hid. cbn [negb].
  assert (revoked (ca_boot rd beside file) = ∅) as ->.
  { unfold ca_boot, SetDataDir, loadCA.
    destruct (readSerial rd file) as [[n|]|], (readSerial rd _) as [[m|]|]; done. }
  by rewrite bool_decide_eq_false_2 by set_solver.
Qed.
End ca.

(** * Examples *)

#[local] Instance ca_x509 : X509 := {|
  parse_csr s := Some (mkCSR s true); creates _ := true; signed _ := true |}.

#[local] Instance ca_x509_laws : X509Laws.
Proof. by split. Qed.

Definition ca_cert (id : gostring) : Certificate := client_cert id $"proxy" 0 Hour 1.

Lemma ca_certificate_identity_witness :
  VerifyPeer generateCA (ca_cert $"edge-1") = Peer $"edge-1" $"proxy" ∧
  VerifyPeer (Revoke 1 generateCA) (ca_cert $"edge-1") = PeerRevoked.
Proof.
  destruct (ca_certificate_identity SerialWritten 0 $"edge-1" $"edge-1" $"proxy" Hour (generateCA, None)
    (mkCA 2 true ∅, Some 2%Z) (ca_cert $"edge-1")) as (_ & _ & Hv).
  - vm_compute. reflexivity.
  - split; [apply (bool_decide_unpack _); vm_compute; exact I|].
    split; [apply (bool_decide_unpack _); vm_compute; exact I|reflexivity].
  - destruct (Hv generateCA) as [Hv1 Hv2]. split; [|exact Hv2]. rewrite Hv1. vm_compute. reflexivity.
Defined.

(** An identifier with a question mark gets a certificate that the authority
    itself refuses. *)
Example ca_query_id_unusable :
  (SignCSR SerialWritten 0 $"a?b" $"a?b" $"proxy" Hour (generateCA, None)).2 = Ok (ca_cert $"a?b") ∧
  VerifyPeer generateCA (ca_cert $"a?b") = PeerBad false.
Proof. split; vm_compute; reflexivity. Qed.

Definition ca_history : list ca_event :=
  [EServer SerialWritten true 0 $"hub" 1 Hour; ESign SerialWritten 0 $"edge-1" $"edge-1" $"proxy" Hour;
   ESign (SerialFailed None) 0 $"edge-2" $"edge-2" $"door" Hour; ERestart true true;
   EServer SerialWritten true 0 $"hub" 1 Hour; ERestart true false; ESign SerialWritten 0 $"edge-2" $"edge-2" $"door" Hour].

Lemma ca_serials_unique_witness :
  (foldl ca_step (generateCA, None, []) ca_history).2 = [1; 2; 3; 4]%Z ∧
  NoDup (foldl ca_step (generateCA, None, []) ca_history).2.
Proof.
  split; [vm_compute; reflexivity|]. apply (ca_serials_unique ca_history).
  - repeat (apply Forall_cons; split; [first [exact I|reflexivity]|]). apply Forall_nil. exact I.
  - vm_compute. reflexivity.
Defined.

(** A write that truncates the file before it fails makes the next restart
    hand out serials again. *)
Example ca_torn_serial_repeats :
  (foldl ca_step (generateCA, None, [])
    [ESign SerialWritten 0 $"a" $"a" $"proxy" Hour; ESign (SerialFailed (Some None)) 0 $"b" $"b" $"proxy" Hour;
     ERestart true true; ESign SerialWritten 0 $"c" $"c" $"proxy" Hour]).2 = [1; 1]%Z.
Proof. vm_compute. reflexivity. Qed.
