(* ===== verification/Mux.v ===== *)
(** Paths as net/http's ServeMux sees them, and url.Query: percent-decoding,
    the escaped path of a request, path cleaning and query values. *)

From S2P Require Import Prelude Http GoStd.

(** net/url.unescape; None is an error. [plus] is query decoding. *)
Fixpoint unescape (plus : bool) (s : gostring) : option gostring :=
  match s with
  | [] => Some []
  | c :: s1 =>
      if decide (c = "%"%char) then
        match s1 with
        | a :: b :: s' =>
            match hex_decode [a; b] with Some [d] => cons d <$> unescape plus s' | _ => None end
        | _ => None
        end
      else if (plus && bool_decide (c = "+"%char))%bool then cons " "%char <$> unescape plus s1
      else cons c <$> unescape plus s1
  end.

(** Bytes that may stand in an encoded path as they are. *)
Definition path_byte (c : ascii) : bool :=
  let n := N_of_ascii c in
  (is_digit c || (N.leb 65 n && N.leb n 90) || (N.leb 97 n && N.leb n 122)
   || bool_decide (c ∈ $"-_.~!$&'()*+,;=:@[]%/"))%bool.

(** EscapedPath keeps the path as it was sent when it encodes Path. *)
Definition raw_used (r : Request) : bool :=
  (bool_decide (RawPath r ≠ []) && forallb path_byte (RawPath r) &&
   bool_decide (unescape false (RawPath r) = Some (Path r)))%bool.

(** The segments of the escaped path; without an encoding of its own a path is
    cut as it is, since escaping touches neither slashes nor dots. *)
Definition escaped_segments (r : Request) : list gostring :=
  Split (if raw_used r then RawPath r else Path r) "/"%char.

(** cleanPath changes nothing: a rooted path without empty or dotted segments,
    a trailing slash apart. *)
Definition clean_segments (l : list gostring) : bool :=
  match l with
  | [] :: (_ :: _) as rest =>
      (forallb (λ s, negb (bool_decide (s = []))) (removelast rest) &&
       forallb (λ s, negb (bool_decide (s = $"." ∨ s = $".."))) rest)%bool
  | _ => false
  end.

(** The segments the patterns are compared with, or None when the mux answers
    with a redirect to the clean path. *)
Definition mux_segments (r : Request) : option (list gostring) :=
  let raw := escaped_segments r in
  if (negb (bool_decide (Method r = $"CONNECT")) && negb (clean_segments raw))%bool then None
  else Some (if raw_used r then (λ s, default s (unescape false s)) <$> drop 1 raw else drop 1 raw).

(** * Query values *)

Definition query_pair (part : gostring) : option (gostring * gostring) :=
  if decide (part = [] ∨ ";"%char ∈ part) then None
  else
    let '(k, v) := match cut_byte "="%char part with Some kv => kv | None => (part, []) end in
    match unescape true k, unescape true v with
    | Some k, Some v => Some (k, v)
    | _, _ => None
    end.

(** r.URL.Query().Get(key). *)
Definition query_get (r : Request) (key : gostring) : gostring :=
  default [] (snd <$> List.find (λ kv, bool_decide (kv.1 = key)) (omap query_pair (Split (RawQuery r) "&"%char))).

Example query_get_ex :
  let r := mkRequest MethodGet $"/" [] $"a=1&limit=%35+&x;y&limit=7" [] [] ∅ ∅ in
  query_get r $"limit" = $"5 " ∧ query_get r $"x;y" = [].
Proof. split; vm_compute; reflexivity. Qed.

Example mux_segments_ex :
  mux_segments (mkRequest MethodGet $"/api/tenants/a/b" $"/api/tenants/a%2Fb" [] [] [] ∅ ∅)
  = Some [$"api"; $"tenants"; $"a/b"] ∧
  mux_segments (mkRequest MethodGet $"/api//me" [] [] [] [] ∅ ∅) = None.
Proof. split; vm_compute; reflexivity. Qed.
