(* ===== verification/HubAPI.v ===== *)
(** The hub's REST API (src/internal/hub/api.go) over the tenant registry, the
    mirror registry and its monitor, the node store and the certificate
    authority: routing, the mTLS guard and every handler.

    A request comes with the certificate of its peer, if any. JSON decoding is
    a parameter, given the bytes the limited reader yields and whether it
    breaks off; JSON answers are kept as the values they encode. The embedded
    Tor pool behind its socket is a parameter. *)

From S2P Require Import Prelude Http GoStd Shared Queue Mirrors HubRegistry HubStream Monitor CA Mux.
From S2P Require Transport.

(** * Requests and answers *)

Record ApiRequest := mkApiRequest {
  aqReq : Request;
  aqBody : gostring;
  aqLength : Z;
  aqPeer : option Certificate
}.

Inductive api_body :=
| BEmpty
| BError (msg : gostring)
| BMismatch (bodyHost pathHost : gostring)
| BTenants (ts : list TenantConf)
| BTenant (t : TenantConf)
| BGlobals (g : GlobalsConf)
| BNodes (ns : list NodeInfo)
| BIssued (cert : Certificate) (serial : gostring)
| BMirrors (ms : list MirrorHealth)
| BMirror (m : MirrorHealth)
| BSettings (s : CheckHostSettings)
| BStarted
| BPool (resp : MResponse)
| BStream (nodeID : gostring).

(** None is a handler that panics: the connection is dropped. *)
Record api_reply := mkReply { apStatus : Z; apBody : api_body }.

Definition StatusCreated : Z := 201.
Definition StatusAccepted : Z := 202.
Definition StatusUnauthorized : Z := 401.
Definition StatusConflict : Z := 409.
Definition StatusBadGateway : Z := 502.
Definition StatusMovedPermanently : Z := 301.

Definition writeJSONError (status : Z) (msg : gostring) : api_reply := mkReply status (BError msg).

Definition public_msg (status : Z) : gostring :=
  if Z.eqb status StatusBadRequest then $"bad request"
  else if Z.eqb status StatusUnauthorized then $"unauthorized"
  else if Z.eqb status StatusForbidden then $"forbidden"
  else if Z.eqb status StatusNotFound then $"not found"
  else if Z.eqb status StatusConflict then $"conflict"
  else if Z.eqb status StatusBadGateway then $"bad gateway"
  else if Z.eqb status StatusServiceUnavailable then $"service unavailable"
  else if Z.eqb status StatusInternalServerError then $"internal error"
  else $"error".

(** apiError: the error itself is only logged. *)
Definition apiError (status : Z) : api_reply := mkReply status (BError (public_msg status)).

(** * http.ServeMux on the patterns of the API *)

Inductive route :=
| RtTenants | RtTenant (host : gostring) | RtGlobals
| RtRegister | RtNodes | RtNode (id : gostring) | RtStream
| RtMirrors | RtMirror (host : gostring) | RtForceBlock (host : gostring) | RtUnblock (host : gostring) | RtCheck
| RtSettings | RtPool (path : gostring).

Definition seg (s : gostring) (l : list (gostring * route)) : list (gostring * route) := if decide (s = []) then [] else l.

(** The patterns whose path matches, with their methods. *)
Definition patterns (segs : list gostring) : list (gostring * route) :=
  match segs with
  | [v; a] =>
      if decide (v ≠ $"v1") then []
      else if decide (a = $"tenants") then [(MethodGet, RtTenants)]
      else if decide (a = $"globals") then [(MethodGet, RtGlobals); (MethodPut, RtGlobals)]
      else if decide (a = $"nodes") then [(MethodGet, RtNodes)]
      else if decide (a = $"mirrors") then [(MethodGet, RtMirrors)]
      else if decide (a = $"backends") then [(MethodGet, RtPool $"/backends")]
      else if decide (a = $"health") then [(MethodGet, RtPool $"/health")]
      else if decide (a = $"scale") then [(MethodPost, RtPool $"/scale")]
      else []
  | [v; a; b] =>
      if decide (v ≠ $"v1") then []
      else if decide (a = $"tenants") then seg b [(MethodGet, RtTenant b); (MethodPut, RtTenant b); (MethodDelete, RtTenant b)]
      else if decide (a = $"nodes") then
        (if decide (b = $"register") then [(MethodPost, RtRegister)] else []) ++ seg b [(MethodDelete, RtNode b)]
      else if decide (a = $"config" ∧ b = $"stream") then [(MethodGet, RtStream)]
      else if decide (a = $"mirrors") then
        (if decide (b = $"check") then [(MethodPost, RtCheck)] else []) ++
        seg b [(MethodGet, RtMirror b); (MethodPut, RtMirror b); (MethodDelete, RtMirror b)]
      else if decide (a = $"settings" ∧ b = $"checkhost") then [(MethodGet, RtSettings); (MethodPut, RtSettings)]
      else []
  | [v; a; b; c] =>
      if decide (v = $"v1" ∧ a = $"mirrors" ∧ c = $"force-block") then seg b [(MethodPost, RtForceBlock b)]
      else if decide (v = $"v1" ∧ a = $"mirrors" ∧ c = $"unblock") then seg b [(MethodPost, RtUnblock b)]
      else []
  | _ => []
  end.

Inductive routed := Routed (r : route) | RedirectClean | MethodWrong | NoRoute.

Definition route_of (r : Request) : routed :=
  match mux_segments r with
  | None => RedirectClean
  | Some segs =>
      match List.find (λ mr, bool_decide (mr.1 = Method r ∨ (Method r = MethodHead ∧ mr.1 = MethodGet))) (patterns segs) with
      | Some (_, rt) => Routed rt
      | None => if decide (patterns segs = []) then NoRoute else MethodWrong
      end
  end.

(** * The hub *)

Class ApiJson := {
  dec_tenant : gostring → bool → option TenantConf;
  dec_globals : gostring → bool → option GlobalsConf;
  dec_register : gostring → bool → option RegisterRequest;
  dec_mirror : gostring → bool → option MirrorHealth;
  dec_note : gostring → bool → option gostring;
  dec_settings : gostring → bool → option CheckHostSettings
}.

Definition nodeCertValidity : duration := (365 * 24 * Hour)%Z.
Definition maxBytes : Z := 1048576.

Section api.
Context {D : Type} `{ConfYaml D} `{HubJson} {M : Type} `{EqDecision M} `{YamlCodec M} `{GoUnicode} `{X509} `{ApiJson}.
Context (settings_marshal : CheckHostSettings → option gostring) (settings_yaml : gostring → option CheckHostSettings).
(** The round trip to the pool's socket: method, path, headers and body. *)
Context (torpool : option (gostring → gostring → header → gostring → option MResponse)).

Record Hub := mkHub {
  huReg : HubRegistry.Registry D;
  huMirrors : option (MirrorRegistry M);
  huMonitor : option MonitorConfig;
  huSettings : settings_file;
  huNodes : NodeStore;
  huCA : option (CA * SerialFile)
}.

(** The outside world during one request: registry writes, the clock, the
    serial file, the settings file and what the probes see. *)
Record World := mkWorld {
  wEnv : Mirrors.Env;
  wNow : time;
  wSerial : serial_write;
  wSettings : bool;
  wClient : MonitorClient;
  wProbeEnv : gostring → Mirrors.Env
}.

Definition with_reg (r : HubRegistry.Registry D) (h : Hub) : Hub :=
  mkHub r (huMirrors h) (huMonitor h) (huSettings h) (huNodes h) (huCA h).
Definition with_mirrors (m : MirrorRegistry M) (h : Hub) : Hub :=
  mkHub (huReg h) (Some m) (huMonitor h) (huSettings h) (huNodes h) (huCA h).
Definition with_nodes (n : NodeStore) (h : Hub) : Hub :=
  mkHub (huReg h) (huMirrors h) (huMonitor h) (huSettings h) n (huCA h).
Definition with_ca (c : option (CA * SerialFile)) (h : Hub) : Hub :=
  mkHub (huReg h) (huMirrors h) (huMonitor h) (huSettings h) (huNodes h) c.
Definition with_settings (s : settings_file) (h : Hub) : Hub :=
  mkHub (huReg h) (huMirrors h) (huMonitor h) s (huNodes h) (huCA h).

(** What the limited body yields and whether it breaks off. *)
Definition decoded {T} (dec : gostring → bool → option T) (q : ApiRequest) : option T :=
  let got := Transport.limit_bytes maxBytes (aqBody q) in
  dec got (bool_decide (got ≠ aqBody q)).

(** * Tenants and globals *)

Definition handleListTenants (h : Hub) : api_reply :=
  mkReply StatusOK (BTenants (sort_by tcHost (map_to_list (tenant_map (huReg h))).*2)).

Definition handleGetTenant (host : gostring) (h : Hub) : api_reply :=
  match Tenant host (huReg h) with
  | None => writeJSONError StatusNotFound $"tenant not found"
  | Some t => mkReply StatusOK (BTenant t)
  end.

Definition handlePutTenant (w : World) (host : gostring) (q : ApiRequest) (h : Hub) : Hub * option api_reply :=
  match decoded dec_tenant q with
  | None => (h, Some (apiError StatusBadRequest))
  | Some t =>
      let t := if decide (tcHost t = []) then set_host host t else t in
      if decide (tcHost t ≠ host) then (h, Some (mkReply StatusBadRequest (BMismatch (tcHost t) host)))
      else match UpsertTenant (wEnv w) t (huReg h) with
      | (r, HubRegistry.Done) => (with_reg r h, Some (mkReply StatusOK (BTenant t)))
      | (r, HubRegistry.Failed) => (with_reg r h, Some (apiError StatusBadRequest))
      | (r, HubRegistry.Panicked) => (with_reg r h, None)
      end
  end.

Definition handleDeleteTenant (w : World) (host : gostring) (h : Hub) : Hub * option api_reply :=
  match DeleteTenant (wEnv w) host (huReg h) with
  | (r, HubRegistry.Done) => (with_reg r h, Some (mkReply StatusNoContent BEmpty))
  | (r, HubRegistry.Failed) => (with_reg r h, Some (apiError StatusInternalServerError))
  | (r, HubRegistry.Panicked) => (with_reg r h, None)
  end.

Definition handleGetGlobals (h : Hub) : api_reply := mkReply StatusOK (BGlobals (HubRegistry.globals (huReg h))).

Definition handlePutGlobals (w : World) (q : ApiRequest) (h : Hub) : Hub * option api_reply :=
  match decoded dec_globals q with
  | None => (h, Some (apiError StatusBadRequest))
  | Some g =>
      match SetGlobals (wEnv w) g (huReg h) with
      | (r, HubRegistry.Done) => (with_reg r h, Some (mkReply StatusOK (BGlobals g)))
      | (r, HubRegistry.Failed) => (with_reg r h, Some (apiError StatusInternalServerError))
      | (r, HubRegistry.Panicked) => (with_reg r h, None)
      end
  end.

(** * Nodes *)

(** NodeStore.Register on the CA of the hub: the request is signed after the
    checks of its fields. *)
Definition handleRegisterNode (w : World) (q : ApiRequest) (h : Hub) : Hub * option api_reply :=
  match decoded dec_register q with
  | None => (h, Some (apiError StatusBadRequest))
  | Some req =>
      let complete := bool_decide (rqNodeID req ≠ [] ∧ rqNodeType req ≠ [] ∧ rqCSRPEM req ≠ []) in
      let '(ca, cert) :=
        match huCA h with
        | Some st =>
            if complete then
              let '(st', r) := SignCSR (wSerial w) (wNow w) (rqCSRPEM req) (rqNodeID req) (rqNodeType req) nodeCertValidity st in
              (Some st', match r with Ok c => Some c | Err _ => None end)
            else (Some st, None)
        | None => (None, None)
        end in
      let sign := (λ _, λ _, (λ c, ([], fmt_int (ctSerial c))) <$> cert) <$> huCA h in
      let '(ns, r) := HubStream.Register sign (wNow w) (wNow w) req (huNodes h) in
      (with_ca ca (with_nodes ns h),
       Some match r, cert with
            | Ok (_, serial), Some c => mkReply StatusCreated (BIssued c serial)
            | _, _ => apiError StatusBadRequest
            end)
  end.

Definition handleListNodes (h : Hub) : api_reply := mkReply StatusOK (BNodes (AsNodeInfos (huNodes h))).

(** NodeStore.Delete: the serial of the record is revoked; Revoke cannot fail
    on a number. *)
Definition handleDeleteNode (id : gostring) (h : Hub) : Hub * option api_reply :=
  let '(ns, serial) := DeleteNode id (huNodes h) in
  let ca := match huCA h, serial ≫= λ s, parse_digits s 0 with
            | Some (c, f), Some n => Some (Revoke n c, f)
            | ca, _ => ca
            end in
  (with_ca ca (with_nodes ns h), Some (mkReply StatusNoContent BEmpty)).

(** * Mirrors *)

Definition no_mirrors : api_reply := writeJSONError StatusServiceUnavailable $"mirror registry disabled".

Definition handleListMirrors (h : Hub) : api_reply :=
  match huMirrors h with None => no_mirrors | Some m => mkReply StatusOK (BMirrors (List_ m)) end.

Definition handleGetMirror (host : gostring) (h : Hub) : api_reply :=
  match huMirrors h with
  | None => no_mirrors
  | Some m => match Mirrors.Get host m with
              | None => writeJSONError StatusNotFound $"mirror not found"
              | Some x => mkReply StatusOK (BMirror x)
              end
  end.

(** The zero value of MirrorHealth. *)
Definition mh_none : MirrorHealth := mkMirrorHealth [] time_zero ∅ [] 0 0 false [] 0 [].

Definition mh_set_host (host : gostring) (m : MirrorHealth) : MirrorHealth :=
  mkMirrorHealth host (LastCheck m) (Regions m) (Verdict m) (BlockedCount m) (TotalChecked m) (ManualBlock m)
    (ManualNote m) (mhWeight m) (TargetTenants m).

Definition handlePutMirror (w : World) (host : gostring) (q : ApiRequest) (h : Hub) : Hub * option api_reply :=
  match huMirrors h with
  | None => (h, Some no_mirrors)
  | Some m =>
      match decoded dec_mirror q with
      | None => (h, Some (apiError StatusBadRequest))
      | Some mh =>
          let mh := if decide (mhHost mh = []) then mh_set_host host mh else mh in
          if decide (mhHost mh ≠ host) then (h, Some (mkReply StatusBadRequest (BMismatch (mhHost mh) host)))
          else match Mirrors.Upsert (wEnv w) mh m with
          | (m', Some _) => (with_mirrors m' h, Some (apiError StatusBadRequest))
          | (m', None) =>
              (with_mirrors m' h,
               Some match Mirrors.Get host m' with
                    | None => apiError StatusInternalServerError
                    | Some x => mkReply StatusOK (BMirror x)
                    end)
          end
      end
  end.

Definition handleDeleteMirror (w : World) (host : gostring) (h : Hub) : Hub * option api_reply :=
  match huMirrors h with
  | None => (h, Some no_mirrors)
  | Some m =>
      match Mirrors.Delete (wEnv w) host m with
      | (m', Some _) => (with_mirrors m' h, Some (apiError StatusInternalServerError))
      | (m', None) => (with_mirrors m' h, Some (mkReply StatusNoContent BEmpty))
      end
  end.

Definition handleForceBlockMirror (w : World) (host : gostring) (q : ApiRequest) (h : Hub) : Hub * option api_reply :=
  match huMirrors h with
  | None => (h, Some no_mirrors)
  | Some m =>
      match if Z.ltb 0 (aqLength q) then decoded dec_note q else Some [] with
      | None => (h, Some (apiError StatusBadRequest))
      | Some note =>
          match Mirrors.ForceBlock (wEnv w) host note m with
          | (m', Some _) => (with_mirrors m' h, Some (apiError StatusBadRequest))
          | (m', None) => (with_mirrors m' h, Some (mkReply StatusOK (BMirror (default mh_none (Mirrors.Get host m')))))
          end
      end
  end.

Definition handleUnblockMirror (w : World) (host : gostring) (h : Hub) : Hub * option api_reply :=
  match huMirrors h with
  | None => (h, Some no_mirrors)
  | Some m =>
      match Mirrors.Unblock (wEnv w) host m with
      | (m', Some _) => (with_mirrors m' h, Some (apiError StatusBadRequest))
      | (m', None) =>
          (with_mirrors m' h,
           Some match Mirrors.Get host m' with
                | None => writeJSONError StatusNotFound $"mirror not found"
                | Some x => mkReply StatusOK (BMirror x)
                end)
      end
  end.

(** The regions of the body are not used. *)
Definition handleCheckMirrors (w : World) (h : Hub) : Hub * option api_reply :=
  match huMirrors h with
  | None => (h, Some no_mirrors)
  | Some m =>
      match huMonitor h with
      | None => (h, Some (writeJSONError StatusServiceUnavailable $"monitor disabled"))
      | Some mcfg =>
          match CheckOnce (wClient w) (wProbeEnv w) mcfg (LoadCheckHostSettings settings_yaml (huSettings h)) m with
          | (m', []) => (with_mirrors m' h, Some (mkReply StatusAccepted BStarted))
          | (m', _ :: _) => (with_mirrors m' h, Some (apiError StatusInternalServerError))
          end
      end
  end.

Definition handleGetCheckHostSettings (h : Hub) : api_reply :=
  match huMirrors h with
  | None => no_mirrors
  | Some _ =>
      match LoadCheckHostSettings settings_yaml (huSettings h) with
      | None => apiError StatusInternalServerError
      | Some s => mkReply StatusOK (BSettings s)
      end
  end.

(** SaveCheckHostSettings; [io] is the outcome of the directory and the atomic
    write. None is an error. *)
Definition SaveCheckHostSettings (io : bool) (s : CheckHostSettings) : option settings_file :=
  match settings_marshal s with
  | None => None
  | Some data => if io then Some (SFData data) else None
  end.

Definition handlePutCheckHostSettings (w : World) (q : ApiRequest) (h : Hub) : Hub * option api_reply :=
  match huMirrors h with
  | None => (h, Some no_mirrors)
  | Some _ =>
      match decoded dec_settings q with
      | None => (h, Some (apiError StatusBadRequest))
      | Some s =>
          match SaveCheckHostSettings (wSettings w) s with
          | None => (h, Some (apiError StatusInternalServerError))
          | Some f => (with_settings f h, Some (mkReply StatusOK (BSettings s)))
          end
      end
  end.

(** The forwarded headers are the request's without Host and Connection. *)
Definition proxyTorpool (path : gostring) (q : ApiRequest) : api_reply :=
  match torpool with
  | None => writeJSONError StatusServiceUnavailable $"torpool proxy disabled"
  | Some rt =>
      let method := if decide (path = $"/scale") then MethodPost else MethodGet in
      let hd := delete $"Host" (delete $"Connection" (ReqHeader (aqReq q))) in
      match rt method path hd (Transport.limit_bytes maxBytes (aqBody q)) with
      | None => apiError StatusBadGateway
      | Some resp => mkReply (mStatus resp) (BPool resp)
      end
  end.

(** * The guard and the table of handlers *)

Definition serve_route (w : World) (rt : route) (nodeID : gostring) (q : ApiRequest) (h : Hub) : Hub * option api_reply :=
  let put := bool_decide (Method (aqReq q) = MethodPut) in
  let del := bool_decide (Method (aqReq q) = MethodDelete) in
  match rt with
  | RtTenants => (h, Some (handleListTenants h))
  | RtTenant host =>
      if put then handlePutTenant w host q h
      else if del then handleDeleteTenant w host h
      else (h, Some (handleGetTenant host h))
  | RtGlobals => if put then handlePutGlobals w q h else (h, Some (handleGetGlobals h))
  | RtRegister => handleRegisterNode w q h
  | RtNodes => (h, Some (handleListNodes h))
  | RtNode id => handleDeleteNode id h
  | RtStream => (h, Some (mkReply StatusOK (BStream nodeID)))
  | RtMirrors => (h, Some (handleListMirrors h))
  | RtMirror host =>
      if put then handlePutMirror w host q h
      else if del then handleDeleteMirror w host h
      else (h, Some (handleGetMirror host h))
  | RtForceBlock host => handleForceBlockMirror w host q h
  | RtUnblock host => handleUnblockMirror w host h
  | RtCheck => handleCheckMirrors w h
  | RtSettings => if put then handlePutCheckHostSettings w q h else (h, Some (handleGetCheckHostSettings h))
  | RtPool path => (h, Some (proxyTorpool path q))
  end.

Definition requireMTLS (w : World) (rt : route) (q : ApiRequest) (h : Hub) : Hub * option api_reply :=
  match aqPeer q with
  | None => (h, Some (writeJSONError StatusUnauthorized $"mTLS required"))
  | Some leaf =>
      match huCA h with
      | None => (h, Some (writeJSONError StatusInternalServerError $"CA not configured"))
      | Some (c, _) =>
          match VerifyPeer c leaf with
          | PeerRevoked | PeerBad true => (h, Some (writeJSONError StatusForbidden $"certificate revoked"))
          | PeerBad false => (h, Some (writeJSONError StatusUnauthorized $"cert verification failed"))
          | Peer nodeID _ => serve_route w rt nodeID q (with_nodes (Touch (wNow w) nodeID (huNodes h)) h)
          end
      end
  end.

(** Handler. *)
Definition Serve (w : World) (q : ApiRequest) (h : Hub) : Hub * option api_reply :=
  match route_of (aqReq q) with
  | RedirectClean => (h, Some (mkReply StatusMovedPermanently BEmpty))
  | NoRoute => (h, Some (mkReply StatusNotFound (BError $"404 page not found")))
  | MethodWrong => (h, Some (mkReply StatusMethodNotAllowed (BError $"Method Not Allowed")))
  | Routed RtRegister => handleRegisterNode w q h
  | Routed rt => requireMTLS w rt q h
  end.

(** * Who may do what *)

(** The node a request comes from, as the guard sees it. *)
Definition sender (q : ApiRequest) (h : Hub) : option gostring :=
  match aqPeer q, huCA h with
  | Some leaf, Some (c, _) => match VerifyPeer c leaf with Peer id _ => Some id | _ => None end
  | _, _ => None
  end.

Lemma guard_rejects w rt q h :
  sender q h = None → ∃ status msg, requireMTLS w rt q h = (h, Some (writeJSONError status msg)).
Proof.
  unfold sender, requireMTLS. destruct (aqPeer q) as [leaf|]; [|eauto]. destruct (huCA h) as [[c f]|]; [|eauto].
  destruct (VerifyPeer c leaf) as [id t| |[]]; [done|eauto..].
Qed.

Lemma guard_admits w rt q h id :
  sender q h = Some id → requireMTLS w rt q h = serve_route w rt id q (with_nodes (Touch (wNow w) id (huNodes h)) h).
Proof.
  unfold sender, requireMTLS. destruct (aqPeer q) as [leaf|]; [|done]. destruct (huCA h) as [[c f]|]; [|done].
  destruct (VerifyPeer c leaf) as [id' t| |[]]; [|done..]. by intros [= ->].
Qed.

Lemma register_effect w q h h' reply :
  handleRegisterNode w q h = (h', reply) →
  huReg h' = huReg h ∧ huMirrors h' = huMirrors h ∧ huSettings h' = huSettings h ∧
  (huNodes h' = huNodes h ∨ ∃ rec, huNodes h' = <[nrID rec := rec]> (huNodes h)) ∧
  (∃ r, reply = Some r ∧ (r = apiError StatusBadRequest ∨ ∃ c s, r = mkReply StatusCreated (BIssued c s))).
Proof.
  unfold handleRegisterNode. destruct (decoded dec_register q) as [req|]; [|intros [= <- <-]; eauto 10].
  set (cc := match huCA h with Some _ => _ | None => _ end). destruct cc as [ca cert].
  destruct (HubStream.Register _ _ _ req (huNodes h)) as [ns r] eqn:Hr. intros Heq. injection Heq as <- <-.
  cbn [huReg huMirrors huSettings huNodes with_ca with_nodes]. split_and!; try done.
  - unfold HubStream.Register in Hr. repeat case_decide; try (injection Hr as <- <-; by left).
    destruct ((λ _, λ _, _) <$> huCA h) as [f|]; [|injection Hr as <- <-; by left].
    destruct (f req) as [[der serial]|]; injection Hr as <- <-; [right|by left]. by eexists (mkNodeRecord _ _ _ _ _ _ _).
  - eexists. split; [done|]. destruct r as [[x serial]|]; [|by left]. destruct cert; [right; eauto|by left].
Qed.

(** A request is turned away by the mux, registers a node, or is guarded. *)
Lemma Serve_cases w q h :
  (∃ r, Serve w q h = (h, Some r) ∧ match apBody r with BEmpty | BError _ => True | _ => False end) ∨
  (route_of (aqReq q) = Routed RtRegister ∧ Serve w q h = handleRegisterNode w q h) ∨
  (∃ rt, route_of (aqReq q) = Routed rt ∧ rt ≠ RtRegister ∧ Serve w q h = requireMTLS w rt q h).
Proof.
  unfold Serve. destruct (route_of (aqReq q)) as [rt| | |]; [|left; eexists; (split; [reflexivity|exact I])..].
  destruct rt; (right; left; split; reflexivity) || (right; right; eexists; split_and!; [reflexivity|discriminate|reflexivity]).
Qed.

(** A request without a certificate that the hub's authority verifies
    changes nothing but, when it registers a node, that node's record and the
    serial counter: no tenant, no global setting, no mirror and no check-host
    setting. It learns nothing either: the answer is an error, a redirect, or
    the certificate it asked for. *)
Theorem hub_api_guarded w q h h' reply :
  Serve w q h = (h', reply) → sender q h = None →
  huReg h' = huReg h ∧ huMirrors h' = huMirrors h ∧ huSettings h' = huSettings h ∧
  (huNodes h' = huNodes h ∨
   route_of (aqReq q) = Routed RtRegister ∧ ∃ rec, huNodes h' = <[nrID rec := rec]> (huNodes h)) ∧
  ∃ r, reply = Some r ∧ (match apBody r with BEmpty | BError _ | BIssued _ _ => True | _ => False end).
Proof.
  intros Hs Hn. destruct (Serve_cases w q h) as [(r & HS & Hr)|[(Hrt & HS)|(rt & Hrt & Hne & HS)]]; rewrite HS in Hs.
  - injection Hs as <- <-. split_and!; [done..|by left|]. exists r. split; [done|]. by destruct (apBody r).
  - apply register_effect in Hs as (-> & -> & -> & Hns & r & -> & Hr). split_and!; try done.
    + destruct Hns as [Hns|Hns]; [by left|by right].
    + exists r. split; [done|]. by destruct Hr as [-> |(c & s & ->)].
  - destruct (guard_rejects w rt q h Hn) as (st & msg & Hrej). rewrite Hrej in Hs. injection Hs as <- <-.
    split_and!; [done..|by left|]. eexists. split; [reflexivity|exact I].
Qed.

Definition with_peer (p : option Certificate) (q : ApiRequest) : ApiRequest :=
  mkApiRequest (aqReq q) (aqBody q) (aqLength q) p.

(** The handlers that do not touch the node store. *)
Definition nodeless (rt : route) : Prop :=
  match rt with RtRegister | RtNodes | RtNode _ | RtStream => False | _ => True end.

Lemma serve_route_nodeless w rt id q p n h :
  nodeless rt →
  serve_route w rt id (with_peer p q) (with_nodes n h) =
  (with_nodes n (serve_route w rt [] q h).1, (serve_route w rt [] q h).2).
Proof.
  intros Hrt. destruct rt; try done; cbn [serve_route aqReq with_peer];
    unfold handlePutTenant, handleDeleteTenant, handlePutGlobals, handlePutMirror, handleDeleteMirror, handleForceBlockMirror,
      handleUnblockMirror, handleCheckMirrors, handlePutCheckHostSettings, decoded;
    cbn [aqReq aqBody aqLength with_peer huReg huMirrors huMonitor huSettings huNodes huCA with_nodes];
    repeat case_match; done.
Qed.

(** The API does not tell its callers apart: whatever certificate of the
    authority a request comes with, an edge's like an operator's, the answer
    is the same and tenants, globals, mirrors and settings change in the same
    way. *)
Theorem hub_api_any_node_is_admin w q p h rt h1 r1 h2 r2 :
  Serve w q h = (h1, r1) → Serve w (with_peer p q) h = (h2, r2) →
  is_Some (sender q h) → is_Some (sender (with_peer p q) h) →
  route_of (aqReq q) = Routed rt → nodeless rt →
  r1 = r2 ∧ huReg h1 = huReg h2 ∧ huMirrors h1 = huMirrors h2 ∧ huSettings h1 = huSettings h2.
Proof.
  intros Hs1 Hs2 [id1 Hi1] [id2 Hi2] Hrt Hn.
  assert (HS : ∀ q', aqReq q' = aqReq q → Serve w q' h = requireMTLS w rt q' h).
  { intros q' Hq. unfold Serve. rewrite Hq, Hrt. by destruct rt. }
  rewrite HS, (guard_admits w rt q h id1) in Hs1 by done. rewrite HS, (guard_admits _ _ _ _ id2) in Hs2 by done.
  assert (Hq : q = with_peer (aqPeer q) q) by by destruct q. rewrite Hq in Hs1.
  rewrite serve_route_nodeless in Hs1, Hs2 by done. injection Hs1 as <- <-. by injection Hs2 as <- <-.
Qed.

(** What a registration that the authority signs does. *)
Lemma register_signed w q h st st' req cert :
  decoded dec_register q = Some req → rqNodeID req ≠ [] → rqNodeType req ≠ [] → rqCSRPEM req ≠ [] →
  huCA h = Some st →
  SignCSR (wSerial w) (wNow w) (rqCSRPEM req) (rqNodeID req) (rqNodeType req) nodeCertValidity st = (st', Ok cert) →
  let rec := mkNodeRecord (rqNodeID req) (rqNodeType req) (rqPublicKey req) (fmt_int (ctSerial cert)) [] (wNow w) (wNow w) in
  handleRegisterNode w q h =
  (with_ca (Some st') (with_nodes (<[rqNodeID req := rec]> (huNodes h)) h),
   Some (mkReply StatusCreated (BIssued cert (fmt_int (ctSerial cert))))).
Proof.
  intros Hd H1' H2' H3' Hca Hsign. unfold handleRegisterNode. rewrite Hd, Hca, bool_decide_eq_true_2, Hsign by done.
  cbn [fmap option_fmap option_map]. unfold HubStream.Register. by rewrite !decide_False.
Qed.

(** Registration is open. A request without any certificate that names a
    node, even one that is registered already, and brings a signing request
    for that name is answered with a certificate of the authority: the
    caller is from then on that node, and the node's restriction to its
    assigned tenants is gone. *)
Theorem hub_register_open `{!X509Laws} w q h c f st' req cert :
  aqPeer q = None → route_of (aqReq q) = Routed RtRegister → decoded dec_register q = Some req →
  huCA h = Some (c, f) → rqCSRPEM req ≠ [] → plain_id (rqNodeID req) → ctSerial cert ∉ revoked c →
  SignCSR (wSerial w) (wNow w) (rqCSRPEM req) (rqNodeID req) (rqNodeType req) nodeCertValidity (c, f) = (st', Ok cert) →
  let h' := (Serve w q h).1 in
  (Serve w q h).2 = Some (mkReply StatusCreated (BIssued cert (fmt_int (ctSerial cert)))) ∧
  (∀ host, TenantAllowed (huNodes h') (rqNodeID req) host = true) ∧
  (∀ q', aqPeer q' = Some cert → sender q' h' = Some (rqNodeID req)).
Proof.
  intros Hp Hrt Hd Hca Hcsr Hid Hnr Hsign. cbv zeta. unfold Serve. rewrite Hrt.
  pose proof (SignCSR_Ok _ _ _ _ _ _ _ _ _ Hsign) as (Hne & Ht & Hcr & Hcert & Hst & _).
  assert (Htne : rqNodeType req ≠ []) by (by apply plain_type in Ht as [_ ?]).
  rewrite (register_signed w q h (c, f) st' req cert) by done. cbn [fst snd]. split_and!; [done| |].
  - intros host. unfold TenantAllowed. cbn [huNodes with_ca with_nodes]. by rewrite lookup_insert_eq.
  - intros q' Hq'. unfold sender. cbn [huCA with_ca with_nodes]. rewrite Hq'. destruct st' as [c' f'].
    assert (Hrev : revoked c' = revoked c).
    { apply (f_equal fst) in Hst. cbn [fst] in Hst. subst c'. unfold allocateSerial.
      destruct (caDir c); [destruct (wSerial w)|]; done. }
    unfold VerifyPeer, IsRevoked. rewrite created_signed, Hrev, bool_decide_eq_false_2 by done. cbn [negb].
    rewrite Hcert, client_cert_identity by done. done.
Qed.

(** * Tenants *)

Lemma UpsertTenant_Done e t (r r' : HubRegistry.Registry D) :
  UpsertTenant e t r = (r', HubRegistry.Done) →
  tcHost t ≠ [] ∧ tenant_map r' = <[tcHost t := t]> (tenant_map r) ∧
  ∃ d, tenant_marshal (set_host (tcHost t) t) = Some d ∧
       stTenants (storage r') = <[TenantPath (tcHost t) := d]> (stTenants (storage r)).
Proof.
  unfold UpsertTenant, WriteTenant. destruct (ctx_ok e); cbn [negb]; [|done]. destruct (decide (tcHost t = [])) as [|Hne]; [done|].
  destruct (tenant_marshal _) as [d|] eqn:Hd; [|done]. destruct (disk_ok e); [|done].
  unfold tenant_map. destruct (tenants r) as [ts|]; [|done]. destruct (NewTenantUpsertEvent _ _); [|done].
  intros Heq. apply (f_equal fst) in Heq. cbn [fst] in Heq. subst r'. split_and!; [done|done|]. by exists d.
Qed.

(** A request by a node: the handler's route and its peer. *)
Definition request_of (q : ApiRequest) (h : Hub) (rt : route) : Prop :=
  route_of (aqReq q) = Routed rt ∧ is_Some (sender q h).

Lemma Serve_nodeless w q h rt :
  request_of q h rt → nodeless rt →
  ∃ n, Serve w q h = (with_nodes n (serve_route w rt [] q h).1, (serve_route w rt [] q h).2).
Proof.
  intros [Hrt [id Hid]] Hn. exists (Touch (wNow w) id (huNodes h)). unfold Serve. rewrite Hrt.
  assert (Hq : q = with_peer (aqPeer q) q) by by destruct q.
  transitivity (requireMTLS w rt q h); [by destruct rt|]. rewrite (guard_admits _ _ _ _ id) by done.
  rewrite Hq at 1. by rewrite serve_route_nodeless.
Qed.

(** Tenants are stored as they are sent: after a PUT that is answered 200, a
    GET of the same host returns the tenant of that answer, whose host is the
    host of the path; a GET of any other host answers as before. *)
Theorem hub_tenant_roundtrip w w' q q' h host host' :
  request_of q h (RtTenant host) → Method (aqReq q) = MethodPut →
  (apStatus <$> (Serve w q h).2) = Some StatusOK →
  let h' := (Serve w q h).1 in
  request_of q' h' (RtTenant host') → Method (aqReq q') = MethodGet →
  ∃ t, (Serve w q h).2 = Some (mkReply StatusOK (BTenant t)) ∧ tcHost t = host ∧
    (Serve w' q' h').2 = Some (if decide (host' = host) then mkReply StatusOK (BTenant t) else handleGetTenant host' h).
Proof.
  intros Hq Hm Hok h' Hq' Hm'. destruct (Serve_nodeless w' q' h' (RtTenant host') Hq' I) as [n' HS']. rewrite HS'. clear Hq' HS'.
  cbn [snd serve_route]. rewrite Hm', !bool_decide_eq_false_2 by done. subst h'.
  destruct (Serve_nodeless w q h (RtTenant host) Hq I) as [n HS]. rewrite HS in Hok |- *. clear HS.
  cbn [fst snd serve_route] in Hok |- *. rewrite Hm, bool_decide_eq_true_2 in Hok |- * by done. unfold handlePutTenant in Hok |- *.
  destruct (decoded dec_tenant q) as [t0|]; [|done]. set (t := if decide (tcHost t0 = []) then _ else t0) in *.
  destruct (decide (tcHost t ≠ host)) as [|Hh]; [done|]. apply dec_stable in Hh.
  destruct (UpsertTenant (wEnv w) t (huReg h)) as [r []] eqn:Hu; [|done..].
  apply UpsertTenant_Done in Hu as (_ & Hts & _). cbn [fst snd]. exists t. split_and!; [done|done|].
  unfold handleGetTenant, Tenant. cbn [huReg with_reg with_nodes]. rewrite Hts, Hh.
  case_decide as Heq; [by rewrite Heq, lookup_insert_eq|by rewrite lookup_insert_ne by done].
Qed.

(** Globals are not validated when they are stored: a PUT of globals that
    the hub itself would refuse to load is answered 200, and at the next start
    the hub has lost every tenant, although their files are there. *)
Theorem hub_put_globals_loses_tenants w q h g :
  request_of q h RtGlobals → Method (aqReq q) = MethodPut →
  (Serve w q h).2 = Some (mkReply StatusOK (BGlobals g)) →
  (∀ d, globals_marshal g = Some d → globals_unmarshal d = Some g) → validateGlobals g = Err ErrBlockResponse →
  stGlobalsStatErr (storage (huReg h)) = false →
  let s := storage (huReg (Serve w q h).1) in
  stTenants s = stTenants (storage (huReg h)) ∧ tenants (HubRegistry.New s) = None.
Proof.
  intros Hq Hm Hok Hrt Hbad Hstat. cbv zeta. destruct (Serve_nodeless w q h RtGlobals Hq I) as [n HS]. rewrite HS in Hok |- *. clear HS.
  cbn [fst snd serve_route] in Hok |- *. rewrite Hm, bool_decide_eq_true_2 in Hok |- * by done. unfold handlePutGlobals in Hok |- *. destruct (decoded dec_globals q) as [g0|]; [|done].
  unfold SetGlobals, WriteGlobals in Hok |- *. destruct (ctx_ok (wEnv w)); cbn [negb] in Hok |- *; [|done].
  destruct (globals_marshal g0) as [d|] eqn:Hd; [|done]. destruct (disk_ok (wEnv w)); [|done].
  destruct (globals_json g0); [|done]. cbn [snd] in Hok. apply (inj Some) in Hok. injection Hok as ->.
  cbn [fst huReg with_reg with_nodes]. split; [done|].
  unfold HubRegistry.New, LoadFromDisk, LoadAll, LoadGlobalsFile. cbn [storage set_state broadcast set_subs stGlobals stGlobalsStatErr].
  rewrite Hstat, (Hrt d Hd), Hbad. done.
Qed.

(** * Removal of a node *)

Lemma Touch_serial now id ns : nrCertSerial <$> Touch now id ns !! id = nrCertSerial <$> ns !! id.
Proof. unfold Touch. destruct (ns !! id) as [r|] eqn:E; [by rewrite lookup_insert_eq|by rewrite E]. Qed.

Lemma Touch_serial_at now id id' ns : nrCertSerial <$> Touch now id ns !! id' = nrCertSerial <$> ns !! id'.
Proof.
  destruct (decide (id = id')) as [-> |Hne]; [apply Touch_serial|].
  unfold Touch. destruct (ns !! id); [by rewrite lookup_insert_ne|done].
Qed.

Lemma delete_serial id ns n :
  (0 ≤ n)%Z → nrCertSerial <$> ns !! id = Some (fmt_int n) →
  DeleteNode id ns = (delete id ns, Some (fmt_int n)).
Proof.
  intros Hn Hs. unfold DeleteNode. destruct (ns !! id) as [r|]; [|done]. apply (inj Some) in Hs. rewrite Hs.
  rewrite decide_False; [done|]. intros Hnil. pose proof (parse_digits_fmt n Hn) as Hp. rewrite Hnil in Hp. cbn in Hp.
  injection Hp as <-. by vm_compute in Hnil.
Qed.

(** DELETE of a node revokes the certificate of its latest registration and
    no other: the record is gone, requests with that certificate are refused,
    and requests with any other certificate, an earlier one of the same node
    included, are told apart exactly as before. *)
Theorem hub_delete_revokes_latest w q h id c f n :
  request_of q h (RtNode id) → huCA h = Some (c, f) →
  (0 ≤ n)%Z → nrCertSerial <$> huNodes h !! id = Some (fmt_int n) →
  let h' := (Serve w q h).1 in
  huNodes h' !! id = None ∧
  ∀ q' cert, aqPeer q' = Some cert → sender q' h' = if decide (ctSerial cert = n) then None else sender q' h.
Proof.
  intros [Hrt [by_ Hid]] Hca Hn Hser. cbv zeta. unfold Serve. rewrite Hrt, (guard_admits _ _ _ _ by_) by done.
  cbn [serve_route]. unfold handleDeleteNode. cbn [huNodes huCA with_nodes].
  rewrite (delete_serial id _ n) by (done || by rewrite Touch_serial_at).
  rewrite Hca. cbn [mbind option_bind]. rewrite parse_digits_fmt by done. cbn [fst huNodes huCA with_nodes with_ca].
  split; [by rewrite lookup_delete_eq|]. intros q' cert Hq'. unfold sender. rewrite Hq', Hca. cbn [huCA with_ca].
  unfold VerifyPeer, IsRevoked, Revoke. cbn [revoked]. destruct (signed cert); cbn [negb]; [|by case_decide].
  case_decide as Hc; [by rewrite bool_decide_eq_true_2 by set_solver|].
  replace (bool_decide (ctSerial cert ∈ {[n]} ∪ revoked c)) with (bool_decide (ctSerial cert ∈ revoked c)); [done|].
  apply bool_decide_ext. set_solver.
Qed.
End api.

(** * Examples *)

(** A hub with one node, whose tenants are the documents themselves. *)
#[local] Instance hq_yaml : ConfYaml (TenantConf + GlobalsConf) := {|
  tenant_marshal t := Some (inl t); tenant_unmarshal d := match d with inl t => Some t | _ => None end;
  globals_marshal g := Some (inr g); globals_unmarshal d := match d with inr g => Some g | _ => None end |}.
#[local] Instance hq_json : HubJson := {|
  payload_encodes _ := true; tenant_json _ := Some []; globals_json _ := Some [] |}.
#[local] Instance hq_codec : YamlCodec MirrorHealth := {| yaml_marshal := Some; yaml_unmarshal := Some |}.
#[local] Instance hq_unicode : GoUnicode := {| unicode_lower s := s; unicode_upper s := s; unicode_trim s := s |}.
#[local] Instance hq_x509 : X509 := {| parse_csr s := Some (mkCSR s true); creates _ := true; signed _ := true |}.
#[local] Instance hq_x509_laws : X509Laws.
Proof. by split. Qed.

Definition hq_globals : GlobalsConf := mkGlobalsConf ∅ $"nonsense" 0 [] [].

#[local] Instance hq_api : ApiJson := {|
  dec_tenant _ _ := Some (set_host [] hx_tenant); dec_globals _ _ := Some hq_globals;
  dec_register _ _ := Some (mkRegisterRequest $"edge-1" $"proxy" $"edge-1" []);
  dec_mirror _ _ := None; dec_note _ _ := None; dec_settings _ _ := None |}.

Definition hq_cert (serial : Z) : Certificate := client_cert $"edge-1" $"proxy" 0 nodeCertValidity serial.
Definition hq_record : NodeRecord := mkNodeRecord $"edge-1" $"proxy" [] $"2" [$"a.example"] 0 0.
Definition hq_hub : Hub :=
  mkHub (D := TenantConf + GlobalsConf) (M := MirrorHealth)
    (HubRegistry.New (mkStorage None false ∅ DirOK)) None None SFMissing {[ $"edge-1" := hq_record ]}
    (Some (mkCA 3 true ∅, Some 3%Z)).
Definition hq_world : World := mkWorld (env_fine 1) 0 SerialWritten true (λ _, None) (λ _, env_fine 1).
Definition hq_request (method path : gostring) (peer : option Certificate) : ApiRequest :=
  mkApiRequest (mkRequest method path [] [] $"hub" $"10.0.0.1:1" ∅ ∅) [] 0 peer.
Definition hq_serve : ApiRequest → Hub → Hub * option api_reply := Serve (λ _, None) (λ _, None) None hq_world.

Lemma hub_api_guarded_witness :
  let q := hq_request MethodPut $"/v1/globals" None in
  huReg (hq_serve q hq_hub).1 = huReg hq_hub.
Proof.
  intros q. destruct (hq_serve q hq_hub) as [h' r] eqn:Hs.
  by destruct (hub_api_guarded (λ _, None) (λ _, None) None hq_world q hq_hub h' r Hs eq_refl) as (HR & _).
Defined.

Lemma hub_api_any_node_is_admin_witness :
  let q := hq_request MethodPut $"/v1/globals" (Some (client_cert $"ops" $"hub" 0 Hour 1)) in
  let q' := with_peer (Some (hq_cert 2)) q in
  (hq_serve q hq_hub).2 = (hq_serve q' hq_hub).2 ∧ huReg (hq_serve q hq_hub).1 = huReg (hq_serve q' hq_hub).1.
Proof.
  intros q q'. destruct (hq_serve q hq_hub) as [h1 r1] eqn:H1. destruct (hq_serve q' hq_hub) as [h2 r2] eqn:H2.
  destruct (hub_api_any_node_is_admin (λ _, None) (λ _, None) None hq_world q (Some (hq_cert 2)) hq_hub RtGlobals h1 r1 h2 r2 H1 H2)
    as (HR & HG & _); [by exists $"ops"|by exists $"edge-1"|reflexivity|exact I|]. by split.
Defined.

Lemma hub_register_open_witness :
  let q := hq_request MethodPost $"/v1/nodes/register" None in
  TenantAllowed (huNodes hq_hub) $"edge-1" $"b.example" = false ∧
  TenantAllowed (huNodes (hq_serve q hq_hub).1) $"edge-1" $"b.example" = true.
Proof.
  intros q. split; [reflexivity|].
  destruct (hub_register_open (λ _, None) (λ _, None) None hq_world q hq_hub (mkCA 3 true ∅) (Some 3%Z) (mkCA 4 true ∅, Some 4%Z)
    (mkRegisterRequest $"edge-1" $"proxy" $"edge-1" []) (hq_cert 3)) as (_ & HT & _).
  - reflexivity.
  - vm_compute. reflexivity.
  - reflexivity.
  - reflexivity.
  - discriminate.
  - split; [apply (bool_decide_unpack _); vm_compute; exact I|].
    split; [apply (bool_decide_unpack _); vm_compute; exact I|reflexivity].
  - apply not_elem_of_empty.
  - vm_compute. reflexivity.
  - exact (HT $"b.example").
Defined.

Lemma hub_tenant_roundtrip_witness :
  let h' := (hq_serve (hq_request MethodPut $"/v1/tenants/a.example" (Some (hq_cert 2))) hq_hub).1 in
  ∃ t, tcHost t = $"a.example" ∧
    (hq_serve (hq_request MethodGet $"/v1/tenants/a.example" (Some (hq_cert 2))) h').2 = Some (mkReply StatusOK (BTenant t)).
Proof.
  intros h'. destruct (hub_tenant_roundtrip (λ _, None) (λ _, None) None hq_world hq_world
    (hq_request MethodPut $"/v1/tenants/a.example" (Some (hq_cert 2))) (hq_request MethodGet $"/v1/tenants/a.example" (Some (hq_cert 2)))
    hq_hub $"a.example" $"a.example") as (t & _ & Ht & HG).
  - split; [vm_compute; reflexivity|by exists $"edge-1"].
  - reflexivity.
  - vm_compute. reflexivity.
  - split; [vm_compute; reflexivity|by exists $"edge-1"].
  - reflexivity.
  - exists t. split; [exact Ht|exact HG].
Defined.

Lemma hub_put_globals_loses_tenants_witness :
  let q := hq_request MethodPut $"/v1/globals" (Some (hq_cert 2)) in
  tenants (HubRegistry.New (storage (huReg (hq_serve q hq_hub).1))) = None.
Proof.
  intros q. refine (proj2 (hub_put_globals_loses_tenants (λ _, None) (λ _, None) None hq_world q hq_hub hq_globals _ _ _ _ _ _)).
  - split; [vm_compute; reflexivity|by exists $"edge-1"].
  - reflexivity.
  - vm_compute. reflexivity.
  - by intros d [= <-].
  - reflexivity.
  - reflexivity.
Defined.

Lemma hub_delete_revokes_latest_witness :
  let h' := (hq_serve (hq_request MethodDelete $"/v1/nodes/edge-1" (Some (hq_cert 2))) hq_hub).1 in
  sender (hq_request MethodGet $"/v1/tenants" (Some (hq_cert 2))) h' = None ∧
  sender (hq_request MethodGet $"/v1/tenants" (Some (hq_cert 1))) h' = Some $"edge-1".
Proof.
  intros h'. destruct (hub_delete_revokes_latest (λ _, None) (λ _, None) None hq_world
    (hq_request MethodDelete $"/v1/nodes/edge-1" (Some (hq_cert 2))) hq_hub $"edge-1" (mkCA 3 true ∅) (Some 3%Z) 2) as (_ & HS).
  - split; [vm_compute; reflexivity|by exists $"edge-1"].
  - reflexivity.
  - done.
  - vm_compute. reflexivity.
  - split.
    + exact (HS (hq_request MethodGet $"/v1/tenants" (Some (hq_cert 2))) (hq_cert 2) eq_refl).
    + exact (HS (hq_request MethodGet $"/v1/tenants" (Some (hq_cert 1))) (hq_cert 1) eq_refl).
Defined.
