(* ===== verification/AdminRouter.v ===== *)
(** The admin API behind the gate (src/internal/admin/router.go) and the hub's
    adapter to it (src/cmd/gateway-hub/admin_adapter.go): routing, the hub
    guard, every handler and the audit trail of what they change.

    Hub, features and metrics are interfaces in the code; here they are records
    of operations on a state of their own, so the handlers are proved against
    any implementation. JSON and time.Parse are parameters. *)

From S2P Require Import Prelude Float Http GoStd Shared Session Metrics Bolt AuditLog Mux.
From S2P Require Mirrors HubRegistry Config.
Import HubRegistry (TenantConf, tcHost, set_host, GlobalsConf, outcome, Done, Failed, Panicked).

(** * Interfaces *)

Record FeatureStatus := mkFeatureStatus { ftName : gostring; ftEnabled : bool }.

Record MetricsBucket := mkMetricsBucket { mbAt : time; mbRPS : float64; mbErrRate : float64; mbBackends : Z }.

Record HubAccess (S : Type) := mkHubAccess {
  ListTenants : S → list TenantConf;
  GetTenant : gostring → S → option TenantConf;
  UpsertTenant : Mirrors.Env → TenantConf → S → S * outcome;
  DeleteTenant : Mirrors.Env → gostring → S → S * outcome;
  GetGlobals : S → GlobalsConf;
  SetGlobals : Mirrors.Env → GlobalsConf → S → S * outcome;
  ListMirrors : S → list Mirrors.MirrorHealth
}.
Arguments mkHubAccess {S}.
Arguments ListTenants {S}.
Arguments GetTenant {S}.
Arguments UpsertTenant {S}.
Arguments DeleteTenant {S}.
Arguments GetGlobals {S}.
Arguments SetGlobals {S}.
Arguments ListMirrors {S}.

Inductive toggle_error := errFeatureUnknown | ErrToggle.

Record FeatureAccess (F : Type) := mkFeatureAccess {
  ListFeatures : F → list FeatureStatus;
  ToggleGlobal : gostring → bool → F → F * option toggle_error
}.
Arguments mkFeatureAccess {F}.
Arguments ListFeatures {F}.
Arguments ToggleGlobal {F}.

Record MetricsAccess := mkMetricsAccess { MetricsSnapshot : gostring; History : Z → list MetricsBucket }.

(** encoding/json on bodies and on the values of a diff, and time.Parse with
    RFC3339Nano. *)
Class RouterJson := {
  rj_tenant : gostring → option TenantConf;
  rj_globals : gostring → option GlobalsConf;
  rj_enabled : gostring → option bool;
  rj_tenant_value : TenantConf → json;
  rj_globals_value : GlobalsConf → json;
  rj_time : gostring → option time
}.

(** * Answers *)

Inductive router_body :=
| REmpty
| RError (msg : gostring)
| RMe (nodeID nodeType sessionID : gostring)
| RTenants (ts : list TenantConf)
| RTenant (t : TenantConf)
| RGlobals (g : GlobalsConf)
| RMirrors (ms : list Mirrors.MirrorHealth)
| RFeatures (fs : list FeatureStatus)
| RMetrics (text : gostring)
| RHistory (bs : list MetricsBucket)
| REvents (es : list Event).

Record router_reply := mkRouterReply { rrStatus : Z; rrBody : router_body }.

Definition errorJSON (status : Z) (msg : gostring) : router_reply := mkRouterReply status (RError msg).
Definition jsonOK (v : router_body) : router_reply := mkRouterReply StatusOK v.
Definition no_content : router_reply := mkRouterReply StatusNoContent REmpty.

(** What one request meets: context, disk and clock of the registry, the clock
    of the audit event, the audit files, and whether the index can be read. *)
Record RouterEnv := mkRouterEnv {
  rnHub : Mirrors.Env;
  rnNow : time;
  rnIO : AuditIO;
  rnView : bool
}.

(** * Routing *)

Inductive admin_route :=
| AtMe | AtLogout | AtTenants | AtTenantByHost | AtGlobals | AtMirrors | AtFeatures | AtFeatureToggle | AtMetrics
| AtMetricsHistory | AtAudit.

Definition admin_patterns (segs : list gostring) : option admin_route :=
  match segs with
  | [a; b] =>
      if decide (a ≠ $"api") then None
      else if decide (b = $"me") then Some AtMe
      else if decide (b = $"logout") then Some AtLogout
      else if decide (b = $"tenants") then Some AtTenants
      else if decide (b = $"globals") then Some AtGlobals
      else if decide (b = $"mirrors") then Some AtMirrors
      else if decide (b = $"features") then Some AtFeatures
      else if decide (b = $"metrics") then Some AtMetrics
      else if decide (b = $"audit") then Some AtAudit
      else None
  | a :: b :: c :: rest =>
      if decide (a ≠ $"api") then None
      else if decide (b = $"tenants") then Some AtTenantByHost
      else if decide (b = $"features") then Some AtFeatureToggle
      else if decide (b = $"metrics" ∧ c = $"history" ∧ rest = []) then Some AtMetricsHistory
      else None
  | _ => None
  end.

Section router.
Context (sha256 : gostring → gostring).
Context {S F B : Type} `{Bucket B} `{AuditCodec} `{RouterJson}.

(** [rtAudit] is None for a nil interface and Some false for an adapter around
    a nil log. *)
Record Routes := mkRoutes {
  rtNodeID : gostring;
  rtNodeType : gostring;
  rtHub : option (HubAccess S);
  rtFeatures : option (FeatureAccess F);
  rtMetrics : option MetricsAccess;
  rtAudit : option bool;
  rtLabeler : option Labeler
}.

Record RouterState := mkRouterState { rsHub : S; rsFeatures : F; rsAudit : Log B }.

Definition with_hub (s : S) (st : RouterState) : RouterState := mkRouterState s (rsFeatures st) (rsAudit st).

Definition requireHub (rs : Routes) : option (HubAccess S) :=
  if decide (rtNodeType rs ≠ Config.NodeTypeHub) then None else rtHub rs.

Definition hub_only : router_reply := errorJSON StatusForbidden $"route requires hub node".

(** The adapter of the audit log. *)
Definition Append (env : RouterEnv) (wired : bool) (e : Event) (l : Log B) : Log B :=
  if wired then fst (Write (rnIO env) e l) else l.

Definition QueryAudit (wired : bool) (since : time) (limit : Z) (l : Log B) : list Event :=
  if wired then Query since limit l else [].

Definition clientIPHash (q : Request) (l : option Labeler) : gostring :=
  match l with
  | None => []
  | Some l =>
      let host := match LastIndexByte (RemoteAddr q) ":"%char with
                  | Some (Datatypes.S i) => take (Datatypes.S i) (RemoteAddr q)
                  | _ => RemoteAddr q
                  end in
      ClientIP sha256 l host
  end.

Definition audit_event (rs : Routes) (env : RouterEnv) (q : Request) (action target : gostring)
    (diff : list (gostring * json)) : Event :=
  let sid := SessionIDFromRequest q in
  mkEvent (rnNow env) sid (clientIPHash q (rtLabeler rs)) (rtNodeID rs) action target diff sid.

Definition audit (rs : Routes) (env : RouterEnv) (q : Request) (action target : gostring)
    (diff : list (gostring * json)) (st : RouterState) : RouterState :=
  match rtAudit rs with
  | None => st
  | Some wired =>
      mkRouterState (rsHub st) (rsFeatures st) (Append env wired (audit_event rs env q action target diff) (rsAudit st))
  end.

(** * Handlers *)

Definition handleMe (rs : Routes) (q : Request) : router_reply :=
  if decide (Method q ≠ MethodGet) then errorJSON StatusMethodNotAllowed $"GET only"
  else jsonOK (RMe (rtNodeID rs) (rtNodeType rs) (SessionIDFromRequest q)).

Definition handleLogout (rs : Routes) (env : RouterEnv) (q : Request) (st : RouterState) : RouterState * router_reply :=
  if decide (Method q ≠ MethodPost) then (st, errorJSON StatusMethodNotAllowed $"POST only")
  else (audit rs env q $"session.logout" [] [] st, no_content).

Definition handleTenants (rs : Routes) (q : Request) (st : RouterState) : router_reply :=
  match requireHub rs with
  | None => hub_only
  | Some hub =>
      if decide (Method q ≠ MethodGet) then errorJSON StatusMethodNotAllowed $"GET only"
      else jsonOK (RTenants (ListTenants hub (rsHub st)))
  end.

(** The end of a mutation: its error is answered 500, its success is audited. *)
Definition finish (rs : Routes) (env : RouterEnv) (q : Request) (failed action target : gostring)
    (diff : list (gostring * json)) (st : RouterState) (r : S * outcome) : RouterState * option router_reply :=
  match r with
  | (s, Done) => (audit rs env q action target diff (with_hub s st), Some no_content)
  | (s, Failed) => (with_hub s st, Some (errorJSON StatusInternalServerError failed))
  | (s, Panicked) => (with_hub s st, None)
  end.

Definition handleTenantByHost (rs : Routes) (env : RouterEnv) (q : Request) (body : gostring) (st : RouterState)
    : RouterState * option router_reply :=
  match requireHub rs with
  | None => (st, Some hub_only)
  | Some hub =>
      let host := TrimPrefix (Path q) $"/api/tenants/" in
      if decide (host = [] ∨ "/"%char ∈ host) then (st, Some (errorJSON StatusBadRequest $"host segment required"))
      else if decide (Method q = MethodGet) then
        (st, Some match GetTenant hub host (rsHub st) with
                  | None => errorJSON StatusNotFound $"no such tenant"
                  | Some t => jsonOK (RTenant t)
                  end)
      else if decide (Method q = MethodPut) then
        match rj_tenant body with
        | None => (st, Some (errorJSON StatusBadRequest $"bad JSON body"))
        | Some t =>
            let t := if decide (tcHost t = []) then set_host host t else t in
            if decide (tcHost t ≠ host) then (st, Some (errorJSON StatusBadRequest $"body host does not match URL host"))
            else finish rs env q $"upsert failed" $"tenant.upsert" host [($"after", rj_tenant_value t)] st
                   (UpsertTenant hub (rnHub env) t (rsHub st))
        end
      else if decide (Method q = MethodDelete) then
        finish rs env q $"delete failed" $"tenant.delete" host [] st (DeleteTenant hub (rnHub env) host (rsHub st))
      else (st, Some (errorJSON StatusMethodNotAllowed $"GET, PUT, DELETE only"))
  end.

Definition handleGlobals (rs : Routes) (env : RouterEnv) (q : Request) (body : gostring) (st : RouterState)
    : RouterState * option router_reply :=
  match requireHub rs with
  | None => (st, Some hub_only)
  | Some hub =>
      if decide (Method q = MethodGet) then (st, Some (jsonOK (RGlobals (GetGlobals hub (rsHub st)))))
      else if decide (Method q = MethodPut) then
        match rj_globals body with
        | None => (st, Some (errorJSON StatusBadRequest $"bad JSON body"))
        | Some g =>
            finish rs env q $"set globals failed" $"globals.set" [] [($"after", rj_globals_value g)] st
              (SetGlobals hub (rnHub env) g (rsHub st))
        end
      else (st, Some (errorJSON StatusMethodNotAllowed $"GET, PUT only"))
  end.

Definition handleMirrors (rs : Routes) (q : Request) (st : RouterState) : router_reply :=
  match requireHub rs with
  | None => hub_only
  | Some hub =>
      if decide (Method q ≠ MethodGet) then errorJSON StatusMethodNotAllowed $"GET only"
      else jsonOK (RMirrors (ListMirrors hub (rsHub st)))
  end.

Definition handleFeatures (rs : Routes) (q : Request) (st : RouterState) : router_reply :=
  match rtFeatures rs with
  | None => errorJSON StatusServiceUnavailable $"feature registry not wired"
  | Some fa =>
      if decide (Method q ≠ MethodGet) then errorJSON StatusMethodNotAllowed $"GET only"
      else jsonOK (RFeatures (ListFeatures fa (rsFeatures st)))
  end.

Definition handleFeatureToggle (rs : Routes) (env : RouterEnv) (q : Request) (body : gostring) (st : RouterState)
    : RouterState * router_reply :=
  match rtFeatures rs with
  | None => (st, errorJSON StatusServiceUnavailable $"feature registry not wired")
  | Some fa =>
      if decide (Method q ≠ MethodPost) then (st, errorJSON StatusMethodNotAllowed $"POST only")
      else match SplitN (TrimPrefix (Path q) $"/api/features/") "/"%char 2 with
      | [name; op] =>
          if decide (name = [] ∨ op ≠ $"toggle") then (st, errorJSON StatusNotFound $"expected /api/features/{name}/toggle")
          else match rj_enabled body with
          | None => (st, errorJSON StatusBadRequest $"bad JSON body")
          | Some enabled =>
              let '(f, err) := ToggleGlobal fa name enabled (rsFeatures st) in
              let st' := mkRouterState (rsHub st) f (rsAudit st) in
              match err with
              | Some errFeatureUnknown => (st', errorJSON StatusNotFound $"no such feature")
              | Some ErrToggle => (st', errorJSON StatusInternalServerError $"toggle failed")
              | None => (audit rs env q $"feature.toggle" name [($"enabled", JBool enabled)] st', no_content)
              end
          end
      | _ => (st, errorJSON StatusNotFound $"expected /api/features/{name}/toggle")
      end
  end.

Definition handleMetrics (rs : Routes) (q : Request) : router_reply :=
  match rtMetrics rs with
  | None => errorJSON StatusServiceUnavailable $"metrics not wired"
  | Some m =>
      if decide (Method q ≠ MethodGet) then errorJSON StatusMethodNotAllowed $"GET only"
      else jsonOK (RMetrics (MetricsSnapshot m))
  end.

(** A limit of the query: a number in range, or the default. *)
Definition query_limit (q : Request) (dflt cap : Z) : Z :=
  let v := query_get q $"limit" in
  if decide (v = []) then dflt
  else match ParseInt v with
       | Some n => if (Z.ltb 0 n && Z.leb n cap)%bool then n else dflt
       | None => dflt
       end.

Definition handleMetricsHistory (rs : Routes) (q : Request) : router_reply :=
  match rtMetrics rs with
  | None => errorJSON StatusServiceUnavailable $"metrics not wired"
  | Some m =>
      if decide (Method q ≠ MethodGet) then errorJSON StatusMethodNotAllowed $"GET only"
      else jsonOK (RHistory (History m (query_limit q 60 1000)))
  end.

Definition handleAudit (rs : Routes) (env : RouterEnv) (q : Request) (st : RouterState) : router_reply :=
  match rtAudit rs with
  | None => errorJSON StatusServiceUnavailable $"audit log not wired"
  | Some wired =>
      if decide (Method q ≠ MethodGet) then errorJSON StatusMethodNotAllowed $"GET only"
      else
        let v := query_get q $"since" in
        match if decide (v = []) then Some time_zero else rj_time v with
        | None => errorJSON StatusBadRequest $"since must be RFC3339"
        | Some since =>
            if (wired && negb (rnView env))%bool then errorJSON StatusInternalServerError $"query failed"
            else jsonOK (REvents (QueryAudit wired since (query_limit q 100 5000) (rsAudit st)))
        end
  end.

(** NewRouter. *)
Definition RouterServe (rs : Routes) (env : RouterEnv) (q : Request) (body : gostring) (st : RouterState)
    : RouterState * option router_reply :=
  let keep (x : RouterState * router_reply) := (x.1, Some x.2) in
  match mux_segments q with
  | None => (st, Some (mkRouterReply 301 REmpty))
  | Some segs =>
      match admin_patterns segs with
      | None => (st, Some (errorJSON StatusNotFound $"404 page not found"))
      | Some AtMe => (st, Some (handleMe rs q))
      | Some AtLogout => keep (handleLogout rs env q st)
      | Some AtTenants => (st, Some (handleTenants rs q st))
      | Some AtTenantByHost => handleTenantByHost rs env q body st
      | Some AtGlobals => handleGlobals rs env q body st
      | Some AtMirrors => (st, Some (handleMirrors rs q st))
      | Some AtFeatures => (st, Some (handleFeatures rs q st))
      | Some AtFeatureToggle => keep (handleFeatureToggle rs env q body st)
      | Some AtMetrics => (st, Some (handleMetrics rs q))
      | Some AtMetricsHistory => (st, Some (handleMetricsHistory rs q))
      | Some AtAudit => (st, Some (handleAudit rs env q st))
      end
  end.

(** * What an audit event stands for *)

Inductive accounts (rs : Routes) (env : RouterEnv) (ev : Event) (st st' : RouterState) : Prop :=
| acc_logout :
    Action ev = $"session.logout" → rsHub st' = rsHub st → rsFeatures st' = rsFeatures st → accounts rs env ev st st'
| acc_upsert hub t :
    requireHub rs = Some hub → Action ev = $"tenant.upsert" → Target ev = tcHost t →
    Diff ev = [($"after", rj_tenant_value t)] → UpsertTenant hub (rnHub env) t (rsHub st) = (rsHub st', Done) →
    rsFeatures st' = rsFeatures st → accounts rs env ev st st'
| acc_delete hub :
    requireHub rs = Some hub → Action ev = $"tenant.delete" →
    DeleteTenant hub (rnHub env) (Target ev) (rsHub st) = (rsHub st', Done) →
    rsFeatures st' = rsFeatures st → accounts rs env ev st st'
| acc_globals hub g :
    requireHub rs = Some hub → Action ev = $"globals.set" → Diff ev = [($"after", rj_globals_value g)] →
    SetGlobals hub (rnHub env) g (rsHub st) = (rsHub st', Done) → rsFeatures st' = rsFeatures st → accounts rs env ev st st'
| acc_toggle fa b :
    rtFeatures rs = Some fa → Action ev = $"feature.toggle" → Diff ev = [($"enabled", JBool b)] →
    ToggleGlobal fa (Target ev) b (rsFeatures st) = (rsFeatures st', None) → rsHub st' = rsHub st → accounts rs env ev st st'.

(** Either nothing is recorded and nothing was done, except by an operation
    that reported an error, or one event is recorded that accounts for what was
    done. *)
Definition quiet (st st' : RouterState) (reply : option router_reply) : Prop :=
  rsAudit st' = rsAudit st ∧
  match reply with
  | None => True
  | Some r => rrStatus r ≠ StatusNoContent ∧ (st' = st ∨ (400 ≤ rrStatus r)%Z)
  end.

Definition recorded (rs : Routes) (env : RouterEnv) (q : Request) (st st' : RouterState) (reply : option router_reply) : Prop :=
  reply = Some no_content ∧
  ∃ ev, rsAudit st' = fst (Write (rnIO env) ev (rsAudit st)) ∧ EvTime ev = rnNow env ∧
        Actor ev = SessionIDFromRequest q ∧ ActorIP ev = clientIPHash q (rtLabeler rs) ∧ accounts rs env ev st st'.

Lemma quiet_same st r : rrStatus r ≠ StatusNoContent → quiet st st (Some r).
Proof. intros Hr. split; [done|]. split; [done|]. by left. Qed.

Lemma quiet_failed s st msg : quiet st (with_hub s st) (Some (errorJSON StatusInternalServerError msg)).
Proof. split; [done|]. split; [done|]. right. by vm_compute. Qed.

Lemma finish_cases rs env q failed action target diff st s o st' reply :
  rtAudit rs = Some true →
  (o = Done → ∀ ev, Action ev = action → Target ev = target → Diff ev = diff →
     ∀ l, accounts rs env ev st (mkRouterState s (rsFeatures st) l)) →
  finish rs env q failed action target diff st (s, o) = (st', reply) →
  quiet st st' reply ∨ recorded rs env q st st' reply.
Proof.
  intros Ha Hacc. unfold finish, audit. rewrite Ha. destruct o; intros [= <- <-].
  - right. split; [done|]. eexists. split; [reflexivity|]. do 3 (split; [reflexivity|]). by apply Hacc.
  - left. apply quiet_failed.
  - left. done.
Qed.

Lemma tenant_cases rs env q body st st' reply :
  rtAudit rs = Some true → handleTenantByHost rs env q body st = (st', reply) →
  quiet st st' reply ∨ recorded rs env q st st' reply.
Proof.
  intros Ha. unfold handleTenantByHost. destruct (requireHub rs) as [hub|] eqn:Hh; [|intros [= <- <-]; left; by apply quiet_same].
  set (host := TrimPrefix _ _). case_decide; [intros [= <- <-]; left; by apply quiet_same|].
  case_decide; [intros [= <- <-]; left; apply quiet_same; by destruct (GetTenant _ _ _)|]. case_decide.
  - destruct (rj_tenant body) as [t0|]; [|intros [= <- <-]; left; by apply quiet_same].
    set (t := if decide (tcHost t0 = []) then _ else _). destruct (decide (tcHost t ≠ host)) as [|Ht].
    { intros [= <- <-]; left; by apply quiet_same. }
    apply dec_stable in Ht. destruct (UpsertTenant hub _ t _) as [s o] eqn:Hu. apply finish_cases; [done|].
    intros -> ev E1 E2 E3 l. apply (acc_upsert rs env ev _ _ hub t); cbn [rsHub rsFeatures]; congruence.
  - case_decide; [|intros [= <- <-]; left; by apply quiet_same].
    destruct (DeleteTenant hub _ host _) as [s o] eqn:Hd. apply finish_cases; [done|].
    intros -> ev E1 E2 E3 l. apply (acc_delete rs env ev _ _ hub); cbn [rsHub rsFeatures]; congruence.
Qed.

Lemma globals_cases rs env q body st st' reply :
  rtAudit rs = Some true → handleGlobals rs env q body st = (st', reply) →
  quiet st st' reply ∨ recorded rs env q st st' reply.
Proof.
  intros Ha. unfold handleGlobals. destruct (requireHub rs) as [hub|] eqn:Hh; [|intros [= <- <-]; left; by apply quiet_same].
  case_decide; [intros [= <- <-]; left; by apply quiet_same|].
  case_decide; [|intros [= <- <-]; left; by apply quiet_same].
  destruct (rj_globals body) as [g|]; [|intros [= <- <-]; left; by apply quiet_same].
  destruct (SetGlobals hub _ g _) as [s o] eqn:Hs. apply finish_cases; [done|].
  intros -> ev E1 E2 E3 l. apply (acc_globals rs env ev _ _ hub g); cbn [rsHub rsFeatures]; congruence.
Qed.

Lemma toggle_cases rs env q body st st' reply :
  rtAudit rs = Some true → handleFeatureToggle rs env q body st = (st', reply) →
  quiet st st' (Some reply) ∨ recorded rs env q st st' (Some reply).
Proof.
  intros Ha. unfold handleFeatureToggle, audit. rewrite Ha.
  destruct (rtFeatures rs) as [fa|] eqn:Hf; [|intros [= <- <-]; left; by apply quiet_same].
  case_decide; [intros [= <- <-]; left; by apply quiet_same|].
  destruct (SplitN _ _ _) as [|name [|op [|]]]; try (intros [= <- <-]; left; by apply quiet_same).
  case_decide; [intros [= <- <-]; left; by apply quiet_same|].
  destruct (rj_enabled body) as [b|]; [|intros [= <- <-]; left; by apply quiet_same].
  destruct (ToggleGlobal fa name b _) as [f [[]|]] eqn:Ht; intros [= <- <-].
  - left. split; [done|]. split; [done|]. right. by vm_compute.
  - left. split; [done|]. split; [done|]. right. by vm_compute.
  - right. split; [done|]. eexists. split; [reflexivity|]. do 3 (split; [reflexivity|]).
    by apply (acc_toggle rs env _ _ _ fa b).
Qed.

(** The routes that only read answer with another status than 204. *)
Lemma readers_quiet rs env q st :
  Forall (λ r, rrStatus r ≠ StatusNoContent)
    [handleMe rs q; handleTenants rs q st; handleMirrors rs q st; handleFeatures rs q st; handleMetrics rs q;
     handleMetricsHistory rs q; handleAudit rs env q st].
Proof.
  unfold handleMe, handleTenants, handleMirrors, handleFeatures, handleMetrics, handleMetricsHistory, handleAudit.
  repeat (constructor; [repeat case_match; done|]). constructor.
Qed.
End router.
Arguments Routes : clear implicits.
Arguments RouterState : clear implicits.

(** * The hub's adapter *)

Section adapter.
Context {D : Type} `{HubRegistry.ConfYaml D} `{HubRegistry.HubJson} {M : Type} `{EqDecision M} `{GoUnicode}.

(** The two registries, either of them possibly nil. *)
Definition HubSide : Type := option (HubRegistry.Registry D) * option (Mirrors.MirrorRegistry M).

Definition on_reg (f : HubRegistry.Registry D → HubRegistry.Registry D * outcome) (s : HubSide) : HubSide * outcome :=
  match s.1 with
  | None => (s, Failed)
  | Some r => let '(r', o) := f r in ((Some r', s.2), o)
  end.

Definition hubAccess : HubAccess HubSide := mkHubAccess
  (λ s, match s.1 with None => [] | Some r => (map_to_list (HubRegistry.tenant_map r)).*2 end)
  (λ host s, s.1 ≫= HubRegistry.Tenant host)
  (λ e t, on_reg (HubRegistry.UpsertTenant e t))
  (λ e host, on_reg (HubRegistry.DeleteTenant e host))
  (λ s, match s.1 with None => HubRegistry.GlobalsConf_zero | Some r => HubRegistry.globals r end)
  (λ e g, on_reg (HubRegistry.SetGlobals e g))
  (λ s, match s.2 with None => [] | Some m => Mirrors.List_ m end).
End adapter.
Arguments HubSide : clear implicits.

(** * Properties *)

Definition hub_route (rt : admin_route) : bool :=
  match rt with AtTenants | AtTenantByHost | AtGlobals | AtMirrors => true | _ => false end.

(** On a node that is not a hub the routes of the hub answer 403, whatever the
    method, and nothing on the hub side ever changes. *)
Theorem admin_router_hub_guard sha256 {S F B} `{Bucket B} `{AuditCodec} `{RouterJson} (rs : Routes S F) env q body
    (st : RouterState S F B) segs rt :
  requireHub rs = None → mux_segments q = Some segs → admin_patterns segs = Some rt →
  let '(st', reply) := RouterServe sha256 rs env q body st in
  rsHub st' = rsHub st ∧
  (hub_route rt = true → st' = st ∧ reply = Some hub_only).
Proof.
  intros Hh Hs Hp. unfold RouterServe. rewrite Hs, Hp.
  destruct rt; try done.
  - split; [|done].
    unfold handleLogout, audit. case_decide; [done|]. by destruct (rtAudit rs).
  - unfold handleTenants. by rewrite Hh.
  - unfold handleTenantByHost. by rewrite Hh.
  - unfold handleGlobals. by rewrite Hh.
  - unfold handleMirrors. by rewrite Hh.
  - split; [|done].
    unfold handleFeatureToggle, audit. repeat case_match; done.
Qed.

(** The router hashes an IPv6 peer with its brackets, the request handler
    without them, so the events of one client carry two labels. *)
Example admin_router_ipv6_label sha256 l q :
  RemoteAddr q = $"[::1]:80" →
  clientIPHash sha256 q (Some l) = ClientIP sha256 l $"[::1]" ∧ SplitHostPort (RemoteAddr q) = Some ($"::1", $"80").
Proof. intros Hq. unfold clientIPHash. rewrite Hq. split; reflexivity. Qed.

(** The audit log of the admin API is exact: a request that is answered 204
    leaves one event with the session and the hashed address of the caller
    that accounts for what was done to tenants, globals or features; any other
    request leaves the log as it is and changes nothing unless the operation
    itself failed. *)
Theorem admin_router_audited sha256 {S F B} `{Bucket B} `{AuditCodec} `{RouterJson} (rs : Routes S F) env q body
    (st st' : RouterState S F B) reply :
  rtAudit rs = Some true → RouterServe sha256 rs env q body st = (st', reply) →
  quiet st st' reply ∨ recorded sha256 rs env q st st' reply.
Proof.
  intros Ha. unfold RouterServe. pose proof (readers_quiet rs env q st) as Hr. rewrite !Forall_cons in Hr.
  destruct Hr as (?&?&?&?&?&?&?&_).
  destruct (mux_segments q) as [segs|]; [|intros [= <- <-]; left; by apply quiet_same].
  destruct (admin_patterns segs) as [[]|]; try (intros [= <- <-]; left; by apply quiet_same).
  - unfold handleLogout, audit. rewrite Ha. case_decide; intros [= <- <-]; [left; by apply quiet_same|]. right.
    split; [done|]. eexists. split; [reflexivity|]. do 3 (split; [reflexivity|]). by apply acc_logout.
  - by apply tenant_cases.
  - by apply globals_cases.
  - destruct (handleFeatureToggle _ _ _ _ _ st) as [st1 r1] eqn:Ht. intros [= <- <-]. by eapply toggle_cases.
Qed.
