(* ===== verification/HubServer.v ===== *)
(** The hub binary (src/cmd/gateway-hub/main.go): what a start puts together
    and the handler of its listener, which sends a request either through the
    admin gate to the session handler and the admin router, or to the REST API
    under mTLS. Both ways lead to the same tenant registry; the theorems say
    who can change it and what is left behind. *)

From S2P Require Import Prelude Http GoStd Shared Bolt Mux.
From S2P Require AdminGate AdminHandler AuditLog AdminRouter Session Lockout Metrics Config.
From S2P Require Mirrors HubRegistry HubStream Monitor CA HubAPI.
Import HubAPI (ApiRequest, aqReq, aqBody, Hub, huReg, huCA, huNodes, World, with_reg, sender).

Definition serverCertValidity : duration := (10 * 365 * 24 * Hour)%Z.
Definition defaultAdminListen : gostring := $"10.0.0.1:9080".

(** The gate of the binary; the handler is installed when admin is enabled. *)
Definition hub_gate (c : Config.Config) : AdminGate.Gate :=
  let a := Config.cAdmin c in
  AdminGate.SetHandler
    (AdminGate.New (AdminGate.mkConfig (Config.adEnabled a) (Config.adSlug a) (Config.adToken1 a) (Config.adToken2 a)))
    (Config.adEnabled a).

Section hub.
Context (sha256 : gostring → gostring).
Context {D : Type} `{HubRegistry.ConfYaml D} `{HubRegistry.HubJson} {M : Type} `{EqDecision M} `{Mirrors.YamlCodec M} `{GoUnicode}
  `{CA.X509} `{HubAPI.ApiJson} {B : Type} `{BucketLaws B} `{AuditLog.AuditCodec} `{AdminRouter.RouterJson}.
Context (settings_marshal : Monitor.CheckHostSettings → option gostring)
  (settings_yaml : gostring → option Monitor.CheckHostSettings).
Context (torpool : option (gostring → gostring → header → gostring → option MResponse)).
Context (c : Config.Config) (labeler : Metrics.Labeler) (ui : gostring → option gostring).

Record HubServer := mkHubServer { hsHub : Hub (D := D) (M := M); hsAdmin : AdminHandler.AdminState B }.

(** * Start *)

(** The names of the server certificate. *)
Definition server_names (host : gostring) : gostring * nat :=
  (if decide (host = []) then $"gateway-hub" else host,
   if decide (host = [] ∨ host = $"localhost") then 4 else 5).

(** The host of the listener's address. *)
Definition listen_host : gostring :=
  let addr := if decide (Config.huListenAdmin (Config.cHub c) = []) then defaultAdminListen
              else Config.huListenAdmin (Config.cHub c) in
  match SplitHostPort addr with Some (host, _) => host | None => addr end.

(** NewCA and SetDataDir: a pair of files was found or is made; an error of
    SetDataDir is only logged. [rd] is whether the serial files can be read. *)
Definition boot_ca (rd found : bool) (beside data : CA.SerialFile) : CA.CA * CA.SerialFile :=
  let ca := if found then CA.loadCA rd beside else CA.generateCA in
  ((CA.SetDataDir rd data ca).1, data).

(** A configuration the binary does not start with. *)
Definition config_refused : bool :=
  bool_decide (Config.cNodeType c ≠ Config.NodeTypeHub ∨ Config.huDataDir (Config.cHub c) = []).

(** What the disk holds at a start. *)
Record HubDisk := mkHubDisk {
  hdTenants : HubRegistry.Storage D;
  hdCAFound : bool;
  hdBeside : CA.SerialFile;
  hdSerial : CA.SerialFile;
  hdAudit : AuditLog.Log B
}.

(** runWithListener up to the listener. [io], [key] and [rd] are the outcomes of
    the write of the serial file, the key generation and the reads of it. The mirror registry is not created. *)
Definition hub_boot (io : CA.serial_write) (key rd : bool) (now : time) (d : HubDisk) : option HubServer :=
  if config_refused then None
  else
    let '(cn, sans) := server_names listen_host in
    match CA.IssueServerCert io key now cn sans serverCertValidity (boot_ca rd (hdCAFound d) (hdBeside d) (hdSerial d)) with
    | (_, None) => None
    | (ca, Some _) =>
        let a := Config.cAdmin c in
        Some (mkHubServer
          (HubAPI.mkHub (HubRegistry.New (hdTenants d)) None None Monitor.SFMissing ∅ (Some ca))
          (AdminHandler.mkAdminState
             (Session.NewSessionStore (Config.adSessionIdleTTL a) (Config.adSessionAbsoluteTTL a)) Lockout.NewLockout (hdAudit d)))
    end.

(** * One request *)

Definition hub_routes : AdminRouter.Routes (AdminRouter.HubSide D M) unit :=
  AdminRouter.mkRoutes (Config.cNodeID c) (Config.cNodeType c) (Some AdminRouter.hubAccess) None None (Some true) (Some labeler).

Definition hub_handler : AdminHandler.HandlerConfig :=
  AdminHandler.mkHandlerConfig (Config.cNodeID c) (AdminGate.prefix (hub_gate c)) labeler (Some ui) true.

(** Everything a request can meet. *)
Record HubEnv := mkHubEnv { heWorld : World; heAdmin : AdminHandler.Env; heRouter : AdminRouter.RouterEnv }.

Inductive hub_reply :=
| HApi (r : option HubAPI.api_reply)
| HGate (status : Z)
| HGatePanic
| HAdmin (r : AdminHandler.Reply)
| HRouter (r : option AdminRouter.router_reply).

(** The router works on the registry of the hub and the log of the handler. *)
Definition serve_router (env : HubEnv) (r : Request) (body : gostring) (a : AdminHandler.AdminState B) (s : HubServer)
    : HubServer * hub_reply :=
  let st := AdminRouter.mkRouterState (Some (huReg (hsHub s)), None) tt (AdminHandler.asAudit a) in
  let '(st', reply) := AdminRouter.RouterServe sha256 hub_routes (heRouter env) r body st in
  (mkHubServer
     (match (AdminRouter.rsHub st').1 with Some reg => with_reg reg (hsHub s) | None => hsHub s end)
     (AdminHandler.mkAdminState (AdminHandler.asSessions a) (AdminHandler.asLockout a) (AdminRouter.rsAudit st')),
   HRouter reply).

Definition serve_admin (env : HubEnv) (r : Request) (body : gostring) (s : HubServer) : HubServer * hub_reply :=
  match AdminHandler.ServeHTTP sha256 hub_handler (heAdmin env) r (hsAdmin s) with
  | (a, AdminHandler.RAPI r' _) => serve_router env r' body a s
  | (a, reply) => (mkHubServer (hsHub s) a, HAdmin reply)
  end.

Definition composedHandler (env : HubEnv) (q : ApiRequest) (s : HubServer) : HubServer * hub_reply :=
  if AdminGate.MatchesPrefix (hub_gate c) (Path (aqReq q)) then
    match AdminGate.ServeHTTP (hub_gate c) (aqReq q) with
    | AdminGate.Empty status => (s, HGate status)
    | AdminGate.Panic => (s, HGatePanic)
    | AdminGate.Delegate r => serve_admin env r (aqBody q) s
    end
  else
    let '(h, reply) := HubAPI.Serve settings_marshal settings_yaml torpool (heWorld env) q (hsHub s) in
    (mkHubServer h (hsAdmin s), HApi reply).

(** * Lemmas *)

(** The gate changes the path only. *)
Lemma gate_delegates r r' :
  AdminGate.ServeHTTP (hub_gate c) r = AdminGate.Delegate r' → ∃ p rp, r' = with_path r p rp.
Proof.
  unfold AdminGate.ServeHTTP. destruct (AdminGate.MatchesPrefix _ _); [|done]. cbn [negb].
  destruct (AdminGate.has_handler _); [|done]. cbn [negb]. destruct (AdminGate.slice_from _ _); [|done].
  intros [= <-]. eauto.
Qed.

Lemma api_keeps_registry w q h :
  sender q h = None → huReg (HubAPI.Serve settings_marshal settings_yaml torpool w q h).1 = huReg h.
Proof.
  intros Hn. destruct (HubAPI.Serve_cases settings_marshal settings_yaml torpool w q h) as [(r & HS & _)|[(_ & HS)|(rt & _ & _ & HS)]];
    rewrite HS; [done| |].
  - destruct (HubAPI.handleRegisterNode w q h) as [h' reply] eqn:Hr. apply HubAPI.register_effect in Hr as (Hreg & _). exact Hreg.
  - by destruct (HubAPI.guard_rejects settings_marshal settings_yaml torpool w rt q h Hn) as (st & msg & ->).
Qed.

(** The request acts as the live session [x] and passed every check of the
    session handler. *)
Definition admitted (env : HubEnv) (q : ApiRequest) (s : HubServer) (x : Session.Session) : Prop :=
  AdminGate.MatchesPrefix (hub_gate c) (Path (aqReq q)) = true ∧
  AdminHandler.allowed sha256 hub_handler (heAdmin env) (aqReq q) (hsAdmin s) ∧
  AdminHandler.authenticated (heAdmin env) (aqReq q) (hsAdmin s) x ∧
  Session.ValidateCSRF (Some x) (aqReq q) = true.

(** A request through the gate either stops before the router, or reaches it
    admitted and with its own cookies. *)
Lemma gate_cases env q s :
  Session.store_wf (AdminHandler.asSessions (hsAdmin s)) → AdminHandler.request_ok (aqReq q) →
  AdminGate.MatchesPrefix (hub_gate c) (Path (aqReq q)) = true →
  (hsHub (composedHandler env q s).1 = hsHub s ∧ (∀ r, (composedHandler env q s).2 ≠ HRouter r)) ∨
  (∃ x p rp a, admitted env q s x ∧ composedHandler env q s = serve_router env (with_path (aqReq q) p rp) (aqBody q) a s ∧
     AdminHandler.asAudit a = AdminHandler.asAudit (hsAdmin s) ∧ HasPrefix p $"/api/" = true ∧
     AdminHandler.asSessions a
     = fst (Session.Refresh (AdminHandler.tRefresh (heAdmin env)) (Session.SessionIDFromRequest (aqReq q))
              (AdminHandler.asSessions (hsAdmin s)))).
Proof.
  intros Hwf Hr Hm. unfold composedHandler. rewrite Hm.
  destruct (AdminGate.ServeHTTP (hub_gate c) (aqReq q)) as [status|r'|] eqn:Hg; [by left| |by left].
  apply gate_delegates in Hg as (p & rp & ->). unfold serve_admin.
  destruct (AdminHandler.ServeHTTP _ _ _ _ _) as [a [resp ck|t code h ck|r' h]] eqn:Hs; [by left|by left|].
  right. apply AdminHandler.serve_api in Hs as (Ha & x & Hx & Hc & -> & Hp & _ & ->); [|done|done].
  exists x, p, rp. eexists. split_and!; [split_and!; done|done..].
Qed.

(** The mutations of the adapter keep the registry there. *)
Lemma on_reg_some f (r : HubRegistry.Registry D) (m : option (Mirrors.MirrorRegistry M)) s o :
  AdminRouter.on_reg f (Some r, m) = (s, o) → s = (Some (f r).1, m) ∧ o = (f r).2.
Proof. unfold AdminRouter.on_reg. cbn [fst snd]. destruct (f r) as [r' o']. by intros [= <- <-]. Qed.

(** * Changes of the registry *)

Lemma change_cases env q s :
  Session.store_wf (AdminHandler.asSessions (hsAdmin s)) → AdminHandler.request_ok (aqReq q) →
  huReg (hsHub (composedHandler env q s).1) = huReg (hsHub s) ∨ is_Some (sender q (hsHub s)) ∨ ∃ x, admitted env q s x.
Proof.
  intros Hwf Hr. destruct (AdminGate.MatchesPrefix (hub_gate c) (Path (aqReq q))) eqn:Hm.
  - destruct (gate_cases env q s Hwf Hr Hm) as [(-> & _)|(x & p & rp & a & Hx & _)]; [by left|]. right. right. by exists x.
  - destruct (sender q (hsHub s)) eqn:Hs; [right; by left|]. left. unfold composedHandler. rewrite Hm.
    pose proof (api_keeps_registry (heWorld env) q (hsHub s) Hs) as Hk.
    destruct (HubAPI.Serve _ _ _ _ _ _) as [h reply]. exact Hk.
Qed.

(** An audit event that stands for a change of the registry. *)
Inductive registry_op (e : Mirrors.Env) (ev : AuditLog.Event) (r r' : HubRegistry.Registry D) : Prop :=
| op_upsert t :
    AuditLog.Action ev = $"tenant.upsert" → AuditLog.Target ev = HubRegistry.tcHost t →
    AuditLog.Diff ev = [($"after", AdminRouter.rj_tenant_value t)] →
    HubRegistry.UpsertTenant e t r = (r', HubRegistry.Done) → registry_op e ev r r'
| op_delete :
    AuditLog.Action ev = $"tenant.delete" →
    HubRegistry.DeleteTenant e (AuditLog.Target ev) r = (r', HubRegistry.Done) → registry_op e ev r r'
| op_globals g :
    AuditLog.Action ev = $"globals.set" → AuditLog.Diff ev = [($"after", AdminRouter.rj_globals_value g)] →
    HubRegistry.SetGlobals e g r = (r', HubRegistry.Done) → registry_op e ev r r'.

Lemma accounts_registry env ev r f l (st' : AdminRouter.RouterState (AdminRouter.HubSide D M) unit B) :
  AdminRouter.accounts hub_routes env ev (AdminRouter.mkRouterState (Some r, None) f l) st' →
  ∃ r', AdminRouter.rsHub st' = (Some r', None) ∧ (r' = r ∨ registry_op (AdminRouter.rnHub env) ev r r').
Proof.
  intros Hacc. assert (Hh : ∀ hub, AdminRouter.requireHub hub_routes = Some hub → hub = AdminRouter.hubAccess).
  { unfold AdminRouter.requireHub, hub_routes. cbn [AdminRouter.rtNodeType AdminRouter.rtHub].
    case_decide; [done|]. intros hub Hs. by injection Hs. }
  destruct Hacc as [_ Hs _|hub t Hr Ha Ht Hd Hu _|hub Hr Ha Hu _|hub g Hr Ha Hd Hu _|fa b Hf];
    cbn [AdminRouter.rsHub] in *; try (apply Hh in Hr as ->; cbn [AdminRouter.UpsertTenant AdminRouter.DeleteTenant
      AdminRouter.SetGlobals AdminRouter.hubAccess] in Hu; apply on_reg_some in Hu as (Hs & Ho); rewrite Hs).
  - rewrite Hs. eauto.
  - eexists. split; [reflexivity|]. right. apply (op_upsert _ _ _ _ t); [done..|]. rewrite Ho. apply surjective_pairing.
  - eexists. split; [reflexivity|]. right. apply op_delete; [done|]. rewrite Ho. apply surjective_pairing.
  - eexists. split; [reflexivity|]. right. apply (op_globals _ _ _ _ g); [done..|]. rewrite Ho. apply surjective_pairing.
  - done.
Qed.

Definition reply_failed (r : hub_reply) : Prop :=
  match r with HRouter None => True | HRouter (Some r) => (400 ≤ AdminRouter.rrStatus r)%Z | _ => False end.

(** The event is in the log [l'] under a key that [l] did not have. *)
Definition recorded (io : AuditLog.AuditIO) (ev : AuditLog.Event) (l l' : AuditLog.Log B) : Prop :=
  ∃ p k, AuditLog.json_marshal (AuditLog.stamp (AuditLog.io_now io) ev) = Some p ∧
    bk_get (AuditLog.indexDB l) k = None ∧ bk_get (AuditLog.indexDB l') k = Some p.

Lemma Write_recorded io ev l l' : AuditLog.Write io ev l = (l', None) → recorded io ev l l'.
Proof.
  intros (p & s & Hp & Hfree & Hput)%AuditLog.Write_ok. exists p, (AuditLog.nanoKey (AuditLog.EvTime (AuditLog.stamp (AuditLog.io_now io) ev)) ++ s).
  rewrite Hput. split_and!; [done|done|]. apply bk_get_put_eq.
Qed.

(** C3. A change of the hub's tenants or globals through the admin surface is
    audited: the request was admitted as a live session, and one event by that
    session that names the operation, its target and its new value was
    appended to the log. It is in the log from then on unless the append
    itself failed, and only an operation that reported an error can leave a
    change without such an append. *)
Theorem hub_changes_audited env q s :
  Session.store_wf (AdminHandler.asSessions (hsAdmin s)) → AdminHandler.request_ok (aqReq q) →
  AdminGate.MatchesPrefix (hub_gate c) (Path (aqReq q)) = true →
  let '(s', reply) := composedHandler env q s in
  huReg (hsHub s') = huReg (hsHub s) ∨ reply_failed reply ∨
  (reply = HRouter (Some AdminRouter.no_content) ∧
   ∃ x ev, admitted env q s x ∧ AuditLog.Actor ev = Session.ID x ∧
     AdminHandler.asAudit (hsAdmin s')
     = fst (AuditLog.Write (AdminRouter.rnIO (heRouter env)) ev (AdminHandler.asAudit (hsAdmin s))) ∧
     (snd (AuditLog.Write (AdminRouter.rnIO (heRouter env)) ev (AdminHandler.asAudit (hsAdmin s))) = None →
      recorded (AdminRouter.rnIO (heRouter env)) ev (AdminHandler.asAudit (hsAdmin s)) (AdminHandler.asAudit (hsAdmin s'))) ∧
     registry_op (AdminRouter.rnHub (heRouter env)) ev (huReg (hsHub s)) (huReg (hsHub s'))).
Proof.
  intros Hwf Hr Hm. destruct (gate_cases env q s Hwf Hr Hm) as [(Hk & _)|(x & p & rp & a & Hx & -> & Ha & _)].
  { destruct (composedHandler env q s) as [s' reply]. left. cbn [fst] in Hk. by rewrite Hk. }
  unfold serve_router. destruct (AdminRouter.RouterServe _ _ _ _ _ _) as [st' reply] eqn:HS.
  apply AdminRouter.admin_router_audited in HS as [(_ & Hq)|(-> & ev & Hw & _ & Hact & _ & Hacc)]; [| |done].
  - destruct reply as [r|]; [|right; by left]. destruct Hq as [_ [-> |Hs]]; [left|right; by left].
    cbn [AdminRouter.rsHub fst hsHub]. by destruct (hsHub s).
  - apply accounts_registry in Hacc as (r' & Hrs & [-> |Hop]); rewrite Hrs; cbn [fst hsHub hsAdmin AdminHandler.asAudit].
    + left. by destruct (hsHub s).
    + right. right. split; [done|]. exists x, ev. cbn [AdminRouter.rsAudit] in Hw. rewrite Ha in Hw.
      split_and!; [done| |done| |done].
      * pose proof Hx as (_ & _ & [Hl _] & _). apply Hwf in Hl as (-> & _). exact Hact.
      * intros Hok. apply Write_recorded. cbn [AdminRouter.rsAudit] in *. rewrite Hw, <- Hok. apply surjective_pairing.
Qed.

(** POST to /api/logout does not log out: it is answered 204 and audited as
    a logout, and the session is still there, refreshed, with its token. *)
Theorem hub_api_logout_keeps_session env q s x :
  Session.store_wf (AdminHandler.asSessions (hsAdmin s)) → AdminHandler.request_ok (aqReq q) →
  admitted env q s x → Method (aqReq q) = MethodPost →
  AdminGate.ServeHTTP (hub_gate c) (aqReq q) = AdminGate.Delegate (with_path (aqReq q) $"/api/logout" []) →
  Session.expired (AdminHandler.asSessions (hsAdmin s)) (AdminHandler.tRefresh (heAdmin env)) x = false →
  let '(s', reply) := composedHandler env q s in
  reply = HRouter (Some AdminRouter.no_content) ∧
  Session.sessions (AdminHandler.asSessions (hsAdmin s')) !! Session.SessionIDFromRequest (aqReq q)
  = Some (Session.touch (AdminHandler.tRefresh (heAdmin env)) x).
Proof.
  intros Hwf Hr (Hm & Ha & Hx & Hc) Hmeth Hg Hexp. unfold composedHandler. rewrite Hm, Hg. unfold serve_admin.
  assert (Hserve := AdminHandler.serve_authenticated sha256 hub_handler (heAdmin env) (with_path (aqReq q) $"/api/logout" [])
    (hsAdmin s) x Hwf Hr Ha Hx). cbv zeta in Hserve. rewrite Hserve. clear Hserve.
  change (Session.ValidateCSRF (Some x) (with_path (aqReq q) $"/api/logout" [])) with (Session.ValidateCSRF (Some x) (aqReq q)).
  rewrite Hc. unfold AdminHandler.dispatch. cbn [Path with_path hub_handler AdminHandler.hcAPI].
  rewrite decide_False, (eq_refl : HasPrefix $"/api/logout" $"/api/" = true) by done.
  unfold serve_router, AdminRouter.RouterServe.
  assert (Hseg : mux_segments (with_path (aqReq q) $"/api/logout" []) = Some [$"api"; $"logout"]).
  { unfold mux_segments, escaped_segments, raw_used. cbn [Method with_path RawPath Path]. rewrite Hmeth. by vm_compute. }
  rewrite Hseg, (eq_refl : AdminRouter.admin_patterns [$"api"; $"logout"] = Some AdminRouter.AtLogout).
  unfold AdminRouter.handleLogout. cbn [Method with_path]. rewrite decide_False by (rewrite Hmeth; tauto).
  split; [done|]. cbn [fst hsAdmin AdminHandler.asSessions]. unfold Session.Refresh.
  change (Session.SessionIDFromRequest (with_path (aqReq q) $"/api/logout" [])) with (Session.SessionIDFromRequest (aqReq q)).
  destruct Hx as [Hl _]. rewrite Hl. unfold Session.expired in Hexp. apply orb_false_iff in Hexp as [-> ->].
  apply lookup_insert_eq.
Qed.

Lemma boot_ca_fresh rd found beside data : CA.revoked (boot_ca rd found beside data).1 = ∅.
Proof.
  unfold boot_ca, CA.SetDataDir, CA.loadCA. cbn [fst].
  destruct found, (CA.readSerial rd data) as [[n|]|], (CA.readSerial rd beside) as [[m|]|]; done.
Qed.

Lemma issue_revoked io key now cn sans validity st :
  CA.revoked (CA.IssueServerCert io key now cn sans validity st).1.1 = CA.revoked st.1.
Proof.
  unfold CA.IssueServerCert, CA.allocateSerial. destruct st as [ca f]. case_decide; [done|].
  destruct (Z.leb validity 0), key, (CA.caDir ca), io; done.
Qed.

(** After a restart of the hub every certificate it ever signed is accepted,
    but no node is known any more: the snapshot that a reconnecting node is
    sent has no tenants, and no update of a tenant is passed on to it. *)
Theorem hub_restart_empties_edges io key rd now d s id :
  hub_boot io key rd now d = Some s → id ≠ [] →
  (∀ q cert t, HubAPI.aqPeer q = Some cert → CA.signed cert = true → CA.extractIdentity cert = Ok (id, t) →
     sender q (hsHub s) = Some id) ∧
  (∀ ts g v at_, HubStream.deliver (Some (huNodes (hsHub s))) id
       (HubRegistry.mkEvent HubRegistry.EventSnapshot (HubRegistry.PSnapshot ts g v) at_)
     = Some (HubRegistry.mkEvent HubRegistry.EventSnapshot (HubRegistry.PSnapshot [] g v) at_)) ∧
  (∀ p at_, HubStream.deliver (Some (huNodes (hsHub s))) id (HubRegistry.mkEvent HubRegistry.EventTenantUpsert p at_) = None).
Proof.
  unfold hub_boot. destruct config_refused; [done|]. destruct (server_names listen_host) as [cn sans].
  destruct (CA.IssueServerCert _ _ _ _ _ _ _) as [ca [cert|]] eqn:Hi; [|done]. intros Hb Hid. apply (inj Some) in Hb. subst s.
  cbn [hsHub huNodes HubAPI.huNodes]. split_and!.
  - intros q ct t Hq Hs He. unfold sender. rewrite Hq. cbn [HubAPI.huCA huCA]. destruct ca as [ca f].
    assert (Hrev : CA.revoked ca = ∅).
    { apply (f_equal (CA.revoked ∘ fst ∘ fst)) in Hi. cbn in Hi. rewrite <- Hi.
      by rewrite issue_revoked, boot_ca_fresh. }
    unfold CA.VerifyPeer, CA.IsRevoked. rewrite Hs, Hrev, bool_decide_eq_false_2, He by set_solver. done.
  - intros ts g v at_. unfold HubStream.deliver, HubStream.allow, HubStream.filterSnapshot. rewrite decide_False by done.
    cbn [HubRegistry.evType HubRegistry.evData HubRegistry.evTimestamp negb].
    assert (Hnil : List.filter (λ ti, HubStream.TenantAllowed (∅ : HubStream.NodeStore) id (tiHost ti)) ts = [])
      by (by induction ts).
    rewrite decide_False, Hnil by done. reflexivity.
  - intros p at_. unfold HubStream.deliver, HubStream.allow. rewrite decide_False by done. by destruct p.
Qed.

(** * Histories *)

Definition hub_run (l : list (HubEnv * ApiRequest)) (s : HubServer) : HubServer :=
  foldl (λ s eq, (composedHandler eq.1 eq.2 s).1) s l.

(** Requests as net/http delivers them, with random bytes of the length asked for. *)
Definition traffic_ok (eq : HubEnv * ApiRequest) : Prop :=
  AdminHandler.request_ok (aqReq eq.2) ∧
  Session.rnd_ok (AdminHandler.rnd1 (heAdmin eq.1)) ∧ Session.rnd_ok (AdminHandler.rnd2 (heAdmin eq.1)).

Definition sessions_ok (s : HubServer) : Prop :=
  ∃ i a, Session.reachable i a (AdminHandler.asSessions (hsAdmin s)).

Lemma sessions_ok_wf s : sessions_ok s → Session.store_wf (AdminHandler.asSessions (hsAdmin s)).
Proof. intros (i & a & Hr). by apply Session.reachable_inv in Hr as (? & _). Qed.

Lemma composed_sessions env q s : traffic_ok (env, q) → sessions_ok s → sessions_ok (composedHandler env q s).1.
Proof.
  intros (_ & Hr1 & Hr2) (i & a & Hr). exists i, a. unfold composedHandler.
  destruct (AdminGate.MatchesPrefix _ _); [|by destruct (HubAPI.Serve _ _ _ _ _ _)].
  destruct (AdminGate.ServeHTTP _ _) as [|r|]; [done| |done]. unfold serve_admin.
  destruct (AdminHandler.admin_handler_invariant sha256 hub_handler (heAdmin env) r (hsAdmin s) i a Hr1 Hr2 Hr) as [Hr' _].
  destruct (AdminHandler.ServeHTTP _ _ _ _ _) as [a' [| |r' h]]; [done..|].
  unfold serve_router. by destruct (AdminRouter.RouterServe _ _ _ _ _ _).
Qed.

Lemma run_guarded l s :
  sessions_ok s → Forall traffic_ok l →
  huReg (hsHub (hub_run l s)) = huReg (hsHub s) ∨
  ∃ l1 env q l2, l = l1 ++ (env, q) :: l2 ∧
    (is_Some (sender q (hsHub (hub_run l1 s))) ∨ ∃ x, admitted env q (hub_run l1 s) x).
Proof.
  revert s. induction l as [|[env q] l IH]; intros s Hs Hl; [by left|]. apply Forall_cons in Hl as [Hq Hl].
  destruct (change_cases env q s (sessions_ok_wf s Hs) (proj1 Hq)) as [Hk|Hauth].
  - destruct (IH (composedHandler env q s).1 (composed_sessions env q s Hq Hs) Hl) as [Hrest|(l1 & env' & q' & l2 & -> & Hauth)].
    + left. cbn [hub_run foldl fst snd]. unfold hub_run in Hrest. by rewrite Hrest.
    + right. exists ((env, q) :: l1), env', q', l2. by split.
  - right. by exists [], env, q, l.
Qed.

(** C2. Nobody else changes the hub. From its start on, whatever requests it
    serves, the tenants and globals in memory, their files and the versions
    are those it loaded, unless some request came with a certificate that the
    authority verifies, or through the secret prefix with a live session and
    its CSRF token from an address that is not locked out. *)
Theorem hub_registry_guarded io key rd now d s l :
  hub_boot io key rd now d = Some s → Forall traffic_ok l →
  huReg (hsHub (hub_run l s)) = HubRegistry.New (hdTenants d) ∨
  ∃ l1 env q l2, l = l1 ++ (env, q) :: l2 ∧
    (is_Some (sender q (hsHub (hub_run l1 s))) ∨ ∃ x, admitted env q (hub_run l1 s) x).
Proof.
  intros Hb Hl. unfold hub_boot in Hb. destruct config_refused; [done|]. destruct (server_names listen_host) as [cn sans].
  destruct (CA.IssueServerCert _ _ _ _ _ _ _) as [ca [cert|]]; [|done]. apply (inj Some) in Hb. subst s.
  apply run_guarded; [|done]. eexists _, _. apply rtc_refl.
Qed.
End hub.

(** * Examples *)

#[local] Existing Instances HubAPI.hq_yaml HubAPI.hq_json HubAPI.hq_codec HubAPI.hq_unicode HubAPI.hq_x509 HubAPI.hq_api
  AdminHandler.hx_codec.

#[local] Instance hs_json : AdminRouter.RouterJson := {|
  AdminRouter.rj_tenant _ := Some HubRegistry.hx_tenant; AdminRouter.rj_globals _ := Some HubAPI.hq_globals;
  AdminRouter.rj_enabled _ := None; AdminRouter.rj_tenant_value _ := JNull; AdminRouter.rj_globals_value _ := JNull;
  AdminRouter.rj_time _ := None |}.

(** A hub with the admin surface on. *)
Definition hs_conf : Config.Config :=
  let raw := Config.ex_raw 0 0 (Config.ex_lockout Hour) in
  Config.mkConfig (Config.cMode raw) Config.NodeTypeHub (Config.cTransport raw) (Config.cMTLS raw) (Config.cHubURL raw) $"hub-1"
    (Config.cNodeSecretFile raw) (Config.mkHubConf [] [] [] [] $"/data") (Config.cDomain raw) (Config.cEmail raw)
    (Config.cProxySecret raw) (Config.cCloudflare raw) (Config.cBackends raw) (Config.cTor raw) (Config.cPool raw)
    (Config.cCache raw) (Config.cRateLimit raw) (Config.cSecurity raw) (Config.cLogging raw) (Config.cMetrics raw)
    (Config.mkAdminConf [] true $"panel" $"t1" $"t2" (15 * Minute) (8 * Hour) [] (Config.ex_lockout Hour)) (Config.cDoor raw).

Definition hs_labeler : Metrics.Labeler := Metrics.mkLabeler true $"salt".

Definition hs_disk : HubDisk (D := HubRegistry.TenantConf + HubRegistry.GlobalsConf) (B := gmap gostring gostring) :=
  mkHubDisk (HubRegistry.mkStorage None false ∅ HubRegistry.DirOK) true None (Some 3%Z) AuditLog.OpenLog.

Definition hs_boot := hub_boot (M := Mirrors.MirrorHealth) hs_conf CA.SerialWritten true true 0 hs_disk.

(** The hub some time later: a node is registered and a session is open. *)
Definition hs_server : HubServer (D := HubRegistry.TenantConf + HubRegistry.GlobalsConf) (M := Mirrors.MirrorHealth) :=
  mkHubServer HubAPI.hq_hub AdminHandler.hx_st1.

Definition hs_env : HubEnv :=
  mkHubEnv HubAPI.hq_world (AdminHandler.hx_env Minute)
    (AdminRouter.mkRouterEnv (Mirrors.env_fine 1) Minute (AuditLog.io_fine Minute) true).

Definition hs_request (method path : gostring) : ApiRequest :=
  HubAPI.mkApiRequest (AdminHandler.hx_call method ($"/panel/t1/t2" ++ path) AdminHandler.hx_csrf) [] 0 None.

Definition hs_serve : ApiRequest → HubServer → HubServer * hub_reply :=
  composedHandler AdminHandler.hx_sha (λ _, None) (λ _, None) None hs_conf hs_labeler (λ _, None) hs_env.

Lemma hs_request_ok method path : AdminHandler.request_ok (aqReq (hs_request method path)).
Proof. apply AdminHandler.hx_request_ok. decide_now. Qed.

Lemma hs_admitted method path :
  AdminGate.MatchesPrefix (hub_gate hs_conf) ($"/panel/t1/t2" ++ path) = true →
  admitted AdminHandler.hx_sha hs_conf hs_labeler (λ _, None) hs_env (hs_request method path) hs_server AdminHandler.hx_x.
Proof.
  intros Hm. split; [exact Hm|]. split; [by vm_compute|]. split; [apply AdminHandler.hx_authenticated|].
  unfold Session.ValidateCSRF. cbn [aqReq hs_request HubAPI.aqReq AdminHandler.hx_call Method ReqHeader].
  destruct (Session.isSafeMethod method); [done|]. by vm_compute.
Qed.

Lemma hub_changes_audited_witness :
  ∃ ev, AuditLog.Actor ev = Session.ex_sid ∧
    let l := AdminHandler.asAudit (hsAdmin hs_server) in
    let l' := AdminHandler.asAudit (hsAdmin (hs_serve (hs_request MethodPut $"/api/globals") hs_server).1) in
    l' = fst (AuditLog.Write (AuditLog.io_fine Minute) ev l) ∧
    (snd (AuditLog.Write (AuditLog.io_fine Minute) ev l) = None → recorded (AuditLog.io_fine Minute) ev l l').
Proof.
  pose proof (hub_changes_audited AdminHandler.hx_sha (λ _, None) (λ _, None) None hs_conf hs_labeler (λ _, None) hs_env
    (hs_request MethodPut $"/api/globals") hs_server AdminHandler.hx_st1_wf (hs_request_ok _ _) ltac:(vm_compute; reflexivity)) as Hx.
  fold hs_serve in Hx. rewrite (surjective_pairing (hs_serve _ _)) in Hx. destruct Hx as [Hx|[Hx|(_ & x & ev & Hadm & Hact & Hw & Hrec & _)]].
  - apply (f_equal HubRegistry.version) in Hx. vm_compute in Hx. discriminate.
  - vm_compute in Hx. done.
  - exists ev. split; [|split; [exact Hw|exact Hrec]]. rewrite Hact. destruct Hadm as (_ & _ & [Hl _] & _).
    by apply AdminHandler.hx_st1_wf in Hl as (-> & _).
Defined.

Lemma hub_api_logout_keeps_session_witness :
  let s' := (hs_serve (hs_request MethodPost $"/api/logout") hs_server).1 in
  Session.sessions (AdminHandler.asSessions (hsAdmin s')) !! Session.ex_sid = Some (Session.touch Minute AdminHandler.hx_x).
Proof.
  pose proof (hub_api_logout_keeps_session AdminHandler.hx_sha (λ _, None) (λ _, None) None hs_conf hs_labeler (λ _, None) hs_env
    (hs_request MethodPost $"/api/logout") hs_server AdminHandler.hx_x AdminHandler.hx_st1_wf (hs_request_ok _ _)
    (hs_admitted MethodPost $"/api/logout" ltac:(vm_compute; reflexivity)) eq_refl ltac:(vm_compute; reflexivity) ltac:(vm_compute; reflexivity)) as Hx.
  fold hs_serve in Hx. rewrite (surjective_pairing (hs_serve _ _)) in Hx. destruct Hx as [_ Hx]. exact Hx.
Defined.

Lemma hub_restart_empties_edges_witness :
  ∃ s, hs_boot = Some s ∧
    ∀ ts, HubStream.deliver (Some (huNodes (hsHub s))) $"edge-1"
      (HubRegistry.mkEvent HubRegistry.EventSnapshot (HubRegistry.PSnapshot ts None 1) 0)
    = Some (HubRegistry.mkEvent HubRegistry.EventSnapshot (HubRegistry.PSnapshot [] None 1) 0).
Proof.
  destruct hs_boot as [s|] eqn:Hb; [|discriminate]. exists s. split; [reflexivity|]. intros ts.
  exact (proj1 (proj2 (hub_restart_empties_edges hs_conf CA.SerialWritten true true 0 hs_disk s $"edge-1" Hb ltac:(discriminate))) ts None 1%Z 0%Z).
Defined.

(** Two requests without credentials, one for a write. *)
Definition hs_traffic : list (HubEnv * ApiRequest) :=
  [(hs_env, HubAPI.hq_request MethodPut $"/v1/globals" None);
   (hs_env, HubAPI.hq_request MethodPut $"/panel/t1/t2/api/globals" None)].

Lemma hub_registry_guarded_witness :
  ∃ s, hs_boot = Some s ∧
  let run := hub_run AdminHandler.hx_sha (λ _, None) (λ _, None) None hs_conf hs_labeler (λ _, None) in
  huReg (hsHub (run hs_traffic s)) = HubRegistry.New (hdTenants hs_disk) ∨
  ∃ l1 env q l2, hs_traffic = l1 ++ (env, q) :: l2 ∧
    (is_Some (sender q (hsHub (run l1 s))) ∨
     ∃ x, admitted AdminHandler.hx_sha hs_conf hs_labeler (λ _, None) env q (run l1 s) x).
Proof.
  destruct hs_boot as [s|] eqn:Hb; [|discriminate]. exists s. split; [reflexivity|].
  apply (hub_registry_guarded AdminHandler.hx_sha (λ _, None) (λ _, None) None hs_conf hs_labeler (λ _, None) CA.SerialWritten true true 0 hs_disk s
    hs_traffic Hb).
  repeat constructor; decide_now || apply Session.ex_rnd_ok.
Defined.
