(* ===== verification/PoolAPI.v ===== *)
(** The control API of the Tor pool on its Unix socket
    (src/internal/torpool/api.go) over the manager: the four routes, and the
    context of a request, which net/http cancels when the handler returns.

    Decoding of the scale request is a parameter; the uptime is an input. *)

From S2P Require Import Prelude Float Http GoStd Shared TorPool Mux.

Record PoolHealth := mkPoolHealth {
  phInstances : Z;
  phAlive : Z;
  phTotalStreams : Z;
  phAvgLatencyMs : Z
}.

Inductive pool_body :=
| PBackends (l : list BackendInfo)
| PHealth (h : PoolHealth)
| PStats (uptimeSec : Z)
| PText (msg : gostring)
| PNone.

Record pool_reply := mkPoolReply { plStatus : Z; plBody : pool_body }.

Definition handleBackends (m : Manager) : pool_reply := mkPoolReply StatusOK (PBackends (Info <$> instances m)).

(** One turn of the loop over the instances: streams, live ones, latency. *)
Definition health_step (acc : Z * Z * Z) (b : BackendInfo) : Z * Z * Z :=
  let '(streams, alive, sum) := acc in
  let streams := wrap64 (streams + biActiveConns b) in
  if biAlive b then (streams, wrap64 (alive + 1), wrap64 (sum + biLatencyMs b)) else (streams, alive, sum).

Definition handleHealth (m : Manager) : pool_reply :=
  let '(streams, alive, sum) := foldl health_step (0, 0, 0)%Z (Info <$> instances m) in
  mkPoolReply StatusOK (PHealth (mkPoolHealth (Z.of_nat (length (instances m))) alive streams
    (if Z.ltb 0 alive then Z.quot sum alive else 0))).

Definition handleStats (uptime : Z) : pool_reply := mkPoolReply StatusOK (PStats uptime).

Section api.
(** json.Decoder on a ScaleRequest. *)
Context (dec_target : gostring → option Z).
Context (cfg : TorConfig) (boots : Z → bool).

(** None is a handler that panics. *)
Definition handleScale (ctx_ok : bool) (ctx : nat) (body : gostring) (m : Manager) : Manager * option pool_reply :=
  if shuttingDown m then (m, Some (mkPoolReply StatusServiceUnavailable (PText $"manager is shutting down")))
  else match dec_target body with
  | None => (m, Some (mkPoolReply StatusBadRequest (PText $"invalid JSON: ")))
  | Some target =>
      match ScaleTo cfg boots ctx_ok ctx target m with
      | (m', None) => (m', Some (mkPoolReply StatusNoContent PNone))
      | (m', Some ErrShuttingDown) => (m', Some (mkPoolReply StatusServiceUnavailable (PText [])))
      | (m', Some Panicked) => (m', None)
      | (m', Some _) => (m', Some (mkPoolReply StatusInternalServerError (PText $"scale failed: ")))
      end
  end.

Definition pool_patterns (segs : list gostring) : option (gostring * gostring) :=
  match segs with
  | [a] =>
      if decide (a = $"backends" ∨ a = $"health" ∨ a = $"stats") then Some (MethodGet, a)
      else if decide (a = $"scale") then Some (MethodPost, a) else None
  | _ => None
  end.

(** NewAPI: one request under its own context [ctx], up to the end of the
    request. *)
Definition PoolServe (uptime : Z) (ctx_ok : bool) (ctx : nat) (q : Request) (body : gostring) (m : Manager)
    : Manager * option pool_reply :=
  match mux_segments q with
  | None => (m, Some (mkPoolReply 301 PNone))
  | Some segs =>
      match pool_patterns segs with
      | None => (m, Some (mkPoolReply StatusNotFound (PText $"404 page not found")))
      | Some (method, a) =>
          if decide (Method q ≠ method ∧ ¬ (Method q = MethodHead ∧ method = MethodGet))
          then (m, Some (mkPoolReply StatusMethodNotAllowed (PText $"Method Not Allowed")))
          else if decide (a = $"backends") then (m, Some (handleBackends m))
          else if decide (a = $"health") then (m, Some (handleHealth m))
          else if decide (a = $"stats") then (m, Some (handleStats uptime))
          else let '(m', r) := handleScale ctx_ok ctx body m in (cancel_ctx ctx m', r)
      end
  end.

(** * Lemmas *)

(** Instances that run under [ctx], or that were there before. *)
Lemma scale_up_new ctx n used m m' err :
  scale_up cfg boots ctx n used m = (m', err) →
  shuttingDown m' = shuttingDown m ∧ ∀ t, t ∈ instances m' → t ∈ instances m ∨ tiCtx t = ctx.
Proof.
  revert used m. induction n as [|n IH]; intros used m; cbn [scale_up]; [intros [= <- <-]; by auto|].
  destruct (backend_for cfg _) as [b|]; [|intros [= <- <-]; by auto]. unfold spawnInstance.
  destruct (boots _); [|intros [= <- <-]; by auto]. intros (Hs & Ht)%IH. split; [done|]. intros t Hin.
  apply Ht in Hin as [Hin|]; [|by right]. cbn [instances set_instances] in Hin.
  apply elem_of_app in Hin as [Hin| ->%list_elem_of_singleton]; [by left|by right].
Qed.

Lemma scale_new ctx_ok ctx target m :
  ∀ t, t ∈ instances (ScaleTo cfg boots ctx_ok ctx target m).1 → t ∈ instances m ∨ tiCtx t = ctx.
Proof.
  intros t. unfold ScaleTo, doMutation. destruct (shuttingDown m); [by left|]. destruct ctx_ok; cbn [negb]; [|by left].
  unfold scaleToLocked. destruct (Z.ltb _ _).
  - assert (Hsort : t ∈ sort_instances (instances m) → t ∈ instances m).
    { unfold sort_instances. by rewrite merge_sort_Permutation. }
    destruct (Z.ltb _ 0); cbn [fst instances set_instances]; [by auto|]. intros Ht. left. apply Hsort.
    rewrite <- (take_drop (Z.to_nat (clamp cfg target)) (sort_instances (instances m))). apply elem_of_app. by left.
  - destruct (Z.ltb _ _); [|by left]. destruct (scale_up _ _ _ _ _ _) as [m' err] eqn:E. apply scale_up_new in E as [_ E]. apply E.
Qed.

(** Scaling up through the API never lasts: the new processes run under the
    context of the request, which ends with it. Whatever a request asks of
    the pool, afterwards every live instance was in the pool before. *)
Theorem pool_scale_never_grows uptime ctx_ok ctx q body m t :
  t ∈ instances (PoolServe uptime ctx_ok ctx q body m).1 → tiAlive t = true → t ∈ instances m.
Proof.
  unfold PoolServe. destruct (mux_segments q) as [segs|]; [|done]. destruct (pool_patterns segs) as [[method a]|]; [|done].
  do 4 (case_decide; [done|]). destruct (handleScale ctx_ok ctx body m) as [m' r] eqn:E. cbn [fst].
  assert (Hnew : ∀ t, t ∈ instances m' → t ∈ instances m ∨ tiCtx t = ctx).
  { unfold handleScale in E. destruct (shuttingDown m); [injection E as <- <-; by left|].
    destruct (dec_target body) as [target|]; [|injection E as <- <-; by left].
    pose proof (scale_new ctx_ok ctx target m) as Hs. destruct (ScaleTo _ _ _ _ _ _) as [m1 err].
    destruct err as [[]|]; injection E as <- <-; exact Hs. }
  unfold cancel_ctx. cbn [instances set_instances]. intros Ht Ha. apply list_elem_of_fmap in Ht as (t0 & -> & Ht0).
  destruct (decide (tiCtx t0 = ctx)) as [Hc|Hc]; [done|]. by apply Hnew in Ht0 as [|].
Qed.
End api.

(** * Health *)

Definition sumZ (l : list Z) : Z := foldr Z.add 0%Z l.

Lemma sumZ_bounds lo hi l :
  Forall (λ x, lo ≤ x ≤ hi)%Z l → (lo * Z.of_nat (length l) ≤ sumZ l ≤ hi * Z.of_nat (length l))%Z.
Proof. induction 1 as [|x l Hx Hl IH]; cbn [sumZ foldr length]; [lia|]. fold (sumZ l). lia. Qed.

(** The loop computes plain sums as long as they fit in an int. *)
Lemma health_fold hi l s a t :
  Forall (λ b, 0 ≤ biActiveConns b ≤ hi ∧ 0 ≤ biLatencyMs b ≤ hi)%Z l → (0 ≤ s ∧ 0 ≤ a ∧ 0 ≤ t)%Z →
  (s + hi * Z.of_nat (length l) < 2 ^ 63)%Z → (a + Z.of_nat (length l) < 2 ^ 63)%Z → (t + hi * Z.of_nat (length l) < 2 ^ 63)%Z →
  foldl health_step (s, a, t) l =
  (s + sumZ (biActiveConns <$> l), a + Z.of_nat (length (List.filter biAlive l)), t + sumZ (biLatencyMs <$> List.filter biAlive l))%Z.
Proof.
  intros Hl. revert s a t. induction Hl as [|b l [Hc Hb] Hl IH]; intros s a t H0 H1 H2 H3.
  - cbn. by rewrite !Z.add_0_r.
  - cbn [foldl length] in *. assert (0 ≤ hi)%Z by lia. unfold health_step at 2.
    rewrite (wrap64_id (s + biActiveConns b)) by (unfold in_int64, min_int64, max_int64; lia). cbn [List.filter]. destruct (biAlive b).
    + rewrite !wrap64_id by (unfold in_int64, min_int64, max_int64; lia). rewrite IH by lia. cbn [fmap list_fmap sumZ foldr length]. fold sumZ.
      f_equal; [f_equal|]; unfold sumZ; lia.
    + rewrite IH by lia. cbn [fmap list_fmap sumZ foldr]. f_equal. f_equal. unfold sumZ. lia.
Qed.

(** The health report counts the instances and their streams exactly, and the
    average latency lies between the latencies of the live instances. *)
Theorem pool_health_exact m hi lo :
  Forall (λ t, 0 ≤ tiActiveConns t ≤ hi ∧ 0 ≤ tiLatencyMs t ≤ hi)%Z (instances m) →
  (hi * Z.of_nat (length (instances m)) < 2 ^ 63)%Z → (Z.of_nat (length (instances m)) < 2 ^ 63)%Z →
  Forall (λ t, lo ≤ tiLatencyMs t)%Z (AliveInstances m) → (0 ≤ lo)%Z →
  ∃ avg, handleHealth m = mkPoolReply StatusOK (PHealth (mkPoolHealth (Z.of_nat (length (instances m)))
      (Z.of_nat (length (AliveInstances m))) (sumZ (tiActiveConns <$> instances m)) avg)) ∧
    (AliveInstances m ≠ [] → lo ≤ avg ≤ hi)%Z.
Proof.
  intros Hall Hsum Hlen Hlo Hlo0. unfold handleHealth.
  assert (Hf : List.filter biAlive (Info <$> instances m) = Info <$> AliveInstances m).
  { unfold AliveInstances. clear. induction (instances m) as [|t l IH]; [done|]. cbn [fmap list_fmap List.filter].
    change (biAlive (Info t)) with (tiAlive t). destruct (tiAlive t); [|exact IH]. cbn [fmap list_fmap]. f_equal. exact IH. }
  rewrite (health_fold hi); [|by rewrite Forall_fmap|lia|rewrite length_fmap; lia..]. rewrite !Z.add_0_l, Hf, length_fmap, <- (list_fmap_compose Info biActiveConns).
  eexists. split; [reflexivity|]. intros Hne.
  assert (Hb : Forall (λ x, lo ≤ x ≤ hi)%Z (biLatencyMs <$> (Info <$> AliveInstances m))).
  { rewrite !Forall_fmap. apply Forall_forall. intros t Ht. rewrite Forall_forall in Hlo, Hall. cbn. split; [by apply Hlo|].
    apply Hall. unfold AliveInstances in Ht. apply list_elem_of_In, filter_In in Ht as [Ht _]. by apply list_elem_of_In. }
  apply sumZ_bounds in Hb. rewrite !length_fmap in Hb. set (n := Z.of_nat (length (AliveInstances m))) in *.
  assert (0 < n)%Z by (unfold n; destruct (AliveInstances m); [done|cbn; lia]).
  destruct (Z.ltb_spec 0 n); [|lia]. rewrite Z.quot_div_nonneg by nia. split.
  - apply Z.div_le_lower_bound; lia.
  - apply Z.div_le_upper_bound; lia.
Qed.

(** * Examples *)

Definition pa_cfg : TorConfig := mkTorConfig 1 4 9050 [] 1.
Definition pa_pool : Manager := mkManager [mkTorInstance 9050 [] true 3 20 0 0 0] false [].
Definition pa_scale : Request := mkRequest MethodPost $"/scale" [] [] [] [] ∅ ∅.
Definition pa_after : Manager * option pool_reply :=
  PoolServe (λ _, Some 3%Z) pa_cfg (λ _, true) 0 true 7 pa_scale [] pa_pool.

(** Three instances are reported as accepted, one of them is alive. *)
Lemma pool_scale_never_grows_witness :
  plStatus <$> pa_after.2 = Some StatusNoContent ∧ length (instances pa_after.1) = 3 ∧
  tiPort <$> AliveInstances pa_after.1 = [9050]%Z ∧ mkTorInstance 9050 [] true 3 20 0 0 0 ∈ instances pa_pool.
Proof.
  split; [vm_compute; reflexivity|]. split; [vm_compute; reflexivity|]. split; [vm_compute; reflexivity|].
  apply (pool_scale_never_grows (λ _, Some 3%Z) pa_cfg (λ _, true) 0 true 7 pa_scale [] pa_pool).
  - vm_compute. left.
  - reflexivity.
Defined.

Lemma pool_health_exact_witness :
  ∃ avg, handleHealth pa_pool = mkPoolReply StatusOK (PHealth (mkPoolHealth 1 1 3 avg)) ∧ (20 ≤ avg ≤ 20)%Z.
Proof.
  destruct (pool_health_exact pa_pool 20 20) as (avg & Hh & Hb).
  - repeat constructor; cbn; lia.
  - vm_compute. reflexivity.
  - vm_compute. reflexivity.
  - repeat constructor; cbn; lia.
  - lia.
  - exists avg. split; [exact Hh|apply Hb; discriminate].
Defined.
