(* ===== verification/EdgeClients.v ===== *)
(** The clients that keep an edge up to date (src/internal/proxy/snapshot.go,
    src/internal/door/snapshot.go): the reconnecting stream client of the
    proxy and of the door, and the local client that follows the files of an
    embedded hub registry.

    The stream client is the same in both packages but for the handler of an
    event. What a connection brings is an input: an error, a status, or a body
    that ends with EOF or breaks off. A cancelled context ends the run, which
    is the end of the list of attempts. *)

From S2P Require Import Prelude Http SSE.
From S2P Require HubRegistry HubStream FeatureRegistry Queue Selector.

(** * The stream client *)

(** [ecHubURL] is None for a nil configuration. *)
Record EdgeClient := mkEdgeClient {
  ecHubURL : option gostring;
  ecOverride : gostring;
  minBackoff : duration;
  maxBackoff : duration
}.

Definition NewRemoteClient (hubURL : option gostring) : EdgeClient :=
  mkEdgeClient hubURL [] (500 * Millisecond) (30 * Second).

Definition NewSnapshotClient (hubURL : option gostring) : EdgeClient :=
  mkEdgeClient hubURL [] (500 * Millisecond) (30 * Second).

Definition SetStreamURL (u : gostring) (c : EdgeClient) : EdgeClient :=
  mkEdgeClient (ecHubURL c) u (minBackoff c) (maxBackoff c).

Definition streamURL (c : EdgeClient) : gostring :=
  if decide (ecOverride c ≠ []) then ecOverride c
  else match ecHubURL c with
  | None => []
  | Some u =>
      let base := TrimRight u (λ c, bool_decide (c = "/"%char)) in
      if decide (base = []) then [] else base ++ $"/v1/config/stream"
  end.

Definition nextBackoff (cur max : duration) : duration :=
  let cur := wrap64 (cur * 2) in if Z.ltb max cur then max else cur.

(** A body: the bytes that arrive and whether they end with EOF. *)
Record stream_body := mkBody { sbBytes : gostring; sbEOF : bool }.

Inductive http_result := HttpErr | HttpResp (status : Z) (body : stream_body).

(** A read that fails otherwise than by EOF drops the line it was in. *)
Definition complete_lines (s : gostring) : gostring :=
  match LastIndexByte s newline with Some i => take (S i) s | None => [] end.

Section client.
Context {E St : Type} `{EventCodec E} (apply : E → St → St).

Definition readable (b : stream_body) : gostring := if sbEOF b then sbBytes b else complete_lines (sbBytes b).
Definition events (b : stream_body) : list E := parseSSE None (readable b).

Definition openStream (c : EdgeClient) (r : http_result) : option stream_body :=
  if decide (streamURL c = []) then None
  else match r with
  | HttpErr => None
  | HttpResp status b => if decide (status ≠ StatusOK) then None else Some b
  end.

(** One event, or an error when the stream ends before it. *)
Definition readInitialEvent (b : stream_body) : option E := head (parseSSE (Some 1) (readable b)).

Inductive start_error := ErrConnect | ErrInitial.

(** Start with what arrives within the initial timeout: one event is read and
    applied. The context of the attempt is cancelled before the stream is
    handed over, so of the rest only the events that were already in the
    reader's buffer, [buffered] of them, are left to read. *)
Definition Start (c : EdgeClient) (r : http_result) (buffered : nat) (s : St) : result start_error (St * list E) :=
  match openStream c r with
  | None => Err ErrConnect
  | Some b =>
      match readInitialEvent b with
      | None => Err ErrInitial
      | Some ev => Ok (apply ev s, take buffered (drop 1 (events b)))
      end
  end.

Definition connectAndConsume (c : EdgeClient) (r : http_result) (s : St) : St :=
  match openStream c r with
  | None => s
  | Some b => foldl (λ s ev, apply ev s) s (events b)
  end.

(** The loop of run; the second component lists the waits. *)
Fixpoint run_loop (c : EdgeClient) (rs : list http_result) (backoff : duration) (s : St) : St * list duration :=
  match rs with
  | [] => (s, [])
  | r :: rs' =>
      let '(s', waits) := run_loop c rs' (nextBackoff backoff (maxBackoff c)) (connectAndConsume c r s) in
      (s', backoff :: waits)
  end.

Definition run (c : EdgeClient) (pending : list E) (rs : list http_result) (s : St) : St * list duration :=
  let '(s', waits) :=
    run_loop c rs (nextBackoff (minBackoff c) (maxBackoff c)) (foldl (λ s ev, apply ev s) s pending) in
  (s', minBackoff c :: waits).

(** * Lemmas *)

Definition stream_events (c : EdgeClient) (r : http_result) : list E :=
  match openStream c r with None => [] | Some b => events b end.

Lemma run_loop_state c rs b s :
  (run_loop c rs b s).1 = foldl (λ s ev, apply ev s) s (rs ≫= stream_events c).
Proof.
  revert b s. induction rs as [|r rs IH]; intros b s; [done|]. cbn [run_loop mbind list_bind].
  pose proof (IH (nextBackoff b (maxBackoff c)) (connectAndConsume c r s)) as Hs.
  destruct (run_loop c rs _ _) as [s' w]. cbn [fst] in Hs |- *. rewrite Hs, foldl_app. f_equal.
  unfold connectAndConsume, stream_events. by destruct (openStream c r).
Qed.

(** The wait after [i] doublings. *)
Definition wait_at (c : EdgeClient) (i : nat) : duration := Z.min (minBackoff c * 2 ^ Z.of_nat i) (maxBackoff c).

Definition backoff_ok (c : EdgeClient) : Prop := (0 < minBackoff c ≤ maxBackoff c)%Z ∧ (maxBackoff c < 2 ^ 62)%Z.

Lemma next_wait c i : backoff_ok c → nextBackoff (wait_at c i) (maxBackoff c) = wait_at c (S i).
Proof.
  intros [Hm Hx]. unfold nextBackoff, wait_at. rewrite Nat2Z.inj_succ, Z.pow_succ_r by lia.
  assert (0 < 2 ^ Z.of_nat i)%Z by lia.
  rewrite wrap64_id by (unfold in_int64, min_int64, max_int64; nia). destruct (Z.ltb_spec (maxBackoff c)
    (Z.min (minBackoff c * 2 ^ Z.of_nat i) (maxBackoff c) * 2)); nia.
Qed.

Lemma run_loop_waits c rs i s :
  backoff_ok c → (run_loop c rs (wait_at c i) s).2 = wait_at c <$> seq i (length rs).
Proof.
  intros Hb. revert i s. induction rs as [|r rs IH]; intros i s; [done|]. cbn [run_loop length seq fmap list_fmap].
  rewrite next_wait by done. pose proof (IH (S i) (connectAndConsume c r s)) as Hw. destruct (run_loop c rs _ _) as [s' w].
  cbn [snd] in Hw |- *. by rewrite Hw.
Qed.

(** Reading one event is reading the first of all. *)
Lemma readSSE_first f line body : readSSE (Some 1) f line body = take 1 (readSSE None f line body).
Proof.
  revert f line. induction body as [|c body IH]; intros f line; cbn [readSSE].
  - case_decide; [done|]. by destruct (flush _).
  - case_decide; [|apply IH]. case_decide; [|apply IH]. by destruct (flush f).
Qed.
End client.

Section client_theorems.
Context {E St : Type} `{EventCodec E} (apply : E → St → St).

Lemma wait_at_bounds c i : backoff_ok c → (minBackoff c ≤ wait_at c i ≤ maxBackoff c)%Z.
Proof. intros [Hm _]. unfold wait_at. assert (0 < 2 ^ Z.of_nat i)%Z by lia. nia. Qed.

Lemma wait_at_double c i : backoff_ok c → wait_at c (S i) = Z.min (2 * wait_at c i) (maxBackoff c).
Proof. intros [Hm _]. unfold wait_at. rewrite Nat2Z.inj_succ, Z.pow_succ_r by lia. lia. Qed.

Lemma run_exact (c : EdgeClient) pending rs s :
  backoff_ok c →
  (run apply c pending rs s).1 = foldl (λ s ev, apply ev s) s (pending ++ (rs ≫= stream_events c)) ∧
  (run apply c pending rs s).2 = wait_at c <$> seq 0 (S (length rs)).
Proof.
  intros Hb. unfold run.
  assert (H0 : minBackoff c = wait_at c 0) by (unfold wait_at; destruct Hb; cbn; lia).
  pose proof (run_loop_state apply c rs (nextBackoff (minBackoff c) (maxBackoff c)) (foldl (λ s ev, apply ev s) s pending)) as Hs.
  pose proof (run_loop_waits apply c rs 1 (foldl (λ s ev, apply ev s) s pending) Hb) as Hw.
  rewrite <- next_wait, <- H0 in Hw by done.
  destruct (run_loop apply c rs _ _) as [s' w]. cbn [fst snd] in *. rewrite Hs, Hw, foldl_app. split; [done|].
  cbn [seq fmap list_fmap]. by rewrite H0 at 1.
Qed.


(** Start succeeds exactly when the hub answers 200 and sends an event, and
    then the first event, and only it, has been applied. *)
Theorem edge_start_exact (c : EdgeClient) r k s s' pending :
  Start apply c r k s = Ok (s', pending) ↔
  ∃ ev rest, stream_events c r = ev :: rest ∧ s' = apply ev s ∧ pending = take k rest.
Proof.
  unfold Start, stream_events. destruct (openStream c r) as [b|]; [|naive_solver].
  unfold readInitialEvent, parseSSE at 1. rewrite readSSE_first. fold (parseSSE None (readable b)). fold (events b).
  destruct (events b) as [|ev rest]; cbn [take drop]; naive_solver.
Qed.
End client_theorems.

Lemma new_client_backoff_ok u : backoff_ok (NewRemoteClient u) ∧ NewSnapshotClient u = NewRemoteClient u.
Proof. split; [|done]. by vm_compute. Qed.

(** The two clients: the proxy reloads its feature registry, the door updates
    its selector. *)
Definition remote_Start {A} `{GoUnicode} `{EventCodec HubRegistry.ConfigStreamEvent} :=
  Start (HubStream.applyEvent (A := A)).
Definition remote_run {A} `{GoUnicode} `{EventCodec HubRegistry.ConfigStreamEvent} :=
  run (HubStream.applyEvent (A := A)).
Definition door_Start `{EventCodec HubRegistry.ConfigStreamEvent} := Start HubStream.door_apply.
Definition door_run `{EventCodec HubRegistry.ConfigStreamEvent} := run HubStream.door_apply.

(** * The door after a reconnect *)

Definition door_fold (evs : list HubRegistry.ConfigStreamEvent) (s : Selector.Selector) : Selector.Selector :=
  foldl (λ s ev, HubStream.door_apply ev s) s evs.

Definition same_mirrors (a b : Selector.Selector) : Prop := Selector.sel_mirrors a = Selector.sel_mirrors b.

Lemma door_fold_same evs a b : same_mirrors a b → same_mirrors (door_fold evs a) (door_fold evs b).
Proof.
  unfold same_mirrors. revert a b. induction evs as [|ev evs IH]; intros a b Hab; [done|]. cbn [door_fold foldl]. apply IH.
  unfold HubStream.door_apply. destruct (HubRegistry.evType ev), (HubRegistry.evData ev); try done;
    unfold Selector.UpdateMirrors, Selector.UpsertMirror, Selector.RemoveMirror; cbn; by rewrite ?Hab.
Qed.

(** A reconnect heals the door: once a stream has brought its mirror snapshot,
    the mirrors of the door are those of a door that has seen nothing else,
    whatever it missed or saw before. *)
Theorem door_reconnect_heals before ms v at_ after s :
  same_mirrors
    (door_fold (before ++ HubRegistry.mkEvent HubRegistry.EventMirrorSnapshot (HubRegistry.PMirrors ms v) at_ :: after) s)
    (door_fold after (Selector.UpdateMirrors ms Selector.NewSelector)).
Proof.
  unfold door_fold. rewrite foldl_app. cbn [foldl]. apply door_fold_same. done.
Qed.

(** * The local client *)

Section local.
Context {D : Type} `{HubRegistry.ConfYaml D} `{HubRegistry.HubJson} `{GoUnicode} {A : Type}.

Definition localBuffer : nat := 8.

(** The embedded hub registry, the subscription, the channel of the subscriber
    and the feature registry. *)
Record LocalClient := mkLocal {
  lcHub : HubRegistry.Registry D;
  lcSub : Z;
  lcCh : list HubRegistry.ConfigStreamEvent;
  lcReg : FeatureRegistry.Registry A
}.

(** applyEvent with a hub registry: the event only says that something has
    changed, the snapshot of the registry is loaded. *)
Definition applyLocal (hub : HubRegistry.Registry D) (reg : FeatureRegistry.Registry A) : FeatureRegistry.Registry A :=
  fst (FeatureRegistry.Reload (HubStream.translateGlobals (HubRegistry.globals hub))
         (HubStream.translateTenantsConf (HubRegistry.tenant_map hub)) reg).

(** The drain goroutine of the registry hands its oldest event to OnEvent. *)
Definition local_drain (c : LocalClient) : LocalClient :=
  match HubRegistry.subs (lcHub c) !! lcSub c with
  | Some q =>
      match Queue.sub_ch q with
      | [] => c
      | ev :: _ =>
          mkLocal (HubRegistry.drain (lcSub c) (lcHub c)) (lcSub c) (HubStream.OnEvent localBuffer ev (lcCh c)) (lcReg c)
      end
  | None => c
  end.

(** One turn of run. *)
Definition local_apply (c : LocalClient) : LocalClient :=
  match lcCh c with
  | [] => c
  | _ :: ch => mkLocal (lcHub c) (lcSub c) ch (applyLocal (lcHub c) (lcReg c))
  end.

(** NewLocalClient and Start: the registry of the directory, the subscription,
    and the first event. None: Start waits for an event that never comes. *)
Definition local_start (now : time) (s : HubRegistry.Storage D) (reg : FeatureRegistry.Registry A) : option LocalClient :=
  match HubRegistry.Subscribe now (HubRegistry.New s) with
  | (_, None) => None
  | (hub, Some id) =>
      let c := local_drain (mkLocal hub id [] reg) in
      if decide (lcCh c = []) then None else Some (local_apply c)
  end.

(** The files change, the watcher notices, events move and are applied. *)
Inductive local_step (c : LocalClient) : LocalClient → Prop :=
| ls_files s :
    local_step c (mkLocal (HubRegistry.mkRegistry s (HubRegistry.globals (lcHub c)) (HubRegistry.tenants (lcHub c))
      (HubRegistry.version (lcHub c)) (HubRegistry.closed (lcHub c)) (HubRegistry.subID (lcHub c)) (HubRegistry.subs (lcHub c)))
      (lcSub c) (lcCh c) (lcReg c))
| ls_watch now : local_step c (mkLocal (HubRegistry.onExternalChange now (lcHub c)) (lcSub c) (lcCh c) (lcReg c))
| ls_drain : local_step c (local_drain c)
| ls_apply : local_step c (local_apply c).

(** Two hub states that the watcher cannot tell apart. *)
Definition json_same (g g' : HubRegistry.GlobalsConf) (ts ts' : gmap gostring HubRegistry.TenantConf) : Prop :=
  default [] (HubRegistry.globals_json g) = default [] (HubRegistry.globals_json g') ∧
  ∀ host, HubRegistry.tenant_json <$> ts !! host = HubRegistry.tenant_json <$> ts' !! host.

(** The feature registry has been given a state with the same JSON as the
    hub's. *)
Definition in_sync (c : LocalClient) : Prop :=
  ∃ g ts reg0, json_same g (HubRegistry.globals (lcHub c)) ts (HubRegistry.tenant_map (lcHub c)) ∧
    lcReg c = fst (FeatureRegistry.Reload (HubStream.translateGlobals g) (HubStream.translateTenantsConf ts) reg0).

Definition local_inv (c : LocalClient) : Prop :=
  ∃ q, HubRegistry.subs (lcHub c) !! lcSub c = Some q ∧ Queue.sub_closed q = false ∧
    length (Queue.sub_ch q) ≤ Queue.subBuffer ∧ length (lcCh c) ≤ localBuffer ∧
    (Queue.sub_ch q ≠ [] ∨ lcCh c ≠ [] ∨ in_sync c).

(** A live queue within its bound, and whether something is in it. *)
Definition queue_ok (q : Queue.subState HubRegistry.ConfigStreamEvent) : Prop :=
  Queue.sub_closed q = false ∧ length (Queue.sub_ch q) ≤ Queue.subBuffer.

Lemma enqueue_ok ev q : queue_ok q → queue_ok (Queue.enqueue ev q) ∧ Queue.sub_ch (Queue.enqueue ev q) ≠ [].
Proof.
  intros [Hc Hl]. unfold Queue.enqueue. rewrite Hc. unfold queue_ok. cbn [Queue.sub_closed Queue.sub_ch].
  rewrite Queue.enqueue_loop_spec by done. split; [split; [done|]|].
  - rewrite length_app. unfold Queue.subBuffer in *. case_decide; cbn; [lia|]. destruct (Queue.sub_ch q); cbn in *; lia.
  - by destruct (if decide _ then _ else _).
Qed.

(** Broadcasts leave the state of the hub and fill the queue. *)
Lemma broadcasts_sub evs (r : HubRegistry.Registry D) id q :
  HubRegistry.subs r !! id = Some q → queue_ok q →
  let r' := foldl (λ r ev, HubRegistry.broadcast ev r) r evs in
  HubRegistry.globals r' = HubRegistry.globals r ∧ HubRegistry.tenants r' = HubRegistry.tenants r ∧
  ∃ q', HubRegistry.subs r' !! id = Some q' ∧ queue_ok q' ∧ (Queue.sub_ch q ≠ [] ∨ evs ≠ [] → Queue.sub_ch q' ≠ []).
Proof.
  revert r q. induction evs as [|ev evs IH]; intros r q Hq Hok; cbn [foldl].
  - split; [done|]. split; [done|]. exists q. split; [done|]. split; [done|]. naive_solver.
  - destruct (enqueue_ok ev q Hok) as [Hok' Hne].
    destruct (IH (HubRegistry.broadcast ev r) (Queue.enqueue ev q)) as (Hg & Ht & q' & Hq' & Hok'' & Hne'); [|done|].
    { unfold HubRegistry.broadcast. cbn [HubRegistry.subs HubRegistry.set_subs]. by rewrite lookup_fmap, Hq. }
    split; [done|]. split; [done|]. exists q'. split; [done|]. split; [done|]. intros _. apply Hne'. by left.
Qed.

Lemma omap_nil_None {X Y} (f : X → option Y) l x : omap f l = [] → x ∈ l → f x = None.
Proof.
  intros Ho Hx. destruct (f x) as [y|] eqn:Hy; [|done]. assert (Hin : y ∈ omap f l) by (apply list_elem_of_omap; eauto).
  rewrite Ho in Hin. by apply elem_of_nil in Hin.
Qed.

(** Without events nothing has changed that JSON shows. *)
Lemma diff_nil now v g g' ts ts' :
  (∀ p, HubRegistry.payload_encodes p = true) →
  HubRegistry.diff_events now v g g' ts ts' = [] → json_same g g' ts ts'.
Proof.
  intros Henc Hd. unfold HubRegistry.diff_events, HubRegistry.NewTenantUpsertEvent, HubRegistry.NewTenantDeleteEvent, HubRegistry.marshalled in Hd. apply app_eq_nil in Hd as [Hg Hd]. apply app_eq_nil in Hd as [Hu Hr].
  split; [by destruct (decide _)|]. intros host. destruct (ts' !! host) as [t'|] eqn:Ht'.
  - apply (omap_nil_None _ _ (host, t')) in Hu; [|by rewrite sort_by_Permutation, elem_of_map_to_list].
    cbn [fst snd] in Hu. destruct (ts !! host) as [t|] eqn:Ht; [|by rewrite Henc in Hu].
    destruct (HubRegistry.tenantEqual t t') eqn:He; [|by rewrite Henc in Hu].
    cbn [fmap option_fmap option_map]. unfold HubRegistry.tenantEqual in He.
    destruct (HubRegistry.tenant_json t), (HubRegistry.tenant_json t'); try done. apply bool_decide_eq_true in He. by subst.
  - destruct (ts !! host) as [t|] eqn:Ht; [|done].
    apply (omap_nil_None _ _ (host, t)) in Hr; [|by rewrite sort_by_Permutation, elem_of_map_to_list].
    cbn [fst snd] in Hr. by rewrite Ht', Henc in Hr.
Qed.

Lemma json_same_trans g1 g2 g3 ts1 ts2 ts3 :
  json_same g1 g2 ts1 ts2 → json_same g2 g3 ts2 ts3 → json_same g1 g3 ts1 ts3.
Proof. intros [Hg Ht] [Hg' Ht']. split; [by rewrite Hg|]. intros host. by rewrite Ht. Qed.

Lemma watch_inv now c :
  (∀ p, HubRegistry.payload_encodes p = true) → local_inv c →
  local_inv (mkLocal (HubRegistry.onExternalChange now (lcHub c)) (lcSub c) (lcCh c) (lcReg c)).
Proof.
  intros Henc (q & Hq & Hc & Hl & Hch & Hs). unfold local_inv, HubRegistry.onExternalChange. cbn [lcHub lcSub lcCh lcReg].
  destruct (HubRegistry.LoadAll _) as [[g ts] []]; [by exists q|].
  set (r1 := HubRegistry.set_state _ _ _ _ _). set (evs := HubRegistry.diff_events _ _ _ _ _ _).
  destruct (broadcasts_sub evs r1 (lcSub c) q) as (Hg & Ht & q' & Hq' & [Hc' Hl'] & Hne); [done|done|].
  exists q'. split_and!; [done..|]. destruct Hs as [Hs|[Hs|Hs]]; [left; auto|by right; left|].
  destruct evs as [|ev evs'] eqn:He; [|left; apply Hne; by right].
  right. right. destruct Hs as (g0 & ts0 & reg0 & Hsame & Hreg). exists g0, ts0, reg0. split; [|done]. cbn [lcHub].
  unfold HubRegistry.tenant_map. rewrite Hg, Ht. eapply json_same_trans; [exact Hsame|]. by eapply diff_nil.
Qed.

Lemma drain_inv c : local_inv c → local_inv (local_drain c).
Proof.
  intros (q & Hq & Hc & Hl & Hch & Hs). unfold local_drain. rewrite Hq. destruct (Queue.sub_ch q) as [|ev ch] eqn:Hqc.
  { exists q. rewrite Hqc. by split_and!. }
  exists (Queue.drain1 q). unfold HubRegistry.drain. cbn [lcHub lcSub lcCh lcReg HubRegistry.subs HubRegistry.set_subs].
  assert (Hd : Queue.drain1 q = Queue.mkSub ch (Queue.sub_closed q) (Queue.sub_out q ++ [ev])) by (unfold Queue.drain1; by rewrite Hqc).
  split; [by rewrite lookup_alter_eq, Hq|]. rewrite Hd. cbn [Queue.sub_closed Queue.sub_ch length] in Hl |- *.
  unfold HubStream.OnEvent, localBuffer in *. split_and!; [done|lia| |].
  - repeat case_decide; rewrite ?length_app; cbn; [lia| |]; destruct (lcCh c); cbn in *; lia.
  - right. left. repeat case_decide; [by destruct (lcCh c)|by destruct (tail (lcCh c))|]. destruct (lcCh c); cbn in *; lia.
Qed.

Lemma apply_inv c : local_inv c → local_inv (local_apply c).
Proof.
  intros (q & Hq & Hc & Hl & Hch & Hs). unfold local_apply. destruct (lcCh c) as [|ev ch] eqn:Hcc.
  { exists q. rewrite Hcc. split_and!; done. }
  exists q. cbn [lcHub lcSub lcCh lcReg length] in *. split_and!; [done..|lia|]. right. right.
  exists (HubRegistry.globals (lcHub c)), (HubRegistry.tenant_map (lcHub c)), (lcReg c). done.
Qed.

Lemma local_step_inv c c' :
  (∀ p, HubRegistry.payload_encodes p = true) → local_step c c' → local_inv c → local_inv c'.
Proof.
  intros Henc Hst Hi. destruct Hst as [s|now| |].
  - destruct Hi as (q & Hi). by exists q.
  - by apply watch_inv.
  - by apply drain_inv.
  - by apply apply_inv.
Qed.

Lemma local_start_inv now s reg c : local_start now s reg = Some c → local_inv c.
Proof.
  unfold local_start, HubRegistry.Subscribe, HubRegistry.subscribe_register.
  destruct (HubRegistry.closed (HubRegistry.New s)); [done|]. set (id := wrapu64 _). set (p := HubRegistry.PSnapshot _ _ _).
  set (hub := HubRegistry.subscribe_seed now id p _). case_decide as Hne; [done|]. intros Hc. apply (inj Some) in Hc. subst c.
  apply apply_inv, drain_inv.
  assert (Hq : ∃ q, HubRegistry.subs hub !! id = Some q ∧ queue_ok q).
  { unfold hub, HubRegistry.subscribe_seed, p, HubRegistry.NewSnapshotEvent, HubRegistry.marshalled. destruct (HubRegistry.payload_encodes _);
      cbn [HubRegistry.subs HubRegistry.set_subs]; [rewrite lookup_alter_eq|]; rewrite lookup_insert_eq; eexists; (split; [done|]).
    - apply enqueue_ok. split; [done|]. cbn. lia.
    - split; [done|]. cbn. lia. }
  destruct Hq as (q & Hq & Hok & Hl). exists q. cbn [lcHub lcSub lcCh lcReg] in *. split_and!; [done..|cbn; lia|].
  left. intros Hnil. apply Hne. unfold local_drain. cbn [lcHub lcSub lcCh lcReg]. by rewrite Hq, Hnil.
Qed.

(** C22. A proxy in local mode converges to its files. However file changes,
    watcher runs, deliveries and reloads interleave, and however many events
    the two queues drop, once both queues are empty the feature registry has
    been given the globals and tenants the hub registry holds, up to what JSON
    does not show; they are in force unless a feature refused them. *)
Theorem local_client_converges now s reg c0 c :
  (∀ p, HubRegistry.payload_encodes p = true) →
  local_start now s reg = Some c0 → rtc local_step c0 c →
  lcCh c = [] → (∀ q, HubRegistry.subs (lcHub c) !! lcSub c = Some q → Queue.sub_ch q = []) →
  ∃ g ts, json_same g (HubRegistry.globals (lcHub c)) ts (HubRegistry.tenant_map (lcHub c)) ∧
    (FeatureRegistry.Tenants (lcReg c) = HubStream.translateTenantsConf ts ∧
     FeatureRegistry.Globals (lcReg c) = HubStream.translateGlobals g ∨
     FeatureRegistry.validate_all (lcReg c) (HubStream.translateGlobals g) (HubStream.translateTenantsConf ts) ≠ []).
Proof.
  intros Henc Hst Hrun Hch Hq.
  assert (Hi : local_inv c).
  { apply local_start_inv in Hst. clear -Henc Hst Hrun. induction Hrun as [|x y z Hxy _ IH]; [done|]. apply IH. by eapply local_step_inv. }
  destruct Hi as (q & Hsub & _ & _ & _ & [Hne|[Hne|Hs]]); [by destruct Hne; apply Hq|done|].
  destruct Hs as (g & ts & reg0 & Hsame & Hreg). exists g, ts. split; [done|]. rewrite Hreg. unfold FeatureRegistry.Reload.
  destruct (FeatureRegistry.validate_all reg0 _ _) eqn:Hv; [by left|right]. cbn [fst]. by rewrite Hv.
Qed.
End local.

(** * Examples *)

#[local] Existing Instances SSE.sx_codec.

Definition ec_client : EdgeClient := NewRemoteClient (Some $"https://hub:9080/").
Definition ec_stream : http_result := HttpResp StatusOK (mkBody ($"event: t" ++ [newline] ++ $"data: x" ++ [newline; newline] ++ $"data: cut") false).

(** Streams and failures in turn. *)
Definition ec_results : list http_result :=
  [ec_stream; HttpErr; HttpResp 503 (mkBody [] true); ec_stream; HttpErr; HttpErr; ec_stream].


Definition lx_yaml : HubRegistry.ConfYaml HubRegistry.TenantConf := {|
  HubRegistry.tenant_marshal := Some; HubRegistry.tenant_unmarshal := Some;
  HubRegistry.globals_marshal _ := None; HubRegistry.globals_unmarshal _ := None |}.
#[local] Existing Instances lx_yaml HubRegistry.hx_json HubRegistry.hx_unicode.

(** A directory with one tenant, and a feature registry without features. *)
Definition lx_files : HubRegistry.Storage HubRegistry.TenantConf :=
  HubRegistry.mkStorage None false {[ $"a.example.yaml" := HubRegistry.hx_tenant ]} HubRegistry.DirOK.
Definition lx_reg : FeatureRegistry.Registry unit := FeatureRegistry.NewRegistry.
Definition lx_client : LocalClient :=
  default (mkLocal (HubRegistry.New lx_files) 0 [] lx_reg) (local_start 1 lx_files lx_reg).

Lemma local_client_converges_witness :
  local_start 1 lx_files lx_reg = Some lx_client ∧ size (FeatureRegistry.Tenants (lcReg lx_client)) = 1 ∧
  ∃ g ts, json_same g (HubRegistry.globals (lcHub lx_client)) ts (HubRegistry.tenant_map (lcHub lx_client)) ∧
    (FeatureRegistry.Tenants (lcReg lx_client) = HubStream.translateTenantsConf ts ∧
     FeatureRegistry.Globals (lcReg lx_client) = HubStream.translateGlobals g ∨
     FeatureRegistry.validate_all (lcReg lx_client) (HubStream.translateGlobals g) (HubStream.translateTenantsConf ts) ≠ []).
Proof.
  assert (Hs : local_start 1 lx_files lx_reg = Some lx_client) by (vm_compute; reflexivity).
  split; [exact Hs|]. split; [vm_compute; reflexivity|].
  apply (local_client_converges 1 lx_files lx_reg lx_client lx_client).
  - reflexivity.
  - exact Hs.
  - apply rtc_refl.
  - vm_compute. reflexivity.
  - intros q Hq. vm_compute in Hq. by injection Hq as <-.
Defined.
