(* ===== verification/Bufio.v ===== *)
(** A connection as the chunks its reads return, and bufio.Reader on top of
    it: Read, ReadString and Buffered with the default buffer. The lemmas say
    that lines do not depend on how the bytes were cut into chunks. *)

From S2P Require Import Prelude.
From S2P Require SSE.
Import SSE (newline, cr).

(** * Connections *)

(** What the peer sends before the connection fails or ends, read by read.
    A read returns at least one byte or an error. *)
Abbreviation chunks := (list gostring).

Definition chunks_ok (src : chunks) : Prop := Forall (λ c, c ≠ []) src.

#[global] Instance chunks_ok_dec src : Decision (chunks_ok src).
Proof. unfold chunks_ok. apply _. Defined.

(** [conn.Read(p)] with len(p) = n; None is an error. *)
Definition conn_read (n : nat) (src : chunks) : option (gostring * chunks) :=
  match src with
  | [] => None
  | c :: r => Some (take n c, if decide (drop n c = []) then r else drop n c :: r)
  end.

(** * The reader *)

Record Reader := mkReader { rdBuf : gostring; rdSrc : chunks }.

Definition defaultBufSize : nat := 4096.
Definition NewReader (src : chunks) : Reader := mkReader [] src.
Definition Buffered (b : Reader) : nat := length (rdBuf b).

(** Everything that is still to come. *)
Definition rest_of (b : Reader) : gostring := rdBuf b ++ concat (rdSrc b).

Inductive line_result := RLine (line : gostring) (b : Reader) | RErr | RFuel.

(** ReadString('\n'): the buffer is searched; a full one is set aside, and
    otherwise one more read fills it. *)
Fixpoint read_string (fuel : nat) (acc : gostring) (b : Reader) : line_result :=
  match fuel with
  | 0 => RFuel
  | S fuel =>
      match cut_byte newline (rdBuf b) with
      | Some (l, rest) => RLine (acc ++ l ++ [newline]) (mkReader rest (rdSrc b))
      | None =>
          if decide (defaultBufSize ≤ Buffered b) then read_string fuel (acc ++ rdBuf b) (mkReader [] (rdSrc b))
          else match conn_read (defaultBufSize - Buffered b) (rdSrc b) with
          | None => RErr
          | Some (d, src) => read_string fuel acc (mkReader (rdBuf b ++ d) src)
          end
      end
  end.

(** A read takes at least one byte of the connection, a full buffer is never
    empty. *)
Definition line_fuel (b : Reader) : nat := S (2 * length (concat (rdSrc b)) + length (rdBuf b)).

Definition ReadString (b : Reader) : line_result := read_string (line_fuel b) [] b.

(** * Lemmas *)

Lemma conn_read_spec n src d src' :
  0 < n → chunks_ok src → conn_read n src = Some (d, src') →
  concat src = d ++ concat src' ∧ d ≠ [] ∧ chunks_ok src'.
Proof.
  intros Hn Hok. destruct src as [|c r]; [done|]. apply Forall_cons in Hok as [Hc Hr]. cbn [conn_read].
  intros Heq. injection Heq as <- <-. split_and!.
  - cbn [concat]. rewrite <- (take_drop n c) at 1. rewrite <- app_assoc. f_equal.
    case_decide as Hd; [by rewrite Hd|done].
  - destruct c, n; [done|done|lia|done].
  - case_decide; [done|]. by constructor.
Qed.

Lemma conn_read_None n src : conn_read n src = None ↔ src = [].
Proof. by destruct src. Qed.

Lemma concat_nil_ok (src : chunks) : chunks_ok src → concat src = [] → src = [].
Proof. intros Hok Hc. destruct src as [|c r]; [done|]. apply Forall_cons in Hok as [Hne _]. by destruct c. Qed.

Lemma cut_byte_app_l c s t a b : cut_byte c s = Some (a, b) → cut_byte c (s ++ t) = Some (a, b ++ t).
Proof.
  intros [-> Ha]%cut_byte_Some. rewrite <- app_assoc. cbn [app]. by apply cut_byte_app.
Qed.

Lemma cut_byte_app_r c s t : c ∉ s → cut_byte c (s ++ t) = prod_map (app s) id <$> cut_byte c t.
Proof.
  intros Hs. destruct (cut_byte c t) as [[a b]|] eqn:Ht; cbn.
  - apply cut_byte_Some in Ht as [-> Ha]. rewrite app_assoc. apply cut_byte_app. set_solver.
  - apply cut_byte_None in Ht. apply cut_byte_None. set_solver.
Qed.

Lemma read_string_spec fuel acc b :
  chunks_ok (rdSrc b) → 2 * length (concat (rdSrc b)) + length (rdBuf b) < fuel →
  match cut_byte newline (rest_of b) with
  | Some (l, rest) => ∃ b', read_string fuel acc b = RLine (acc ++ l ++ [newline]) b' ∧ rest_of b' = rest ∧ chunks_ok (rdSrc b')
  | None => read_string fuel acc b = RErr
  end.
Proof.
  revert acc b; induction fuel as [|fuel IH]; intros acc [buf src] Hok Hf; [lia|].
  cbn [read_string rdBuf rdSrc rest_of Buffered] in Hok, Hf |- *. unfold rest_of; cbn [rdBuf rdSrc].
  destruct (cut_byte newline buf) as [[l rest]|] eqn:Hcut.
  { rewrite (cut_byte_app_l _ _ _ _ _ Hcut). by eexists. }
  apply cut_byte_None in Hcut. rewrite cut_byte_app_r by done. case_decide as Hfull.
  - specialize (IH (acc ++ buf) (mkReader [] src) Hok). unfold rest_of in IH; cbn [rdBuf rdSrc app length] in IH.
    assert (Hm : 2 * length (concat src) + 0 < fuel)
      by (unfold defaultBufSize, Buffered in Hfull; cbn [rdBuf] in Hfull; lia).
    specialize (IH Hm). destruct (cut_byte newline (concat src)) as [[l rest]|]; cbn; [|done].
    destruct IH as (b' & -> & Hb'). exists b'. by rewrite <- !app_assoc.
  - destruct (conn_read _ src) as [[d src']|] eqn:Hr.
    + apply conn_read_spec in Hr as (Hc & Hd & Hok'); [|lia|done].
      specialize (IH acc (mkReader (buf ++ d) src') Hok'). unfold rest_of in IH; cbn [rdBuf rdSrc] in IH.
      rewrite Hc in Hf |- *. rewrite length_app in Hf. rewrite length_app in IH.
      assert (0 < length d) by (destruct d; [done|simpl; lia]).
      rewrite <- app_assoc, cut_byte_app_r in IH by done. apply IH. lia.
    + apply conn_read_None in Hr. by rewrite Hr.
Qed.

(** ReadString returns the bytes up to the next newline of the connection and
    leaves what follows, whatever the chunks were; without one it fails. *)
Lemma ReadString_spec b :
  chunks_ok (rdSrc b) →
  match cut_byte newline (rest_of b) with
  | Some (l, rest) => ∃ b', ReadString b = RLine (l ++ [newline]) b' ∧ rest_of b' = rest ∧ chunks_ok (rdSrc b')
  | None => ReadString b = RErr
  end.
Proof. intros Hok. apply (read_string_spec (line_fuel b) [] b Hok). unfold line_fuel. lia. Qed.
