(* ===== verification/NodeTransport.v ===== *)
(** The transports between an edge and its hub (src/internal/transport): the
    same-machine one, the WireGuard overlay, the HTTPS tunnel and SOCKS5 over
    TLS. Each builds an admin client and dials SOCKS ports; the network, the
    TLS handshake and the files are what a dial meets ([Net], [Files]).

    [Transport] is the interface of the package with its promises; the four
    kinds are its instances. *)

From S2P Require Import Prelude Http GoStd Bufio.
From S2P Require SSE AuditLog Config.
Import SSE (newline, cr).
Import AuditLog (be_encode, be_decode).

(** * net and net/url *)

(** net.JoinHostPort. *)
Definition JoinHostPort (host port : gostring) : gostring :=
  if contains_byte host colon then lbrack :: host ++ rbrack :: colon :: port else host ++ colon :: port.

Record URL := mkURL { urlScheme : gostring; urlHost : gostring }.

(** url.Parse: the scheme and the host of a URL; None is an error. *)
Class GoURL := url_parse : gostring → option URL.

Definition validOptionalPort (port : gostring) : bool :=
  match port with
  | [] => true
  | c :: ds => (bool_decide (c = colon) && forallb is_digit ds)%bool
  end.

(** url.splitHostPort, behind Hostname and Port. *)
Definition url_split (hostPort : gostring) : gostring * gostring :=
  let '(host, port) :=
    match LastIndexByte hostPort colon with
    | Some i => if validOptionalPort (drop i hostPort) then (take i hostPort, drop (S i) hostPort) else (hostPort, [])
    | None => (hostPort, [])
    end in
  if (HasPrefix host [lbrack] && HasSuffix host [rbrack])%bool
  then (take (length host - 2) (drop 1 host), port) else (host, port).

Definition Hostname (u : URL) : gostring := (url_split (urlHost u)).1.
Definition Port (u : URL) : gostring := (url_split (urlHost u)).2.

(** * What the constructors and the dials meet *)

(** os.ReadFile, AppendCertsFromPEM and tls.LoadX509KeyPair. *)
Record Files := mkFiles {
  fsRead : gostring → option gostring;
  fsPEM : gostring → bool;
  fsPair : gostring → gostring → bool
}.

(** The parts of *http.Client that the package sets: where it connects, the
    bound on a whole exchange (the body included), whether connections are
    TLS with a client certificate, and for whom the certificate must be. *)
Record HttpClient := mkHttpClient {
  acNetwork : gostring;
  acAddr : option gostring;
  acTimeout : duration;
  acClientCert : bool;
  acServerName : option gostring
}.

(** One dial: what the network does. [ntIn] are the reads after the
    handshake, [ntCancel] is a context done before the dial returns whose
    watcher is scheduled first. *)
Record Net := mkNet {
  ntNow : time;
  ntCtxDeadline : option time;
  ntTCP : gostring → bool;
  ntTLS : gostring → gostring → bool;
  ntSetDeadline : bool;
  ntWrite : bool;
  ntIn : chunks;
  ntCancel : bool
}.

(** A socket the dial opened. *)
Record Sock := mkSock {
  soAddr : gostring;
  soServerName : option gostring;
  soSent : gostring;
  soOpen : bool;
  soReadDeadline : option time;
  soWriteDeadline : option time
}.

Definition so_close (s : Sock) : Sock :=
  mkSock (soAddr s) (soServerName s) (soSent s) false (soReadDeadline s) (soWriteDeadline s).
Definition so_deadlines (r w : option time) (s : Sock) : Sock :=
  mkSock (soAddr s) (soServerName s) (soSent s) (soOpen s) r w.
Definition so_write (b : gostring) (s : Sock) : Sock :=
  mkSock (soAddr s) (soServerName s) (soSent s ++ b) (soOpen s) (soReadDeadline s) (soWriteDeadline s).
Definition tcp_sock (addr : gostring) : Sock := mkSock addr None [] true None None.
Definition tls_sock (addr name : gostring) : Sock := mkSock addr (Some name) [] true None None.

Inductive dial_error :=
| DClosed | DPort | DAddr | DTCP | DTLS | DDeadline | DWrite | DStatus | DRejected (line : gostring) | DHeaders.

(** bufferedConn: bytes to be handed out before the connection is read. *)
Record bufferedConn := mkBuffered { bcExtra : gostring; bcConn : chunks }.

Definition bufferedConn_Read (n : nat) (b : bufferedConn) : option (gostring * bufferedConn) :=
  if decide (bcExtra b = []) then (λ r, (r.1, mkBuffered [] r.2)) <$> conn_read n (bcConn b)
  else Some (take n (bcExtra b), mkBuffered (drop n (bcExtra b)) (bcConn b)).

(** A dial returns a connection or an error, and leaves at most one socket. *)
Abbreviation dialled := (result dial_error bufferedConn * option Sock)%type.

Definition valid_port (port : Z) : bool := (Z.ltb 0 port && Z.leb port 65535)%bool.

(** A TCP connection handed out as it is. *)
Definition dial_tcp (n : Net) (addr : gostring) : dialled :=
  if ntTCP n addr then (Ok (mkBuffered [] (ntIn n)), Some (tcp_sock addr)) else (Err DTCP, None).

Definition orD (d def : duration) : duration := if Z.leb d 0 then def else d.

(** * The same machine (local.go) *)

Module Local.

Definition defaultLocalSOCKSHost : gostring := $"127.0.0.1".
Definition defaultLocalDialTimeout : duration := (2 * Second)%Z.
Definition defaultLocalClientTimeout : duration := (5 * Second)%Z.

Record LocalConfig := mkLocalConfig {
  SocketPath : gostring;
  SOCKSHost : gostring;
  DialTimeout : duration;
  ClientTimeout : duration
}.

Record Local := mkLocal { lcfg : LocalConfig; lclosed : bool }.

Definition NewLocal (cfg : LocalConfig) : Local :=
  mkLocal (mkLocalConfig (SocketPath cfg)
             (if decide (SOCKSHost cfg = []) then defaultLocalSOCKSHost else SOCKSHost cfg)
             (orD (DialTimeout cfg) defaultLocalDialTimeout)
             (orD (ClientTimeout cfg) defaultLocalClientTimeout)) false.

Definition DialSOCKS (l : Local) (n : Net) (port : Z) : dialled :=
  if negb (valid_port port) then (Err DPort, None)
  else dial_tcp n (SOCKSHost (lcfg l) ++ colon :: fmt_int port).

Definition AdminClient (l : Local) : HttpClient :=
  mkHttpClient $"unix" (Some (SocketPath (lcfg l))) (ClientTimeout (lcfg l)) false None.

Definition Close (l : Local) : Local := mkLocal (lcfg l) true.

End Local.

(** * The WireGuard overlay (wireguard.go) *)

Module Wireguard.

Definition defaultWireguardAdminPort : Z := 9080.
Definition defaultWireguardDialTimeout : duration := (2 * Second)%Z.
Definition defaultWireguardClientTimeout : duration := (5 * Second)%Z.

Record WireguardConfig := mkWireguardConfig {
  Interface : gostring;
  PrivateKeyFile : gostring;
  PeerPubkey : gostring;
  PeerEndpoint : gostring;
  PeerAllowedIPs : gostring;
  SelfIP : gostring;
  PeerInternalIP : gostring;
  AdminPort : Z;
  DialTimeout : duration;
  ClientTimeout : duration
}.

Record Wireguard := mkWireguard { wcfg : WireguardConfig; wclosed : bool }.

Inductive wg_error := WNoPeer | WAdminPort | WNilConfig | WParse | WNoHost | WPort.

Definition NewWireguard (cfg : WireguardConfig) : result wg_error Wireguard :=
  if decide (PeerInternalIP cfg = []) then Err WNoPeer
  else
    let port := if Z.leb (AdminPort cfg) 0 then defaultWireguardAdminPort else AdminPort cfg in
    if Z.ltb 65535 port then Err WAdminPort
    else Ok (mkWireguard
      (mkWireguardConfig (Interface cfg) (PrivateKeyFile cfg) (PeerPubkey cfg) (PeerEndpoint cfg) (PeerAllowedIPs cfg)
         (SelfIP cfg) (PeerInternalIP cfg) port
         (orD (DialTimeout cfg) defaultWireguardDialTimeout) (orD (ClientTimeout cfg) defaultWireguardClientTimeout)) false).

Definition DialSOCKS (w : Wireguard) (n : Net) (port : Z) : dialled :=
  if negb (valid_port port) then (Err DPort, None)
  else dial_tcp n (JoinHostPort (PeerInternalIP (wcfg w)) (fmt_int port)).

Definition AdminClient (w : Wireguard) : HttpClient :=
  mkHttpClient $"tcp" (Some (JoinHostPort (PeerInternalIP (wcfg w)) (fmt_int (AdminPort (wcfg w))))) (ClientTimeout (wcfg w)) false None.

Definition Close (w : Wireguard) : Wireguard := mkWireguard (wcfg w) true.

(** The peer and the admin port come from hub_url. *)
Definition ParseWireguardConfigFromTop `{GoURL} (topCfg : option Config.Config) : result wg_error WireguardConfig :=
  match topCfg with
  | None => Err WNilConfig
  | Some c =>
      let wg := Config.trWireguard (Config.cTransport c) in
      let out ip port := mkWireguardConfig (Config.wgInterface wg) (Config.wgPrivateKeyFile wg) (Config.wgPeerPubkey wg)
        (Config.wgPeerEndpoint wg) (Config.wgPeerAllowedIPs wg) (Config.wgSelfIP wg) ip port 0 0 in
      if decide (Config.cHubURL c = []) then Err WNoPeer
      else match url_parse (Config.cHubURL c) with
      | None => Err WParse
      | Some u =>
          if decide (Hostname u = []) then Err WNoHost
          else if decide (Port u = []) then Ok (out (Hostname u) 0%Z)
          else match ParseInt (Port u) with
               | None => Err WPort
               | Some p => Ok (out (Hostname u) p)
               end
      end
  end.

End Wireguard.

(** The trust anchor and the client identity of the TLS transports. *)
Inductive files_error := FNoCA | FNoPEM | FNoPair.

Definition load_identity (fs : Files) (ca cert key : gostring) : option files_error :=
  match fsRead fs ca with
  | None => Some FNoCA
  | Some pem =>
      if negb (fsPEM fs pem) then Some FNoPEM
      else if negb (fsPair fs cert key) then Some FNoPair else None
  end.

(** The deadline of a dial's own reads and writes. *)
Definition dial_deadline (n : Net) (timeout : duration) : time :=
  match ntCtxDeadline n with Some d => d | None => time_add (ntNow n) timeout end.

(** * The HTTPS tunnel (https_tunnel.go) *)

Module HTTPSTunnel.

Definition defaultHTTPSTunnelDialTimeout : duration := (10 * Second)%Z.
Definition defaultHTTPSTunnelClientTimeout : duration := (30 * Second)%Z.

Record HTTPSTunnelConfig := mkHTTPSTunnelConfig {
  HubURL : gostring;
  CACertFile : gostring;
  ClientCertFile : gostring;
  ClientKeyFile : gostring;
  DialTimeout : duration;
  ClientTimeout : duration
}.

Record HTTPSTunnel := mkHTTPSTunnel { hcfg : HTTPSTunnelConfig; hubURL : URL; hubHost : gostring; hclosed : bool }.

Inductive tunnel_error := TNoHubURL | TNoCACert | TNoClientCert | TNoClientKey | TParse | TScheme | TNoHost | TFiles (e : files_error).

Definition NewHTTPSTunnel `{GoURL} (fs : Files) (cfg : HTTPSTunnelConfig) : result tunnel_error HTTPSTunnel :=
  if decide (HubURL cfg = []) then Err TNoHubURL
  else if decide (CACertFile cfg = []) then Err TNoCACert
  else if decide (ClientCertFile cfg = []) then Err TNoClientCert
  else if decide (ClientKeyFile cfg = []) then Err TNoClientKey
  else match url_parse (HubURL cfg) with
  | None => Err TParse
  | Some u =>
      if decide (urlScheme u ≠ $"https") then Err TScheme
      else if decide (urlHost u = []) then Err TNoHost
      else
        let host := match SplitHostPort (urlHost u) with
                    | Some _ => urlHost u
                    | None => JoinHostPort (Hostname u) $"443"
                    end in
        match load_identity fs (CACertFile cfg) (ClientCertFile cfg) (ClientKeyFile cfg) with
        | Some e => Err (TFiles e)
        | None =>
            Ok (mkHTTPSTunnel
                  (mkHTTPSTunnelConfig (HubURL cfg) (CACertFile cfg) (ClientCertFile cfg) (ClientKeyFile cfg)
                     (orD (DialTimeout cfg) defaultHTTPSTunnelDialTimeout)
                     (orD (ClientTimeout cfg) defaultHTTPSTunnelClientTimeout))
                  u host false)
        end
  end.

Definition crlf : gostring := [cr; newline].
Definition trim_eol (s : gostring) : gostring := TrimRight s (λ c, bool_decide (c = cr ∨ c = newline)).

Definition isConnectSuccessStatus (line : gostring) : bool :=
  if negb (HasPrefix line $"HTTP/1.") then false
  else match SplitN line " "%char 3 with
       | _ :: code :: _ => bool_decide (code = $"200")
       | _ => false
       end.

(** drainHeaders: the reader behind the blank line; None is a read error.
    Every line is at least one byte, so the bytes to come bound the loop. *)
Fixpoint drain_lines (fuel : nat) (b : Reader) : option Reader :=
  match fuel with
  | 0 => None
  | S fuel =>
      match ReadString b with
      | RLine line b' => if decide (trim_eol line = []) then Some b' else drain_lines fuel b'
      | _ => None
      end
  end.

Definition drainHeaders (b : Reader) : option Reader := drain_lines (S (length (rest_of b))) b.

Definition connect_request (h : HTTPSTunnel) (port : Z) : gostring :=
  $"CONNECT /tunnel/socks/" ++ fmt_int port ++ $" HTTP/1.1" ++ crlf ++ $"Host: " ++ urlHost (hubURL h) ++ crlf ++ crlf.

(** The answer to CONNECT: the connection behind the header block. *)
Definition read_connect (src : chunks) : result dial_error bufferedConn :=
  match ReadString (NewReader src) with
  | RLine line b =>
      let status := trim_eol line in
      if negb (isConnectSuccessStatus status) then Err (DRejected status)
      else match drainHeaders b with
           | None => Err DHeaders
           | Some b' => Ok (mkBuffered (rdBuf b') (rdSrc b'))
           end
  | _ => Err DStatus
  end.

(** DialSOCKS. The watcher of the context is joined before the return: with
    the context done and the dial over it takes either branch. *)
Definition DialSOCKS (h : HTTPSTunnel) (n : Net) (port : Z) : dialled :=
  if hclosed h then (Err DClosed, None)
  else if negb (valid_port port) then (Err DPort, None)
  else if negb (ntTCP n (hubHost h)) then (Err DTCP, None)
  else
    let name := Hostname (hubURL h) in
    let s := tls_sock (hubHost h) name in
    if negb (ntTLS n (hubHost h) name) then (Err DTLS, Some (so_close s))
    else if negb (ntSetDeadline n) then (Err DDeadline, Some (so_close s))
    else
      let deadline := dial_deadline n (DialTimeout (hcfg h)) in
      let s := so_deadlines (Some deadline) (Some deadline) s in
      if negb (ntWrite n) then (Err DWrite, Some (so_close s))
      else
        let s := so_write (connect_request h port) s in
        match read_connect (ntIn n) with
        | Err e => (Err e, Some (so_close s))
        | Ok conn =>
            let s := so_deadlines None None s in
            (Ok conn, Some (if ntCancel n then so_close s else s))
        end.

Definition AdminClient (h : HTTPSTunnel) : HttpClient :=
  mkHttpClient $"tcp" None (ClientTimeout (hcfg h)) true (Some (Hostname (hubURL h))).

Definition Close (h : HTTPSTunnel) : HTTPSTunnel := mkHTTPSTunnel (hcfg h) (hubURL h) (hubHost h) true.

End HTTPSTunnel.

(** * SOCKS5 over TLS (socks5_tls.go) *)

Module SOCKS5TLS.

Definition defaultSOCKS5TLSDialTimeout : duration := (5 * Second)%Z.
Definition defaultSOCKS5TLSClientTimeout : duration := (10 * Second)%Z.

Record SOCKS5TLSConfig := mkSOCKS5TLSConfig {
  HubAddr : gostring;
  AdminAddr : gostring;
  CACertFile : gostring;
  ClientCertFile : gostring;
  ClientKeyFile : gostring;
  DialTimeout : duration;
  ClientTimeout : duration
}.

Record SOCKS5TLS := mkSOCKS5TLS { scfg : SOCKS5TLSConfig; sclosed : bool }.

Inductive socks_error := SNoHubAddr | SNoAdminAddr | SNoCACert | SNoClientCert | SNoClientKey | SFiles (e : files_error).

Definition NewSOCKS5TLS (fs : Files) (cfg : SOCKS5TLSConfig) : result socks_error SOCKS5TLS :=
  if decide (HubAddr cfg = []) then Err SNoHubAddr
  else if decide (AdminAddr cfg = []) then Err SNoAdminAddr
  else if decide (CACertFile cfg = []) then Err SNoCACert
  else if decide (ClientCertFile cfg = []) then Err SNoClientCert
  else if decide (ClientKeyFile cfg = []) then Err SNoClientKey
  else match load_identity fs (CACertFile cfg) (ClientCertFile cfg) (ClientKeyFile cfg) with
  | Some e => Err (SFiles e)
  | None =>
      Ok (mkSOCKS5TLS
            (mkSOCKS5TLSConfig (HubAddr cfg) (AdminAddr cfg) (CACertFile cfg) (ClientCertFile cfg) (ClientKeyFile cfg)
               (orD (DialTimeout cfg) defaultSOCKS5TLSDialTimeout)
               (orD (ClientTimeout cfg) defaultSOCKS5TLSClientTimeout)) false)
  end.

(** The name of the server is the host of the address. *)
Definition dialTLS (n : Net) (addr : gostring) : result dial_error unit * option Sock :=
  match SplitHostPort addr with
  | None => (Err DAddr, None)
  | Some (host, _) =>
      if negb (ntTCP n addr) then (Err DTCP, None)
      else
        let s := tls_sock addr host in
        if negb (ntTLS n addr host) then (Err DTLS, Some (so_close s)) else (Ok tt, Some s)
  end.

(** binary.BigEndian.PutUint16(preamble, uint16(port)). *)
Definition preamble (port : Z) : gostring := be_encode 2 (port mod 65536).

Definition DialSOCKS (t : SOCKS5TLS) (n : Net) (port : Z) : dialled :=
  if negb (valid_port port) then (Err DPort, None)
  else match dialTLS n (HubAddr (scfg t)) with
  | (Err e, s) => (Err e, s)
  | (Ok _, s) =>
      let s := so_deadlines None (Some (dial_deadline n (DialTimeout (scfg t)))) <$> s in
      if negb (ntWrite n) then (Err DWrite, so_close <$> s)
      else (Ok (mkBuffered [] (ntIn n)), so_deadlines None None <$> (so_write (preamble port) <$> s))
  end.

Definition AdminClient (t : SOCKS5TLS) : HttpClient :=
  mkHttpClient $"tcp" (Some (AdminAddr (scfg t))) (ClientTimeout (scfg t)) true (fst <$> SplitHostPort (AdminAddr (scfg t))).

Definition Close (t : SOCKS5TLS) : SOCKS5TLS := mkSOCKS5TLS (scfg t) true.

End SOCKS5TLS.

(** * Streams *)

(** What the holder of the connection is going to read. *)
Definition stream (c : bufferedConn) : gostring := bcExtra c ++ concat (bcConn c).

(** Reads with buffers of the given sizes, up to an error. *)
Fixpoint reads (ns : list nat) (c : bufferedConn) : gostring * bufferedConn :=
  match ns with
  | [] => ([], c)
  | n :: ns =>
      match bufferedConn_Read n c with
      | None => ([], c)
      | Some (d, c') => let '(ds, c'') := reads ns c' in (d ++ ds, c'')
      end
  end.

Lemma conn_read_stream n src d src' : conn_read n src = Some (d, src') → concat src = d ++ concat src'.
Proof.
  destruct src as [|c r]; [done|]. intros Heq. injection Heq as <- <-. cbn [concat].
  rewrite <- (take_drop n c) at 1. rewrite <- app_assoc. f_equal. case_decide as Hd; [by rewrite Hd|done].
Qed.

Lemma read_stream n c d c' : bufferedConn_Read n c = Some (d, c') → stream c = d ++ stream c'.
Proof.
  destruct c as [ex src]. unfold bufferedConn_Read, stream. cbn [bcExtra bcConn]. case_decide as Hex.
  - destruct (conn_read n src) as [[d0 src']|] eqn:Hr; [|done]. cbn. intros Heq. injection Heq as <- <-.
    rewrite Hex. cbn. by apply conn_read_stream in Hr.
  - intros Heq. injection Heq as <- <-. cbn [bcExtra bcConn]. by rewrite app_assoc, take_drop.
Qed.

(** Nothing is lost, repeated or reordered, whatever buffers are used. *)
Lemma reads_stream ns c : (reads ns c).1 ++ stream (reads ns c).2 = stream c.
Proof.
  revert c; induction ns as [|n ns IH]; intros c; cbn [reads]; [done|].
  destruct (bufferedConn_Read n c) as [[d c']|] eqn:Hr; [|done]. apply read_stream in Hr.
  specialize (IH c'). destruct (reads ns c') as [ds c'']. cbn [fst snd] in IH |- *. by rewrite <- app_assoc, IH, Hr.
Qed.

Section connect.
Import HTTPSTunnel.

Lemma trim_eol_newline l : trim_eol (l ++ [newline]) = trim_eol l.
Proof. unfold trim_eol, TrimRight. rewrite reverse_app. reflexivity. Qed.

(** Lines as they are on the wire. *)
Definition lines (ls : list gostring) : gostring := ls ≫= λ l, l ++ [newline].

(** A header block: non-blank lines, a blank one, then the payload. *)
Definition header_block (bytes payload : gostring) : Prop :=
  ∃ hdrs blank, bytes = lines (hdrs ++ [blank]) ++ payload ∧
    Forall (λ l, newline ∉ l ∧ trim_eol l ≠ []) hdrs ∧ newline ∉ blank ∧ trim_eol blank = [].

(** A peer that accepts the tunnel and goes on with [payload]. *)
Definition tunnel_answer (bytes payload : gostring) : Prop :=
  ∃ status rest, bytes = status ++ newline :: rest ∧ newline ∉ status ∧
    isConnectSuccessStatus (trim_eol status) = true ∧ header_block rest payload.

Lemma header_block_line l rest payload :
  newline ∉ l →
  header_block (l ++ newline :: rest) payload ↔ if decide (trim_eol l = []) then rest = payload else header_block rest payload.
Proof.
  intros Hl. split.
  - intros (hdrs & blank & Heq & Hh & Hb & Hbt). destruct hdrs as [|h hdrs]; cbn in Heq; rewrite <- !app_assoc in Heq; cbn in Heq.
    + assert (Hc := f_equal (cut_byte newline) Heq). rewrite !cut_byte_app in Hc by done. injection Hc as -> ->.
      by rewrite decide_True.
    + apply Forall_cons in Hh as [[Hn Ht] Hh]. assert (Hc := f_equal (cut_byte newline) Heq).
      rewrite !cut_byte_app in Hc by done. injection Hc as -> ->. rewrite decide_False by done. by exists hdrs, blank.
  - case_decide as Ht.
    + intros ->. exists [], l. cbn. by rewrite app_nil_r, <- app_assoc.
    + intros (hdrs & blank & -> & Hh & Hb & Hbt). exists (l :: hdrs), blank. cbn. rewrite <- !app_assoc. cbn.
      split_and!; [done|by constructor|done|done].
Qed.

Lemma header_block_needs_line bytes payload : header_block bytes payload → newline ∈ bytes.
Proof. intros ([|h hdrs] & blank & -> & _); cbn; set_solver. Qed.

Lemma drain_lines_spec fuel b payload :
  chunks_ok (rdSrc b) → length (rest_of b) < fuel →
  (∃ b', drain_lines fuel b = Some b' ∧ rest_of b' = payload) ↔ header_block (rest_of b) payload.
Proof.
  revert b; induction fuel as [|fuel IH]; intros b Hok Hf; [lia|]. cbn [drain_lines].
  pose proof (ReadString_spec b Hok) as Hr. destruct (cut_byte newline (rest_of b)) as [[l rest]|] eqn:Hc.
  - destruct Hr as (b1 & -> & <- & Hok1). apply cut_byte_Some in Hc as [Heq Hl]. rewrite Heq in Hf |- *.
    rewrite header_block_line by done. rewrite trim_eol_newline. rewrite length_app in Hf. cbn in Hf. case_decide as Ht.
    + split; [by intros (b' & [= ->] & Hb')|eauto].
    + apply IH; [done|lia].
  - rewrite Hr. split; [by intros (b' & ? & _)|]. intros Hb%header_block_needs_line. by apply cut_byte_None in Hc.
Qed.

Lemma read_connect_spec src payload :
  chunks_ok src → (∃ c, read_connect src = Ok c ∧ stream c = payload) ↔ tunnel_answer (concat src) payload.
Proof.
  intros Hok. unfold read_connect. pose proof (ReadString_spec (NewReader src) Hok) as Hr.
  change (rest_of (NewReader src)) with (concat src) in Hr.
  destruct (cut_byte newline (concat src)) as [[l rest]|] eqn:Hc.
  - destruct Hr as (b & -> & Hb & Hokb). apply cut_byte_Some in Hc as [Heq Hl]. rewrite trim_eol_newline.
    assert (Hans : tunnel_answer (concat src) payload ↔ isConnectSuccessStatus (trim_eol l) = true ∧ header_block rest payload).
    { split; [|intros [? ?]; by exists l, rest]. intros (st & rest' & Heq' & Hst & Hs & Hh). rewrite Heq in Heq'.
      assert (Hc := f_equal (cut_byte newline) Heq'). rewrite !cut_byte_app in Hc by done. by injection Hc as -> ->. }
    rewrite Hans, <- Hb. destruct (isConnectSuccessStatus (trim_eol l)); cbn [negb].
    + unfold drainHeaders. rewrite <- (drain_lines_spec (S (length (rest_of b))) b payload Hokb) by lia.
      destruct (drain_lines _ b) as [b'|].
      * split; [intros (c & [= <-] & Hp)|intros (_ & b2 & [= <-] & Hp)]; eauto.
      * split; [by intros (c & ? & _)|by intros (_ & b2 & ? & _)].
    + split; [by intros (c & ? & _)|by intros [? _]].
  - rewrite Hr. split; [by intros (c & ? & _)|]. intros (st & rest & Heq & _). apply cut_byte_None in Hc. rewrite Heq in Hc. set_solver.
Qed.

(** Everything on the way to the answer went well. *)
Definition reached (h : HTTPSTunnel) (n : Net) (port : Z) : Prop :=
  hclosed h = false ∧ valid_port port = true ∧ ntTCP n (hubHost h) = true ∧
  ntTLS n (hubHost h) (Hostname (hubURL h)) = true ∧ ntSetDeadline n = true ∧ ntWrite n = true.

#[global] Instance reached_dec h n port : Decision (reached h n port).
Proof. unfold reached. apply _. Defined.

Lemma DialSOCKS_reached h n port :
  reached h n port →
  ∃ s, soSent s = connect_request h port ∧ soOpen s = true ∧
  DialSOCKS h n port =
    match read_connect (ntIn n) with
    | Err e => (Err e, Some (so_close s))
    | Ok c => (Ok c, Some (so_deadlines None None (if ntCancel n then so_close s else s)))
    end.
Proof.
  intros (Hc & Hp & Ht & Hl & Hd & Hw). unfold DialSOCKS. rewrite Hc, Hp, Ht, Hl, Hd, Hw. cbn [negb].
  exists (so_write (connect_request h port)
    (so_deadlines (Some (dial_deadline n (DialTimeout (hcfg h)))) (Some (dial_deadline n (DialTimeout (hcfg h))))
       (tls_sock (hubHost h) (Hostname (hubURL h))))).
  split; [done|]. split; [done|]. destruct (read_connect (ntIn n)); [|done]. by destruct (ntCancel n).
Qed.

(** Once the hub is reached and the context is not done, a dial through the HTTPS tunnel hands out a
    connection with exactly the bytes [payload] to read if and only if the
    hub's bytes are a 200 answer, its header lines, a blank line, and then
    [payload]; how the bytes were cut into reads and how many of them the
    header reader had buffered makes no difference, and reads with buffers of
    any size deliver them in order without loss. *)
Theorem tunnel_stream_exact h n port payload :
  chunks_ok (ntIn n) → ntCancel n = false → reached h n port →
  (∃ c s, DialSOCKS h n port = (Ok c, Some s) ∧ soSent s = connect_request h port ∧
     stream c = payload ∧ ∀ ns, (reads ns c).1 ++ stream (reads ns c).2 = payload) ↔
  tunnel_answer (concat (ntIn n)) payload.
Proof.
  intros Hok Hcan (s & Hsent & _ & ->)%DialSOCKS_reached. rewrite <- read_connect_spec by done. split.
  - intros (c & s' & Heq & _ & Hst & _). destruct (read_connect (ntIn n)) as [c'|]; [|done].
    injection Heq as -> _. eauto.
  - intros (c & -> & Hst). exists c. eexists. split; [done|]. split; [by rewrite Hcan|].
    split; [done|]. intros ns. by rewrite reads_stream.
Qed.

End connect.

(** * The interface (transport.go) *)

Class Transport (T : Type) := {
  tr_DialSOCKS : T → Net → Z → dialled;
  tr_AdminClient : T → HttpClient;
  tr_Close : T → T
}.

(** What a caller may rely on: a port out of range opens nothing, an error
    leaves no open socket, a connection comes without deadlines and reads the
    tail of what the peer sent, and closing twice is closing once. *)
Class TransportLaws (T : Type) `{Transport T} : Prop := {
  tl_port t n p : valid_port p = false → ∃ e, tr_DialSOCKS t n p = (Err e, None);
  tl_error t n p e s : tr_DialSOCKS t n p = (Err e, Some s) → soOpen s = false;
  tl_conn t n p c so : chunks_ok (ntIn n) → tr_DialSOCKS t n p = (Ok c, so) →
    stream c `suffix_of` concat (ntIn n) ∧
    ∃ s, so = Some s ∧ soReadDeadline s = None ∧ soWriteDeadline s = None ∧ (ntCancel n = false → soOpen s = true);
  tl_close t : tr_Close (tr_Close t) = tr_Close t;
  tl_client t : tr_AdminClient (tr_Close t) = tr_AdminClient t
}.

#[global] Instance local_transport : Transport Local.Local :=
  { tr_DialSOCKS := Local.DialSOCKS; tr_AdminClient := Local.AdminClient; tr_Close := Local.Close }.
#[global] Instance wireguard_transport : Transport Wireguard.Wireguard :=
  { tr_DialSOCKS := Wireguard.DialSOCKS; tr_AdminClient := Wireguard.AdminClient; tr_Close := Wireguard.Close }.
#[global] Instance tunnel_transport : Transport HTTPSTunnel.HTTPSTunnel :=
  { tr_DialSOCKS := HTTPSTunnel.DialSOCKS; tr_AdminClient := HTTPSTunnel.AdminClient; tr_Close := HTTPSTunnel.Close }.
#[global] Instance socks_transport : Transport SOCKS5TLS.SOCKS5TLS :=
  { tr_DialSOCKS := SOCKS5TLS.DialSOCKS; tr_AdminClient := SOCKS5TLS.AdminClient; tr_Close := SOCKS5TLS.Close }.

(** Dials without a handshake of their own. *)
Lemma dial_tcp_laws n addr :
  (∀ e s, dial_tcp n addr = (Err e, Some s) → soOpen s = false) ∧
  (∀ c so, dial_tcp n addr = (Ok c, so) → stream c `suffix_of` concat (ntIn n) ∧
    ∃ s, so = Some s ∧ soReadDeadline s = None ∧ soWriteDeadline s = None ∧ (ntCancel n = false → soOpen s = true)).
Proof.
  unfold dial_tcp. destruct (ntTCP n addr); split; try done. intros c so Heq. injection Heq as <- <-. eauto 10.
Qed.

#[global] Instance local_laws : TransportLaws Local.Local.
Proof.
  split; cbn [tr_DialSOCKS local_transport]; unfold Local.DialSOCKS; [|intros t n p..|by intros [] |by intros []].
  - intros t n p ->. by eexists.
  - destruct (valid_port p); cbn [negb]; [apply dial_tcp_laws|done].
  - destruct (valid_port p); cbn [negb]; [|done]. intros c so _. apply dial_tcp_laws.
Qed.

#[global] Instance wireguard_laws : TransportLaws Wireguard.Wireguard.
Proof.
  split; cbn [tr_DialSOCKS wireguard_transport]; unfold Wireguard.DialSOCKS; [|intros t n p..|by intros [] |by intros []].
  - intros t n p ->. by eexists.
  - destruct (valid_port p); cbn [negb]; [apply dial_tcp_laws|done].
  - destruct (valid_port p); cbn [negb]; [|done]. intros c so _. apply dial_tcp_laws.
Qed.

#[global] Instance tunnel_laws : TransportLaws HTTPSTunnel.HTTPSTunnel.
Proof.
  split; cbn [tr_DialSOCKS tunnel_transport]; [| |intros t n p c so Hok|by intros [] |by intros []].
  - intros t n p Hp. unfold HTTPSTunnel.DialSOCKS. rewrite Hp. destruct (HTTPSTunnel.hclosed t); by eexists.
  - intros t n p e s. unfold HTTPSTunnel.DialSOCKS. repeat (case_match; try done); intros [= <- <-]; done.
  - destruct (decide (reached t n p)) as [(s & _ & Hopen & ->)%DialSOCKS_reached|Hr].
    + destruct (HTTPSTunnel.read_connect (ntIn n)) as [c'|] eqn:Hc; [|done]. intros Heq. injection Heq as <- <-. split.
      * destruct (proj1 (read_connect_spec (ntIn n) (stream c') Hok)) as (st & rest & -> & _ & _ & hdrs & blank & -> & _); [eauto|].
        exists (st ++ newline :: lines (hdrs ++ [blank])). by rewrite <- app_assoc.
      * eexists. split; [done|]. split_and!; [done..|]. by intros ->.
    + unfold HTTPSTunnel.DialSOCKS. intros Heq. destruct Hr. repeat (case_match; try done).
      all: by repeat match goal with Hn : negb _ = false |- _ => apply negb_false_iff in Hn end.
Qed.

Lemma dialTLS_cases n addr :
  (∃ e so, SOCKS5TLS.dialTLS n addr = (Err e, so) ∧ ∀ s, so = Some s → soOpen s = false) ∨
  (∃ host, SOCKS5TLS.dialTLS n addr = (Ok tt, Some (tls_sock addr host))).
Proof.
  unfold SOCKS5TLS.dialTLS. destruct (SplitHostPort addr) as [[host port]|]; [|left; by eexists _, _].
  destruct (ntTCP n addr), (ntTLS n addr host); cbn [negb]; eauto; left; eexists _, _; (split; [done|]); try done.
  by intros s [= <-].
Qed.

#[global] Instance socks_laws : TransportLaws SOCKS5TLS.SOCKS5TLS.
Proof.
  split; cbn [tr_DialSOCKS socks_transport]; unfold SOCKS5TLS.DialSOCKS; [|intros t n p..|by intros [] |by intros []].
  - intros t n p ->. by eexists.
  - intros e s. destruct (valid_port p); cbn [negb]; [|done].
    destruct (dialTLS_cases n (SOCKS5TLS.HubAddr (SOCKS5TLS.scfg t))) as [(e' & so & -> & Hso)|(host & ->)].
    + intros Heq. injection Heq as <- ->. by apply Hso.
    + destruct (ntWrite n); cbn [negb]; [done|]. intros Heq. by injection Heq as <- <-.
  - intros c so _. destruct (valid_port p); cbn [negb]; [|done].
    destruct (dialTLS_cases n (SOCKS5TLS.HubAddr (SOCKS5TLS.scfg t))) as [(e' & so' & -> & Hso)|(host & ->)]; [done|].
    destruct (ntWrite n); cbn [negb]; [|done]. intros Heq. injection Heq as <- <-. split; [done|]. by eexists.
Qed.

(** The Tor transport of the proxy dials through whichever kind it was given,
    and the loopback port itself without one (buildTransportLocked). *)
Definition dial_pool {T} `{Transport T} (tport : option T) (n : Net) (port : Z) : dialled :=
  match tport with
  | None => dial_tcp n ($"127.0.0.1:" ++ fmt_int port)
  | Some t => tr_DialSOCKS t n port
  end.

(** What the laws give the proxy. *)
Lemma dial_pool_laws {T} `{TransportLaws T} (tport : option T) n port r so :
  chunks_ok (ntIn n) → ntCancel n = false → dial_pool tport n port = (r, so) →
  match r with
  | Err _ => ∀ s, so = Some s → soOpen s = false
  | Ok c => stream c `suffix_of` concat (ntIn n) ∧
      ∃ s, so = Some s ∧ soOpen s = true ∧ soReadDeadline s = None ∧ soWriteDeadline s = None
  end.
Proof.
  intros Hok Hcan. destruct tport as [t|]; cbn [dial_pool]; intros Hd; destruct r as [c|e].
  - apply tl_conn in Hd as [Hs (s & -> & Hr & Hw & Ho)]; [|done]. split; [done|]. exists s. auto.
  - intros s ->. by apply tl_error in Hd.
  - apply dial_tcp_laws in Hd as [Hs (s & -> & Hr & Hw & Ho)]. split; [done|]. exists s. auto.
  - intros s ->. by apply dial_tcp_laws in Hd.
Qed.

Lemma valid_port_range p : valid_port p = true ↔ (1 ≤ p ≤ 65535)%Z.
Proof. unfold valid_port. rewrite andb_true_iff, Z.ltb_lt, Z.leb_le. lia. Qed.

(** A dial of the SOCKS5-over-TLS transport has sent exactly two bytes,
    and a hub that reads them as a big-endian number gets the port back. *)
Theorem socks5_preamble_roundtrip t n port c s :
  SOCKS5TLS.DialSOCKS t n port = (Ok c, Some s) →
  length (soSent s) = 2 ∧ be_decode (soSent s) = port ∧ stream c = concat (ntIn n).
Proof.
  unfold SOCKS5TLS.DialSOCKS. destruct (valid_port port) eqn:Hp; cbn [negb]; [|done].
  destruct (dialTLS_cases n (SOCKS5TLS.HubAddr (SOCKS5TLS.scfg t))) as [(e' & so' & -> & Hso)|(host & ->)]; [done|].
  destruct (ntWrite n); cbn [negb]; [|done]. intros Heq. apply valid_port_range in Hp.
  injection Heq as <- <-. cbn [so_deadlines so_write tls_sock soSent app]. split; [apply AuditLog.length_be_encode|]. split; [|done].
  unfold SOCKS5TLS.preamble. rewrite AuditLog.be_decode_encode.
  change (256 ^ Z.of_nat 2)%Z with 65536%Z. rewrite Z.mod_mod by done. apply Z.mod_small. lia.
Qed.

(** The client reads nothing but the tail of what the peer sent, in order. *)
Lemma suffix_reads ns c (l : gostring) : stream c `suffix_of` l → (reads ns c).1 ++ stream (reads ns c).2 `suffix_of` l.
Proof. by rewrite reads_stream. Qed.

(** * What the constructors promise *)

Lemma orD_pos d def : (0 < def)%Z → (0 < orD d def)%Z.
Proof. unfold orD. destruct (Z.leb_spec d 0); lia. Qed.

(** The timeouts of a transport that was built are positive, and so are the
    ports and addresses it connects to in range. *)
Lemma new_wireguard_sane cfg w :
  Wireguard.NewWireguard cfg = Ok w →
  (1 ≤ Wireguard.AdminPort (Wireguard.wcfg w) ≤ 65535)%Z ∧ (0 < acTimeout (Wireguard.AdminClient w))%Z ∧
  Wireguard.PeerInternalIP (Wireguard.wcfg w) ≠ [].
Proof.
  unfold Wireguard.NewWireguard. case_decide as Hp; [done|]. destruct (Z.leb_spec (Wireguard.AdminPort cfg) 0).
  all: match goal with |- context [Z.ltb 65535 ?p] => destruct (Z.ltb_spec 65535 p) end; [done|].
  all: intros Heq; injection Heq as <-; cbn; unfold Wireguard.defaultWireguardAdminPort in *.
  all: split_and!; try done; try lia; by apply orD_pos.
Qed.

(** * Examples *)

Definition ex_net (addr : gostring) (src : chunks) : Net :=
  mkNet 0 None (λ a, bool_decide (a = addr)) (λ a _, bool_decide (a = addr)) true true src false.

Definition ex_tunnel : HTTPSTunnel.HTTPSTunnel :=
  HTTPSTunnel.mkHTTPSTunnel
    (HTTPSTunnel.mkHTTPSTunnelConfig $"https://hub:8443" $"ca" $"crt" $"key" (10 * Second) (30 * Second))
    (mkURL $"https" $"hub:8443") $"hub:8443" false.

(** An answer in three reads, the first bytes of the stream in the second. *)
Definition ex_answer : chunks :=
  [$"HTTP/1.1 20"; $"0 OK" ++ HTTPSTunnel.crlf ++ $"X: y" ++ HTTPSTunnel.crlf ++ HTTPSTunnel.crlf ++ $"ab"; $"cd"].

Lemma tunnel_stream_exact_witness :
  ∃ c s, HTTPSTunnel.DialSOCKS ex_tunnel (ex_net $"hub:8443" ex_answer) 9050 = (Ok c, Some s) ∧
    soSent s = HTTPSTunnel.connect_request ex_tunnel 9050 ∧ stream c = $"abcd" ∧
    ∀ ns, (reads ns c).1 ++ stream (reads ns c).2 = $"abcd".
Proof.
  apply (tunnel_stream_exact ex_tunnel (ex_net $"hub:8443" ex_answer) 9050 $"abcd").
  - decide_now.
  - reflexivity.
  - decide_now.
  - exists ($"HTTP/1.1 200 OK" ++ [cr]), ($"X: y" ++ HTTPSTunnel.crlf ++ HTTPSTunnel.crlf ++ $"abcd").
    split_and!; [reflexivity|decide_now|reflexivity|].
    exists [$"X: y" ++ [cr]], [cr]. split_and!; [reflexivity|decide_now|decide_now|reflexivity].
Defined.

Definition ex_socks : SOCKS5TLS.SOCKS5TLS :=
  SOCKS5TLS.mkSOCKS5TLS (SOCKS5TLS.mkSOCKS5TLSConfig $"hub:1080" $"hub:9443" $"ca" $"crt" $"key" (5 * Second) (10 * Second)) false.

Lemma socks5_preamble_roundtrip_witness :
  ∃ c s, SOCKS5TLS.DialSOCKS ex_socks (ex_net $"hub:1080" [$"ok"]) 9050 = (Ok c, Some s) ∧
    soSent s = [ascii_of_N 35; ascii_of_N 90] ∧
    length (soSent s) = 2 ∧ be_decode (soSent s) = 9050%Z ∧ stream c = $"ok".
Proof.
  eexists _, _. split; [vm_compute; reflexivity|]. split; [reflexivity|].
  apply (socks5_preamble_roundtrip ex_socks (ex_net $"hub:1080" [$"ok"]) 9050). vm_compute. reflexivity.
Defined.
