(* ===== verification/Binaries.v ===== *)
(** The binaries (src/cmd/gateway-proxy/main.go, gateway-door/main.go,
    gateway-hub/main.go, gateway-torpool/main.go): the transport and snapshot
    client a configuration selects, the checks of a door, the shutdown grace,
    and what a start acquires and a stop releases, in order and on every
    error path. *)

From S2P Require Import Prelude Http GoStd Bufio NodeTransport.
From S2P Require Config Selector EdgeClients Lockout.

(** * The shutdown grace of the proxy *)

Definition defaultShutdownGrace : duration := (15 * Second)%Z.
Definition maxShutdownGrace : duration := (60 * Second)%Z.
Definition shutdownGraceSlack : duration := (5 * Second)%Z.

Definition deriveShutdownGrace (responseTimeout : duration) : duration :=
  if Z.leb responseTimeout 0 then defaultShutdownGrace
  else
    let grace := wrap64 (responseTimeout + shutdownGraceSlack) in
    if Z.ltb maxShutdownGrace grace then maxShutdownGrace else grace.

(** Unless the sum overflows the grace is positive, at most a minute, and
    longer than the response timeout by the slack as far as the cap allows. *)
Lemma grace_bounds rt :
  (rt ≤ max_int64 - shutdownGraceSlack)%Z →
  (shutdownGraceSlack < deriveShutdownGrace rt ≤ maxShutdownGrace)%Z ∧
  (0 < rt → Z.min (rt + shutdownGraceSlack) maxShutdownGrace = deriveShutdownGrace rt)%Z.
Proof.
  unfold deriveShutdownGrace, maxShutdownGrace, shutdownGraceSlack, defaultShutdownGrace, Second, max_int64. intros Hrt.
  destruct (Z.leb_spec rt 0); [split; lia|]. rewrite wrap64_id by (unfold in_int64, min_int64, max_int64; lia).
  match goal with |- context [Z.ltb ?a ?b] => destruct (Z.ltb_spec a b) end; lia.
Qed.

(** Near the largest duration the sum wraps around and the grace is already
    over when the shutdown begins. *)
Lemma grace_overflow : (deriveShutdownGrace max_int64 < 0)%Z.
Proof. reflexivity. Qed.

(** * The transport a configuration selects *)

Inductive AnyTransport :=
| TLocal (l : Local.Local)
| TWireguard (w : Wireguard.Wireguard)
| TTunnel (h : HTTPSTunnel.HTTPSTunnel)
| TSocks (s : SOCKS5TLS.SOCKS5TLS).

#[global] Instance any_transport : Transport AnyTransport := {
  tr_DialSOCKS t := match t with
    | TLocal t => tr_DialSOCKS t | TWireguard t => tr_DialSOCKS t | TTunnel t => tr_DialSOCKS t | TSocks t => tr_DialSOCKS t end;
  tr_AdminClient t := match t with
    | TLocal t => tr_AdminClient t | TWireguard t => tr_AdminClient t | TTunnel t => tr_AdminClient t | TSocks t => tr_AdminClient t end;
  tr_Close t := match t with
    | TLocal t => TLocal (tr_Close t) | TWireguard t => TWireguard (tr_Close t)
    | TTunnel t => TTunnel (tr_Close t) | TSocks t => TSocks (tr_Close t) end
}.

#[global] Instance any_laws : TransportLaws AnyTransport.
Proof.
  split; intros [t|t|t|t]; cbn [tr_DialSOCKS tr_AdminClient tr_Close any_transport].
  all: first [apply tl_port|apply tl_error|apply tl_conn|by rewrite tl_close|apply tl_client].
Qed.

(** A dial without a handshake that reads leaves every byte to the caller. *)
Lemma dial_pool_plain (tport : option AnyTransport) n port c so :
  dial_pool tport n port = (Ok c, so) → (∀ h, tport ≠ Some (TTunnel h)) → stream c = concat (ntIn n).
Proof.
  assert (Htcp : ∀ addr, dial_tcp n addr = (Ok c, so) → stream c = concat (ntIn n)).
  { intros addr. unfold dial_tcp. destruct (ntTCP n addr); [|done]. by intros [= <- _]. }
  intros Hd Ht. destruct tport as [[t|t|t|t]|]; cbn in Hd; [..|by eapply Htcp].
  - unfold Local.DialSOCKS in Hd. destruct (valid_port port); cbn [negb] in Hd; [by eapply Htcp|done].
  - unfold Wireguard.DialSOCKS in Hd. destruct (valid_port port); cbn [negb] in Hd; [by eapply Htcp|done].
  - by destruct (Ht t).
  - unfold SOCKS5TLS.DialSOCKS in Hd. destruct (valid_port port); [|done]. cbn [negb] in Hd.
    repeat (case_match; try done). all: by injection Hd as <- _.
Qed.

(** C6. Through whichever of the four transports the proxy dials a pool port,
    or without one, and while the context of the dial is not done: a dial that
    fails leaves no open socket behind, and one that succeeds hands out one
    open socket without deadlines on which reads of any sizes deliver, in
    order and without a gap, the last bytes the peer has sent, and all of them
    unless the tunnel's handshake took some; a transport hands out nothing for
    a port out of range. *)
Theorem proxy_dial_clean (tport : option AnyTransport) n port r so :
  chunks_ok (ntIn n) → ntCancel n = false → dial_pool tport n port = (r, so) →
  match r with
  | Err _ => ∀ s, so = Some s → soOpen s = false
  | Ok c => (∀ ns, (reads ns c).1 ++ stream (reads ns c).2 `suffix_of` concat (ntIn n)) ∧
      ((∀ h, tport ≠ Some (TTunnel h)) → stream c = concat (ntIn n)) ∧
      (is_Some tport → valid_port port = true) ∧
      ∃ s, so = Some s ∧ soOpen s = true ∧ soReadDeadline s = None ∧ soWriteDeadline s = None
  end.
Proof.
  intros Hok Hcan Hd. pose proof (dial_pool_laws tport n port r so Hok Hcan Hd) as Hl. destruct r as [c|e]; [|done].
  destruct Hl as [Hs Ho]. split_and!; [intros ns; by apply suffix_reads|by eapply dial_pool_plain| |done].
  intros [t ->]. destruct (valid_port port) eqn:Hp; [done|]. cbn [dial_pool] in Hd.
  destruct (tl_port t n port Hp) as [e He]. by rewrite He in Hd.
Qed.

Lemma proxy_dial_clean_witness :
  let '(r, so) := dial_pool (Some (TTunnel ex_tunnel)) (ex_net $"hub:8443" ex_answer) 9050 in
  match r with
  | Err _ => False
  | Ok c => stream c = $"abcd" ∧ (∀ ns, (reads ns c).1 ++ stream (reads ns c).2 `suffix_of` concat ex_answer)
  end.
Proof.
  pose proof (proxy_dial_clean (Some (TTunnel ex_tunnel)) (ex_net $"hub:8443" ex_answer) 9050 _ _ ltac:(decide_now) eq_refl
    (surjective_pairing _)) as Hc.
  destruct (dial_pool _ _ _) as [r so] eqn:Hd. cbn [fst snd] in Hc. destruct r as [c|e].
  - destruct Hc as (Hr & _). split; [|exact Hr]. vm_compute in Hd. apply (f_equal fst) in Hd. cbn [fst] in Hd.
    apply (f_equal (λ r, match r with Ok c => stream c | Err _ => [] end)) in Hd. symmetry. exact Hd.
  - vm_compute in Hd. discriminate Hd.
Defined.

Inductive build_error :=
| BEWireguard (e : Wireguard.wg_error) | BETunnel (e : HTTPSTunnel.tunnel_error) | BESocks (e : SOCKS5TLS.socks_error) | BEKind.

Definition KindLocal : gostring := $"local".

Definition lift_err {E F A B} (f : E → F) (g : A → B) (r : result E A) : result F B :=
  match r with Ok a => Ok (g a) | Err e => Err (f e) end.

(** buildTransport, the same in both binaries. *)
Definition buildTransport `{GoURL} (fs : Files) (c : Config.Config) : result build_error (option AnyTransport) :=
  let kind := Config.trKind (Config.cTransport c) in
  let cert := Config.mtClientCertFile (Config.cMTLS c) in
  let key := Config.mtClientKeyFile (Config.cMTLS c) in
  if decide (kind = [] ∨ kind = KindLocal) then
    let socket := Config.adSocket (Config.cAdmin c) in
    if decide (socket = []) then Ok None
    else Ok (Some (TLocal (Local.NewLocal (Local.mkLocalConfig socket [] 0 0))))
  else if decide (kind = Config.TransportWireguard) then
    match Wireguard.ParseWireguardConfigFromTop (Some c) with
    | Err e => Err (BEWireguard e)
    | Ok wg => lift_err BEWireguard (Some ∘ TWireguard) (Wireguard.NewWireguard wg)
    end
  else if decide (kind = Config.TransportHTTPSTunnel) then
    let t := Config.trHTTPSTunnel (Config.cTransport c) in
    lift_err BETunnel (Some ∘ TTunnel)
      (HTTPSTunnel.NewHTTPSTunnel fs
         (HTTPSTunnel.mkHTTPSTunnelConfig (Config.htHubURL t) (Config.htCACertFile t) cert key 0 0))
  else if decide (kind = Config.TransportSOCKS5TLS) then
    let t := Config.trSOCKS5TLS (Config.cTransport c) in
    lift_err BESocks (Some ∘ TSocks)
      (SOCKS5TLS.NewSOCKS5TLS fs
         (SOCKS5TLS.mkSOCKS5TLSConfig (Config.skHubAddr t) (Config.skAdminAddr t) (Config.skCACertFile t) cert key 0 0))
  else Err BEKind.

(** The client certificate of the admin client follows from the kind, and so
    does the bound on an exchange, which no configuration changes. *)
Definition kind_timeout (kind : gostring) : duration :=
  if decide (kind = Config.TransportHTTPSTunnel) then (30 * Second)%Z
  else if decide (kind = Config.TransportSOCKS5TLS) then (10 * Second)%Z else (5 * Second)%Z.

Definition kind_cert (kind : gostring) : bool :=
  bool_decide (kind = Config.TransportHTTPSTunnel ∨ kind = Config.TransportSOCKS5TLS).

Lemma lift_err_Ok {E F A B} (f : E → F) (g : A → B) r b : lift_err f g r = Ok b → ∃ a, r = Ok a ∧ b = g a.
Proof. destruct r as [a|e]; cbn; [|done]. intros [= <-]. eauto. Qed.

Lemma NewWireguard_Ok cfg w :
  Wireguard.NewWireguard cfg = Ok w →
  Wireguard.ClientTimeout (Wireguard.wcfg w) = orD (Wireguard.ClientTimeout cfg) Wireguard.defaultWireguardClientTimeout.
Proof. unfold Wireguard.NewWireguard. case_decide; [done|]. repeat (case_match; try done). all: by intros [= <-]. Qed.

Lemma ParseWireguard_Ok `{GoURL} c wg :
  Wireguard.ParseWireguardConfigFromTop (Some c) = Ok wg → Wireguard.ClientTimeout wg = 0%Z.
Proof. unfold Wireguard.ParseWireguardConfigFromTop. repeat (case_match; try done). all: by intros [= <-]. Qed.

Lemma NewHTTPSTunnel_Ok `{GoURL} fs cfg h :
  HTTPSTunnel.NewHTTPSTunnel fs cfg = Ok h →
  HTTPSTunnel.ClientTimeout (HTTPSTunnel.hcfg h) = orD (HTTPSTunnel.ClientTimeout cfg) HTTPSTunnel.defaultHTTPSTunnelClientTimeout.
Proof. unfold HTTPSTunnel.NewHTTPSTunnel. repeat (case_match; try done). all: by intros [= <-]. Qed.

Lemma NewSOCKS5TLS_Ok fs cfg t :
  SOCKS5TLS.NewSOCKS5TLS fs cfg = Ok t →
  SOCKS5TLS.ClientTimeout (SOCKS5TLS.scfg t) = orD (SOCKS5TLS.ClientTimeout cfg) SOCKS5TLS.defaultSOCKS5TLSClientTimeout.
Proof. unfold SOCKS5TLS.NewSOCKS5TLS. repeat (case_match; try done). all: by intros [= <-]. Qed.

(** What the admin client of a built transport is like. *)
Lemma build_client `{GoURL} fs c t :
  buildTransport fs c = Ok (Some t) →
  acClientCert (tr_AdminClient t) = kind_cert (Config.trKind (Config.cTransport c)) ∧
  acTimeout (tr_AdminClient t) = kind_timeout (Config.trKind (Config.cTransport c)).
Proof.
  unfold buildTransport, kind_cert, kind_timeout. set (kind := Config.trKind (Config.cTransport c)). intros Hb.
  case_decide as Hl; [|case_decide as Hw; [|case_decide as Hh; [|case_decide as Hs; [|done]]]].
  - assert (kind ≠ Config.TransportHTTPSTunnel ∧ kind ≠ Config.TransportSOCKS5TLS) as [H1 H2] by (by destruct Hl as [-> | ->]).
    rewrite !decide_False, bool_decide_eq_false_2 by tauto. case_decide; [done|]. by injection Hb as <-.
  - assert (kind ≠ Config.TransportHTTPSTunnel ∧ kind ≠ Config.TransportSOCKS5TLS) as [H1 H2] by (by rewrite Hw).
    rewrite !decide_False, bool_decide_eq_false_2 by tauto.
    destruct (Wireguard.ParseWireguardConfigFromTop _) as [wg|] eqn:Hp; [|done].
    apply lift_err_Ok in Hb as (w & Hw' & Heq). injection Heq as ->. split; [done|]. cbn.
    by rewrite (NewWireguard_Ok _ _ Hw'), (ParseWireguard_Ok _ _ Hp).
  - rewrite bool_decide_eq_true_2 by tauto. apply lift_err_Ok in Hb as (h & Hh' & Heq). injection Heq as ->.
    split; [done|]. cbn. by rewrite (NewHTTPSTunnel_Ok _ _ _ Hh').
  - rewrite bool_decide_eq_true_2 by tauto.
    apply lift_err_Ok in Hb as (h & Hh' & Heq). injection Heq as ->. split; [done|]. cbn. by rewrite (NewSOCKS5TLS_Ok _ _ _ Hh').
Qed.

Lemma kind_cert_local kind : kind = [] ∨ kind = KindLocal → kind_cert kind = false.
Proof. by intros [-> | ->]. Qed.

Lemma build_none `{GoURL} fs c : buildTransport fs c = Ok None → kind_cert (Config.trKind (Config.cTransport c)) = false.
Proof.
  unfold buildTransport. case_decide as Hl; [intros _; by apply kind_cert_local|]. repeat case_decide; try done.
  - destruct (Wireguard.ParseWireguardConfigFromTop _); [|done]. by intros (? & _ & ?)%lift_err_Ok.
  - by intros (? & _ & ?)%lift_err_Ok.
  - by intros (? & _ & ?)%lift_err_Ok.
Qed.

(** A loaded remote configuration names a kind that is known and is not the
    local one. *)
Lemma loaded_remote_kind d c :
  Config.Load d = Ok c → Config.cMode c = Config.ModeRemote →
  Config.trKind (Config.cTransport c) ∈ [Config.TransportWireguard; Config.TransportHTTPSTunnel; Config.TransportSOCKS5TLS].
Proof. intros Hl%Config.Load_Ok Hm. by apply Hl. Qed.

(** The branch without a transport needs an empty socket, and the defaults of
    a loaded configuration never leave it empty. *)
Lemma loaded_has_transport `{GoURL} fs d c : Config.Load d = Ok c → buildTransport fs c ≠ Ok None.
Proof.
  intros Hl. assert (Hs : Config.adSocket (Config.cAdmin c) ≠ []).
  { unfold Config.Load in Hl. destruct d as [[raw|]|]; [|done|done]. case_match; [done|]. injection Hl as <-.
    cbn. by apply Config.orS_set. }
  unfold buildTransport. repeat case_decide; try done.
  - destruct (Wireguard.ParseWireguardConfigFromTop _); [|done]. by intros (? & _ & ?)%lift_err_Ok.
  - by intros (? & _ & ?)%lift_err_Ok.
  - by intros (? & _ & ?)%lift_err_Ok.
Qed.

(** * The checks of a door and the snapshot client of a proxy *)

Inductive bootstrap_error := DNoHubURL | DNoKind | DNoIdentity | DAdminOff | DDoor (e : Selector.door_error).

(** validateDoorBootstrap; ValidateDoor fills the defaults of the door. *)
Definition validateDoorBootstrap (c : Config.Config) : result bootstrap_error Selector.DoorConf :=
  let remote := bool_decide (Config.cMode c = Config.ModeRemote) in
  if (remote && bool_decide (Config.cHubURL c = []))%bool then Err DNoHubURL
  else if (remote && bool_decide (Config.trKind (Config.cTransport c) = []))%bool then Err DNoKind
  else if (remote && bool_decide (Config.mtClientCertFile (Config.cMTLS c) = [] ∨ Config.mtClientKeyFile (Config.cMTLS c) = []))%bool
  then Err DNoIdentity
  else if negb (Config.adEnabled (Config.cAdmin c)) then Err DAdminOff
  else lift_err DDoor id (Selector.ValidateDoor (Config.cDoor c)).

Inductive snapshot_kind := SnapNone | SnapNoop | SnapLocal | SnapRemote.

(** NewSnapshotClient of the proxy package, with a registry. *)
Definition NewSnapshotClient (c : Config.Config) : snapshot_kind :=
  if decide (Config.cMode c = Config.ModeRemote) then SnapRemote
  else if decide (Config.cMode c = Config.ModeLocal) then SnapLocal else SnapNoop.

(** buildSnapshotClient; [srv] is false for a nil server. *)
Definition buildSnapshotClient (c : Config.Config) (srv : bool) : snapshot_kind :=
  if negb srv then SnapNone
  else if decide (Config.cMode c = Config.ModeLocal ∧ Config.huDataDir (Config.cHub c) ≠ []) then SnapLocal
  else if decide (Config.cMode c = Config.ModeRemote) then SnapRemote
  else NewSnapshotClient c.

(** * Logging *)

Inductive level := LevelDebug | LevelInfo | LevelWarn | LevelError.
Inductive log_sink := Stdout | Stderr | LogFile (name : gostring) (maxSizeMB maxBackups : Z).
Record Logger := mkLogger { lgSink : log_sink; lgLevel : level; lgText : bool }.

(** buildLogger of the proxy, the hub and the door. *)
Definition buildLogger (l : Config.LoggingConf) : Logger :=
  mkLogger
    (if decide (Config.loOutput l ≠ [] ∧ Config.loOutput l ≠ $"stdout")
     then LogFile (Config.loOutput l) (Config.loMaxSizeMB l) (Config.loMaxBackups l) else Stdout)
    (if decide (Config.loLevel l = $"debug") then LevelDebug
     else if decide (Config.loLevel l = $"warn") then LevelWarn
     else if decide (Config.loLevel l = $"error") then LevelError else LevelInfo)
    (bool_decide (Config.loFormat l = $"text")).

(** buildLogWriter and parseLogLevel of the pool. *)
Definition buildLogWriter (l : Config.LoggingConf) : log_sink :=
  if decide (Config.loOutput l = $"stdout" ∨ Config.loOutput l = []) then Stdout
  else if decide (Config.loOutput l = $"stderr") then Stderr
  else LogFile (Config.loOutput l) (Config.loMaxSizeMB l) (Config.loMaxBackups l).

Definition parseLogLevel (s : gostring) : level :=
  if decide (s = $"debug") then LevelDebug
  else if decide (s = $"info") then LevelInfo
  else if decide (s = $"error") then LevelError else LevelWarn.

(** The binaries log to the same place unless it is stderr, which three of
    them take for the name of a file. *)
Lemma log_sinks_agree l :
  buildLogWriter l = lgSink (buildLogger l) ↔ Config.loOutput l ≠ $"stderr".
Proof.
  unfold buildLogWriter, buildLogger. cbn [lgSink]. destruct (decide (Config.loOutput l = $"stderr")) as [He|He].
  - rewrite He. split; [by vm_compute|done].
  - split; [done|]. intros _. destruct (decide (Config.loOutput l = $"stdout" ∨ Config.loOutput l = [])) as [Ho|Ho].
    + rewrite decide_False by tauto. done.
    + rewrite decide_True by tauto. done.
Qed.

(** * Starting and stopping *)

Inductive resource := RTracing | RTorpool | RTorAPI | RRegistry | RAudit | RTransport | RServer | RSnapshot | RMetrics | RPoller.

#[global] Instance resource_eq_dec : EqDecision resource.
Proof. solve_decision. Defined.

Inductive act := Open (r : resource) | Shut (r : resource).

(** What is still held after a history; closing what is not open is harmless. *)
Definition held (l : list act) : list resource :=
  foldl (λ h a, match a with Open r => h ++ [r] | Shut r => filter (.≠ r) h end) [] l.

(** A step of a start: whether it succeeds, what it acquires then, and what
    is released before the error is returned otherwise. *)
Record stage := mkStage { sgOk : bool; sgOpens : list resource; sgUndo : list resource }.

Fixpoint boot (l : list stage) : list act * bool :=
  match l with
  | [] => ([], true)
  | s :: l =>
      if sgOk s then let '(t, ok) := boot l in ((Open <$> sgOpens s) ++ t, ok)
      else (Shut <$> sgUndo s, false)
  end.

Definition opt (b : bool) (r : resource) : list resource := if b then [r] else [].

(** A whole run: what happens from the start to the return. *)
Definition run_binary (stages : list stage) (shutdown : list resource) : list act * bool :=
  let '(t, ok) := boot stages in (if ok then t ++ (Shut <$> shutdown) else t, ok).

(** ** The proxy *)

(** The outcomes of the steps, and what the configuration asks for. The
    transport step may succeed without a transport; the metrics listener and
    the poller are started behind the snapshot client and report no error. *)
Record ProxyStart := mkProxyStart {
  psTracing : bool; psLabeler : bool; psAdmin : bool; psAudit : bool; psHandler : bool;
  psTransport : bool; psHasTransport : bool; psServer : bool; psSnapshot : bool;
  psMetrics : bool; psPoller : bool
}.

Definition proxy_stages (e : ProxyStart) : list stage :=
  let tr := opt (psHasTransport e) RTransport in
  [mkStage (psTracing e) [RTracing] []; mkStage (psLabeler e) [] [RTracing]] ++
  (if psAdmin e then [mkStage (psAudit e) [RAudit] []; mkStage (psHandler e) [] [RAudit]] else []) ++
  [mkStage (psTransport e) tr [RTracing];
   mkStage (psServer e) [RServer] (tr ++ [RTracing]);
   mkStage (psSnapshot e) ([RSnapshot] ++ opt (psMetrics e) RMetrics ++ opt (psPoller e) RPoller) (RSnapshot :: tr ++ [RTracing])].

(** Server.Shutdown: the listener and the features, the snapshot client, the
    transport. *)
Definition server_Shutdown (transport : bool) : list resource := [RServer; RSnapshot] ++ opt transport RTransport.

Definition proxy_shutdownAll (e : ProxyStart) : list resource :=
  let tr := opt (psHasTransport e) RTransport in
  [RPoller] ++ server_Shutdown (psHasTransport e) ++ [RSnapshot] ++ opt (psMetrics e) RMetrics ++ tr ++ [RTracing] ++
  opt (psAdmin e) RAudit.

Definition proxy_run (e : ProxyStart) : list act * bool := run_binary (proxy_stages e) (proxy_shutdownAll e).

(** ** The door *)

Record DoorStart := mkDoorStart {
  dsLabeler : bool; dsAudit : bool; dsHandler : bool;
  dsTransport : bool; dsHasTransport : bool; dsServer : bool; dsSubscribes : bool; dsSnapshot : bool
}.

(** The admin surface of a door is always on (validateDoorBootstrap). *)
Definition door_stages (e : DoorStart) : list stage :=
  let tr := opt (dsHasTransport e) RTransport in
  [mkStage (dsLabeler e) [] []; mkStage (dsAudit e) [RAudit] []; mkStage (dsHandler e) [] [RAudit];
   mkStage (dsTransport e) tr []; mkStage (dsServer e) [RServer] tr] ++
  (if dsSubscribes e then [mkStage (dsSnapshot e) [RSnapshot] tr] else []).

Definition door_shutdownAll (e : DoorStart) : list resource :=
  [RServer] ++ opt (dsSubscribes e) RSnapshot ++ opt (dsHasTransport e) RTransport ++ [RAudit].

Definition door_run (e : DoorStart) : list act * bool := run_binary (door_stages e) (door_shutdownAll e).

(** ** The hub *)

Record HubStart := mkHubStart {
  bsTor : bool; bsTorStart : bool; bsRegistry : bool; bsCADir : bool; bsCA : bool; bsLabeler : bool;
  bsAdmin : bool; bsAudit : bool; bsHandler : bool; bsCert : bool; bsListen : bool
}.

Definition hub_stages (e : HubStart) : list stage :=
  let cleanup := opt (bsTor e) RTorAPI ++ opt (bsTor e) RTorpool in
  let undo := RRegistry :: cleanup in
  (if bsTor e then [mkStage (bsTorStart e) [RTorpool; RTorAPI] []] else []) ++
  [mkStage (bsRegistry e) [RRegistry] cleanup; mkStage (bsCADir e) [] undo; mkStage (bsCA e) [] undo;
   mkStage (bsLabeler e) [] undo] ++
  (if bsAdmin e then [mkStage (bsAudit e) [RAudit] undo; mkStage (bsHandler e) [] (RAudit :: undo)] else []) ++
  [mkStage (bsCert e) [] undo; mkStage (bsListen e) [RServer] undo].

Definition hub_shutdown (e : HubStart) : list resource :=
  [RServer; RRegistry] ++ opt (bsTor e) RTorAPI ++ opt (bsTor e) RTorpool ++ opt (bsAdmin e) RAudit.

Definition hub_start_run (e : HubStart) : list act * bool := run_binary (hub_stages e) (hub_shutdown e).

(** ** What is left *)

Lemma foldl_open os h : foldl (λ h a, match a with Open r => h ++ [r] | Shut r => filter (.≠ r) h end) h (Open <$> os) = h ++ os.
Proof. revert h; induction os as [|o os IH]; intros h; cbn; [by rewrite app_nil_r|]. by rewrite IH, <- app_assoc. Qed.

Lemma held_open_shut os ss : held ((Open <$> os) ++ (Shut <$> ss)) = filter (.∉ ss) os.
Proof.
  unfold held. rewrite foldl_app, foldl_open. cbn [app]. revert os; induction ss as [|r ss IH]; intros os; cbn.
  - induction os as [|o os IHos]; [done|]. rewrite filter_cons_True by set_solver. by rewrite <- IHos.
  - rewrite IH, list_filter_filter. apply list_filter_iff. set_solver.
Qed.

Definition opened (l : list stage) : list resource := l ≫= sgOpens.

(** What a failure of each step would leave, the steps before it done. *)
Fixpoint fail_leaks (acc : list resource) (l : list stage) : list (list resource) :=
  match l with
  | [] => []
  | s :: l => filter (.∉ sgUndo s) acc :: fail_leaks (acc ++ sgOpens s) l
  end.

Lemma boot_spec l acc :
  let '(t, ok) := boot l in
  if ok then t = Open <$> opened l else held ((Open <$> acc) ++ t) ∈ fail_leaks acc l.
Proof.
  revert acc; induction l as [|s l IH]; intros acc; [done|]. cbn [boot fail_leaks]. destruct (sgOk s).
  - specialize (IH (acc ++ sgOpens s)). destruct (boot l) as [t []].
    + unfold opened. cbn. rewrite IH. by rewrite fmap_app.
    + rewrite fmap_app, <- app_assoc in IH. by right.
  - rewrite held_open_shut. left.
Qed.

Lemma run_releases l sd : (run_binary l sd).2 = true → opened l ⊆ sd → held (run_binary l sd).1 = [].
Proof.
  unfold run_binary. pose proof (boot_spec l []) as Hb. destruct (boot l) as [t []]; [|done]. intros _ Hs. cbn [fst].
  rewrite Hb, held_open_shut. clear Hb.
  induction (opened l) as [|r os IH]; [done|]. rewrite filter_cons_False by set_solver. apply IH. set_solver.
Qed.

Lemma run_leaks l sd allowed :
  (run_binary l sd).2 = false → Forall (.⊆ allowed) (fail_leaks [] l) → held (run_binary l sd).1 ⊆ allowed.
Proof.
  unfold run_binary. pose proof (boot_spec l []) as Hb. destruct (boot l) as [t []]; [done|]. intros _ HP. cbn [fst].
  rewrite Forall_forall in HP. by apply HP.
Qed.

Ltac each_failure := cbn; repeat (apply Forall_cons_2; [set_solver|]); apply Forall_nil_2.

(** A binary that came up releases everything it acquired when it stops,
    and a start that fails leaves open at most the audit log, the tracing
    pipeline and, in the proxy and the door, the server. *)
Theorem binaries_release :
  (∀ e, (proxy_run e).2 = true → held (proxy_run e).1 = []) ∧
  (∀ e, (door_run e).2 = true → held (door_run e).1 = []) ∧
  (∀ e, (hub_start_run e).2 = true → held (hub_start_run e).1 = []) ∧
  (∀ e, (proxy_run e).2 = false → held (proxy_run e).1 ⊆ [RTracing; RAudit; RServer]) ∧
  (∀ e, (door_run e).2 = false → held (door_run e).1 ⊆ [RAudit; RServer]) ∧
  (∀ e, (hub_start_run e).2 = false → held (hub_start_run e).1 ⊆ [RAudit]).
Proof.
  split_and!; intros e Hr; (apply run_releases; [exact Hr|]) || (apply run_leaks; [exact Hr|]).
  - destruct e as [? ? [] ? ? ? [] ? ? [] []]; vm_compute; set_solver.
  - destruct e as [? ? ? ? [] ? [] ?]; vm_compute; set_solver.
  - destruct e as [[] ? ? ? ? ? [] ? ? ? ?]; vm_compute; set_solver.
  - destruct e as [? ? [] ? ? ? [] ? ? [] []]; each_failure.
  - destruct e as [? ? ? ? [] ? [] ?]; each_failure.
  - destruct e as [[] ? ? ? ? ? [] ? ? ? ?]; each_failure.
Qed.

(** The three leaks of the proxy do happen: the pipeline when the audit log
    cannot be opened, the log and the server when the first subscription
    fails. *)
Example proxy_leaks :
  held (proxy_run (mkProxyStart true true true false true true true true true true true)).1 = [RTracing] ∧
  held (proxy_run (mkProxyStart true true true true true true true true false true true)).1 = [RAudit; RServer].
Proof. split; reflexivity. Qed.
