(* ===== verification/EdgeHub.v ===== *)
(** Edges and the hub together: the transport an edge was configured with,
    the stream client that uses it, and the handler of the hub that answers.
    The theorems say which kinds of transport can subscribe, what becomes of a
    dial through the HTTPS tunnel, and how long a stream lives. *)

From S2P Require Import Prelude Http GoStd Bufio NodeTransport Binaries Mux.
From S2P Require Mirrors HubRegistry HubStream Monitor CA HubAPI EdgeClients SSE Config.
Import SSE (newline, cr).
Import HubAPI (ApiRequest, mkApiRequest, aqReq, aqPeer, Hub, World, sender, Serve, apStatus, api_reply).
Import EdgeClients (EdgeClient, stream_body, mkBody, http_result, HttpErr, HttpResp, streamURL, readInitialEvent).

(** * The request of a subscription *)

(** The client an edge uses: the admin client of its transport, or the default
    client without one. Only a client with an identity presents it. *)
Definition presents (tr : option AnyTransport) : bool :=
  match tr with Some t => acClientCert (tr_AdminClient t) | None => false end.

Definition stream_request (tr : option AnyTransport) (leaf : CA.Certificate) (host addr : gostring) : ApiRequest :=
  mkApiRequest (mkRequest MethodGet $"/v1/config/stream" [] [] host addr {[$"Accept" := $"text/event-stream"]} ∅) [] 0
    (if presents tr then Some leaf else None).

(** The admin client of the same-machine transport dials the socket of the
    pool, whatever the URL says; every other client asks the hub. *)
Definition asks_hub (tr : option AnyTransport) : bool :=
  match tr with Some (TLocal _) => false | _ => true end.

(** The answer as the client sees it; the body is what the stream carries. *)
Definition http_of (reply : option api_reply) (body : stream_body) : http_result :=
  match reply with None => HttpErr | Some r => HttpResp (apStatus r) body end.

Section edge_hub.
Context {D : Type} `{HubRegistry.ConfYaml D} `{HubRegistry.HubJson} {M : Type} `{EqDecision M} `{Mirrors.YamlCodec M} `{GoUnicode}
  `{CA.X509} `{HubAPI.ApiJson}.
Context (settings_marshal : Monitor.CheckHostSettings → option gostring)
  (settings_yaml : gostring → option Monitor.CheckHostSettings).
Context (torpool : option (gostring → gostring → header → gostring → option MResponse)).
Context {E St : Type} `{SSE.EventCodec E} (apply : E → St → St) `{GoURL}.

#[local] Abbreviation serve := (Serve (M := M) settings_marshal settings_yaml torpool).

(** The hub's answer to a subscription. *)
Lemma stream_answer w tr leaf host addr (h : Hub (D := D) (M := M)) :
  ∃ r, (serve w (stream_request tr leaf host addr) h).2 = Some r ∧
  (apStatus r = StatusOK ↔ is_Some (sender (stream_request tr leaf host addr) h)).
Proof.
  set (q := stream_request tr leaf host addr). unfold Serve.
  rewrite (eq_refl : HubAPI.route_of (aqReq q) = HubAPI.Routed HubAPI.RtStream).
  unfold HubAPI.requireMTLS, sender. destruct (aqPeer q) as [lf|]; [|eexists; split; [done|]; split; [done|by intros [? ?]]].
  destruct (HubAPI.huCA h) as [[ca f]|]; [|eexists; split; [done|]; split; [done|by intros [? ?]]].
  destruct (CA.VerifyPeer ca lf) as [id t| |[]]; eexists; (split; [done|]); split; try done; by intros [? ?].
Qed.

(** What an edge gets when it asks for the stream; [pool] is what the pool's
    socket answers. *)
Definition subscription (w : World) (h : Hub (D := D) (M := M)) (tr : option AnyTransport) (leaf : CA.Certificate)
    (host addr : gostring) (body : stream_body) (pool : http_result) : http_result :=
  if asks_hub tr then http_of (serve w (stream_request tr leaf host addr) h).2 body else pool.

(** A transport with an identity. *)
Lemma build_identity fs c tr :
  buildTransport fs c = Ok tr → kind_cert (Config.trKind (Config.cTransport c)) = true →
  presents tr = true ∧ asks_hub tr = true.
Proof.
  intros Hb Hk. destruct tr as [t|]; [|apply build_none in Hb; congruence].
  destruct (build_client fs c t Hb) as [Hc _]. unfold presents. rewrite Hc, Hk. split; [done|].
  destruct t; try done. cbn in Hc. congruence.
Qed.

(** The hub trusts a certificate: it carries the signature of the hub's
    authority, names a node, and its serial is not revoked. *)
Definition trusted (h : Hub (D := D) (M := M)) (leaf : CA.Certificate) : Prop :=
  ∃ ca f, HubAPI.huCA h = Some (ca, f) ∧ CA.signed leaf = true ∧ CA.ctSerial leaf ∉ CA.revoked ca ∧
    is_ok (CA.extractIdentity leaf) = true.

Lemma sender_trusted q (h : Hub (D := D) (M := M)) leaf :
  aqPeer q = Some leaf → is_Some (sender q h) ↔ trusted h leaf.
Proof.
  intros Hq. unfold sender, trusted. rewrite Hq. destruct (HubAPI.huCA h) as [[ca f]|].
  2: { split; [by intros [? ?]|by intros (? & ? & ? & _)]. }
  unfold CA.VerifyPeer, CA.IsRevoked. destruct (CA.signed leaf) eqn:Hs; cbn [negb].
  2: { split; [by intros [? ?]|]. intros (? & ? & _ & ? & _). congruence. }
  destruct (bool_decide (CA.ctSerial leaf ∈ CA.revoked ca)) eqn:Hr.
  { apply bool_decide_eq_true in Hr. split; [by intros [? ?]|]. intros (ca' & f' & [= <- <-] & _ & Hn & _). by destruct Hn. }
  apply bool_decide_eq_false in Hr. destruct (CA.extractIdentity leaf) as [[id t]|e] eqn:Hi; cbn [is_ok].
  - split; [|by eexists]. intros _. exists ca, f. by split_and!.
  - split; [by intros [? ?]|]. by intros (? & ? & _ & _ & _ & ?).
Qed.


(** * Dials through the HTTPS tunnel *)

Lemma Split_cons s sep : ∃ x xs, Split s sep = x :: xs.
Proof. destruct s as [|c s]; cbn; [eauto|]. case_decide; [eauto|]. destruct (Split s sep); eauto. Qed.

Lemma Split_app a sep b : Split (a ++ sep :: b) sep = Split a sep ++ Split b sep.
Proof.
  induction a as [|c a IH]; cbn; [by rewrite decide_True|]. rewrite IH. case_decide; [done|].
  destruct (Split_cons a sep) as (x & xs & ->). done.
Qed.

Lemma Split_none s sep : sep ∉ s → Split s sep = [s].
Proof.
  induction s as [|c s IH]; intros Hn; [done|]. apply not_elem_of_cons in Hn as [Hc Hs]. cbn.
  rewrite decide_False by done. by rewrite IH.
Qed.

(** CONNECT /tunnel/socks/<port> as the hub's server parses it. *)
Definition tunnel_request (port : Z) (host addr : gostring) (peer : option CA.Certificate) : ApiRequest :=
  mkApiRequest (mkRequest $"CONNECT" ($"/tunnel/socks/" ++ fmt_int port) [] [] host addr ∅ ∅) [] 0 peer.

Lemma tunnel_no_route port host addr peer :
  (0 ≤ port)%Z → HubAPI.route_of (aqReq (tunnel_request port host addr peer)) = HubAPI.NoRoute.
Proof.
  intros Hp. unfold HubAPI.route_of, mux_segments, escaped_segments, raw_used. cbn [aqReq tunnel_request Method RawPath Path].
  rewrite (bool_decide_eq_false_2 ([] ≠ [])) by tauto. cbn [andb].
  change ($"/tunnel/socks/" ++ fmt_int port) with ($"/tunnel/socks" ++ "/"%char :: fmt_int port).
  rewrite Split_app, (Split_none (fmt_int port)) by by apply fmt_int_no.
  reflexivity.
Qed.

(** An answer with any other status is refused, with its status line. *)
Lemma read_connect_rejects src line rest :
  chunks_ok src → concat src = line ++ newline :: rest → newline ∉ line →
  HTTPSTunnel.isConnectSuccessStatus (HTTPSTunnel.trim_eol line) = false →
  HTTPSTunnel.read_connect src = Err (DRejected (HTTPSTunnel.trim_eol line)).
Proof.
  intros Hok Hsrc Hl Hs. unfold HTTPSTunnel.read_connect. pose proof (ReadString_spec (NewReader src) Hok) as Hr.
  change (rest_of (NewReader src)) with (concat src) in Hr. rewrite Hsrc, cut_byte_app in Hr by done.
  destruct Hr as (b & -> & _). rewrite trim_eol_newline. by rewrite Hs.
Qed.

(** net/http's status line for a reply of the API. *)
Definition status_line (code : Z) (text : gostring) : gostring := $"HTTP/1.1 " ++ fmt_int code ++ $" " ++ text ++ [cr].

(** The hub has no route for the tunnel: whatever its state and whoever
    asks, CONNECT /tunnel/socks/<port> is answered 404 and changes nothing,
    so every dial through the HTTPS tunnel that reaches the hub fails with
    that status line and leaves no socket open. *)
Theorem tunnel_hub_rejects w port host addr peer (h : Hub (D := D) (M := M)) t n rest :
  (1 ≤ port ≤ 65535)%Z →
  ∃ r, serve w (tunnel_request port host addr peer) h = (h, Some r) ∧
  (chunks_ok (ntIn n) → reached t n port → concat (ntIn n) = status_line (apStatus r) $"Not Found" ++ newline :: rest →
   ∃ s, HTTPSTunnel.DialSOCKS t n port = (Err (DRejected $"HTTP/1.1 404 Not Found"), Some s) ∧ soOpen s = false).
Proof.
  intros Hp. unfold Serve. rewrite tunnel_no_route by lia. eexists. split; [done|]. cbn [apStatus].
  intros Hok (s & _ & _ & ->)%DialSOCKS_reached Hin.
  rewrite (read_connect_rejects (ntIn n) _ rest Hok Hin); [by eexists|decide_now|reflexivity].
Qed.

(** * The life of a stream *)

(** What arrives on a stream, each piece with the time since the request. *)
Abbreviation arrivals := (list (duration * gostring)).

(** The body of a response read through a client with a timeout: the bound of
    http.Client covers the body, so a read fails once it has passed. *)
Definition timed_body (timeout : duration) (l : arrivals) : stream_body :=
  mkBody (concat (snd <$> filter (λ p, (p.1 < timeout)%Z) l)) false.

Lemma timed_body_cut timeout l l' :
  Forall (λ p, (timeout ≤ p.1)%Z) l' → timed_body timeout (l ++ l') = timed_body timeout l.
Proof.
  intros Hl. unfold timed_body. rewrite filter_app. replace (filter (λ p, (p.1 < timeout)%Z) l') with (@nil (duration * gostring)).
  { by rewrite app_nil_r. }
  induction Hl as [|p l' Hp Hl IH]; [done|]. by rewrite filter_cons_False by lia.
Qed.

(** The stream of an edge does not outlive the timeout of its admin
    client, which every kind of transport fixes at 30 seconds or less: what
    the hub sends later is not read from that stream. From the seventh
    reconnect on the edge then waits 30 seconds, at least as long as it was
    connected, before it asks again. *)
Theorem edge_stream_bounded fs c t ec pending rs s l l' :
  buildTransport fs c = Ok (Some t) → ec = EdgeClients.NewRemoteClient (Some (Config.cHubURL c)) →
  let timeout := acTimeout (tr_AdminClient t) in
  (0 < timeout ≤ 30 * Second)%Z ∧
  (Forall (λ p, (timeout ≤ p.1)%Z) l' →
     EdgeClients.connectAndConsume apply ec (HttpResp StatusOK (timed_body timeout (l ++ l'))) s
     = EdgeClients.connectAndConsume apply ec (HttpResp StatusOK (timed_body timeout l)) s) ∧
  (∀ i d, 6 ≤ i → (EdgeClients.run apply ec pending rs s).2 !! i = Some d → d = (30 * Second)%Z ∧ (timeout ≤ d)%Z).
Proof.
  intros Hb -> timeout. destruct (build_client fs c t Hb) as [_ Ht].
  assert (Hbound : (0 < timeout ≤ 30 * Second)%Z).
  { subst timeout. rewrite Ht. unfold kind_timeout, Second. repeat case_decide; lia. }
  split; [done|]. split; [intros Hl; by rewrite timed_body_cut|]. intros i d Hi Hd.
  set (ec := EdgeClients.NewRemoteClient _) in Hd.
  assert (Hok : EdgeClients.backoff_ok ec) by apply EdgeClients.new_client_backoff_ok.
  assert (Hw : (EdgeClients.run apply ec pending rs s).2 !! i = EdgeClients.wait_at ec <$> seq 0 (S (length rs)) !! i).
  { unfold EdgeClients.run.
    pose proof (EdgeClients.run_loop_waits apply ec rs 1 (foldl (λ s ev, apply ev s) s pending) Hok) as Hrl.
    rewrite <- EdgeClients.next_wait in Hrl by done. change (EdgeClients.wait_at ec 0) with (EdgeClients.minBackoff ec) in Hrl.
    destruct (EdgeClients.run_loop _ _ _ _ _) as [s' ws]. cbn [snd] in Hrl |- *. rewrite Hrl, <- list_lookup_fmap. done. }
  rewrite Hw in Hd. destruct (seq 0 (S (length rs)) !! i) as [j|] eqn:Hj; [|done]. apply lookup_seq in Hj as [-> _].
  cbn in Hd. injection Hd as <-. assert (He : EdgeClients.wait_at ec i = (30 * Second)%Z); [|rewrite He; tauto].
  unfold EdgeClients.wait_at. cbn [EdgeClients.minBackoff EdgeClients.maxBackoff ec EdgeClients.NewRemoteClient].
  assert (Hpow : (64 ≤ 2 ^ Z.of_nat i)%Z) by (change 64%Z with (2 ^ 6)%Z; apply Z.pow_le_mono_r; lia).
  unfold Millisecond, Second. lia.
Qed.

End edge_hub.

(** * Examples *)

#[local] Existing Instances HubAPI.hq_yaml HubAPI.hq_json HubAPI.hq_codec HubAPI.hq_unicode HubAPI.hq_x509 HubAPI.hq_api.
#[local] Existing Instances SSE.sx_codec.

(** Parsing of plain scheme://host:port addresses. *)
#[local] Instance eh_url : GoURL := λ s,
  match cut_byte colon s with
  | Some (scheme, rest) => if HasPrefix rest $"//" then Some (mkURL scheme (drop 2 rest)) else None
  | None => None
  end.

(** An edge of a given transport kind. *)
Definition eh_conf (kind : gostring) : Config.Config :=
  let raw := Config.ex_raw 0 0 (Config.ex_lockout Hour) in
  Config.mkConfig Config.ModeRemote Config.NodeTypeProxy
    (Config.mkTransportConf kind (Config.mkWireguardConf [] [] [] [] [] []) (Config.mkHTTPSTunnelConf $"https://hub:9080" $"ca")
       (Config.mkSOCKS5TLSConf $"hub:1080" $"hub:9080" $"ca"))
    (Config.mkMTLSConf $"crt" $"key") $"https://hub:9080" $"edge-1"
    (Config.cNodeSecretFile raw) (Config.cHub raw) (Config.cDomain raw) (Config.cEmail raw)
    (Config.cProxySecret raw) (Config.cCloudflare raw) (Config.cBackends raw) (Config.cTor raw) (Config.cPool raw)
    (Config.cCache raw) (Config.cRateLimit raw) (Config.cSecurity raw) (Config.cLogging raw) (Config.cMetrics raw)
    (Config.cAdmin raw) (Config.cDoor raw).

Definition eh_files : Files := mkFiles (λ _, Some $"pem") (λ _, true) (λ _ _, true).
Definition eh_transport (kind : gostring) : option AnyTransport :=
  match buildTransport eh_files (eh_conf kind) with Ok tr => tr | Err _ => None end.
Definition eh_client : EdgeClient := EdgeClients.NewRemoteClient (Some $"https://hub:9080").
Definition eh_body : stream_body := mkBody ($"event: t" ++ [newline] ++ $"data: x" ++ [newline; newline]) false.

(** The same edge before and after its certificate was revoked. *)
Definition eh_revoked := HubAPI.with_ca (Some (CA.Revoke 2 (CA.mkCA 3 true ∅), Some 3%Z)) HubAPI.hq_hub.


Lemma tunnel_hub_rejects_witness :
  let n := ex_net $"hub:8443" [status_line 404 $"Not Found" ++ [newline]; $"Content-Length: 0"] in
  ∃ s, HTTPSTunnel.DialSOCKS ex_tunnel n 9050 = (Err (DRejected $"HTTP/1.1 404 Not Found"), Some s) ∧ soOpen s = false.
Proof.
  cbv zeta.
  destruct (tunnel_hub_rejects (λ _, None) (λ _, None) None HubAPI.hq_world 9050 $"hub:8443" $"10.0.0.7:1" None HubAPI.hq_hub ex_tunnel
    (ex_net $"hub:8443" [status_line 404 $"Not Found" ++ [newline]; $"Content-Length: 0"]) $"Content-Length: 0" ltac:(lia)) as (r & Hr & Hd).
  apply Hd; [decide_now|decide_now|].
  assert (Hs : apStatus r = 404%Z).
  { apply (f_equal (λ p, apStatus <$> p.2)) in Hr. vm_compute in Hr. by injection Hr. }
  rewrite Hs. vm_compute. reflexivity.
Defined.

(** An event sent a minute into a stream over the tunnel is not seen. *)
Lemma edge_stream_bounded_witness :
  ∃ t, eh_transport Config.TransportHTTPSTunnel = Some t ∧
  EdgeClients.connectAndConsume (λ ev l, l ++ [ev]) eh_client
    (HttpResp StatusOK (timed_body (acTimeout (tr_AdminClient t)) [(Second, EdgeClients.sbBytes eh_body); (Minute, EdgeClients.sbBytes eh_body)])) []
  = EdgeClients.connectAndConsume (λ ev l, l ++ [ev]) eh_client
    (HttpResp StatusOK (timed_body (acTimeout (tr_AdminClient t)) [(Second, EdgeClients.sbBytes eh_body)])) [].
Proof.
  destruct (eh_transport Config.TransportHTTPSTunnel) as [t|] eqn:Ht; [|vm_compute in Ht; discriminate].
  exists t. split; [reflexivity|].
  assert (Hb : buildTransport eh_files (eh_conf Config.TransportHTTPSTunnel) = Ok (Some t))
    by (rewrite <- Ht; vm_compute; reflexivity).
  apply (edge_stream_bounded (λ ev l, l ++ [ev]) eh_files (eh_conf Config.TransportHTTPSTunnel) t eh_client [] [] []
    [(Second, EdgeClients.sbBytes eh_body)] [(Minute, EdgeClients.sbBytes eh_body)] Hb eq_refl).
  assert (HT : Some (acTimeout (tr_AdminClient t)) = Some (30 * Second)%Z).
  { change ((λ t, acTimeout (tr_AdminClient t)) <$> Some t = Some (30 * Second)%Z). rewrite <- Ht. vm_compute. reflexivity. }
  apply (inj Some) in HT. rewrite HT. decide_now.
Defined.
