(* ===== verification/Catalog.v ===== *)
(** Message catalogs (src/internal/i18n/i18n.go) and the file of the label
    salt (loadOrCreateSalt of src/internal/metrics/opsec.go). *)

From S2P Require Import Prelude GoStd.
From S2P Require Metrics.

(** * Catalogs *)

Definition LangEN : gostring := $"en".

(** json.Unmarshal into a map from strings to strings; the map is fresh. *)
Class CatalogJson := catalog_json : gostring → option (gmap gostring gostring).

Abbreviation messages := (gmap gostring (gmap gostring gostring)).

(** One entry of the directory: its name and what reading it gives. *)
Record dirEntry := mkDirEntry { deName : gostring; deIsDir : bool; deData : option gostring }.

Definition jsonSuffix : gostring := $".json".

(** filepath.Ext: from the last dot of the last element on. *)
Definition Ext (name : gostring) : gostring :=
  match cut_byte "."%char (reverse name) with
  | Some (r, _) => if decide (slash ∈ r) then [] else "."%char :: reverse r
  | None => []
  end.

Section catalog.
Context `{GoUnicode} `{CatalogJson}.

Inductive load_error := EReadDir | ERead (name : gostring) | EParse (name : gostring).

Definition TrimSuffix (s p : gostring) : gostring := if HasSuffix s p then take (length s - length p) s else s.

(** The loop of Load over the entries. *)
Fixpoint load_entries (entries : list dirEntry) (next : messages) : result load_error messages :=
  match entries with
  | [] => Ok next
  | e :: entries =>
      if deIsDir e then load_entries entries next
      else if decide (Ext (deName e) ≠ jsonSuffix) then load_entries entries next
      else
        let stem := TrimSuffix (deName e) jsonSuffix in
        if decide (stem = []) then load_entries entries next
        else match deData e with
        | None => Err (ERead (deName e))
        | Some data =>
            match (if decide (TrimSpace data = []) then Some ∅ else catalog_json data) with
            | None => Err (EParse (deName e))
            | Some m => load_entries entries (<[stem := m]> next)
            end
        end
  end.

(** Load: the catalog afterwards and the error, if any. *)
Definition Load (dir : option (list dirEntry)) (c : messages) : messages * option load_error :=
  match dir with
  | None => (c, Some EReadDir)
  | Some entries =>
      match load_entries entries ∅ with
      | Ok next => (next, None)
      | Err e => (c, Some e)
      end
  end.

Definition Has (key lang : gostring) (c : messages) : bool :=
  match c !! lang with Some m => bool_decide (is_Some (m !! key)) | None => false end.

Definition lookup_msg (key lang : gostring) (c : messages) : option gostring := c !! lang ≫= (.!! key).

Definition T (key lang : gostring) (c : messages) : gostring :=
  match lookup_msg key lang c with
  | Some v => v
  | None =>
      if decide (lang ≠ LangEN) then default key (lookup_msg key LangEN c) else key
  end.

Definition Languages (c : messages) : list gostring := Strings (fst <$> map_to_list c).

(** ** Lemmas *)

(** An entry that counts: its language, and its catalog when it can be read. *)
Definition entry_lang (e : dirEntry) : option gostring :=
  if deIsDir e then None
  else if decide (Ext (deName e) ≠ jsonSuffix) then None
  else let stem := TrimSuffix (deName e) jsonSuffix in if decide (stem = []) then None else Some stem.

Definition entry_map (e : dirEntry) : option (gmap gostring gostring) :=
  deData e ≫= λ data, if decide (TrimSpace data = []) then Some ∅ else catalog_json data.

Lemma load_entries_cons e entries next :
  load_entries (e :: entries) next =
  match entry_lang e with
  | None => load_entries entries next
  | Some l => match entry_map e with
              | Some m => load_entries entries (<[l := m]> next)
              | None => Err (match deData e with None => ERead (deName e) | Some _ => EParse (deName e) end)
              end
  end.
Proof.
  cbn [load_entries]. unfold entry_lang, entry_map. destruct (deIsDir e); [done|]. case_decide; [done|].
  case_decide; [done|]. destruct (deData e) as [data|]; [|done]. cbn. by destruct (if decide _ then _ else _).
Qed.

(** Every language of a directory, one file each, is loaded with its file, and
    there is nothing else. *)
Lemma load_entries_spec entries next c :
  NoDup (omap entry_lang entries) → load_entries entries next = Ok c →
  ∀ l, c !! l = match List.find (λ e, bool_decide (entry_lang e = Some l)) entries with
                | Some e => entry_map e
                | None => next !! l
                end.
Proof.
  revert next; induction entries as [|e entries IH]; intros next Hnd Hl l; [by injection Hl as <-|].
  rewrite load_entries_cons in Hl. change (NoDup (match entry_lang e with Some y => y :: omap entry_lang entries | None => omap entry_lang entries end)) in Hnd.
  cbn [List.find].
  destruct (entry_lang e) as [le|] eqn:He.
  - apply NoDup_cons in Hnd as [Hnin Hnd]. destruct (entry_map e) as [m|] eqn:Hm; [|done].
    rewrite (IH _ Hnd Hl l). destruct (decide (le = l)) as [->|Hne].
    + rewrite bool_decide_eq_true_2, Hm by done. destruct (List.find _ entries) as [e'|] eqn:Hf.
      * apply List.find_some in Hf as [Hin Hb%bool_decide_eq_true]. destruct Hnin. apply list_elem_of_omap. exists e'.
        split; [by apply list_elem_of_In|done].
      * apply lookup_insert_eq.
    + rewrite bool_decide_eq_false_2 by congruence. destruct (List.find _ entries); [done|]. by rewrite lookup_insert_ne.
  - rewrite bool_decide_eq_false_2 by done. by apply IH.
Qed.

(** A load either replaces the catalog as a whole or changes nothing. *)
Theorem catalog_load_atomic dir c :
  match Load dir c with
  | (c', Some _) => c' = c
  | (c', None) => ∃ entries, dir = Some entries ∧ load_entries entries ∅ = Ok c' ∧
      (NoDup (omap entry_lang entries) →
       ∀ l, c' !! l = List.find (λ e, bool_decide (entry_lang e = Some l)) entries ≫= entry_map)
  end.
Proof.
  unfold Load. destruct dir as [entries|]; [|done]. destruct (load_entries entries ∅) as [next|] eqn:Hl; [|done].
  exists entries. split_and!; [done..|]. intros Hnd l. rewrite (load_entries_spec entries ∅ next Hnd Hl l).
  destruct (List.find _ entries); [done|]. apply lookup_empty.
Qed.

(** T never fails: the language, English, the key itself, in that order. *)
Theorem catalog_fallback key lang c :
  T key lang c = default key (lookup_msg key lang c ∪ lookup_msg key LangEN c) ∧
  (Has key lang c = true → lookup_msg key lang c = Some (T key lang c)).
Proof.
  split.
  - unfold T. destruct (lookup_msg key lang c) as [v|] eqn:Hl; [by destruct (lookup_msg key LangEN c)|].
    case_decide as Hen; [by destruct (lookup_msg key LangEN c)|]. by rewrite <- Hen, Hl.
  - unfold T, Has. intros Hh. assert (Hs : is_Some (lookup_msg key lang c)).
    { unfold lookup_msg. destruct (c !! lang) as [m|]; [|done]. by apply bool_decide_eq_true in Hh. }
    by destruct Hs as [v ->].
Qed.

Lemma languages_exact c l : l ∈ Languages c ↔ is_Some (c !! l).
Proof.
  unfold Languages, Strings. rewrite sort_by_Permutation, list_elem_of_fmap. split.
  - intros ([l' m] & -> & Hin). apply elem_of_map_to_list in Hin. by eexists.
  - intros [m Hm]. exists (l, m). split; [done|]. by apply elem_of_map_to_list.
Qed.
End catalog.

(** * The salt file *)

Module Salt.

Definition saltLen : nat := 32.
Definition ownerOnly : Z := 384.

(** The file at the configured path: its permission bits and its bytes. *)
Record SaltFile := mkSaltFile { sfMode : Z; sfData : gostring }.

(** What the calls of one start meet: random bytes, and the outcomes of stat,
    read, open, write (None when complete, else the bytes that got through),
    close and chmod, under a umask. *)
Record SaltIO := mkSaltIO {
  siRandom : option gostring; siStat : bool; siRead : bool; siOpen : bool;
  siWrite : option nat; siClose : bool; siRemove : bool; siChmod : bool; siUmask : Z
}.

Inductive salt_error := ERandom | EStat | EPerms | EReadSalt | EShort | ECreate | EWrite | EClose | EChmod.

(** createSaltFile, where there is no file. *)
Definition createSaltFile (io : SaltIO) : option SaltFile * result salt_error gostring :=
  match siRandom io with
  | None => (None, Err ERandom)
  | Some salt =>
      let mode := Z.ldiff ownerOnly (siUmask io) in
      if negb (siOpen io) then (None, Err ECreate)
      else match siWrite io with
      | Some n => (if siRemove io then None else Some (mkSaltFile mode (take n salt)), Err EWrite)
      | None =>
      if negb (siClose io) then (Some (mkSaltFile mode salt), Err EClose)
      else if negb (siChmod io) then (Some (mkSaltFile mode salt), Err EChmod)
      else (Some (mkSaltFile ownerOnly salt), Ok salt)
      end
  end.

Definition loadOrCreateSalt (io : SaltIO) (path : gostring) (f : option SaltFile) : option SaltFile * result salt_error gostring :=
  if decide (path = []) then (f, match siRandom io with Some s => Ok s | None => Err ERandom end)
  else if negb (siStat io) then (f, Err EStat)
  else match f with
  | None => createSaltFile io
  | Some file =>
      (f, if negb (Metrics.checkSaltPerms (sfMode file)) then Err EPerms
          else if negb (siRead io) then Err EReadSalt
          else if decide (length (sfData file) < 16) then Err EShort
          else Ok (sfData file))
  end.

Definition NewLabeler (io : SaltIO) (hashTenants : bool) (path : gostring) (f : option SaltFile)
    : option SaltFile * result salt_error Metrics.Labeler :=
  let '(f', r) := loadOrCreateSalt io path f in
  (f', match r with Ok salt => Ok (Metrics.mkLabeler hashTenants salt) | Err e => Err e end).

(** crypto/rand fills the buffer. *)
Definition random_ok (io : SaltIO) : Prop := ∀ s, siRandom io = Some s → length s = saltLen.

(** A start that succeeds with a salt file leaves it readable by its owner
    alone, and every later start that can read it has the same salt, whatever
    its random bytes are: the labels of a node survive its restarts. *)
Theorem salt_survives io io' hash hash' path f f' l :
  random_ok io → path ≠ [] → NewLabeler io hash path f = (f', Ok l) →
  (∃ file, f' = Some file ∧ sfData file = Metrics.salt l ∧ Metrics.checkSaltPerms (sfMode file) = true) ∧
  (siStat io' = true → siRead io' = true →
   NewLabeler io' hash' path f' = (f', Ok (Metrics.mkLabeler hash' (Metrics.salt l)))).
Proof.
  intros Hrnd Hp. unfold NewLabeler.
  assert (Hkey : ∀ f1 s, loadOrCreateSalt io path f = (f1, Ok s) →
    ∃ file, f1 = Some file ∧ sfData file = s ∧ Metrics.checkSaltPerms (sfMode file) = true ∧ 16 ≤ length s).
  { intros f1 s. unfold loadOrCreateSalt. rewrite decide_False by done. destruct (siStat io); [|done]. cbn [negb].
    destruct f as [file|].
    - destruct (Metrics.checkSaltPerms (sfMode file)) eqn:Hm; [|done]. destruct (siRead io); [|done]. cbn [negb].
      case_decide; [done|]. intros Heq. injection Heq as <- <-. exists file. split_and!; try done. lia.
    - unfold createSaltFile. destruct (siRandom io) as [salt|] eqn:Hr; [|done].
      destruct (siOpen io), (siWrite io), (siClose io), (siChmod io); cbn [negb]; try done.
      intros Heq. injection Heq as <- <-. eexists. split_and!; [done..|]. rewrite (Hrnd _ Hr). unfold saltLen. lia. }
  destruct (loadOrCreateSalt io path f) as [f1 [s|]] eqn:Hl; intros Heq; [|done]. injection Heq as <- <-.
  destruct (Hkey f1 s eq_refl) as (file & -> & Hd & Hm & Hlen). split; [by exists file|]. intros Hs Hr.
  unfold loadOrCreateSalt. rewrite decide_False, Hs, Hm, Hr by done. cbn [negb]. rewrite Hd, decide_False by lia. done.
Qed.

(** A salt that others can read or write is refused and left as it is. *)
Lemma salt_loose_refused io hash path file :
  path ≠ [] → siStat io = true → Metrics.checkSaltPerms (sfMode file) = false →
  NewLabeler io hash path (Some file) = (Some file, Err EPerms).
Proof. intros Hp Hs Hm. unfold NewLabeler, loadOrCreateSalt. by rewrite decide_False, Hs, Hm. Qed.

End Salt.

(** * Examples *)

Definition cx_io (r : option gostring) : Salt.SaltIO := Salt.mkSaltIO r true true true None true true true 18.

(** A first start makes the file, a second one finds it. *)
Lemma salt_survives_witness :
  let s := replicate 32 "s"%char in
  let f := (Salt.NewLabeler (cx_io (Some s)) true $"/etc/salt" None).1 in
  Salt.NewLabeler (cx_io None) false $"/etc/salt" f = (f, Ok (Metrics.mkLabeler false s)).
Proof.
  cbv zeta.
  apply (Salt.salt_survives (cx_io (Some (replicate 32 "s"%char))) (cx_io None) true false $"/etc/salt" None _
    (Metrics.mkLabeler true (replicate 32 "s"%char))).
  - intros s [= <-]. reflexivity.
  - discriminate.
  - vm_compute. reflexivity.
  - reflexivity.
  - reflexivity.
Defined.

#[local] Instance cx_unicode : GoUnicode := {| unicode_lower s := s; unicode_upper s := s; unicode_trim s := s |}.
#[local] Instance cx_json : CatalogJson := λ s, if decide (s = $"{}") then Some {[ $"hi" := $"hello" ]} else None.

Example catalog_ex :
  let load es := Load (Some es) ∅ in
  let c := (load [mkDirEntry $"en.json" false (Some $"{}"); mkDirEntry $"ru.json" false (Some $" "); mkDirEntry $"x.txt" false None]).1 in
  Languages c = [$"en"; $"ru"] ∧ T $"hi" $"ru" c = $"hello" ∧ T $"bye" $"zh" c = $"bye" ∧
  load [mkDirEntry $"en.json" false (Some $"{}"); mkDirEntry $"ru.json" false (Some $"oops")] = (∅, Some (EParse $"ru.json")).
Proof. vm_compute. done. Qed.
