(* ===== verification/Tracing.v ===== *)
(** The tracing pipeline (src/internal/tracing/tracing.go and middleware.go):
    Init, which replaces the pipeline in place, its shutdown functions, the
    exporter and the sampler, and the span attributes of the middleware. The
    OpenTelemetry SDK is what the calls meet. *)

From S2P Require Import Prelude Http Float GoStd.

(** * Configuration *)

Definition ExporterOTLP : gostring := $"otlp".
Definition ExporterStdout : gostring := $"stdout".
Definition ExporterNone : gostring := $"none".

Record Config := mkConfig {
  Enabled : bool;
  ServiceName : gostring;
  Exporter : gostring;
  Endpoint : gostring;
  SampleRate : float64;
  Insecure : bool
}.

(** A comparison with NaN is false, so NaN is a ratio. *)
Inductive Sampler := NeverSample | AlwaysSample | ParentRatio (r : float64).

Definition sampler (ratio : float64) : Sampler :=
  if f64_ge (f64_of_Z 0) ratio then NeverSample
  else if f64_ge ratio (f64_of_Z 1) then AlwaysSample
  else ParentRatio ratio.

Inductive SpanExporter := StdoutExporter | OTLPExporter (endpoint : gostring) (insecure : bool).
Inductive init_error := EResource | EStdout | ENoEndpoint | EOTLP | EUnknownExporter.

(** [ok] is the outcome of the exporter's constructor. *)
Definition newExporter (ok : bool) (c : Config) : result init_error SpanExporter :=
  if decide (Exporter c = ExporterStdout) then (if ok then Ok StdoutExporter else Err EStdout)
  else if decide (Exporter c = ExporterOTLP) then
    if decide (Endpoint c = []) then Err ENoEndpoint
    else if ok then Ok (OTLPExporter (Endpoint c) (Insecure c)) else Err EOTLP
  else Err EUnknownExporter.

(** * The pipeline *)

(** A provider: the noop one, or the SDK's, numbered in the order of creation. *)
Inductive provider := Noop | SDK (id : nat) (service : gostring) (e : SpanExporter) (s : Sampler).

(** The package state, the global provider, and the SDK providers that were
    flushed and stopped, in order. *)
Record Tracing := mkTracing {
  installed : option provider;
  global : option provider;
  nextID : nat;
  stopped : list nat
}.

Definition tracing_zero : Tracing := mkTracing None None 0 [].

(** A shutdown function; the SDK's runs once. *)
Definition call_shutdown (p : provider) (t : Tracing) : Tracing :=
  match p with
  | Noop => t
  | SDK id _ _ _ =>
      if decide (id ∈ stopped t) then t else mkTracing (installed t) (global t) (nextID t) (stopped t ++ [id])
  end.

(** What a call of Init meets. *)
Record InitIO := mkInitIO { iiResource : bool; iiExporter : bool }.

Definition Init (io : InitIO) (c : Config) (t : Tracing) : Tracing * result init_error provider :=
  let t := match installed t with
           | Some p => let t := call_shutdown p t in mkTracing None (global t) (nextID t) (stopped t)
           | None => t
           end in
  if (negb (Enabled c) || bool_decide (Exporter c = [] ∨ Exporter c = ExporterNone))%bool then
    (mkTracing (Some Noop) (Some Noop) (nextID t) (stopped t), Ok Noop)
  else
    let service := if decide (ServiceName c = []) then $"gateway" else ServiceName c in
    if negb (iiResource io) then (t, Err EResource)
    else match newExporter (iiExporter io) c with
    | Err e => (t, Err e)
    | Ok exporter =>
        let p := SDK (nextID t) service exporter (sampler (SampleRate c)) in
        (mkTracing (Some p) (Some p) (S (nextID t)) (stopped t), Ok p)
    end.

(** Calls of Init, and of a shutdown function an earlier call returned. *)
Inductive tracing_step (t : Tracing) : Tracing → Prop :=
| step_init io c : tracing_step t (Init io c t).1
| step_stop id service e s : id < nextID t → tracing_step t (call_shutdown (SDK id service e s) t).

Definition tracing_reachable : Tracing → Prop := rtc tracing_step tracing_zero.

(** ** Lemmas *)

Definition provider_id (p : provider) : option nat := match p with Noop => None | SDK id _ _ _ => Some id end.
Definition running (t : Tracing) (id : nat) : Prop := id < nextID t ∧ id ∉ stopped t.

Record tracing_inv (t : Tracing) : Prop := {
  ti_once : NoDup (stopped t);
  ti_known : Forall (λ id, id < nextID t) (stopped t);
  ti_single : ∀ id, running t id → installed t ≫= provider_id = Some id;
  ti_installed : ∀ id, installed t ≫= provider_id = Some id → id < nextID t
}.

Lemma call_shutdown_inv p t :
  (∀ id, provider_id p = Some id → id < nextID t) → tracing_inv t →
  tracing_inv (call_shutdown p t) ∧ (∀ id, provider_id p = Some id → id ∈ stopped (call_shutdown p t)) ∧
  installed (call_shutdown p t) = installed t ∧ nextID (call_shutdown p t) = nextID t.
Proof.
  intros Hid [Ho Hk Hs Hi]. destruct p as [|id service e s]; [done|]. cbn [call_shutdown provider_id] in *. case_decide as Hin.
  { split_and!; try done. by intros ? [= <-]. }
  cbn [stopped installed nextID]. split_and!; try done; [|intros ? [= <-]; set_solver].
  split; unfold running; cbn [stopped installed nextID].
  - apply NoDup_app. split_and!; [done| |apply NoDup_singleton]. set_solver.
  - apply Forall_app. split; [done|]. constructor; [|constructor]. by apply Hid.
  - intros id' [Hlt Hni]. apply Hs. split; [done|]. set_solver.
  - done.
Qed.

Lemma Init_inv io c t : tracing_inv t → tracing_inv (Init io c t).1.
Proof.
  intros Hinv. unfold Init.
  set (t1 := match installed t with Some p => _ | None => t end).
  assert (H1 : tracing_inv t1 ∧ installed t1 = None ∧ ∀ id, ¬ running t1 id).
  { subst t1. destruct (installed t) as [p|] eqn:Hp.
    - destruct (call_shutdown_inv p t) as ([Ho Hk Hs Hi] & Hst & Hins & Hn); [|done|].
      { intros id Hid. apply (ti_installed _ Hinv). by rewrite Hp. }
      assert (Hnone : ∀ id, ¬ running (call_shutdown p t) id).
      { intros id Hr. pose proof (Hs id Hr) as Heq. rewrite Hins, Hp in Heq. destruct Hr as [_ Hni]. by apply Hni, Hst. }
      split_and!; [|done|done]. split; unfold running in *; cbn [stopped installed nextID] in *; try done. intros id Hr. by destruct (Hnone id).
    - split_and!; [done..|]. intros id Hr. pose proof (ti_single _ Hinv id Hr) as Heq. by rewrite Hp in Heq. }
  destruct H1 as ([Ho Hk Hs Hi] & Hn & Hnone). destruct (_ || _).
  { split; unfold running in *; cbn [fst stopped installed nextID mbind option_bind provider_id] in *; try done.
    intros id Hr. by destruct (Hnone id). }
  destruct (iiResource io); [|done]. cbn [negb]. destruct (newExporter _ c) as [e|]; [|done]. cbn [fst].
  split; unfold running in *; cbn [stopped installed nextID mbind option_bind provider_id] in *; [done| | |].
  - eapply Forall_impl; [exact Hk|]. cbn. lia.
  - intros id [Hlt Hni]. destruct (decide (id = nextID t1)) as [->|Hne]; [done|]. destruct (Hnone id). split; [lia|done].
  - intros id [= <-]. lia.
Qed.

(** However Init and the shutdown functions are called, no pipeline is ever
    stopped twice and at most one is running, the one that is installed:
    replacing a pipeline leaks no span processor. *)
Theorem tracing_single_pipeline t :
  tracing_reachable t →
  NoDup (stopped t) ∧ (∀ id, running t id → installed t ≫= provider_id = Some id) ∧
  (∀ id id', running t id → running t id' → id = id').
Proof.
  intros Hr. assert (Hinv : tracing_inv t).
  { eapply (rtc_ind_r tracing_inv _ _ _ _ Hr). Unshelve.
    - split; [apply NoDup_nil_2|constructor|by intros id [? ?]; cbn in *; lia|done].
    - intros y z _ Hyz Hy. destruct Hyz as [io c|id service e s Hid]; [by apply Init_inv|].
      apply call_shutdown_inv; [|done]. by intros ? [= <-]. }
  destruct Hinv as [Ho _ Hs _]. split_and!; [done..|]. intros id id' H1%Hs H2%Hs. congruence.
Qed.

(** * The middleware *)

(** statusRecorder: the first status written; everything is forwarded. *)
Record statusRecorder := mkRecorder { recStatus : Z; recWrote : bool }.

Definition rec_op (r : statusRecorder) (o : wop) : statusRecorder :=
  match write_code o with
  | Some code => if recWrote r then r else mkRecorder code true
  | None => r
  end.

Inductive attr := ATenant (v : gostring) | AMethod (v : gostring) | ARoute (v : gostring) | AStatus (code : Z).
Record span := mkSpan { spAttrs : list attr; spError : bool }.

(** The span HTTPMiddleware leaves around a handler that does [ops] for a
    request of a tenant. *)
Definition HTTPMiddleware (labeler : option (gostring → gostring)) (tenant : option gostring) (r : Request) (ops : list wop) : span :=
  let rec := foldl rec_op (mkRecorder StatusOK false) ops in
  mkSpan
    (match labeler, tenant with
     | Some f, Some host => if decide (host = []) then [] else [ATenant (f host)]
     | _, _ => []
     end ++ [AMethod (Method r)] ++ (if decide (Path r = []) then [] else [ARoute (Path r)]) ++ [AStatus (recStatus rec)])
    (Z.leb 500 (recStatus rec)).

Lemma rec_wrote ops r : recWrote r = true → foldl rec_op r ops = r.
Proof.
  intros Hw. induction ops as [|o ops IH]; [done|]. cbn [foldl]. replace (rec_op r o) with r; [done|].
  unfold rec_op. rewrite Hw. by destruct (write_code o).
Qed.

Lemma rec_headers ops r : Forall header_op ops → foldl rec_op r ops = r.
Proof. intros Hf. induction Hf as [|o ops Ho _ IH]; [done|]. cbn [foldl]. destruct o; [exact IH..|destruct Ho|destruct Ho]. Qed.

(** The status of a span is the one the client was sent, as long as the
    handler writes no informational response. *)
Lemma span_status pre o post code h0 :
  Forall header_op pre → write_code o = Some code → informational code = false →
  recStatus (foldl rec_op (mkRecorder StatusOK false) (pre ++ o :: post)) = code ∧
  fst <$> nwSent (foldl nw_op (mkNetWriter h0 [] false []) (pre ++ o :: post)) = [code].
Proof.
  intros Hpre Hc Hi. split.
  - rewrite foldl_app, (rec_headers pre) by done. cbn [foldl]. unfold rec_op at 2. rewrite Hc. cbn. by rewrite rec_wrote.
  - by destruct (nw_first_final pre o post code h0 Hpre Hc Hi) as [-> _].
Qed.

(** An early hint before an error hides the error from the trace. *)
Lemma span_early_hint_hides_error r :
  let ops := [WWriteHeader 103; WWriteHeader 500] in
  spError (HTTPMiddleware None None r ops) = false ∧
  fst <$> nwSent (foldl nw_op (mkNetWriter ∅ [] false []) ops) = [103%Z; 500%Z].
Proof. split; reflexivity. Qed.
