(* ===== verification/EdgePool.v ===== *)
(** The pool as a proxy sees it: the poller of the control socket (PollPool of
    src/internal/proxy/server.go) between the API of the Tor pool and the
    round trips of the proxy, down to the SOCKS dial of an attempt. *)

From S2P Require Import Prelude Http GoStd Shared TorPool PoolAPI Transport Bufio.
From S2P Require ProxyServer NodeTransport.

(** * Polling *)

Definition pollInterval : duration := (2 * Second)%Z.
Definition poolDialTimeout : duration := (2 * Second)%Z.

(** One poll of the socket: None when nobody answers there. The answer is the
    manager's list, which the decoder reads back. *)
Definition poll_answer (m : option Manager) : option (list BackendInfo) :=
  match m with
  | None => None
  | Some m => match plBody (handleBackends m) with PBackends l => Some l | _ => None end
  end.

(** PollPool: one fetch at the start and one per tick; an error leaves the
    cache as it is. *)
Definition PollPool (polls : list (option Manager)) (cache : list BackendInfo) : list BackendInfo :=
  foldl (λ cache m, (ProxyServer.fetchPool (poll_answer m) cache).1) cache polls.

(** getPool hands out a copy. *)
Definition getPool (cache : list BackendInfo) : list BackendInfo := cache.

(** The last state of the pool that was seen. *)
Definition last_seen (polls : list (option Manager)) : option Manager := last (omap id polls).

Lemma PollPool_last polls cache :
  PollPool polls cache = match last_seen polls with Some m => Info <$> instances m | None => cache end.
Proof.
  revert cache; induction polls as [|m polls IH] using rev_ind; intros cache; [done|].
  unfold PollPool, last_seen in *. rewrite foldl_app, omap_app. cbn [foldl]. rewrite IH.
  destruct m as [m|]; cbn; [by rewrite last_snoc|by rewrite app_nil_r].
Qed.

(** * Attempts *)

(** The dial an attempt makes, through the transport of the proxy. *)
Definition attempt_dial {T} `{NodeTransport.Transport T} (tport : option T) (n : NodeTransport.Net) (a : attempt)
    : result NodeTransport.dial_error NodeTransport.bufferedConn * option NodeTransport.Sock :=
  NodeTransport.dial_pool tport n (biPort (at_backend a)).

Section edge_pool.
Context `{GoUnicode}.

Lemma roundtrip_members cfg tenant req body pool env t :
  Forall (λ a, at_backend a ∈ pool ∧ biAlive (at_backend a) = true) (RoundTrip cfg tenant req body pool env t).1.2.
Proof.
  unfold RoundTrip. destruct (buffer_body req body) as [buffered|e]; [|by constructor].
  pose proof (retry_run cfg tenant req body pool env buffered (maxAttempts cfg) 0 ∅ None t) as Hrun.
  destruct (retry _ _ _ _ _ _ _ _ _ _ _ _) as [[t' log] r]. apply run_ports in Hrun as (_ & _ & _ & Hf).
  cbn [fst snd]. eapply Forall_impl; [exact Hf|]. by intros a (? & ? & _).
Qed.

(** C35. On a node whose pool has answered a poll, every attempt of a round
    trip, whatever polls failed since, goes to an instance that the pool
    listed as alive at the last poll it answered, and is dialled on that
    instance's port. *)
Theorem edge_attempts_follow_pool {T} `{NodeTransport.Transport T} (tport : option T) n cfg tenant req body polls env t m :
  last_seen polls = Some m →
  let '(_, log, _) := RoundTrip cfg tenant req body (getPool (PollPool polls [])) env t in
  Forall (λ a, ∃ i, i ∈ instances m ∧ tiAlive i = true ∧ at_backend a = Info i ∧
            attempt_dial tport n a = NodeTransport.dial_pool tport n (tiPort i)) log.
Proof.
  intros Hl. pose proof (roundtrip_members cfg tenant req body (getPool (PollPool polls [])) env t) as Hm.
  unfold getPool in *. rewrite PollPool_last, Hl in Hm |- *.
  destruct (RoundTrip _ _ _ _ _ _ _) as [[t' log] r]. cbn [fst snd] in Hm. eapply Forall_impl; [exact Hm|].
  intros a [Hin Ha]. apply list_elem_of_fmap in Hin as (i & Hi & Hin). exists i. unfold attempt_dial. rewrite Hi in Ha |- *. done.
Qed.

(** While no poll has been answered there is no attempt at all and every
    request whose body could be buffered ends without a backend (unless its
    client has gone). *)
Theorem edge_without_pool cfg tenant req body polls env t :
  last_seen polls = None →
  let '(_, log, r) := RoundTrip cfg tenant req body (getPool (PollPool polls [])) env t in
  log = [] ∧ (∀ b, buffer_body req body = Ok b → (∀ k, ae_ctx_ok (env k) = true) → r = Err ErrNoBackends).
Proof.
  intros Hl. unfold getPool. rewrite PollPool_last, Hl.
  unfold RoundTrip. destruct (buffer_body req body) as [b|e]; [|done]. destruct (maxAttempts cfg) as [|n]; [done|].
  cbn [retry]. destruct (ae_ctx_ok (env 0)) eqn:Hc; cbn [negb]; cbv zeta.
  - cbn [available]. unfold selectTenantBackend. by destruct (tenantBackendsFromContext cfg tenant).
  - split; [done|]. intros _ _ Hall. by rewrite Hall in Hc.
Qed.
End edge_pool.

(** * Example *)

#[local] Existing Instance Transport.tx_unicode.

(** The third instance is tried, the dead one is not; the last poll failed. *)
Lemma edge_attempts_follow_pool_witness :
  let '(_, log, _) := RoundTrip tx_cfg None tx_post (Some (mkInBody $"x=1" false))
                        (getPool (PollPool [None; Some ex_pool; None] [])) tx_env NewTorTransport in
  length log = 2 ∧ Forall (λ a, ∃ i, i ∈ instances ex_pool ∧ tiAlive i = true ∧ at_backend a = Info i) log.
Proof.
  pose proof (edge_attempts_follow_pool (Some NodeTransport.ex_tunnel) (NodeTransport.ex_net $"hub:8443" [])
    tx_cfg None tx_post (Some (mkInBody $"x=1" false)) [None; Some ex_pool; None] tx_env NewTorTransport ex_pool eq_refl) as Hx.
  assert (Hl : length (RoundTrip tx_cfg None tx_post (Some (mkInBody $"x=1" false))
    (getPool (PollPool [None; Some ex_pool; None] [])) tx_env NewTorTransport).1.2 = 2) by (vm_compute; reflexivity).
  destruct (RoundTrip _ _ _ _ _ _ _) as [[t' log] r]. cbn [fst snd] in Hl. split; [exact Hl|].
  eapply Forall_impl; [exact Hx|]. intros a (i & H1 & H2 & H3 & _). exists i. split; [exact H1|]. split; [exact H2|exact H3].
Defined.
