(* ===== verification/Storage.v ===== *)
(** The files behind the tenant registry (src/internal/hub/storage.go): the
    atomic write step by step, with a crash possible anywhere, what a reload
    makes of the files a crash leaves behind, and the debounced watcher.

    A directory maps file names to bytes; the registry of HubRegistry is used
    with bytes as documents. *)

From S2P Require Import Prelude Shared Mirrors HubRegistry.

Definition tmpPrefix : gostring := $".tmp-".

(** os.CreateTemp(dir, ".tmp-*" + ext): a fresh name around random digits. *)
Definition temp_name (random ext : gostring) : gostring := tmpPrefix ++ random ++ ext.

Abbreviation directory := (gmap gostring gostring).

(** * atomicWrite *)

(** The outcomes of the calls; a write that fails has written some bytes. *)
Record WriteIO := mkWriteIO {
  wiMkdir : bool; wiTemp : option gostring; wiWrite : option nat; wiSync : bool; wiClose : bool; wiRename : bool; wiRemove : bool
}.

(** The deferred removal of the temporary file. *)
Definition cleanup (io : WriteIO) (tmp : gostring) (d : directory) : directory :=
  if wiRemove io then delete tmp d else d.

Definition atomicWrite (io : WriteIO) (ext path data : gostring) (d : directory) : directory * bool :=
  if negb (wiMkdir io) then (d, false)
  else match wiTemp io with
  | None => (d, false)
  | Some random =>
      let tmp := temp_name random ext in
      let d := <[tmp := []]> d in
      match wiWrite io with
      | Some n => (cleanup io tmp (<[tmp := take n data]> d), false)
      | None =>
          let d := <[tmp := data]> d in
          if negb (wiSync io) then (cleanup io tmp d, false)
          else if negb (wiClose io) then (cleanup io tmp d, false)
          else if negb (wiRename io) then (cleanup io tmp d, false)
          else (<[path := data]> (delete tmp d), true)
      end
  end.

(** What a crash may find: nothing yet, some of the bytes in the temporary
    file, or the renamed file. *)
Inductive crash_state (tmp path data : gostring) (d : directory) : directory → Prop :=
| crash_before : crash_state tmp path data d d
| crash_during n : crash_state tmp path data d (<[tmp := take n data]> d)
| crash_after : crash_state tmp path data d (<[path := data]> (delete tmp d)).

(** A file is replaced as a whole or not at all, whatever goes wrong and
    wherever the process dies, and no other file is touched. *)
Theorem atomic_write_all_or_nothing tmp path data d d' :
  tmp ≠ path → d !! tmp = None → crash_state tmp path data d d' →
  (d' !! path = d !! path ∨ d' !! path = Some data) ∧ ∀ k, k ≠ path → k ≠ tmp → d' !! k = d !! k.
Proof.
  intros Hne Hfresh Hc. destruct Hc as [|n|].
  - split; [by left|done].
  - split; [left; by rewrite lookup_insert_ne|]. intros k _ Hk. by rewrite lookup_insert_ne.
  - split; [right; by rewrite lookup_insert_eq|]. intros k Hp Ht. by rewrite lookup_insert_ne, lookup_delete_ne.
Qed.

(** The return value tells: success is the new content and nothing else, an
    error is the directory as it was, a temporary file apart that could not
    be removed. *)
Theorem atomic_write_result io ext path data d d' ok :
  (∀ r, wiTemp io = Some r → temp_name r ext ≠ path ∧ d !! temp_name r ext = None) →
  atomicWrite io ext path data d = (d', ok) →
  if ok then d' = <[path := data]> d else wiRemove io = true → d' = d.
Proof.
  intros Htmp. unfold atomicWrite, cleanup. destruct (wiMkdir io); cbn [negb]; [|by intros [= <- <-]].
  destruct (wiTemp io) as [r|]; [|by intros [= <- <-]]. destruct (Htmp r eq_refl) as [Hne Hfresh].
  assert (Hdel : ∀ x y, delete (temp_name r ext) (<[temp_name r ext := x]> (<[temp_name r ext := y]> d)) = d).
  { intros x y. rewrite insert_insert_eq, delete_insert_eq. by apply delete_id. }
  destruct (wiWrite io), (wiSync io), (wiClose io), (wiRename io); cbn [negb]; intros Heq; injection Heq as <- <-.
  all: try (intros ->; by apply Hdel). by rewrite Hdel.
Qed.

(** * Temporary files and reloads *)

Section leftovers.
Context `{ConfYaml gostring} `{HubJson} `{GoUnicode}.

(** The tenant write of the registry is the atomic write of its file. *)
Lemma WriteTenant_atomic io host t s s' data d' :
  tenant_marshal (set_host host t) = Some data → host ≠ [] →
  (∀ r, wiTemp io = Some r → temp_name r tenantExt ≠ TenantPath host ∧ stTenants s !! temp_name r tenantExt = None) →
  atomicWrite io tenantExt (TenantPath host) data (stTenants s) = (d', true) →
  WriteTenant true host t s = Some s' → stTenants s' = d'.
Proof.
  intros Hm Hh Htmp Hw%atomic_write_result; [|done]. cbn in Hw. unfold WriteTenant. rewrite decide_False, Hm by done.
  intros Heq. apply (inj Some) in Heq. subst s'. by rewrite Hw.
Qed.

Lemma temp_name_loaded random : forallb is_ascii_byte random = true → HasSuffix (ToLower (temp_name random tenantExt)) tenantExt = true.
Proof.
  intros Ha. assert (Hall : forallb is_ascii_byte (temp_name random tenantExt) = true)
    by (unfold temp_name; rewrite !forallb_app, Ha; reflexivity).
  unfold ToLower. rewrite Hall.
  unfold temp_name. rewrite !map_app. unfold HasSuffix. apply HasPrefix_spec.
  change (map lower_byte tenantExt) with tenantExt. rewrite !reverse_app, <- app_assoc. by eexists.
Qed.

(** A document that does not parse marks the load as failed, wherever it is. *)
Lemma load_tenant_failed (acc : gmap gostring TenantConf * bool) l :
  acc.2 = true ∨ (∃ kv, kv ∈ l ∧ HasSuffix (ToLower kv.1) tenantExt = true ∧ LoadTenantFile kv.2 = None) →
  (foldl load_tenant acc l).2 = true.
Proof.
  revert acc; induction l as [|kv l IH]; intros acc Hor; [destruct Hor as [|(? & ?%elem_of_nil & _)]; done|].
  cbn [foldl]. apply IH. destruct Hor as [Ht|(kv' & Hin & Hs & Hn)].
  - left. unfold load_tenant. destruct (HasSuffix _ _); [|done]. cbn [negb]. by destruct (LoadTenantFile kv.2).
  - apply elem_of_cons in Hin as [-> |Hin]; [|right; eauto]. left. unfold load_tenant. by rewrite Hs, Hn.
Qed.

Lemma LoadAll_failed s k data :
  stTenants s !! k = Some data → HasSuffix (ToLower k) tenantExt = true → LoadTenantFile data = None →
  stDir s = DirOK → (LoadAll s).2 = true.
Proof.
  intros Hk Hs Hn Hd. unfold LoadAll. destruct (if stGlobalsStatErr s then _ else _) as [g|]; [|done]. rewrite Hd.
  pose proof (load_tenant_failed (∅, false) (sort_by fst (map_to_list (stTenants s)))) as Hf.
  destruct (foldl load_tenant _ _) as [ts failed]. apply Hf. right. exists (k, data). split; [|done].
  rewrite sort_by_Permutation. by apply elem_of_map_to_list.
Qed.

(** A crash in the middle of a tenant write, or a write that fails and
    whose temporary file cannot be removed, ends hot reload. The half written
    file carries the extension of the tenant files, so the loader takes it for
    one; as long as it lies there every change of the files is refused as a
    whole, whatever else the directory holds. *)
Theorem torn_write_stops_reload (now : time) (random host data : gostring) (n : nat) (d : directory) (r : Registry gostring) :
  forallb is_ascii_byte random = true → LoadTenantFile (take n data) = None →
  let tmp := temp_name random tenantExt in
  crash_state tmp (TenantPath host) data d (<[tmp := take n data]> d) ∧
  (∀ io, wiMkdir io = true → wiTemp io = Some random → wiWrite io = Some n → wiRemove io = false →
    atomicWrite io tenantExt (TenantPath host) data d = (<[tmp := take n data]> d, false)) ∧
  (stTenants (storage r) !! tmp = Some (take n data) → stDir (storage r) = DirOK → onExternalChange now r = r).
Proof.
  intros Ha Hbad tmp. split; [constructor|]. split.
  - intros io Hm Ht Hw Hr. unfold atomicWrite, cleanup. rewrite Hm, Ht, Hw, Hr. cbn [negb]. by rewrite insert_insert_eq.
  - intros Hk Hdir. unfold onExternalChange.
    pose proof (LoadAll_failed (storage r) tmp (take n data) Hk (temp_name_loaded random Ha) Hbad Hdir) as Hf.
    destruct (LoadAll (storage r)) as [[g ts] failed]. cbn [snd] in Hf. by rewrite Hf.
Qed.

Lemma load_tenant_keeps acc l host :
  is_Some (acc.1 !! host) ∨ (∃ kv tc, kv ∈ l ∧ HasSuffix (ToLower kv.1) tenantExt = true ∧ LoadTenantFile kv.2 = Some tc ∧ tcHost tc = host) →
  is_Some ((foldl load_tenant acc l).1 !! host).
Proof.
  revert acc; induction l as [|kv l IH]; intros acc Hor; [destruct Hor as [|(? & ? & ?%elem_of_nil & _)]; done|].
  cbn [foldl]. apply IH. destruct Hor as [Ht|(kv' & tc & Hin & Hs & Hl & Hh)].
  - left. unfold load_tenant. destruct (HasSuffix _ _); [|done]. cbn [negb]. destruct (LoadTenantFile kv.2) as [tc|]; [|done].
    cbn [fst]. destruct (decide (tcHost tc = host)) as [<-|Hne]; [by rewrite lookup_insert_eq|by rewrite lookup_insert_ne].
  - apply elem_of_cons in Hin as [-> |Hin]; [|right; eauto 10]. left. unfold load_tenant. rewrite Hs, Hl. cbn [negb fst].
    rewrite Hh. by rewrite lookup_insert_eq.
Qed.

(** A whole temporary file left behind keeps its tenant: deleting the tenant
    removes the proper file, and the next load brings the tenant back. *)
Theorem leftover_revives_tenant e (host random data : gostring) tc (r : Registry gostring) g :
  forallb is_ascii_byte random = true → LoadTenantFile data = Some tc → tcHost tc = host →
  temp_name random tenantExt ≠ TenantPath host →
  stTenants (storage r) !! temp_name random tenantExt = Some data → stDir (storage r) = DirOK →
  stGlobalsStatErr (storage r) = false → stGlobals (storage r) = g →
  match g with None => True | Some x => LoadGlobalsFile x ≠ None end →
  (DeleteTenant e host r).2 = Done →
  is_Some (Tenant host (LoadFromDisk (DeleteTenant e host r).1).1).
Proof.
  intros Ha Hl Hh Hne Hk Hdir Hst Hg Hgok Hdone.
  assert (Hs : storage (DeleteTenant e host r).1 =
    mkStorage (stGlobals (storage r)) (stGlobalsStatErr (storage r)) (delete (TenantPath host) (stTenants (storage r))) (stDir (storage r))).
  { unfold DeleteTenant, DeleteTenantFile in *. destruct (ctx_ok e); [|done]. cbn [negb] in *. case_decide; [done|].
    destruct (disk_ok e); [|done]. destruct (tenant_map r !! host); [|done]. by destruct (NewTenantDeleteEvent host (env_now e)). }
  unfold LoadFromDisk. rewrite Hs. unfold LoadAll. cbn [stGlobals stGlobalsStatErr stTenants stDir]. rewrite Hst, Hg, Hdir.
  assert (∃ g', match g with None => Some GlobalsConf_zero | Some x => LoadGlobalsFile x end = Some g') as [g' ->].
  { destruct g as [x|]; [|eauto]. destruct (LoadGlobalsFile x) eqn:?; [eauto|done]. }
  pose proof (load_tenant_keeps (∅, false)
    (sort_by fst (map_to_list (delete (TenantPath host) (stTenants (storage r))))) host) as Hkeep.
  destruct (foldl load_tenant _ _) as [ts failed]. unfold Tenant, tenant_map. cbn. apply Hkeep. right.
  exists (temp_name random tenantExt, data), tc. split_and!; [|by apply temp_name_loaded|done|done].
  rewrite sort_by_Permutation. apply elem_of_map_to_list. by rewrite lookup_delete_ne.
Qed.

End leftovers.

(** * The watcher *)

Definition watchDebounce : duration := (300 * Millisecond)%Z.

(** relevantEvent on the base name of an event. *)
Definition relevantEvent `{GoUnicode} (base : gostring) : bool :=
  if HasPrefix base tmpPrefix then false else HasSuffix (ToLower base) tenantExt.

(** The times at which the callback runs, for the times of the relevant
    events: every event puts it off, and a timer that ran is armed again. *)
Fixpoint debounce (armed : option time) (evs : list time) : list time :=
  match evs with
  | [] => match armed with Some t => [t] | None => [] end
  | e :: evs =>
      match armed with
      | Some t => (if Z.leb t e then [t] else []) ++ debounce (Some (time_add e watchDebounce)) evs
      | None => debounce (Some (time_add e watchDebounce)) evs
      end
  end.

Lemma debounce_last armed evs e : last (debounce armed (evs ++ [e])) = Some (time_add e watchDebounce).
Proof.
  revert armed; induction evs as [|x evs IH]; intros armed; cbn [app debounce].
  - destruct armed as [t|]; [|done]. by destruct (Z.leb t e).
  - destruct armed as [t|]; [|apply IH]. rewrite last_app, IH. done.
Qed.

Lemma debounce_fires t evs f :
  StronglySorted Z.le evs → f ∈ debounce (Some t) evs →
  (f = t ∧ Forall (λ x, (f ≤ x)%Z) evs) ∨
  ∃ l1 e l2, evs = l1 ++ e :: l2 ∧ f = time_add e watchDebounce ∧ Forall (λ x, (f ≤ x)%Z) l2.
Proof.
  intros Hs. revert t; induction Hs as [|e evs Hs IH Hle]; intros t; cbn [debounce].
  - intros ->%list_elem_of_singleton. left. split; [done|constructor].
  - intros [Hin|Hin]%elem_of_app.
    + destruct (Z.leb_spec t e) as [Hte|]; [|by apply elem_of_nil in Hin]. apply list_elem_of_singleton in Hin as ->.
      left. split; [done|]. constructor; [done|]. eapply Forall_impl; [exact Hle|]. cbn. lia.
    + right. destruct (IH _ Hin) as [[-> Hf]|(l1 & x & l2 & -> & -> & Hf)].
      * by exists [], e, evs.
      * by exists (e :: l1), x, l2.
Qed.

(** The reload runs exactly when the files have been quiet: every run comes
    300 ms after an event with no event in between, and there is one after
    the last event. *)
Theorem watcher_debounces evs :
  StronglySorted Z.le evs →
  (∀ e, last evs = Some e → last (debounce None evs) = Some (time_add e watchDebounce)) ∧
  (∀ f, f ∈ debounce None evs →
     ∃ l1 e l2, evs = l1 ++ e :: l2 ∧ f = time_add e watchDebounce ∧ Forall (λ x, (f ≤ x)%Z) l2).
Proof.
  intros Hs. split.
  - intros e He. apply last_Some in He as [l ->]. apply debounce_last.
  - intros f Hf. destruct evs as [|e evs]; [by apply elem_of_nil in Hf|]. cbn [debounce] in Hf.
    apply StronglySorted_inv in Hs as [Hs _]. destruct (debounce_fires _ _ _ Hs Hf) as [[-> Hq]|(l1 & x & l2 & -> & -> & Hq)].
    + by exists [], e, evs.
    + by exists (e :: l1), x, l2.
Qed.

(** Both watchers over the events of their directories, by base name: the one
    of the tenant files and the one of the mirror registry. *)
Section watchers.
Context `{GoUnicode}.
Implicit Types evs : list (gostring * time).

Definition Watch evs : list time := debounce None (snd <$> filter (λ e, relevantEvent e.1 = true) evs).

Definition mirror_relevant (base : gostring) : bool :=
  if HasPrefix base tmpPrefix then false else if negb (HasSuffix (ToLower base) mirrorExt) then false else true.

Definition startWatcher evs : list time := debounce None (snd <$> filter (λ e, mirror_relevant e.1 = true) evs).

(** The writes of the hub itself: an atomic write touches its temporary file
    and then its target, and only the target counts. So a write wakes the
    watcher once, 300 ms later, and both watchers judge alike. *)
Theorem watch_own_write (random target : gostring) (t1 t2 : time) evs :
  HasPrefix target tmpPrefix = false → HasSuffix (ToLower target) tenantExt = true →
  Watch [(temp_name random tenantExt, t1); (target, t2)] = [time_add t2 watchDebounce] ∧ Watch evs = startWatcher evs.
Proof.
  intros Hp Hs. split.
  - unfold Watch. rewrite filter_cons_False, filter_cons_True; [done| |].
    + cbn. unfold relevantEvent. by rewrite Hp.
    + cbn [fst]. unfold relevantEvent. assert (Ht : HasPrefix (temp_name random tenantExt) tmpPrefix = true); [|by rewrite Ht].
      apply HasPrefix_spec. by eexists.
  - unfold Watch, startWatcher. f_equal. f_equal. apply list_filter_iff. intros [b t]. cbn [fst].
    unfold relevantEvent, mirror_relevant. change mirrorExt with tenantExt. destruct (HasPrefix b tmpPrefix); [done|].
    by destruct (HasSuffix (ToLower b) tenantExt).
Qed.
End watchers.

(** * Examples *)

(** One document is a tenant; anything else does not parse. *)
#[local] Instance st_yaml : ConfYaml gostring := {|
  tenant_marshal _ := Some $"tenant"; tenant_unmarshal d := if decide (d = $"tenant") then Some hx_tenant else None;
  globals_marshal _ := Some $"globals"; globals_unmarshal _ := Some GlobalsConf_zero |}.
#[local] Existing Instances hx_json hx_unicode.

(** A hub that was killed while it wrote a tenant, the tenant of another file
    being there: the reload of that file changes nothing. *)
Definition st_torn : Registry gostring :=
  mkRegistry (mkStorage None false (<[$".tmp-1.yaml" := $"ten"]> {[ $"a.yaml" := $"tenant" ]}) DirOK)
    GlobalsConf_zero (Some ∅) 1 false 0 ∅.

Lemma torn_write_stops_reload_witness :
  onExternalChange 5 st_torn = st_torn ∧
  is_Some (Tenant (tcHost hx_tenant) (onExternalChange 5
    (mkRegistry (mkStorage None false {[ $"a.yaml" := $"tenant" ]} DirOK) GlobalsConf_zero (Some ∅) 1 false 0 ∅))).
Proof.
  split.
  - apply (torn_write_stops_reload 5 $"1" $"b" $"tenant" 3 ∅ st_torn); [reflexivity|reflexivity|reflexivity|reflexivity].
  - vm_compute. eauto.
Defined.

Lemma leftover_revives_tenant_witness :
  let r := New (mkStorage None false (<[$".tmp-1.yaml" := $"tenant"]> {[ TenantPath (tcHost hx_tenant) := $"tenant" ]}) DirOK) in
  is_Some (Tenant (tcHost hx_tenant) (LoadFromDisk (DeleteTenant (env_fine 1) (tcHost hx_tenant) r).1).1).
Proof.
  cbv zeta.
  apply (leftover_revives_tenant (env_fine 1) (tcHost hx_tenant) $"1" $"tenant" (default hx_tenant (LoadTenantFile $"tenant")) _ None).
  all: try (vm_compute; reflexivity); try exact I.
  vm_compute. discriminate.
Defined.

Example debounce_ex :
  debounce None [0%Z; (100 * Millisecond)%Z; (500 * Millisecond)%Z] = [(400 * Millisecond)%Z; (800 * Millisecond)%Z].
Proof. reflexivity. Qed.
