(* ===== verification/StreamServe.v ===== *)
(** The config stream from end to end: ServeHTTP of the hub's StreamHandler
    (src/internal/hub/stream.go) as the bytes of a response, and what the
    stream clients of the edges make of them. *)

From S2P Require Import Prelude Http GoStd.
From S2P Require HubRegistry HubStream SSE EdgeClients.
Import SSE (EventCodec, item, IEvent, IKeepalive, wire, item_ok, events_of, newline).
Import HubRegistry (ConfigStreamEvent).
Import EdgeClients (EdgeClient, mkBody, HttpResp, stream_events, openStream, streamURL).

(** * The handler *)

(** What the loop of the handler meets, in turn: an event of its queue with
    the nodes as they are then, a tick, the end of the queue or of the
    request; [ok] is the outcome of the write. *)
Inductive stream_input :=
| InEvent (ns : option HubStream.NodeStore) (ev : ConfigStreamEvent) (ok : bool)
| InTick (ok : bool)
| InEnd.

Definition stream_heartbeat : duration := (30 * Second)%Z.

Definition stream_headers : list (gostring * gostring) :=
  [($"Content-Type", $"text/event-stream"); ($"Cache-Control", $"no-cache"); ($"Connection", $"keep-alive");
   ($"X-Accel-Buffering", $"no")].

Section handler.
Context `{EventCodec ConfigStreamEvent}.

(** The loop: what is written, up to the first failure. *)
Fixpoint serve_loop (nodeID : gostring) (ins : list stream_input) : list (item ConfigStreamEvent) :=
  match ins with
  | [] | InEnd :: _ => []
  | InTick ok :: ins => if ok then IKeepalive :: serve_loop nodeID ins else []
  | InEvent ns ev ok :: ins =>
      match HubStream.deliver ns nodeID ev with
      | None => serve_loop nodeID ins
      | Some ev' =>
          match SSE.writeSSE ev' with
          | None => []
          | Some _ => if ok then IEvent ev' :: serve_loop nodeID ins else []
          end
      end
  end.

(** The response of the handler; None is a writer that cannot flush. *)
Definition ServeStream (flusher : bool) (nodeID : gostring) (ins : list stream_input) : MResponse :=
  if negb flusher then mkMResponse StatusInternalServerError ∅ ($"streaming unsupported" ++ [newline])
  else mkMResponse StatusOK (foldl (λ h kv, mh_set kv.1 kv.2 h) ∅ stream_headers)
         (default [] (wire (serve_loop nodeID ins))).

(** The events among the inputs that are for a node. *)
Definition delivered (nodeID : gostring) (ins : list stream_input) : list ConfigStreamEvent :=
  omap (λ i, match i with InEvent ns ev _ => HubStream.deliver ns nodeID ev | _ => None end) ins.

(** The connection holds: every write succeeds and every delivered event has
    a one-line encoding that decodes to it. *)
Definition holds (nodeID : gostring) (ins : list stream_input) : Prop :=
  Forall (λ i, match i with InEvent _ _ ok | InTick ok => ok = true | InEnd => False end) ins ∧
  Forall (λ ev, item_ok (IEvent ev)) (delivered nodeID ins).

Lemma serve_loop_items nodeID ins :
  holds nodeID ins → Forall item_ok (serve_loop nodeID ins) ∧ events_of (serve_loop nodeID ins) = delivered nodeID ins.
Proof.
  intros [Hok Henc]. induction ins as [|i ins IH]; [split; [constructor|done]|].
  apply Forall_cons in Hok as [Hi Hok]. destruct i as [ns ev ok|ok|]; [| |done]; cbn [serve_loop].
  - change (delivered nodeID (InEvent ns ev ok :: ins)) with
      (match HubStream.deliver ns nodeID ev with Some y => y :: delivered nodeID ins | None => delivered nodeID ins end) in Henc |- *.
    destruct (HubStream.deliver ns nodeID ev) as [ev'|]; [|by apply IH].
    apply Forall_cons in Henc as [He Henc]. destruct (IH Hok Henc) as [Hf Hev].
    destruct He as (Hline & p & Hm & Hrest). unfold SSE.writeSSE. rewrite Hm, Hi. split.
    + constructor; [|done]. split; [done|]. by exists p.
    + change (ev' :: events_of (serve_loop nodeID ins) = ev' :: delivered nodeID ins). by rewrite Hev.
  - rewrite Hi. destruct (IH Hok Henc) as [Hf Hev]. split; [by constructor|]. exact Hev.
Qed.

(** Every item on the wire ends a line, so nothing of it is cut off. *)
Lemma wire_ends items body : wire items = Some body → body = [] ∨ ∃ s, body = s ++ [newline].
Proof.
  revert body; induction items as [|i items IH]; intros body; cbn [wire]; [intros [= <-]; by left|].
  destruct (SSE.write_item i) as [s|] eqn:Hi; [|done]. destruct (wire items) as [rest|]; [|done]. intros [= <-]. right.
  destruct (IH rest eq_refl) as [-> |[s' ->]].
  - rewrite app_nil_r. destruct i as [ev|]; cbn [SSE.write_item] in Hi.
    + unfold SSE.writeSSE in Hi. destruct (SSE.ev_marshal ev) as [p|]; [|done]. apply (inj Some) in Hi. subst s.
      exists ($"event: " ++ SSE.ev_type ev ++ [newline] ++ $"data: " ++ p ++ [newline]). by rewrite <- !app_assoc.
    + apply (inj Some) in Hi. subst s. exists ($": keepalive" ++ [newline]). reflexivity.
  - exists (s ++ s'). by rewrite <- app_assoc.
Qed.

Lemma complete_lines_ends s : EdgeClients.complete_lines (s ++ [newline]) = s ++ [newline].
Proof.
  unfold EdgeClients.complete_lines. rewrite LastIndexByte_app by set_solver. apply take_ge. rewrite length_app. cbn. lia.
Qed.

(** C20. What an edge is told is what the hub delivers to its node. As long as
    the connection holds, the events an edge reads from the body of the
    response are exactly the queued events that the hub's filter lets through
    for that node, in order, heartbeats leaving no trace; applying the stream
    is applying those events. *)
Theorem stream_end_to_end {St} (apply : ConfigStreamEvent → St → St) nodeID ins (c : EdgeClient) s :
  holds nodeID ins → streamURL c ≠ [] →
  let resp := ServeStream true nodeID ins in
  let got := HttpResp (mStatus resp) (mkBody (mBody resp) false) in
  stream_events c got = delivered nodeID ins ∧
  EdgeClients.connectAndConsume apply c got s = foldl (λ s ev, apply ev s) s (delivered nodeID ins).
Proof.
  intros Hh Hu resp got. destruct (serve_loop_items nodeID ins Hh) as [Hf Hev].
  destruct (SSE.parse_wire (serve_loop nodeID ins) None) as (body & Hw & Hp); [done|done|].
  assert (Hopen : openStream c got = Some (mkBody body false)).
  { unfold openStream, got, resp, ServeStream. rewrite decide_False by done. cbn [negb mStatus mBody]. by rewrite Hw. }
  assert (Hre : EdgeClients.events (mkBody body false) = delivered nodeID ins).
  { unfold EdgeClients.events, EdgeClients.readable, SSE.parseSSE. cbn [EdgeClients.sbEOF EdgeClients.sbBytes].
    destruct (wire_ends _ _ Hw) as [-> |[s' ->]]; [|rewrite complete_lines_ends]; rewrite <- Hev; exact Hp. }
  unfold stream_events, EdgeClients.connectAndConsume. rewrite Hopen, Hre. done.
Qed.

End handler.

(** * Examples *)

(** An encoding of deletions. *)
#[local] Instance sw_codec : EventCodec ConfigStreamEvent := {|
  SSE.ev_type _ := $"tenant_delete";
  SSE.ev_marshal ev := match HubRegistry.evData ev with HubRegistry.PTenantDelete h => Some ("d"%char :: h) | _ => None end;
  SSE.ev_unmarshal s :=
    match s with _ :: h => Some (HubRegistry.mkEvent HubRegistry.EventTenantDelete (HubRegistry.PTenantDelete h) 0) | [] => None end;
  SSE.ev_synth _ h := HubRegistry.mkEvent HubRegistry.EventTenantDelete (HubRegistry.PTenantDelete h) 0 |}.

Definition sw_delete (h : gostring) : ConfigStreamEvent :=
  HubRegistry.mkEvent HubRegistry.EventTenantDelete (HubRegistry.PTenantDelete h) 0.
Definition sw_nodes : option HubStream.NodeStore :=
  Some {[ $"edge-1" := HubStream.mkNodeRecord $"edge-1" $"proxy" [] $"2" [$"a.example"] 0 0 ]}.
Definition sw_inputs : list stream_input :=
  [InEvent sw_nodes (sw_delete $"a.example") true; InTick true; InEvent sw_nodes (sw_delete $"b.example") true].

Lemma stream_end_to_end_witness :
  let resp := ServeStream true $"edge-1" sw_inputs in
  EdgeClients.connectAndConsume (λ ev l, l ++ [ev]) (EdgeClients.NewRemoteClient (Some $"https://hub"))
    (HttpResp (mStatus resp) (mkBody (mBody resp) false)) [] = [sw_delete $"a.example"].
Proof.
  cbv zeta.
  rewrite (proj2 (stream_end_to_end (λ ev l, l ++ [ev]) $"edge-1" sw_inputs (EdgeClients.NewRemoteClient (Some $"https://hub")) []
    ltac:(split; [by spread|spread; (split; [split; decide_now|eexists; split_and!; [reflexivity|reflexivity|split; decide_now|done]])])
    ltac:(discriminate))).
  reflexivity.
Defined.
