(* ===== verification/CAFiles.v ===== *)
(** The files of the hub's certificate authority (src/internal/hub/mtls.go):
    NewCA, which loads a pair of PEM files or makes one, and the revocation
    list. PEM and the parsers of crypto/x509 are parameters. *)

From S2P Require Import Prelude GoStd.
From S2P Require CA.

(** encoding/pem and crypto/x509 on the two files. A root is its certificate
    bytes, a key its private bytes. *)
Class PemX509 := {
  pem_encode : gostring → gostring → gostring;
  pem_decode : gostring → option (gostring * gostring);
  parse_certificate : gostring → bool;
  parse_ec_key : gostring → bool;
  (** PKCS#8: an error, another kind of key, or the key. *)
  parse_pkcs8 : gostring → option (option gostring);
  (** CreateCertificate of the self-signed root over a fresh key. *)
  self_sign : gostring → option gostring;
  marshal_ec : gostring → option gostring
}.

(** A PEM block decodes to what was encoded; what the package creates it can
    parse. *)
Class PemX509Laws `{PemX509} : Prop := {
  pem_round t b : pem_decode (pem_encode t b) = Some (t, b);
  self_sign_parses k der : self_sign k = Some der → parse_certificate der = true;
  marshal_parses k der : marshal_ec k = Some der → parse_ec_key der = true
}.

Definition certType : gostring := $"CERTIFICATE".
Definition ecType : gostring := $"EC PRIVATE KEY".
Definition pkcs8Type : gostring := $"PRIVATE KEY".

(** The two files; None is an absent one. *)
Record CADisk := mkCADisk { cdCert : option gostring; cdKey : option gostring }.

Record Root := mkRoot { rtCert : gostring; rtKey : gostring }.

Inductive ca_file_error :=
| EInconsistent | EReadCert | EReadKey | ENotCertificate | EParseCert | ENotPEM | EKeyType | ENotECDSA | EParseKey
| EGenerate | ESelfSign | EReparse | EWriteCert | EMarshalKey | EWriteKey.

(** What the calls meet: reads, the fresh key, and the writes, a failed one
    leaving some of its bytes (or nothing) behind. *)
Record CAIO := mkCAIO {
  ciReadCert : bool; ciReadKey : bool; ciKey : option gostring; ciWriteCert : option (option gostring); ciWriteKey : option (option gostring)
}.

Section files.
Context `{PemX509}.

Definition loadCA (io : CAIO) (certPEM keyPEM : gostring) : result ca_file_error Root :=
  if negb (ciReadCert io) then Err EReadCert
  else if negb (ciReadKey io) then Err EReadKey
  else match pem_decode certPEM with
  | None => Err ENotCertificate
  | Some (t, der) =>
      if decide (t ≠ certType) then Err ENotCertificate
      else if negb (parse_certificate der) then Err EParseCert
      else match pem_decode keyPEM with
      | None => Err ENotPEM
      | Some (kt, kder) =>
          if decide (kt = ecType) then (if parse_ec_key kder then Ok (mkRoot der kder) else Err EParseKey)
          else if decide (kt = pkcs8Type) then
            match parse_pkcs8 kder with
            | None => Err EParseKey
            | Some None => Err ENotECDSA
            | Some (Some k) => Ok (mkRoot der k)
            end
          else Err EKeyType
      end
  end.

(** writePEMFile: the file afterwards, and whether the call succeeded. *)
Definition writePEMFile (outcome : option (option gostring)) (content : gostring) : option gostring * bool :=
  match outcome with None => (Some content, true) | Some rest => (rest, false) end.

Definition generateCA (io : CAIO) (d : CADisk) : CADisk * result ca_file_error Root :=
  match ciKey io with
  | None => (d, Err EGenerate)
  | Some key =>
      match self_sign key with
      | None => (d, Err ESelfSign)
      | Some der =>
          if negb (parse_certificate der) then (d, Err EReparse)
          else
            let '(cert, ok) := writePEMFile (ciWriteCert io) (pem_encode certType der) in
            let d := mkCADisk cert (cdKey d) in
            if negb ok then (d, Err EWriteCert)
            else match marshal_ec key with
            | None => (d, Err EMarshalKey)
            | Some kder =>
                let '(keyf, ok) := writePEMFile (ciWriteKey io) (pem_encode ecType kder) in
                let d := mkCADisk (cdCert d) keyf in
                if negb ok then (d, Err EWriteKey) else (d, Ok (mkRoot der kder))
            end
      end
  end.

Definition NewCA (io : CAIO) (d : CADisk) : CADisk * result ca_file_error Root :=
  match cdCert d, cdKey d with
  | Some c, Some k => (d, loadCA io c k)
  | None, None => generateCA io d
  | _, _ => (d, Err EInconsistent)
  end.

(** A start that has a root leaves the pair of files of that root behind,
    and every later start that can read them has the same root: the
    certificates of the nodes stay valid across restarts of the hub. *)
Theorem ca_root_survives `{!PemX509Laws} io io' d d' root :
  NewCA io d = (d', Ok root) → ciReadCert io' = true → ciReadKey io' = true → NewCA io' d' = (d', Ok root).
Proof.
  unfold NewCA. intros Hn Hc Hk.
  assert (Hload : ∀ c k, loadCA io c k = Ok root → loadCA io' c k = Ok root).
  { intros c k. unfold loadCA. rewrite Hc, Hk. destruct (ciReadCert io), (ciReadKey io); done. }
  destruct (cdCert d) as [c|] eqn:Hdc, (cdKey d) as [k|] eqn:Hdk; [|done|done|].
  - injection Hn as <- Hl. rewrite Hdc, Hdk. by rewrite (Hload c k Hl).
  - unfold generateCA in Hn. destruct (ciKey io) as [key|]; [|done]. destruct (self_sign key) as [der|] eqn:Hs; [|done].
    rewrite (self_sign_parses _ _ Hs) in Hn. cbn [negb] in Hn. unfold writePEMFile in Hn.
    destruct (ciWriteCert io); [done|]. cbn [negb] in Hn. destruct (marshal_ec key) as [kder|] eqn:Hm; [|done].
    destruct (ciWriteKey io); [done|]. cbn [negb cdCert] in Hn. injection Hn as <- <-. cbn [cdCert cdKey].
    unfold loadCA. rewrite Hc, Hk, !pem_round, (self_sign_parses _ _ Hs), (marshal_parses _ _ Hm).
    cbn [negb]. rewrite decide_False by tauto. by rewrite decide_True.
Qed.

(** When the key could not be written and nothing of it is there, the next
    starts find one file of the pair and refuse, until somebody removes it. *)
Theorem ca_half_written_blocks io io' d d' :
  cdCert d = None → cdKey d = None → ciWriteCert io = None → ciWriteKey io = Some None →
  NewCA io d = (d', Err EWriteKey) → NewCA io' d' = (d', Err EInconsistent).
Proof.
  intros Hdc Hdk Hwc Hwk. unfold NewCA. rewrite Hdc, Hdk. unfold generateCA, writePEMFile. rewrite Hwc, Hwk.
  destruct (ciKey io) as [key|]; [|done]. destruct (self_sign key) as [der|]; [|done].
  destruct (parse_certificate der); [|done]. cbn [negb]. destruct (marshal_ec key) as [kder|]; [|done].
  cbn [negb cdCert]. intros Heq. by injection Heq as <-.
Qed.
End files.

(** * The revocation list *)

Record CRL := mkCRL { crlEntries : list Z; crlThisUpdate : time; crlNextUpdate : time; crlNumber : Z }.

(** BuildCRL; the order of the entries is that of a map. *)
Definition BuildCRL (now : time) (c : CA.CA) : CRL :=
  mkCRL (elements (CA.revoked c)) now (time_add now Hour) (now / Second).

Lemma crl_lists_revoked now c serial : serial ∈ crlEntries (BuildCRL now c) ↔ CA.IsRevoked serial c = true.
Proof. unfold BuildCRL, CA.IsRevoked. cbn. rewrite elem_of_elements. by rewrite bool_decide_eq_true. Qed.

(** * Examples *)

#[local] Instance cf_pem : PemX509 := {|
  pem_encode t b := t ++ "|"%char :: b; pem_decode := cut_byte "|"%char; parse_certificate _ := true; parse_ec_key _ := true;
  parse_pkcs8 _ := None; self_sign k := Some ("c"%char :: k); marshal_ec := Some |}.

Definition cf_io (key : option gostring) (wk : option (option gostring)) : CAIO := mkCAIO true true key None wk.

Example ca_files_ex :
  let '(d, r) := NewCA (cf_io (Some $"k") None) (mkCADisk None None) in
  r = Ok (mkRoot $"ck" $"k") ∧ NewCA (cf_io None None) d = (d, r) ∧
  let '(d', r') := NewCA (cf_io (Some $"k") (Some None)) (mkCADisk None None) in
  r' = Err EWriteKey ∧ (NewCA (cf_io (Some $"k") None) d').2 = Err EInconsistent.
Proof. vm_compute. done. Qed.
