(* ===== verification/ClientLife.v ===== *)
(** The life of a snapshot client (src/internal/proxy/snapshot.go and
    src/internal/door/snapshot.go): Start, the goroutine it leaves behind and
    Close, which may run at the same time. Every section under the mutex and
    every wait is one step; the steps of the three interleave freely. *)

From S2P Require Import Prelude.

(** * State *)

(** A local client without a data directory does nothing; the remote client
    of the proxy and the client of the door have the same life. *)
Inductive client_kind := KLocal (dataDir : bool) | KRemote.

(** The fields that Start sets under the mutex: whether they are set, and for
    the channel whether it is closed. *)
Record Client := mkClient {
  hubReg : bool; subUnsub : bool; cancelFn : bool; cancelDone : option bool
}.

Definition client_zero : Client := mkClient false false false None.

(** Where Start is: opened is behind hub.New or the first event of the first
    stream, prepared is behind the section under the mutex. *)
Inductive start_pc := SNew | SOpened | SPrepared | SReturned (ok : bool).

(** Where the first Close is; it carries what it read under the mutex. Later
    calls find closeOnce used and do nothing. *)
Inductive close_pc := CNone | CRead (c : Client) | CWait (c : Client) | CDone (c : Client).

Inductive run_pc := RNone | RRunning | RExited.

Record World := mkWorld {
  client : Client;
  parentDone : bool;          (* the context given to Start *)
  runDone : bool;             (* cancel of the derived context was called *)
  hubOpen : bool;             (* the registry that Start opened *)
  runner : run_pc;
  starting : start_pc;
  closing : close_pc;
  queued : bool               (* the first event of a local client has arrived *)
}.

Definition world_zero : World := mkWorld client_zero false false false RNone SNew CNone false.

(** * Steps *)

Inductive action :=
| AStart (ok : bool)   (* Start is called; the outcome of its first part *)
| APrepare             (* the section under the mutex *)
| AEvent               (* the hub delivers the first event to a local client *)
| ASpawn               (* the first event is there: the goroutine is started and Start returns *)
| AGiveUp              (* Start of the local client sees its context done *)
| ACancelParent        (* the caller's context ends *)
| ARunExit             (* the goroutine sees its context done *)
| ACloseRead           (* Close is called: the section under the mutex *)
| ACloseCancel         (* cancel and unsubscribe *)
| ACloseFinish.        (* the wait is over; the registry is closed *)

Definition is_local (k : client_kind) : bool := match k with KLocal _ => true | KRemote => false end.

(** Start up to its critical section. *)
Definition start_open (k : client_kind) (ok : bool) (w : World) : World :=
  match k with
  | KLocal false => mkWorld (client w) (parentDone w) (runDone w) (hubOpen w) (runner w) (SReturned true) (closing w) (queued w)
  | _ =>
      if ok then mkWorld (client w) (parentDone w) (runDone w) (is_local k) (runner w) SOpened (closing w) (queued w)
      else mkWorld (client w) (parentDone w) (runDone w) (hubOpen w) (runner w) (SReturned false) (closing w) (queued w)
  end.

Definition start_prepare (k : client_kind) (w : World) : World :=
  mkWorld (mkClient (is_local k) (is_local k) true (Some false)) (parentDone w) (runDone w) (hubOpen w) (runner w) SPrepared (closing w) (queued w).

(** The goroutine closes the channel when it returns. *)
Definition run_exit (w : World) : World :=
  mkWorld (mkClient (hubReg (client w)) (subUnsub (client w)) (cancelFn (client w)) (Some true))
    (parentDone w) (runDone w) (hubOpen w) RExited (starting w) (closing w) (queued w).

Definition close_cancel (c : Client) (w : World) : World :=
  mkWorld (client w) (parentDone w) (cancelFn c || runDone w)%bool (hubOpen w) (runner w) (starting w) (CWait c) (queued w).

Definition close_finish (c : Client) (w : World) : World :=
  mkWorld (client w) (parentDone w) (runDone w) (if hubReg c then false else hubOpen w) (runner w) (starting w) (CDone c) (queued w).

(** The channel Close read is the one the client holds: it is made once. *)
Definition done_closed (c : Client) (w : World) : bool :=
  match cancelDone c with None => true | Some _ => bool_decide (cancelDone (client w) = Some true) end.

Definition exec (k : client_kind) (a : action) (w : World) : option World :=
  match a, starting w, closing w, runner w with
  | AStart ok, SNew, _, _ => Some (start_open k ok w)
  | APrepare, SOpened, _, _ => Some (start_prepare k w)
  | AEvent, SPrepared, _, _ =>
      if (is_local k && negb (queued w))%bool
      then Some (mkWorld (client w) (parentDone w) (runDone w) (hubOpen w) (runner w) (starting w) (closing w) true) else None
  | ASpawn, SPrepared, _, _ =>
      if (negb (is_local k) || queued w)%bool
      then Some (mkWorld (client w) (parentDone w) (runDone w) (hubOpen w) RRunning (SReturned true) (closing w) (queued w)) else None
  | AGiveUp, SPrepared, _, _ =>
      if (is_local k && parentDone w)%bool
      then Some (mkWorld (client w) (parentDone w) true (hubOpen w) (runner w) (SReturned false) (closing w) (queued w)) else None
  | ACancelParent, _, _, _ =>
      if parentDone w then None
      else Some (mkWorld (client w) true (runDone w) (hubOpen w) (runner w) (starting w) (closing w) (queued w))
  | ARunExit, _, _, RRunning => if (parentDone w || runDone w)%bool then Some (run_exit w) else None
  | ACloseRead, _, CNone, _ =>
      Some (mkWorld (client w) (parentDone w) (runDone w) (hubOpen w) (runner w) (starting w) (CRead (client w)) (queued w))
  | ACloseCancel, _, CRead c, _ => Some (close_cancel c w)
  | ACloseFinish, _, CWait c, _ => if done_closed c w then Some (close_finish c w) else None
  | _, _, _, _ => None
  end.

Definition life_step (k : client_kind) (w w' : World) : Prop := ∃ a, exec k a w = Some w'.
Definition reachable (k : client_kind) : World → Prop := rtc (life_step k) world_zero.

(** The calls, the first event and the end of the caller's context come from
    outside; the other steps are the code's own. *)
Definition internal (a : action) : bool :=
  match a with AStart _ | AEvent | ACancelParent | ACloseRead => false | _ => true end.

Definition quiescent (k : client_kind) (w : World) : Prop := ∀ a, internal a = true → exec k a w = None.

(** * Invariant *)

(** Nothing is left running. *)
Definition stopped (w : World) : Prop := runner w = RExited ∧ hubOpen w = false.

(** The local client installed the channel, saw its context done and returned
    without the goroutine that would close it; Close waits for it. *)
Definition hung (w : World) : Prop :=
  starting w = SReturned false ∧ runner w = RNone ∧ cancelDone (client w) = Some false ∧
  ∃ c, closing w = CWait c ∧ cancelDone c ≠ None.

(** The fields as Start sets them. *)
Definition plumbing (k : client_kind) (closed : bool) : Client := mkClient (is_local k) (is_local k) true (Some closed).

(** How far Start and its goroutine are, together with the fields. *)
Inductive phase (k : client_kind) : start_pc → Client → run_pc → Prop :=
| ph_new : phase k SNew client_zero RNone
| ph_early ok : phase k (SReturned ok) client_zero RNone
| ph_opened : phase k SOpened client_zero RNone
| ph_prepared : phase k SPrepared (plumbing k false) RNone
| ph_running : phase k (SReturned true) (plumbing k false) RRunning
| ph_exited : phase k (SReturned true) (plumbing k true) RExited
| ph_given_up : phase k (SReturned false) (plumbing k false) RNone.

(** What Close read: nothing, or the fields of a client that is set up. *)
Definition seen (k : client_kind) (c now : Client) : Prop :=
  c = client_zero ∨ (∃ b, c = plumbing k b) ∧ ∃ b, now = plumbing k b.

Record life_inv (k : client_kind) (w : World) : Prop := {
  li_phase : phase k (starting w) (client w) (runner w);
  li_given_up : starting w = SReturned false → client w = plumbing k false → is_local k = true ∧ parentDone w = true;
  li_hub : hubOpen w = true → is_local k = true ∧ starting w ≠ SNew;
  li_seen : match closing w with CNone => True | CRead c | CWait c | CDone c => seen k c (client w) end;
  li_cancelled : match closing w with CWait c | CDone c => c ≠ client_zero → runDone w = true | _ => True end;
  li_stopped : match closing w with CDone c => c ≠ client_zero → stopped w | _ => True end
}.

Lemma life_inv_zero k : life_inv k world_zero.
Proof. split; cbn; try done. constructor. Qed.

Lemma seen_zero k c : seen k c client_zero → c = client_zero.
Proof. by intros [->|[_ [b ?]]]. Qed.

(** Whatever Close has read, it read from a client that stays set up. *)
Lemma seen_fresh k c now : seen k c client_zero → seen k c now.
Proof. intros ->%seen_zero. by left. Qed.

Lemma seen_exit k c b b' : seen k c (plumbing k b) → seen k c (plumbing k b').
Proof. intros [->|[? _]]; [by left|right; eauto]. Qed.

(** The clauses about Close after a step of the others. *)
Ltac life_close Hs Hc Hd :=
  match goal with |- match ?cs with _ => _ end => destruct cs end; try done; cbn in *;
  first
    [ by apply seen_fresh
    | by eapply seen_exit
    | let Hz := fresh in intros Hz; exfalso; apply Hz; by apply seen_zero in Hs
    | let Hz := fresh in intros Hz; destruct (Hd Hz) as [? ?]; done
    | let Hz := fresh in intros Hz; by destruct (Hd Hz) as [? ?] ].

(** The clauses about Start and the registry. *)
Ltac life_start Hg Hh :=
  first [done|by constructor|by intros ?|let Ho := fresh in intros Ho; destruct (Hh Ho); by split|by intros _ ?].

Lemma life_inv_step k a w w' : life_inv k w → exec k a w = Some w' → life_inv k w'.
Proof.
  destruct w as [cl pd rd ho rn st cs qd]. intros [Hp Hg Hh Hs Hc Hd]. cbn in Hp, Hg, Hh, Hs, Hc, Hd.
  destruct a as [ok| | | | | | | | |]; cbn [exec starting closing runner parentDone runDone client queued]; intros He.
  - destruct st; try done. inversion Hp; subst. injection He as <-.
    unfold start_open. destruct k as [[]|]; try destruct ok; split; cbn; try (life_start Hg Hh).
    all: life_close Hs Hc Hd.
  - destruct st; try done. inversion Hp; subst. injection He as <-. split; cbn; try (life_start Hg Hh).
    all: life_close Hs Hc Hd.
  - destruct st; try done. destruct (is_local k && negb qd)%bool; [|done]. injection He as <-. split; cbn; done.
  - destruct st; try done. destruct (negb (is_local k) || qd)%bool; [|done].
    inversion Hp; subst. injection He as <-. split; cbn; try (life_start Hg Hh); try done.
    life_close Hs Hc Hd.
  - destruct st; try done. destruct (is_local k && pd)%bool eqn:Hl; [|done]. apply andb_true_iff in Hl as [Hl ->].
    inversion Hp; subst. injection He as <-. split; cbn; try (life_start Hg Hh); try done.
    all: life_close Hs Hc Hd.
  - destruct pd; [done|]. assert (He' : Some (mkWorld cl true rd ho rn st cs qd) = Some w') by (destruct st, cs, rn; exact He).
    injection He' as <-. split; cbn; try done. intros H1 H2. destruct (Hg H1 H2). by split.
  - destruct rn; try (by destruct st, cs). destruct (pd || rd)%bool; [|by destruct st, cs].
    assert (He' : Some (run_exit (mkWorld cl pd rd ho RRunning st cs qd)) = Some w') by (destruct st, cs; exact He).
    inversion Hp; subst. injection He' as <-. split; cbn; try (life_start Hg Hh); try done.
    all: life_close Hs Hc Hd.
  - destruct cs; try (by destruct st). assert (He' : Some (mkWorld cl pd rd ho rn st (CRead cl) qd) = Some w') by (destruct st; exact He).
    injection He' as <-. split; cbn; try done. inversion Hp; subst; first [by left|right; eauto].
  - destruct cs; try (by destruct st). assert (He' : Some (close_cancel c (mkWorld cl pd rd ho rn st (CRead c) qd)) = Some w') by (destruct st; exact He).
    injection He' as <-. split; cbn; try done. intros Hz. destruct Hs as [->|[[b ->] _]]; done.
  - destruct cs; try (by destruct st). destruct (done_closed c _) eqn:Hdc; [|by destruct st].
    assert (He' : Some (close_finish c (mkWorld cl pd rd ho rn st (CWait c) qd)) = Some w') by (destruct st; exact He).
    injection He' as <-. split; cbn; try done; [by destruct (hubReg c)|].
    intros Hz. destruct Hs as [->|[[b ->] [b' ->]]]; [done|]. cbn in Hdc. apply bool_decide_eq_true in Hdc. injection Hdc as ->.
    split; cbn; [by inversion Hp|]. destruct (is_local k) eqn:Hl; [done|]. destruct ho; [|done]. by destruct (Hh eq_refl).
Qed.

Lemma life_reachable_inv k w : reachable k w → life_inv k w.
Proof.
  unfold reachable. revert w. apply rtc_ind_r; [apply life_inv_zero|]. intros w w' _ [a Ha] Hw. by eapply life_inv_step.
Qed.

(** * Close returns *)

(** How many steps of its own the code has left at most. *)
Definition effort (w : World) : nat :=
  match starting w with SOpened => 4 | SPrepared => 2 | _ => 0 end +
  match runner w with RRunning => 1 | _ => 0 end +
  match closing w with CRead _ => 2 | CWait _ => 1 | _ => 0 end.

Lemma effort_step k a w w' : life_inv k w → internal a = true → exec k a w = Some w' → effort w' < effort w.
Proof.
  destruct w as [cl pd rd ho rn st cs qd]. intros Hi Ha He. apply li_phase in Hi. cbn in Hi. unfold effort. cbn.
  destruct a; try done; cbn [exec starting closing runner parentDone runDone client queued] in He; inversion Hi; subst; destruct cs; try done.
  all: repeat match type of He with (if ?b then _ else _) = _ => destruct b; [|done] end; injection He as <-; cbn; lia.
Qed.

(** What Close has read, once it was called. *)
Definition close_read (w : World) : option Client :=
  match closing w with CNone => None | CRead c | CWait c | CDone c => Some c end.

(** C25. Close stops a client that runs. When Start has returned without an
    error and Close, called at any time since the client was set up, has read
    its fields, then however the steps of Close, of the goroutine and of the
    caller interleave, the code has only finitely many steps of its own left,
    and when none of them is left Close has returned, the goroutine is gone
    and the registry that Start opened is closed. *)
Theorem client_close_returns k w c :
  reachable k w → starting w = SReturned true → close_read w = Some c → c ≠ client_zero →
  (∀ a w', internal a = true → exec k a w = Some w' →
     effort w' < effort w ∧ starting w' = SReturned true ∧ close_read w' = Some c) ∧
  (quiescent k w → closing w = CDone c ∧ stopped w).
Proof.
  intros Hi%life_reachable_inv Hst Hcr Hz. split.
  { intros a w' Ha He. split; [by eapply effort_step|]. destruct w as [cl pd rd ho rn st cs qd]. cbn in Hst, Hcr. subst st.
    destruct a, cs, rn; try done; cbn in He; repeat match type of He with (if ?b then _ else _) = _ => destruct b; [|done] end;
      injection He as <-; done. }
  intros Hq. destruct Hi as [Hp Hg Hh Hs Hc Hd]. destruct w as [cl pd rd ho rn st cs qd]. unfold close_read in Hcr. cbn in *. subst st.
  destruct cs as [|c'|c'|c']; [done| | |]; injection Hcr as ->.
  - by specialize (Hq ACloseCancel eq_refl).
  - assert (Hf : done_closed c (mkWorld cl pd rd ho rn (SReturned true) (CWait c) qd) = false).
    { specialize (Hq ACloseFinish eq_refl). cbn [exec starting closing runner] in Hq. by destruct (done_closed c _). }
    destruct Hs as [->|[[b ->] [b' ->]]]; [done|]. cbn in Hf. apply bool_decide_eq_false in Hf.
    assert (Hrd : rd = true) by (by apply Hc). inversion Hp; subst; try done.
    specialize (Hq ARunExit eq_refl). cbn in Hq. by rewrite orb_true_r in Hq.
  - split; [done|]. by apply Hd.
Qed.

(** Once it hangs it hangs: no step of anybody ends the wait. *)
Lemma hung_forever k w w' : hung w → rtc (life_step k) w w' → hung w'.
Proof.
  intros Hh Hr. revert Hh. induction Hr as [w|w w1 w2 [a Ha] _ IH]; [done|]. intros Hh. apply IH. clear IH.
  destruct w as [cl pd rd ho rn st cs qd], Hh as (Hst & Hrn & Hcd & c & Hcs & Hdn). cbn in *. subst.
  destruct a; cbn in Ha; try done.
  - destruct pd; [done|]. injection Ha as <-. repeat split; cbn; eauto.
  - unfold done_closed in Ha. destruct (cancelDone c) eqn:Hcc; [|done]. cbn in Ha. by rewrite Hcd in Ha.
Qed.

(** A sequence of steps. *)
Fixpoint acts (k : client_kind) (l : list action) (w : World) : option World :=
  match l with [] => Some w | a :: l => exec k a w ≫= acts k l end.

Lemma acts_reachable k l w w' : reachable k w → acts k l w = Some w' → reachable k w'.
Proof.
  revert w; induction l as [|a l IH]; intros w Hr Ha; cbn in Ha; [by injection Ha as <-|].
  destruct (exec k a w) as [w1|] eqn:He; [|done]. apply (IH w1); [|done]. eapply rtc_r; [exact Hr|]. by exists a.
Qed.

Lemma acts_world k l w : acts k l world_zero = Some w → reachable k w.
Proof. by apply acts_reachable, rtc_refl. Qed.

(** The proxy binary calls Close when Start fails. If the signal that ends
    the context arrives before the first event, that call never returns. *)
Theorem local_start_cancelled_hangs :
  ∃ w, acts (KLocal true) [AStart true; APrepare; ACancelParent; AGiveUp; ACloseRead; ACloseCancel] world_zero = Some w ∧
    ∀ w', rtc (life_step (KLocal true)) w w' → ∀ c, closing w' ≠ CDone c.
Proof.
  eexists. split; [reflexivity|]. intros w' Hr c Hd.
  apply (hung_forever _ _ w') in Hr; [|repeat split; cbn; eauto].
  destruct Hr as (_ & _ & _ & c' & Hc & _). by rewrite Hd in Hc.
Qed.

(** A Close that overtakes Start finds nothing to stop; what Start leaves
    behind then runs until the caller's context ends, and no later Close
    touches it. *)
Theorem early_close_leaks :
  ∃ w, acts KRemote [AStart true; ACloseRead; ACloseCancel; ACloseFinish; APrepare; ASpawn] world_zero = Some w ∧
    closing w = CDone client_zero ∧ starting w = SReturned true ∧ runner w = RRunning ∧
    ∀ a w', exec KRemote a w = Some w' → a = ACancelParent.
Proof. eexists. split; [reflexivity|]. split_and!; try done. by intros [[]| | | | | | | | |] w'. Qed.

Definition lw_stopped : World :=
  mkWorld (plumbing (KLocal true) true) false true false RExited (SReturned true) (CDone (plumbing (KLocal true) false)) true.

Lemma client_close_returns_witness :
  acts (KLocal true) [AStart true; APrepare; AEvent; ASpawn; ACloseRead; ACloseCancel; ARunExit; ACloseFinish] world_zero
  = Some lw_stopped ∧ closing lw_stopped = CDone (plumbing (KLocal true) false) ∧ stopped lw_stopped.
Proof.
  assert (Ha : acts (KLocal true) [AStart true; APrepare; AEvent; ASpawn; ACloseRead; ACloseCancel; ARunExit; ACloseFinish] world_zero
    = Some lw_stopped) by reflexivity.
  split; [exact Ha|].
  apply (client_close_returns (KLocal true) lw_stopped (plumbing (KLocal true) false) (acts_world _ _ _ Ha) eq_refl eq_refl).
  - discriminate.
  - by intros [].
Defined.
