(* ===== verification/Spawn.v ===== *)
(** The start of a Tor process (spawnInstance and its helpers in
    src/internal/torpool/manager.go): the steps before the process runs, and
    then the race between its output, its death, the bootstrap timer and the
    end of the caller's context. TorPool takes the outcome as an input; here
    it is derived. *)

From S2P Require Import Prelude Http GoStd SSE Shared TorPool.

(** * Before the process runs *)

(** filepath.Join of a clean data directory. *)
Definition instance_dir (dataDir : gostring) (port : Z) : gostring := dataDir ++ $"/tor-" ++ fmt_int port.

Definition torrc_lines : list gostring :=
  [$"Log notice stderr"; $"RunAsDaemon 0"; $"AvoidDiskWrites 1"; $"ExitRelay 0"; $"ExitPolicy reject *:*";
   $"CircuitBuildTimeout 30"; $"LearnCircuitBuildTimeout 1"; $"CircuitStreamTimeout 10"; $"MaxCircuitDirtiness 600";
   $"NewCircuitPeriod 60"; $"SocksTimeout 60"; $"MaxClientCircuitsPending 256"; $"ConnectionPadding auto"].

Definition generateTorrc (instanceDir : gostring) (socksPort : Z) : gostring :=
  (($"SocksPort 127.0.0.1:" ++ fmt_int socksPort) :: ($"DataDirectory " ++ instanceDir) :: torrc_lines) ≫= λ l, l ++ [newline].

Definition default_binary (b : gostring) : gostring := if decide (b = []) then $"tor" else b.
Definition bootstrap_timeout (d : duration) : duration := if decide (d = 0%Z) then (60 * Second)%Z else d.

Inductive spawn_error := EMkdir | ETorrc | EStdout | EStderr | EStart | EBootstrap | EContext.

(** The outcomes of the calls, and what an early return leaves behind. *)
Record SpawnIO := mkSpawnIO { siMkdir : bool; siTorrc : bool; siStdout : bool; siStderr : bool; siStart : bool }.
Record Held := mkHeld { hdStdout : bool; hdStderr : bool; hdContext : bool }.

Definition spawn_begin (io : SpawnIO) : Held * result spawn_error unit :=
  if negb (siMkdir io) then (mkHeld false false false, Err EMkdir)
  else if negb (siTorrc io) then (mkHeld false false false, Err ETorrc)
  else if negb (siStdout io) then (mkHeld false false false, Err EStdout)
  else if negb (siStderr io) then (mkHeld false false false, Err EStderr)
  else if negb (siStart io) then (mkHeld false false false, Err EStart)
  else (mkHeld true true true, Ok ()).

(** * The race *)

Definition maxScanTokenSize : Z := 65536.
Definition bootMark : gostring := $"Bootstrapped 100%".

(** One line of a pipe: whether the scanner goes on, and whether it signals. *)
Definition scan_line (l : gostring) : bool * bool :=
  if Z.leb maxScanTokenSize (Z.of_nat (length l)) then (false, false) else (true, Contains_str l bootMark).

Inductive main_pc := MWait | MLive | MKilled (e : spawn_error) | MReturned (r : result spawn_error unit).

Record Race := mkRace {
  procUp : bool;        (* the process runs *)
  reaped : bool;        (* the goroutine behind Wait is through *)
  alive : bool;         (* inst.Alive *)
  scanning : bool * bool;  (* stdout and stderr are still read *)
  signalled : bool;     (* the channel bootstrapped holds a token *)
  timerFired : bool;
  ctxDone : bool;
  cancelled : bool;     (* cancel and Kill were called *)
  inPool : bool;        (* appended to m.instances *)
  pc : main_pc
}.

Definition race_zero : Race := mkRace true false false (true, true) false false false false false MWait.

Inductive move :=
| VLine (stderr : bool) (l : gostring)   (* a scanner takes a line *)
| VDie                                   (* the process ends, for any reason *)
| VReap                                  (* Wait returns: Alive is cleared, exited closed *)
| VTimer | VContext
| VBoot                                  (* the select takes the token *)
| VTimeout | VCancelled                  (* the select takes timer or context *)
| VAppend                                (* the section under the mutex *)
| VReturn.                               (* the bounded wait for the exit is over *)

Definition read_stream (stderr : bool) (s : Race) : bool := if stderr then (scanning s).2 else (scanning s).1.

Definition set_stream (stderr go : bool) (p : bool * bool) : bool * bool := if stderr then (p.1, go) else (go, p.2).

Definition with_pc (p : main_pc) (al ca ip : bool) (s : Race) : Race :=
  mkRace (procUp s) (reaped s) al (scanning s) (signalled s) (timerFired s) (ctxDone s) ca ip p.

Definition play (v : move) (s : Race) : option Race :=
  match v with
  | VLine e l =>
      if read_stream e s then
        let '(go, sig) := scan_line l in
        Some (mkRace (procUp s) (reaped s) (alive s) (set_stream e go (scanning s)) (sig || signalled s)%bool
                (timerFired s) (ctxDone s) (cancelled s) (inPool s) (pc s))
      else None
  | VDie => if procUp s then Some (mkRace false (reaped s) (alive s) (scanning s) (signalled s) (timerFired s) (ctxDone s) (cancelled s) (inPool s) (pc s)) else None
  | VReap =>
      if (procUp s || reaped s)%bool then None
      else Some (mkRace false true false (scanning s) (signalled s) (timerFired s) (ctxDone s) (cancelled s) (inPool s) (pc s))
  | VTimer => if timerFired s then None else Some (mkRace (procUp s) (reaped s) (alive s) (scanning s) (signalled s) true (ctxDone s) (cancelled s) (inPool s) (pc s))
  | VContext => if ctxDone s then None else Some (mkRace (procUp s) (reaped s) (alive s) (scanning s) (signalled s) (timerFired s) true (cancelled s) (inPool s) (pc s))
  | VBoot => match pc s with MWait => if signalled s then Some (with_pc MLive true (cancelled s) (inPool s) s) else None | _ => None end
  | VTimeout => match pc s with MWait => if timerFired s then Some (with_pc (MKilled EBootstrap) false true (inPool s) s) else None | _ => None end
  | VCancelled => match pc s with MWait => if ctxDone s then Some (with_pc (MKilled EContext) (alive s) true (inPool s) s) else None | _ => None end
  | VAppend => match pc s with MLive => Some (with_pc (MReturned (Ok ())) (alive s) (cancelled s) true s) | _ => None end
  | VReturn => match pc s with MKilled e => Some (with_pc (MReturned (Err e)) (alive s) (cancelled s) (inPool s) s) | _ => None end
  end.

Fixpoint plays (l : list move) (s : Race) : option Race :=
  match l with [] => Some s | v :: l => play v s ≫= plays l end.

(** * What the outcome says *)

(** The line that a history of moves had read when it announced the end of
    the bootstrap. *)
Definition announced (l : list move) : Prop := ∃ e x, VLine e x ∈ l ∧ (Z.of_nat (length x) < maxScanTokenSize)%Z ∧ Contains_str x bootMark = true.

Record race_inv (l : list move) (s : Race) : Prop := {
  ri_signal : signalled s = true → announced l;
  ri_pc : match pc s with
    | MWait => alive s = false ∧ cancelled s = false ∧ inPool s = false
    | MLive => signalled s = true ∧ cancelled s = false ∧ inPool s = false
    | MKilled e | MReturned (Err e) => e ∈ [EBootstrap; EContext] ∧ alive s = false ∧ cancelled s = true ∧ inPool s = false
    | MReturned (Ok _) => signalled s = true ∧ cancelled s = false ∧ inPool s = true
    end;
  ri_alive : pc s = MLive ∨ pc s = MReturned (Ok ()) → alive s = false → reaped s = true;
  ri_reaped : reaped s = true → procUp s = false
}.

Lemma announced_snoc l v : announced l → announced (l ++ [v]).
Proof. intros (e & x & Hin & H). exists e, x. split; [|done]. apply elem_of_app. by left. Qed.

Lemma play_inv l v s s' : race_inv l s → play v s = Some s' → race_inv (l ++ [v]) s'.
Proof.
  destruct s as [up rp al sc sg tf cd ca ip p]. intros [Hs Hp Ha Hr] Hv. cbn in Hs, Hp, Ha, Hr.
  assert (Hs' : sg = true → announced (l ++ [v])) by (intros; by apply announced_snoc, Hs).
  destruct v; cbn in Hv.
  - destruct (read_stream _ _); [|done]. unfold scan_line in Hv. destruct (Z.leb_spec maxScanTokenSize (Z.of_nat (length l0))); injection Hv as <-; split; cbn; try done.
    + intros [Hc|Hc]%orb_true_iff; [|by apply Hs']. exists stderr, l0. split; [apply elem_of_app; right; by left|]. split; [lia|done].
    + destruct p as [| | |[[]|]]; try done; destruct Hp as (Hsg & Hp); by rewrite ?Hsg, ?orb_true_r.
  - destruct up; [|done]. injection Hv as <-. split; cbn; auto.
  - destruct up, rp; try done. injection Hv as <-. split; cbn; auto. destruct p as [| | |[[]|]]; tauto.
  - destruct tf; [done|]. injection Hv as <-. split; cbn; auto.
  - destruct cd; [done|]. injection Hv as <-. split; cbn; auto.
  - destruct p; try done. destruct sg; [|done]. injection Hv as <-. split; cbn; try done; tauto.
  - destruct p; try done. destruct tf; [|done]. injection Hv as <-. split; cbn; try done; [split_and!; [set_solver|tauto..]|by intros []].
  - destruct p; try done. destruct cd; [|done]. injection Hv as <-. split; cbn; try done; [split_and!; [set_solver|tauto..]|by intros []].
  - destruct p; try done. injection Hv as <-. split; cbn; try done; [tauto|]. intros _. apply Ha. by left.
  - destruct p; try done. injection Hv as <-. split; cbn; try done. by intros [].
Qed.

Lemma plays_inv l : ∀ pre s s', race_inv pre s → plays l s = Some s' → race_inv (pre ++ l) s'.
Proof.
  induction l as [|v l IH]; intros pre s s' Hi Hp; cbn in Hp; [injection Hp as <-; by rewrite app_nil_r|].
  destruct (play v s) as [s1|] eqn:Hv; [|done]. rewrite (assoc_L (++) pre [v] l : pre ++ v :: l = _).
  eapply IH; [|exact Hp]. by eapply play_inv.
Qed.

Lemma plays_race_inv l s : plays l race_zero = Some s → race_inv l s.
Proof. apply (plays_inv l [] race_zero). by split; cbn; try done; intros []. Qed.

(** What a start of a Tor process comes to. A start that succeeds has read
    the bootstrap line, has put the instance into the pool, and the instance
    is marked alive unless its process has ended since; a start that fails has
    put nothing there and has sent the process its end. *)
Theorem spawn_outcome l s r :
  plays l race_zero = Some s → pc s = MReturned r →
  match r with
  | Ok _ => announced l ∧ inPool s = true ∧ cancelled s = false ∧ (alive s = false → procUp s = false ∧ reaped s = true)
  | Err e => e ∈ [EBootstrap; EContext] ∧ inPool s = false ∧ cancelled s = true ∧ alive s = false
  end.
Proof.
  intros [Hs Hp Ha Hr]%plays_race_inv Hpc. rewrite Hpc in Hp, Ha. destruct r as [[]|e]; [|tauto].
  destruct Hp as (Hsg & Hc & Hi). split_and!; auto.
Qed.

(** The wait ends: once the timer has fired, each of the function's own moves
    brings the return nearer, and there is one until it has returned. *)
Definition to_go (s : Race) : nat := match pc s with MWait => 2 | MLive | MKilled _ => 1 | MReturned _ => 0 end.

Definition own (v : move) : bool := match v with VBoot | VTimeout | VCancelled | VAppend | VReturn => true | _ => false end.

Theorem spawn_returns s :
  timerFired s = true →
  (∀ v s', play v s = Some s' → to_go s' ≤ to_go s ∧ (own v = true → to_go s' < to_go s)) ∧
  (to_go s = 0 ∨ ∃ v s', own v = true ∧ play v s = Some s').
Proof.
  destruct s as [up rp al sc sg tf cd ca ip p]. cbn. intros ->. split.
  - intros v s' Hv. destruct v; cbn in Hv; try (destruct p; done || (injection Hv as <-; cbn; lia)).
    all: unfold to_go; cbn.
    + destruct (read_stream _ _); [|done]. destruct (scan_line l) as [go sg']. injection Hv as <-. cbn. lia.
    + destruct up; [|done]. injection Hv as <-. cbn. lia.
    + destruct (up || rp)%bool; [done|]. injection Hv as <-. cbn. lia.
    + destruct cd; [done|]. injection Hv as <-. cbn. lia.
    + destruct p; try done. destruct sg; [|done]. injection Hv as <-. cbn. lia.
    + destruct p; try done. destruct cd; [|done]. injection Hv as <-. cbn. lia.
  - destruct p; [right; by eexists VTimeout, _|right; by eexists VAppend, _|right; by eexists VReturn, _|by left].
Qed.

(** A process that dies between its bootstrap line and the return ends up in
    the pool marked alive: Alive is cleared before it is set, and nothing in
    here clears it again. *)
Theorem dead_instance_marked_alive :
  ∃ s, plays [VLine true ($"Bootstrapped 100% (done)"); VDie; VReap; VBoot; VAppend] race_zero = Some s ∧
    inPool s = true ∧ reaped s = true ∧ ∀ l s', plays l s = Some s' → alive s' = true ∧ procUp s' = false.
Proof.
  eexists. split; [reflexivity|]. split; [done|]. split; [done|]. cbn [scanning set_stream].
  assert (Hk : ∀ l s s', reaped s = true → procUp s = false → alive s = true → pc s = MReturned (Ok ()) →
    plays l s = Some s' → alive s' = true ∧ procUp s' = false).
  { clear. induction l as [|v l IH]; intros [up rp al sc sg tf cd ca ip p] s'; cbn; intros -> -> -> -> Hp; [by injection Hp as <-|].
    destruct (play v _) as [s1|] eqn:Hv; [|done]. destruct v; cbn in Hv; try done.
    - destruct (read_stream _ _); [|done]. destruct (scan_line l0). injection Hv as <-. by eapply IH; [..|exact Hp].
    - destruct tf; [done|]. injection Hv as <-. by eapply IH; [..|exact Hp].
    - destruct cd; [done|]. injection Hv as <-. by eapply IH; [..|exact Hp]. }
  intros l s' Hp. by eapply Hk; [..|exact Hp].
Qed.

(** The file the process is started with names the port of its instance, so
    files of different ports differ. *)
Lemma torrc_port dir port dir' port' :
  (0 ≤ port)%Z → (0 ≤ port')%Z → generateTorrc dir port = generateTorrc dir' port' → port = port'.
Proof.
  intros H1 H2 Heq. unfold generateTorrc in Heq. cbn [mbind list_bind] in Heq. rewrite <- !app_assoc in Heq.
  apply app_inv_head in Heq. assert (Hc := f_equal (cut_byte newline) Heq). cbn [app] in Hc.
  rewrite !cut_byte_app in Hc by (by apply fmt_int_no). injection Hc as Hp _.
  pose proof (parse_digits_fmt port H1) as P1. rewrite Hp, (parse_digits_fmt port' H2) in P1. by injection P1.
Qed.
